(** * Wayfire scale plugin ([plugins/single_plugins/scale.cpp])

  A shallow embedding of the [wayfire_scale] plugin: the grid partition
  computed by [layout_slots], the keyboard navigation of [process_key],
  and the session state machine ([activate], [deactivate], [finalize],
  the signal handlers and the per-frame hooks), followed by the
  properties of the plugin that the specification states.

  Conventions.
  - C++ [int] values are [Z]; signed overflow is undefined behaviour in
    the source and does not occur on the sizes handled here.
  - [double] and [float] values are IEEE 754 numbers ([spec_float]) with
    the binary64 respectively binary32 operations of [SpecFloat].
  - a [wayfire_view] is a handle ([nat], ordered like the pointers);
    a nullable view is an [option view].
  - [std::map<wayfire_view, view_scale_data>] is a [gmap]; loops over
    the map visit the keys in increasing order.
  - a member function is a computation in the monad [M]: it reads the
    compositor ([host]), threads the mutable [state], and has no result
    ([None]) where the source has undefined behaviour (a null or
    dangling [transformer] pointer, an index out of range) or where the
    recursion over the view tree does not end. *)

From Stdlib Require Import ZArith Lia Bool.
From Stdlib Require Import Floats.SpecFloat.
From stdpp Require Import base option list sorting gmap.

Open Scope Z_scope.

(** ** Numbers *)

Module Num.

Definition double := spec_float.

(** Conversion of an [int] to [double] / [float]. *)
Definition d_of_Z (z : Z) : double := binary_normalize 53 1024 z 0 false.
Definition f_of_Z (z : Z) : spec_float := binary_normalize 24 128 z 0 false.

Definition dadd : double → double → double := SFadd 53 1024.
Definition dsub : double → double → double := SFsub 53 1024.
Definition dmul : double → double → double := SFmul 53 1024.
Definition ddiv : double → double → double := SFdiv 53 1024.
Definition fmul : spec_float → spec_float → spec_float := SFmul 24 128.
Definition fdiv : spec_float → spec_float → spec_float := SFdiv 24 128.
Definition dlt : double → double → bool := SFltb.

Definition d0 : double := d_of_Z 0.
Definition d1 : double := d_of_Z 1.
Definition d2 : double := d_of_Z 2.
(** The literal [0.5]. *)
Definition d_half : double := binary_normalize 53 1024 1 (-1) false.

(** [std::min(a, b)] is [(b < a) ? b : a]. *)
Definition dmin (a b : double) : double := if dlt b a then b else a.

(** Conversion of a floating-point value to [int]: the fractional part
    is discarded.  (Out of range the conversion is undefined in C++;
    infinities and NaN are mapped to 0 here.) *)
Definition trunc_Z (x : spec_float) : Z :=
  match x with
  | S754_finite s m e =>
      let a := match e with
               | Z0 => Zpos m
               | Zpos p => Zpos m * 2 ^ Zpos p
               | Zneg p => Zpos m / 2 ^ Zpos p
               end in
      if s then - a else a
  | _ => 0
  end.

(** [std::ceil] followed by the conversion to [int]. *)
Definition ceil_Z (x : spec_float) : Z :=
  match x with
  | S754_finite s m (Zneg p) =>
      if s then - (Zpos m / 2 ^ Zpos p) else - ((- Zpos m) / 2 ^ Zpos p)
  | _ => trunc_Z x
  end.

(** [std::clamp(v, lo, hi)]. *)
Definition clamp (v lo hi : Z) : Z :=
  if v <? lo then lo else if hi <? v then hi else v.

(** [a / b] on [int]: the quotient truncated towards zero.  A division
    by zero is undefined: it has no result. *)
Definition idiv (a b : Z) : option Z :=
  if b =? 0 then None else Some (Z.quot a b).

(** [a / 2] on [int]: the divisor is the constant 2. *)
Definition half (a : Z) : Z := Z.quot a 2.

End Num.
Import Num.

(** ** Grid dimensions ([layout_slots], the three assignments to
     [grid_rows], [grid_cols] and [grid_last_row_cols]) *)

Module Grid.

(** [int lines = sqrt(views.size() + 1)].  The square root is taken on
    a [double] and converted to [int]; IEEE 754 square root is
    correctly rounded, so on a count of windows this is the integer
    square root. *)
Definition rows_for (n : Z) : Z := Z.sqrt (n + 1).

(** [(int)std::ceil((double)views.size() / lines)]: the quotient of two
    small integers, rounded up. *)
Definition cols_for (n : Z) : Z :=
  let lines := rows_for n in (n + lines - 1) / lines.

(** [std::min(grid_cols, (int)views.size() - (grid_rows - 1) * grid_cols)] *)
Definition last_row_cols_for (n : Z) : Z :=
  Z.min (cols_for n) (n - (rows_for n - 1) * cols_for n).

(** The same three values computed with the floating-point operations
    the source uses. *)
Definition rows_fp (n : Z) : Z :=
  trunc_Z (SFsqrt 53 1024 (d_of_Z (n + 1))).
Definition cols_fp (n : Z) : Z :=
  ceil_Z (ddiv (d_of_Z n) (d_of_Z (rows_fp n))).

(** Number of columns of row [i]:
    [n = (i == lines - 1) ? grid_last_row_cols : grid_cols]. *)
Definition row_cols (rows cols last i : Z) : Z :=
  if i =? rows - 1 then last else cols.

(** The cells in the order in which the two nested loops of
    [layout_slots] visit them ([for i < lines], [for j < n]); the
    [k]-th cell is the one given to [views[k]] ([slots] counts up by
    one per cell). *)
Fixpoint row_cells (i : Z) (cnt : nat) (j : Z) : list (Z * Z) :=
  match cnt with
  | O => []
  | S cnt' => (i, j) :: row_cells i cnt' (j + 1)
  end.

Fixpoint rows_cells (rows cols last : Z) (cnt : nat) (i : Z) : list (Z * Z) :=
  match cnt with
  | O => []
  | S cnt' =>
      row_cells i (Z.to_nat (row_cols rows cols last i)) 0
        ++ rows_cells rows cols last cnt' (i + 1)
  end.

Definition grid_cells (n : Z) : list (Z * Z) :=
  rows_cells (rows_for n) (cols_for n) (last_row_cols_for n)
    (Z.to_nat (rows_for n)) 0.

(** A cell of the grid: a row below [rows] and a column below the
    column count of that row. *)
Definition valid_cell (rows cols last : Z) (c : Z * Z) : Prop :=
  0 ≤ c.1 < rows ∧ 0 ≤ c.2 < row_cols rows cols last c.1.

End Grid.
Import Grid.

(** ** Navigation arithmetic ([process_key], after the [switch]) *)

Module Nav.

Definition KEY_ESC : Z := 1.
Definition KEY_ENTER : Z := 28.
Definition KEY_UP : Z := 103.
Definition KEY_LEFT : Z := 105.
Definition KEY_RIGHT : Z := 106.
Definition KEY_DOWN : Z := 108.
Definition BTN_LEFT : Z := 272.
Definition BTN_MIDDLE : Z := 274.
Definition WLR_KEY_RELEASED : Z := 0.
Definition WLR_KEY_PRESSED : Z := 1.
Definition WLR_BUTTON_RELEASED : Z := 0.
Definition WLR_BUTTON_PRESSED : Z := 1.

(** [auto p = col / (float)(grid_cols - 1); col = p * (grid_last_row_cols - 1);]
    single-precision arithmetic, then the conversion to [int]. *)
Definition col_into_last_row (cols last col : Z) : Z :=
  let p := fdiv (f_of_Z col) (f_of_Z (cols - 1)) in
  trunc_Z (fmul p (f_of_Z (last - 1))).

(** [auto p = (col + 0.5) / (float)grid_last_row_cols; col = p * grid_cols;]
    [col + 0.5] is a [double], so the whole expression is evaluated in
    double precision. *)
Definition col_out_of_last_row (cols last col : Z) : Z :=
  let p := ddiv (dadd (d_of_Z col) d_half) (d_of_Z last) in
  trunc_Z (dmul p (d_of_Z cols)).

(** The [if ((grid_rows > 1) && (grid_cols > 1) && (grid_last_row_cols > 1))]
    block; [row] and [col] are the values after the [switch]. *)
Definition remap_col (key row col rows cols last : Z) : Z :=
  if (1 <? rows) && (1 <? cols) && (1 <? last) then
    if ((key =? KEY_DOWN) && (row =? rows - 1)) || ((key =? KEY_UP) && (row =? -1))
    then clamp (col_into_last_row cols last col) 0 (last - 1)
    else if ((key =? KEY_UP) && (row =? rows - 2)) || ((key =? KEY_DOWN) && (row =? rows))
    then clamp (col_out_of_last_row cols last col) 0 (cols - 1)
    else col
  else col.

(** [if (row < 0) row = grid_rows - 1;  if (row >= grid_rows) row = 0;] *)
Definition wrap_row (row rows : Z) : Z :=
  let row := if row <? 0 then rows - 1 else row in
  if rows <=? row then 0 else row.

(** [if (col < 0) col = current_row_cols - 1;  if (col >= current_row_cols) col = 0;] *)
Definition wrap_col (col current_row_cols : Z) : Z :=
  let col := if col <? 0 then current_row_cols - 1 else col in
  if current_row_cols <=? col then 0 else col.

(** The [switch] for the four arrow keys. *)
Definition arrow (key row col : Z) : option (Z * Z) :=
  if key =? KEY_UP then Some (row - 1, col)
  else if key =? KEY_DOWN then Some (row + 1, col)
  else if key =? KEY_LEFT then Some (row, col - 1)
  else if key =? KEY_RIGHT then Some (row, col + 1)
  else None.

(** The cell that is looked up with [find_view_in_grid] when an arrow
    key is pressed on the view at [(row, col)]. *)
Definition target_cell (key row col rows cols last : Z) : option (Z * Z) :=
  match arrow key row col with
  | None => None
  | Some (row, col) =>
      let col := remap_col key row col rows cols last in
      let row := wrap_row row rows in
      let current_row_cols := row_cols rows cols last row in
      Some (row, wrap_col col current_row_cols)
  end.

End Nav.
Import Nav.

(** ** Data model *)

Definition view := nat.

Record geometry := mk_geometry { g_x : Z; g_y : Z; g_width : Z; g_height : Z }.
Record point := mk_point { p_x : Z; p_y : Z }.

(** The fields of [wf::view_2D] that the plugin reads and writes. *)
Record wf_scale := mk_wf_scale {
  tr_scale_x : double;
  tr_scale_y : double;
  tr_translation_x : double;
  tr_translation_y : double;
  tr_alpha : double
}.

(** A freshly constructed [wf_scale] is the identity transform. *)
Definition new_wf_scale : wf_scale := mk_wf_scale d1 d1 d0 d0 d1.

(** Modelled from the spec: [wf::animation::duration_t] and
    [timed_transition_t] of [wayfire/util/duration.hpp] (section 4.1 and
    the animation-state invariant of section 3): a transition has a
    start and a target value, a duration has a length and the time at
    which it was started; it is running while the elapsed time is below
    the length, and a finished transition has its target value. *)
Record timed_transition_t := mk_transition { tt_start : double; tt_end : double }.
Record duration_t := mk_duration { dur_length : Z; dur_begin : option Z }.

Definition running (now : Z) (d : duration_t) : bool :=
  match dur_begin d with
  | Some t0 => now - t0 <? dur_length d
  | None => false
  end.

Definition sample (now : Z) (d : duration_t) (t : timed_transition_t) : double :=
  match dur_begin d with
  | Some t0 =>
      if now - t0 <? dur_length d
      then dadd (tt_start t)
             (dmul (dsub (tt_end t) (tt_start t))
                   (ddiv (d_of_Z (now - t0)) (d_of_Z (dur_length d))))
      else tt_end t
  | None => tt_end t
  end.

(** [timed_transition_t::set(start, end)] *)
Definition tt_set (a b : double) : timed_transition_t := mk_transition a b.
(** [duration_t::start()] *)
Definition dur_start (now : Z) (d : duration_t) : duration_t :=
  mk_duration (dur_length d) (Some now).

(** [scale_animation_t]: a duration with four transitions. *)
Record scale_animation_t := mk_scale_animation {
  sa_duration : duration_t;
  scale_x : timed_transition_t;
  scale_y : timed_transition_t;
  translation_x : timed_transition_t;
  translation_y : timed_transition_t
}.

(** [wf::animation::simple_animation_t]: a duration with one transition. *)
Record simple_animation_t := mk_simple_animation {
  fa_duration : duration_t;
  fa_transition : timed_transition_t
}.

(** [simple_animation_t::animate(start, end)] *)
Definition animate (now : Z) (a b : double) (f : simple_animation_t) : simple_animation_t :=
  mk_simple_animation (dur_start now (fa_duration f)) (tt_set a b).

(** [struct view_scale_data].  The [transformer] pointer is either null
    ([false]) or points to the [wf_scale] object that the view owns under
    the name "scale" ([true]). *)
Record view_scale_data := mk_view_scale_data {
  row : Z;
  col : Z;
  transformer : bool;
  fade_animation : simple_animation_t;
  animation : scale_animation_t
}.

Definition set_row (x : Z) (d : view_scale_data) : view_scale_data :=
  mk_view_scale_data x (col d) (transformer d) (fade_animation d) (animation d).
Definition set_col (x : Z) (d : view_scale_data) : view_scale_data :=
  mk_view_scale_data (row d) x (transformer d) (fade_animation d) (animation d).
Definition set_transformer (x : bool) (d : view_scale_data) : view_scale_data :=
  mk_view_scale_data (row d) (col d) x (fade_animation d) (animation d).
Definition set_fade_animation (x : simple_animation_t) (d : view_scale_data) : view_scale_data :=
  mk_view_scale_data (row d) (col d) (transformer d) x (animation d).
Definition set_animation (x : scale_animation_t) (d : view_scale_data) : view_scale_data :=
  mk_view_scale_data (row d) (col d) (transformer d) (fade_animation d) x.

(** The signal connections of the plugin: one flag per
    [wf::signal_connection_t] member; [view_geometry_changed] is connected
    to individual views. *)
Record connections := mk_connections {
  c_view_attached : bool;
  c_view_detached : bool;
  c_workspace_changed : bool;
  c_view_minimized : bool;
  c_view_unmapped : bool;
  c_view_focused : bool;
  c_view_geometry_changed : gset view
}.

Definition no_connections : connections :=
  mk_connections false false false false false false ∅.

(** The compositor as one handler invocation sees it: everything the
    plugin reads and does not change itself. *)
Record host := mk_host {
  (** all views of the compositor, in increasing order of their handles *)
  h_views : list view;
  parent : view → option view;
  children : view → list view;
  (** [view->role == wf::VIEW_ROLE_TOPLEVEL] *)
  toplevel : view → bool;
  is_mapped : view → bool;
  minimized : view → bool;
  (** [view->get_keyboard_focus_surface()] is not null *)
  keyboard_focus_surface : view → bool;
  (** [output->workspace->get_views_in_layer(wf::LAYER_WORKSPACE)] *)
  views_in_layer : list view;
  (** [output->workspace->get_view_layer(view) == wf::LAYER_WORKSPACE] *)
  in_workspace_layer : view → bool;
  wm_geometry : view → geometry;
  output_geometry : view → geometry;
  relative_geometry : geometry;
  layout_geometry : geometry;
  workarea : geometry;
  (** [wf::get_core().get_view_at(cursor position)] *)
  view_at_cursor : option view;
  keyboard_modifiers : Z;
  (** the time of this invocation, in milliseconds *)
  now : Z;
  (** whether [output->activate_plugin] and [grab_interface->grab] succeed *)
  can_activate : bool;
  can_grab : bool;
  (** the options *)
  spacing : Z;
  interact : bool;
  middle_click_close : bool;
  inactive_alpha : double;
  allow_scale_zoom : bool;
  duration : Z
}.

(** The members of [wayfire_scale], the state of its grab interface
    ([capabilities], [grabbed]) and what the plugin changes in the output
    ([plugin_active], the focused view, the workspace, and the "scale"
    transformer of each view). *)
Record state := mk_state {
  grid_cols : Z;
  grid_rows : Z;
  grid_last_row_cols : Z;
  initial_workspace : point;
  input_release_impending : bool;
  active : bool;
  hook_set : bool;
  button_connected : bool;
  initial_focus_view : option view;
  current_focus_view : option view;
  scale_data : gmap view view_scale_data;
  all_workspaces : bool;
  signals : connections;
  capabilities : Z;
  grabbed : bool;
  plugin_active : bool;
  active_view : option view;
  current_workspace : point;
  transformers : gmap view wf_scale
}.

Definition set_grid_cols (x : Z) (s : state) : state :=
  mk_state x (grid_rows s) (grid_last_row_cols s) (initial_workspace s) (input_release_impending s) (active s) (hook_set s) (button_connected s) (initial_focus_view s) (current_focus_view s) (scale_data s) (all_workspaces s) (signals s) (capabilities s) (grabbed s) (plugin_active s) (active_view s) (current_workspace s) (transformers s).
Definition set_grid_rows (x : Z) (s : state) : state :=
  mk_state (grid_cols s) x (grid_last_row_cols s) (initial_workspace s) (input_release_impending s) (active s) (hook_set s) (button_connected s) (initial_focus_view s) (current_focus_view s) (scale_data s) (all_workspaces s) (signals s) (capabilities s) (grabbed s) (plugin_active s) (active_view s) (current_workspace s) (transformers s).
Definition set_grid_last_row_cols (x : Z) (s : state) : state :=
  mk_state (grid_cols s) (grid_rows s) x (initial_workspace s) (input_release_impending s) (active s) (hook_set s) (button_connected s) (initial_focus_view s) (current_focus_view s) (scale_data s) (all_workspaces s) (signals s) (capabilities s) (grabbed s) (plugin_active s) (active_view s) (current_workspace s) (transformers s).
Definition set_initial_workspace (x : point) (s : state) : state :=
  mk_state (grid_cols s) (grid_rows s) (grid_last_row_cols s) x (input_release_impending s) (active s) (hook_set s) (button_connected s) (initial_focus_view s) (current_focus_view s) (scale_data s) (all_workspaces s) (signals s) (capabilities s) (grabbed s) (plugin_active s) (active_view s) (current_workspace s) (transformers s).
Definition set_input_release_impending (x : bool) (s : state) : state :=
  mk_state (grid_cols s) (grid_rows s) (grid_last_row_cols s) (initial_workspace s) x (active s) (hook_set s) (button_connected s) (initial_focus_view s) (current_focus_view s) (scale_data s) (all_workspaces s) (signals s) (capabilities s) (grabbed s) (plugin_active s) (active_view s) (current_workspace s) (transformers s).
Definition set_active (x : bool) (s : state) : state :=
  mk_state (grid_cols s) (grid_rows s) (grid_last_row_cols s) (initial_workspace s) (input_release_impending s) x (hook_set s) (button_connected s) (initial_focus_view s) (current_focus_view s) (scale_data s) (all_workspaces s) (signals s) (capabilities s) (grabbed s) (plugin_active s) (active_view s) (current_workspace s) (transformers s).
Definition set_hook_set (x : bool) (s : state) : state :=
  mk_state (grid_cols s) (grid_rows s) (grid_last_row_cols s) (initial_workspace s) (input_release_impending s) (active s) x (button_connected s) (initial_focus_view s) (current_focus_view s) (scale_data s) (all_workspaces s) (signals s) (capabilities s) (grabbed s) (plugin_active s) (active_view s) (current_workspace s) (transformers s).
Definition set_button_connected (x : bool) (s : state) : state :=
  mk_state (grid_cols s) (grid_rows s) (grid_last_row_cols s) (initial_workspace s) (input_release_impending s) (active s) (hook_set s) x (initial_focus_view s) (current_focus_view s) (scale_data s) (all_workspaces s) (signals s) (capabilities s) (grabbed s) (plugin_active s) (active_view s) (current_workspace s) (transformers s).
Definition set_initial_focus_view (x : option view) (s : state) : state :=
  mk_state (grid_cols s) (grid_rows s) (grid_last_row_cols s) (initial_workspace s) (input_release_impending s) (active s) (hook_set s) (button_connected s) x (current_focus_view s) (scale_data s) (all_workspaces s) (signals s) (capabilities s) (grabbed s) (plugin_active s) (active_view s) (current_workspace s) (transformers s).
Definition set_current_focus_view (x : option view) (s : state) : state :=
  mk_state (grid_cols s) (grid_rows s) (grid_last_row_cols s) (initial_workspace s) (input_release_impending s) (active s) (hook_set s) (button_connected s) (initial_focus_view s) x (scale_data s) (all_workspaces s) (signals s) (capabilities s) (grabbed s) (plugin_active s) (active_view s) (current_workspace s) (transformers s).
Definition set_scale_data (x : gmap view view_scale_data) (s : state) : state :=
  mk_state (grid_cols s) (grid_rows s) (grid_last_row_cols s) (initial_workspace s) (input_release_impending s) (active s) (hook_set s) (button_connected s) (initial_focus_view s) (current_focus_view s) x (all_workspaces s) (signals s) (capabilities s) (grabbed s) (plugin_active s) (active_view s) (current_workspace s) (transformers s).
Definition set_all_workspaces (x : bool) (s : state) : state :=
  mk_state (grid_cols s) (grid_rows s) (grid_last_row_cols s) (initial_workspace s) (input_release_impending s) (active s) (hook_set s) (button_connected s) (initial_focus_view s) (current_focus_view s) (scale_data s) x (signals s) (capabilities s) (grabbed s) (plugin_active s) (active_view s) (current_workspace s) (transformers s).
Definition set_signals (x : connections) (s : state) : state :=
  mk_state (grid_cols s) (grid_rows s) (grid_last_row_cols s) (initial_workspace s) (input_release_impending s) (active s) (hook_set s) (button_connected s) (initial_focus_view s) (current_focus_view s) (scale_data s) (all_workspaces s) x (capabilities s) (grabbed s) (plugin_active s) (active_view s) (current_workspace s) (transformers s).
Definition set_capabilities (x : Z) (s : state) : state :=
  mk_state (grid_cols s) (grid_rows s) (grid_last_row_cols s) (initial_workspace s) (input_release_impending s) (active s) (hook_set s) (button_connected s) (initial_focus_view s) (current_focus_view s) (scale_data s) (all_workspaces s) (signals s) x (grabbed s) (plugin_active s) (active_view s) (current_workspace s) (transformers s).
Definition set_grabbed (x : bool) (s : state) : state :=
  mk_state (grid_cols s) (grid_rows s) (grid_last_row_cols s) (initial_workspace s) (input_release_impending s) (active s) (hook_set s) (button_connected s) (initial_focus_view s) (current_focus_view s) (scale_data s) (all_workspaces s) (signals s) (capabilities s) x (plugin_active s) (active_view s) (current_workspace s) (transformers s).
Definition set_plugin_active (x : bool) (s : state) : state :=
  mk_state (grid_cols s) (grid_rows s) (grid_last_row_cols s) (initial_workspace s) (input_release_impending s) (active s) (hook_set s) (button_connected s) (initial_focus_view s) (current_focus_view s) (scale_data s) (all_workspaces s) (signals s) (capabilities s) (grabbed s) x (active_view s) (current_workspace s) (transformers s).
Definition set_active_view (x : option view) (s : state) : state :=
  mk_state (grid_cols s) (grid_rows s) (grid_last_row_cols s) (initial_workspace s) (input_release_impending s) (active s) (hook_set s) (button_connected s) (initial_focus_view s) (current_focus_view s) (scale_data s) (all_workspaces s) (signals s) (capabilities s) (grabbed s) (plugin_active s) x (current_workspace s) (transformers s).
Definition set_current_workspace (x : point) (s : state) : state :=
  mk_state (grid_cols s) (grid_rows s) (grid_last_row_cols s) (initial_workspace s) (input_release_impending s) (active s) (hook_set s) (button_connected s) (initial_focus_view s) (current_focus_view s) (scale_data s) (all_workspaces s) (signals s) (capabilities s) (grabbed s) (plugin_active s) (active_view s) x (transformers s).
Definition set_transformers (x : gmap view wf_scale) (s : state) : state :=
  mk_state (grid_cols s) (grid_rows s) (grid_last_row_cols s) (initial_workspace s) (input_release_impending s) (active s) (hook_set s) (button_connected s) (initial_focus_view s) (current_focus_view s) (scale_data s) (all_workspaces s) (signals s) (capabilities s) (grabbed s) (plugin_active s) (active_view s) (current_workspace s) x.

(** ** The monad of member functions *)

Definition M (A : Type) : Type := host → state → option (A * state).

Definition ret {A} (a : A) : M A := λ _ s, Some (a, s).
Definition bind {A B} (m : M A) (k : A → M B) : M B :=
  λ h s, match m h s with
         | Some (a, s') => k a h s'
         | None => None
         end.
(** Undefined behaviour, or recursion that does not end. *)
Definition fail {A} : M A := λ _ _, None.

(** A partial operation inside a computation: no value, no result. *)
Definition defined {A} (o : option A) : M A :=
  match o with
  | Some a => ret a
  | None => fail
  end.

Definition get : M state := λ _ s, Some (s, s).
Definition ask : M host := λ h s, Some (h, s).
Definition modify (f : state → state) : M unit := λ _ s, Some (tt, f s).

Notation "'let*' x ':=' m 'in' k" := (bind m (λ x, k))
  (at level 10, x name, m at level 200, k at level 200, only parsing).
Notation "'let*' ' p ':=' m 'in' k" := (bind m (λ x, match x with p => k end))
  (at level 10, p pattern, m at level 200, k at level 200, only parsing).

Definition when (b : bool) (m : M unit) : M unit := if b then m else ret tt.

(** [for (auto& x : l)] over a vector. *)
Fixpoint for_list {A} (l : list A) (body : A → M unit) : M unit :=
  match l with
  | [] => ret tt
  | x :: l' => let* _ := body x in for_list l' body
  end.

(** The order in which a loop over [scale_data] can reach keys: the keys
    present when the loop starts and the views of the compositor (the
    only keys a loop body can insert), increasing. *)
Definition key_order (h : host) (s : state) : list view :=
  merge_sort Nat.le (elements (dom (scale_data s) ∪ list_to_set (h_views h))).

(** [for (auto& e : scale_data)] with a loop-carried value; the body
    returns [true] to leave the loop.  A key is visited if it is in the
    map when the iteration reaches it. *)
Fixpoint for_keys {A} (ks : list view) (body : view → A → M (bool * A)) (a : A) : M A :=
  match ks with
  | [] => ret a
  | k :: ks' =>
      let* s := get in
      if bool_decide (k ∈ dom (scale_data s)) then
        let* '(stop, a') := body k a in
        if stop then ret a' else for_keys ks' body a'
      else for_keys ks' body a
  end.

Definition for_scale_data {A} (body : view → A → M (bool * A)) (a : A) : M A :=
  let* h := ask in let* s := get in for_keys (key_order h s) body a.

Definition for_scale_data_ (body : view → M unit) : M unit :=
  for_scale_data (λ k _, let* _ := body k in ret (false, tt)) tt.

(** How deep the recursion over the view tree may go: a tree without
    cycles is not deeper than the number of views. *)
Definition tree_fuel (h : host) : nat := S (S (length (h_views h))).

(** ** Accessors of [scale_data] and of the transformers *)

(** A value-initialised [view_scale_data]: what [scale_data[view]]
    inserts for a key that is not in the map. *)
Definition default_view_scale_data (h : host) : view_scale_data :=
  mk_view_scale_data 0 0 false
    (mk_simple_animation (mk_duration 0 None) (tt_set d0 d0))
    (mk_scale_animation (mk_duration (duration h) None)
       (tt_set d0 d0) (tt_set d0 d0) (tt_set d0 d0) (tt_set d0 d0)).

(** [scale_data[view]]: inserts a value-initialised element if there is
    none, and gives the element. *)
Definition index (v : view) : M view_scale_data :=
  let* h := ask in let* s := get in
  match scale_data s !! v with
  | Some d => ret d
  | None =>
      let* _ := modify (set_scale_data (<[v := default_view_scale_data h]> (scale_data s))) in
      ret (default_view_scale_data h)
  end.

(** Assignment through a reference to the element of [v]. *)
Definition update (v : view) (f : view_scale_data → view_scale_data) : M unit :=
  let* s := get in
  match scale_data s !! v with
  | Some d => modify (set_scale_data (<[v := f d]> (scale_data s)))
  | None => fail
  end.

(** [view_data.transformer->...] for the element of [v]: undefined when
    the pointer is null or the object is gone. *)
Definition deref (v : view) : M wf_scale :=
  let* s := get in
  match scale_data s !! v with
  | Some d =>
      if transformer d then
        match transformers s !! v with
        | Some t => ret t
        | None => fail
        end
      else fail
  | None => fail
  end.

(** Assignment to fields of the transformer object of [v]. *)
Definition store (v : view) (f : wf_scale → wf_scale) : M unit :=
  let* t := deref v in
  let* s := get in
  modify (set_transformers (<[v := f t]> (transformers s))).

(** ** The output and the grab interface *)

(** Modelled from the spec: [output->focus_view(view, true)] of the
    compositor (6, [focus(window)]): the view becomes the active view.
    The signals that the compositor emits in response reach the plugin
    as events of their own. *)
Definition focus_view (ov : option view) : M unit := modify (set_active_view ov).

(** Modelled from the spec: [output->workspace->request_workspace(ws)]
    (6, [request_workspace(coord)]). *)
Definition request_workspace (ws : point) : M unit := modify (set_current_workspace ws).

(** Modelled from the spec: [output->activate_plugin(grab_interface)];
    the host may refuse. *)
Definition activate_plugin : M bool :=
  let* h := ask in
  if can_activate h then let* _ := modify (set_plugin_active true) in ret true
  else ret false.

Definition deactivate_plugin : M unit := modify (set_plugin_active false).

(** Modelled from the spec: [grab_interface->grab()]; the host may
    refuse the grab. *)
Definition grab : M bool :=
  let* h := ask in
  if can_grab h then let* _ := modify (set_grabbed true) in ret true
  else ret false.

Definition ungrab : M unit := modify (set_grabbed false).

Definition CAPABILITY_GRAB_INPUT : Z := 1.

(** [signal_connection_t::disconnect()] and [connect_signal]. *)
Definition set_c_view_attached (b : bool) (c : connections) : connections :=
  mk_connections b (c_view_detached c) (c_workspace_changed c) (c_view_minimized c)
    (c_view_unmapped c) (c_view_focused c) (c_view_geometry_changed c).
Definition set_c_view_detached (b : bool) (c : connections) : connections :=
  mk_connections (c_view_attached c) b (c_workspace_changed c) (c_view_minimized c)
    (c_view_unmapped c) (c_view_focused c) (c_view_geometry_changed c).
Definition set_c_workspace_changed (b : bool) (c : connections) : connections :=
  mk_connections (c_view_attached c) (c_view_detached c) b (c_view_minimized c)
    (c_view_unmapped c) (c_view_focused c) (c_view_geometry_changed c).
Definition set_c_view_minimized (b : bool) (c : connections) : connections :=
  mk_connections (c_view_attached c) (c_view_detached c) (c_workspace_changed c) b
    (c_view_unmapped c) (c_view_focused c) (c_view_geometry_changed c).
Definition set_c_view_unmapped (b : bool) (c : connections) : connections :=
  mk_connections (c_view_attached c) (c_view_detached c) (c_workspace_changed c)
    (c_view_minimized c) b (c_view_focused c) (c_view_geometry_changed c).
Definition set_c_view_focused (b : bool) (c : connections) : connections :=
  mk_connections (c_view_attached c) (c_view_detached c) (c_workspace_changed c)
    (c_view_minimized c) (c_view_unmapped c) b (c_view_geometry_changed c).
Definition set_c_view_geometry_changed (g : gset view) (c : connections) : connections :=
  mk_connections (c_view_attached c) (c_view_detached c) (c_workspace_changed c)
    (c_view_minimized c) (c_view_unmapped c) (c_view_focused c) g.

Definition connect (f : connections → connections) : M unit :=
  modify (λ s, set_signals (f (signals s)) s).

(** ** Member functions of [wayfire_scale] *)

(** [set_hook] and [unset_hook]: the pre and post effect hooks are
    registered in the output exactly when [hook_set] holds. *)
Definition set_hook : M unit :=
  let* s := get in if hook_set s then ret tt else modify (set_hook_set true).

Definition unset_hook : M unit :=
  let* s := get in if negb (hook_set s) then ret tt else modify (set_hook_set false).

(** [add_transformer] *)
Definition add_transformer (ov : option view) : M bool :=
  match ov with
  | None => ret false
  | Some v =>
      let* s := get in
      if bool_decide (is_Some (transformers s !! v)) then ret false
      else
        let* _ := index v in
        let* _ := update v (set_transformer true) in
        let* s := get in
        let* _ := modify (set_transformers (<[v := new_wf_scale]> (transformers s))) in
        let* _ := connect (λ c, set_c_view_geometry_changed ({[ v ]} ∪ c_view_geometry_changed c) c) in
        ret true
  end.

(** [pop_transformer] *)
Definition pop_transformer (ov : option view) : M unit :=
  match ov with
  | None => ret tt
  | Some v => let* s := get in modify (set_transformers (delete v (transformers s)))
  end.

(** Modelled from the spec: [view->enumerate_views(false)] of the
    compositor: the view and the views below it in its tree (6,
    [get_children]). *)
Fixpoint enumerate_views (fuel : nat) (h : host) (v : view) : list view :=
  match fuel with
  | O => [v]
  | S fuel' => flat_map (enumerate_views fuel' h) (children h v) ++ [v]
  end.

(** [remove_transformers] *)
Definition remove_transformers : M unit :=
  for_scale_data_ (λ v,
    let* h := ask in
    for_list (enumerate_views (tree_fuel h) h v) (λ toplevel, pop_transformer (Some toplevel))).

(** [connect_button_signal], [disconnect_button_signal] *)
Definition connect_button_signal : M unit :=
  let* s := get in if button_connected s then ret tt else modify (set_button_connected true).

Definition disconnect_button_signal : M unit :=
  let* s := get in if negb (button_connected s) then ret tt else modify (set_button_connected false).

(** [get_all_workspace_views] *)
Definition get_all_workspace_views (h : host) : list view :=
  filter (λ v, toplevel h v && is_mapped h v = true) (views_in_layer h).

(** [wf::region_t{og}.contains_point(center)] *)
Definition contains_point (og : geometry) (c : point) : bool :=
  (g_x og <=? p_x c) && (p_x c <? g_x og + g_width og) &&
  (g_y og <=? p_y c) && (p_y c <? g_y og + g_height og).

Definition center (vg : geometry) : point :=
  mk_point (g_x vg + half (g_width vg)) (g_y vg + half (g_height vg)).

(** [get_current_workspace_views] *)
Definition get_current_workspace_views (h : host) : list view :=
  filter (λ v, toplevel h v && is_mapped h v
               && contains_point (relative_geometry h) (center (wm_geometry h v)) = true)
         (views_in_layer h).

(** [get_views] *)
Definition get_views : M (list view) :=
  let* h := ask in let* s := get in
  ret (if all_workspaces s then get_all_workspace_views h
       else get_current_workspace_views h).

(** [scale_view] *)
Definition scale_view (ov : option view) : M bool :=
  match ov with
  | None => ret false
  | Some v => let* views := get_views in ret (bool_decide (v ∈ views))
  end.

(** [all_same_as_current_workspace_views] *)
Definition all_same_as_current_workspace_views : M bool :=
  let* h := ask in
  ret (bool_decide (length (get_all_workspace_views h)
                    = length (get_current_workspace_views h))).

(** [fade_in]: recursion into the first child. *)
Fixpoint fade_in (fuel : nat) (ov : option view) : M unit :=
  match ov with
  | None => ret tt
  | Some v =>
      let* d := index v in
      if negb (transformer d) then ret tt
      else
        let* _ := set_hook in
        let* t := deref v in
        let* h := ask in
        let* _ := update v (λ d, set_fade_animation
                         (animate (now h) (tr_alpha t) d1 (fade_animation d)) d) in
        match children h v with
        | [] => ret tt
        | c :: _ =>
            match fuel with
            | O => fail
            | S fuel' => fade_in fuel' (Some c)
            end
        end
  end.

(** [fade_out]: recursion into every child. *)
Fixpoint fade_out (fuel : nat) (ov : option view) : M unit :=
  match ov with
  | None => ret tt
  | Some v =>
      let* d := index v in
      if negb (transformer d) then ret tt
      else
        let* _ := set_hook in
        let* t := deref v in
        let* h := ask in
        let* _ := update v (λ d, set_fade_animation
                         (animate (now h) (tr_alpha t) (inactive_alpha h) (fade_animation d)) d) in
        match fuel with
        | O => match children h v with [] => ret tt | _ :: _ => fail end
        | S fuel' => for_list (children h v) (λ c, fade_out fuel' (Some c))
        end
  end.

(** [fade_out_all_except] *)
Definition fade_out_all_except (ov : option view) : M unit :=
  for_scale_data_ (λ v,
    let* h := ask in let* s := get in
    let tr := match scale_data s !! v with Some d => transformer d | None => false end in
    if negb tr
       || bool_decide (Some v = ov)
       || match ov with Some w => bool_decide (parent h w = Some v) | None => false end
       || bool_decide (parent h v = ov)
    then ret tt
    else fade_out (tree_fuel h) (Some v)).

(** The loop [while (view->parent) view = view->parent;]. *)
Fixpoint root_view (fuel : nat) (h : host) (v : view) : option view :=
  match parent h v with
  | None => Some v
  | Some p =>
      match fuel with
      | O => None
      | S fuel' => root_view fuel' h p
      end
  end.

(** [get_view_main_workspace] *)
Definition get_view_main_workspace (v : view) : M point :=
  let* h := ask in
  let* s := get in
  match root_view (tree_fuel h) h v with
  | None => fail
  | Some v =>
      let ws := current_workspace s in
      let og := layout_geometry h in
      let c := center (output_geometry h v) in
      let* qx := defined (idiv (p_x c - p_x ws * g_width og) (g_width og)) in
      let* qy := defined (idiv (p_y c - p_y ws * g_height og) (g_height og)) in
      ret (mk_point (p_x ws + qx) (p_y ws + qy))
  end.

(** [select_view] *)
Definition select_view (ov : option view) : M unit :=
  match ov with
  | None => ret tt
  | Some v => let* ws := get_view_main_workspace v in request_workspace ws
  end.

(** The assignments of [setup_view_transform] to the element
    [view_data]: the four transitions start from the values of the
    transformer [t], the duration is restarted, and the fade animation
    is replaced by a new one of 1000 ms from the alpha of [t]. *)
Definition setup_record (now : Z) (t : wf_scale)
    (sx sy tx ty target_alpha : double) (d : view_scale_data) : view_scale_data :=
  set_fade_animation
    (animate now (tr_alpha t) target_alpha
       (mk_simple_animation (mk_duration 1000 None) (tt_set d0 d0)))
    (set_animation
       (mk_scale_animation
          (dur_start now (sa_duration (animation d)))
          (tt_set (tr_scale_x t) sx)
          (tt_set (tr_scale_y t) sy)
          (tt_set (tr_translation_x t) tx)
          (tt_set (tr_translation_y t) ty))
       d).

(** [setup_view_transform]; [view_data] is the element of [v]. *)
Definition setup_view_transform (v : view)
    (sx sy tx ty target_alpha : double) : M unit :=
  let* t := deref v in
  let* h := ask in
  update v (setup_record (now h) t sx sy tx ty target_alpha).

(** [refocus] *)
Definition refocus : M unit :=
  let* s := get in
  match initial_focus_view s with
  | None => ret tt
  | Some _ =>
      match current_focus_view s with
      | Some c =>
          let* _ := focus_view (Some c) in
          select_view (Some c)
      | None =>
          let* h := ask in
          let next_focus :=
            head (filter (λ v, is_mapped h v && keyboard_focus_surface h v = true)
                         (get_current_workspace_views h)) in
          focus_view next_focus
      end
  end.

(** The six [disconnect()] calls of [deactivate]. *)
Definition disconnect_on_deactivate (c : connections) : connections :=
  mk_connections false (c_view_detached c) false false false false ∅.

(** [deactivate] *)
Definition deactivate : M unit :=
  let* _ := modify (set_active false) in
  let* _ := set_hook in
  let* _ := connect disconnect_on_deactivate in
  let* s := get in
  let* _ := (if negb (input_release_impending s)
             then let* _ := ungrab in deactivate_plugin
             else ret tt) in
  let* _ := for_scale_data_ (λ v,
              let* h := ask in
              let* _ := fade_in (tree_fuel h) (Some v) in
              setup_view_transform v d1 d1 d0 d0 d1) in
  let* _ := refocus in
  modify (set_capabilities 0).

(** [finalize] *)
Definition finalize : M unit :=
  let* _ := modify (set_active false) in
  let* _ := modify (set_input_release_impending false) in
  let* _ := unset_hook in
  let* _ := remove_transformers in
  let* _ := modify (set_scale_data ∅) in
  let* _ := ungrab in
  let* _ := disconnect_button_signal in
  let* _ := connect (λ _, no_connections) in
  deactivate_plugin.

(** [animation_running] *)
Definition record_running (h : host) (d : view_scale_data) : bool :=
  running (now h) (fa_duration (fade_animation d))
  || running (now h) (sa_duration (animation d)).

Fixpoint children_running (cs : list view) : M bool :=
  match cs with
  | [] => ret false
  | c :: cs' =>
      let* h := ask in
      let* d := index c in
      if record_running h d then ret true else children_running cs'
  end.

Definition animation_running : M bool :=
  for_scale_data (λ v _,
    let* h := ask in
    let* s := get in
    match scale_data s !! v with
    | None => fail
    | Some d =>
        if record_running h d then ret (true, true)
        else
          let* r := children_running (children h v) in
          ret (r, r)
    end) false.

(** [finish_input] *)
Definition finish_input : M unit :=
  let* _ := modify (set_input_release_impending false) in
  let* _ := ungrab in
  let* r := animation_running in
  if negb r then finalize else ret tt.

(** [check_focus_view] *)
Definition check_focus_view (ov : option view) : M unit :=
  let* s := get in
  let* _ := (if bool_decide (ov = current_focus_view s)
             then modify (set_current_focus_view (active_view s))
             else ret tt) in
  let* s := get in
  if bool_decide (ov = initial_focus_view s)
  then modify (set_initial_focus_view None)
  else ret tt.

(** [scale_data.erase(view)] *)
Definition erase (v : view) : M unit :=
  let* s := get in modify (set_scale_data (delete v (scale_data s))).

(** [remove_view] *)
Definition remove_view (ov : option view) : M unit :=
  match ov with
  | None => ret tt
  | Some v =>
      let* _ := check_focus_view (Some v) in
      let* _ := pop_transformer (Some v) in
      let* _ := erase v in
      let* h := ask in
      for_list (children h v) (λ child,
        let* _ := check_focus_view (Some child) in
        let* _ := pop_transformer (Some child) in
        erase child)
  end.

(** [transform_views] *)
Definition apply_animation (h : host) (d : view_scale_data) (t : wf_scale) : wf_scale :=
  let a := animation d in
  mk_wf_scale
    (sample (now h) (sa_duration a) (scale_x a))
    (sample (now h) (sa_duration a) (scale_y a))
    (sample (now h) (sa_duration a) (translation_x a))
    (sample (now h) (sa_duration a) (translation_y a))
    (sample (now h) (fa_duration (fade_animation d)) (fa_transition (fade_animation d))).

Definition transform_views : M unit :=
  for_scale_data_ (λ v,
    let* h := ask in
    let* s := get in
    match scale_data s !! v with
    | None => fail
    | Some d =>
        if negb (transformer d)
           || (negb (in_workspace_layer h v) && negb (toplevel h v))
        then ret tt
        else
          let* _ := store v (apply_animation h d) in
          for_list (children h v) (λ child,
            let* s := get in
            match scale_data s !! child with
            | None => ret tt
            | Some cd =>
                if negb (transformer cd) then ret tt
                else store child (apply_animation h cd)
            end)
    end).

(** [find_view_in_grid] *)
Fixpoint find_in (views : list view) (r c : Z) : M (option view) :=
  match views with
  | [] => ret None
  | v :: views' =>
      let* d := index v in
      if (row d =? r) && (col d =? c) then ret (Some v) else find_in views' r c
  end.

Definition find_view_in_grid (r c : Z) : M view :=
  let* views := get_views in
  let* found := find_in views r c in
  match found with
  | Some v => ret v
  | None =>
      let* views := get_views in
      match views with
      | v :: _ => ret v
      | [] => fail
      end
  end.

(** ** [layout_slots] *)

(** The cell of the grid that a view is fitted into: position and size
    are the [double] variables [x], [y], [width] and [height]. *)
Record cell := mk_cell { c_x : double; c_y : double; c_width : double; c_height : double }.

(** [scale_x = scale_y = std::min(width / vg.width, height / vg.height)],
    capped by [max_scale_factor] unless zooming is allowed. *)
Definition max_scale_factor : double := d1.
Definition max_scale_child : double := d1.

Definition view_scale (h : host) (c : cell) (vg : geometry) : double :=
  let sx := ddiv (c_width c) (d_of_Z (g_width vg)) in
  let sy := ddiv (c_height c) (d_of_Z (g_height vg)) in
  let s := dmin sx sy in
  if negb (allow_scale_zoom h) then dmin s max_scale_factor else s.

(** [int translation_x = x - vg.x + ((width - vg.width) / 2.0)] and the
    same for [y]. *)
Definition view_translation_x (c : cell) (vg : geometry) : Z :=
  trunc_Z (dadd (dsub (c_x c) (d_of_Z (g_x vg)))
                (ddiv (dsub (c_width c) (d_of_Z (g_width vg))) d2)).
Definition view_translation_y (c : cell) (vg : geometry) : Z :=
  trunc_Z (dadd (dsub (c_y c) (d_of_Z (g_y vg)))
                (ddiv (dsub (c_height c) (d_of_Z (g_height vg))) d2)).

(** The body of [for (auto& child : view->children)].  The scale given
    to the child is the one of its parent ([child_scale_x] and
    [child_scale_y] are computed in the source and not used). *)
Definition layout_child (v : view) (i j : Z) (c : cell) (scale : double)
    (target_alpha : double) (child : view) : M unit :=
  let* h := ask in
  let* s := get in
  let vg := wm_geometry h child in
  let* _ := deref v in
  let* new_child := add_transformer (Some child) in
  let* _ := index child in
  let* _ := (if new_child
             then
               let* t := deref v in
               store child (λ ct,
                 mk_wf_scale (tr_scale_x ct) (tr_scale_y ct)
                   (tr_translation_x t) (tr_translation_y t) (tr_alpha ct))
             else ret tt) in
  let tx := view_translation_x c vg in
  let ty := view_translation_y c vg in
  let* _ := (if active s
             then setup_view_transform child scale scale (d_of_Z tx) (d_of_Z ty) target_alpha
             else setup_view_transform child d1 d1 d0 d0 d1) in
  let* _ := update child (set_row i) in
  update child (set_col j).

(** The body of the inner loop for [view = views[slots]]. *)
Definition layout_view (active_view : view) (i j : Z) (c : cell) (v : view) : M unit :=
  let* h := ask in
  let* s := get in
  let* _ := add_transformer (Some v) in
  let* _ := index v in
  let vg := wm_geometry h v in
  let scale := view_scale h c vg in
  let tx := view_translation_x c vg in
  let ty := view_translation_y c vg in
  let target_alpha :=
    if active s then (if bool_decide (v = active_view) then d1 else inactive_alpha h)
    else d1 in
  let* _ := (if active s
             then setup_view_transform v scale scale (d_of_Z tx) (d_of_Z ty) target_alpha
             else setup_view_transform v d1 d1 d0 d0 d1) in
  let* _ := update v (set_row i) in
  let* _ := update v (set_col j) in
  for_list (children h v) (layout_child v i j c scale target_alpha).

(** [for (j = 0; j < n; j++)]: [cnt] is [n - j]; the result is [slots]. *)
Fixpoint layout_row (views : list view) (active_view : view) (i : Z)
    (y width height : double) (cnt : nat) (j : Z) (x : double) (slots : nat) : M nat :=
  match cnt with
  | O => ret slots
  | S cnt' =>
      match views !! slots with
      | None => fail
      | Some v =>
          let* h := ask in
          let* _ := layout_view active_view i j (mk_cell x y width height) v in
          layout_row views active_view i y width height cnt' (j + 1)
            (dadd x (dadd width (d_of_Z (spacing h)))) (S slots)
      end
  end.

(** [for (i = 0; i < lines; i++)]: [cnt] is [lines - i]. *)
Fixpoint layout_rows (views : list view) (active_view : view) (lines : Z)
    (height : double) (cnt : nat) (i : Z) (y : double) (slots : nat) : M unit :=
  match cnt with
  | O => ret tt
  | S cnt' =>
      let* h := ask in
      let* s := get in
      let n := if i =? lines - 1 then grid_last_row_cols s else grid_cols s in
      let x := d_of_Z (g_x (workarea h) + spacing h) in
      let* w := defined (idiv (g_width (workarea h) - (n + 1) * spacing h) n) in
      let width := d_of_Z w in
      let* slots := layout_row views active_view i y width height (Z.to_nat n) 0 x slots in
      layout_rows views active_view lines height cnt' (i + 1)
        (dadd y (dadd height (d_of_Z (spacing h)))) slots
  end.

Definition layout_slots (views : list view) : M unit :=
  match views with
  | [] =>
      let* s := get in
      if negb (all_workspaces s) && active s then deactivate else ret tt
  | front :: _ =>
      let* h := ask in
      let* s := get in
      let* sv := scale_view (active_view s) in
      let av := match active_view s with
                | Some a => if sv then a else front
                | None => front
                end in
      let* _ := modify (set_current_focus_view (Some av)) in
      let* s := get in
      let* _ := (if bool_decide (initial_focus_view s = None)
                 then modify (set_initial_focus_view (Some av))
                 else ret tt) in
      let* _ := (if all_workspaces s then focus_view (Some av) else ret tt) in
      let* _ := fade_in (tree_fuel h) (Some av) in
      let* _ := fade_out_all_except (Some av) in
      let n := Z.of_nat (length views) in
      let lines := rows_for n in
      let* _ := modify (set_grid_rows lines) in
      let* _ := modify (set_grid_cols (cols_for n)) in
      let* _ := modify (set_grid_last_row_cols (last_row_cols_for n)) in
      let y := d_of_Z (g_y (workarea h) + spacing h) in
      let* ht := defined (idiv (g_height (workarea h) - (lines + 1) * spacing h) lines) in
      let height := d_of_Z ht in
      let views := merge_sort Nat.le views in
      let* _ := layout_rows views av lines height (Z.to_nat lines) 0 y 0 in
      let* _ := set_hook in
      transform_views
  end.

(** ** Input *)

(** [view->close()] asks the client to close; nothing of the modelled
    state changes until the view is detached. *)
Definition close_view (v : view) : M unit := ret tt.

(** [process_button] *)
Definition process_button (button state_ : Z) : M unit :=
  let* s := get in
  if negb (active s) then finish_input
  else
    let* _ := (if (button =? BTN_LEFT) || (state_ =? WLR_BUTTON_RELEASED)
               then modify (set_input_release_impending false)
               else ret tt) in
    let* h := ask in
    if negb (state_ =? WLR_BUTTON_PRESSED) then ret tt
    else if negb ((button =? BTN_LEFT)
                  || ((button =? BTN_MIDDLE) && middle_click_close h)) then ret tt
    else
      match view_at_cursor h with
      | None => ret tt
      | Some v =>
          let* sv := scale_view (Some v) in
          if negb sv && negb (toplevel h v) then ret tt
          else if button =? BTN_MIDDLE then close_view v
          else
            let* _ := modify (set_current_focus_view (Some v)) in
            let* _ := focus_view (Some v) in
            let* _ := fade_out_all_except (Some v) in
            let* _ := fade_in (tree_fuel h) (Some v) in
            if interact h then ret tt
            else
              let* _ := modify (set_input_release_impending true) in
              let* _ := modify (set_initial_focus_view None) in
              let* _ := deactivate in
              select_view (Some v)
      end.

(** The part of [process_key] after the [switch], for an arrow key:
    [row] and [col] are the values after the [switch]. *)
Definition move_focus (key r c : Z) : M unit :=
  let* h := ask in
  let* s := get in
  let c := remap_col key r c (grid_rows s) (grid_cols s) (grid_last_row_cols s) in
  let r := wrap_row r (grid_rows s) in
  let current_row_cols :=
    if r =? grid_rows s - 1 then grid_last_row_cols s else grid_cols s in
  let c := wrap_col c current_row_cols in
  let* v := find_view_in_grid r c in
  let* s := get in
  let* _ := (if negb (bool_decide (current_focus_view s = Some v))
             then fade_out_all_except (Some v)
             else ret tt) in
  let* _ := modify (set_current_focus_view (Some v)) in
  let* _ := focus_view (Some v) in
  fade_in (tree_fuel h) (Some v).

Definition process_key (key state_ : Z) : M unit :=
  let* s := get in
  if negb (active s) then finish_input
  else
    let* h := ask in
    match active_view s with
    | None =>
        let v := current_focus_view s in
        let* _ := fade_out_all_except v in
        let* _ := fade_in (tree_fuel h) v in
        focus_view v
    | Some v =>
        let* sv := scale_view (Some v) in
        if negb sv && negb (toplevel h v) then ret tt
        else
          let* d := index v in
          let r := row d in
          let c := col d in
          let* _ := (if (state_ =? WLR_KEY_RELEASED)
                        && ((key =? KEY_ENTER) || (key =? KEY_ESC))
                     then modify (set_input_release_impending false)
                     else ret tt) in
          if negb (state_ =? WLR_KEY_PRESSED) || negb (keyboard_modifiers h =? 0)
          then ret tt
          else
            let* s := get in
            let v0 := initial_focus_view s in
            if key =? KEY_UP then move_focus key (r - 1) c
            else if key =? KEY_DOWN then move_focus key (r + 1) c
            else if key =? KEY_LEFT then move_focus key r (c - 1)
            else if key =? KEY_RIGHT then move_focus key r (c + 1)
            else if key =? KEY_ENTER then
              let* _ := modify (set_input_release_impending true) in
              let* _ := deactivate in
              let* s := get in
              select_view (current_focus_view s)
            else if key =? KEY_ESC then
              let* _ := modify (set_input_release_impending true) in
              let* _ := modify (set_initial_focus_view None) in
              let* _ := deactivate in
              let* _ := focus_view v0 in
              let* s := get in
              request_workspace (initial_workspace s)
            else ret tt
    end.

(** ** Activation *)

(** The [connect_signal] calls of [activate], with the two
    [disconnect()] calls between them. *)
Definition connect_on_activate (c : connections) : connections :=
  mk_connections true true true true true true ∅.

(** [activate] *)
Definition activate : M bool :=
  let* s := get in
  if active s then ret false
  else
    let* _ := modify (set_capabilities CAPABILITY_GRAB_INPUT) in
    let* s := get in
    let* ok := (if plugin_active s then ret true else activate_plugin) in
    if negb ok then ret false
    else
      let* views := get_views in
      match views with
      | [] => let* _ := deactivate_plugin in ret false
      | _ :: _ =>
          let* h := ask in
          let* s := get in
          let* _ := modify (set_initial_workspace (current_workspace s)) in
          let* _ := modify (set_initial_focus_view (active_view s)) in
          let* grabbed_ok :=
            (if negb (interact h) then grab else ret true) in
          if negb grabbed_ok then let* _ := deactivate in ret false
          else
            let* s := get in
            let* _ := (if negb (interact h)
                       then match initial_focus_view s with
                            | Some v => focus_view (Some v)
                            | None => ret tt
                            end
                       else ret tt) in
            let* _ := modify (set_active true) in
            let* views := get_views in
            let* _ := layout_slots views in
            let* _ := (if interact h then connect_button_signal else ret tt) in
            let* _ := connect connect_on_activate in
            let* _ := for_scale_data_ (λ v,
                        let* s := get in
                        let* _ := connect (λ c, set_c_view_geometry_changed
                                                  ({[ v ]} ∪ c_view_geometry_changed c) c) in
                        if bool_decide (Some v = initial_focus_view s)
                           || bool_decide (parent h v = initial_focus_view s)
                        then ret tt
                        else fade_out (tree_fuel h) (Some v)) in
            ret true
      end.

(** [switch_scale_modes] *)
Definition switch_scale_modes : M unit :=
  let* s := get in
  if negb (plugin_active s) then ret tt
  else if all_workspaces s then
    let* views := get_views in layout_slots views
  else
    let* views := get_views in
    let* rearrange := for_scale_data (λ v rearrange,
                        if bool_decide (v ∈ views) then ret (false, rearrange)
                        else
                          let* _ := index v in
                          let* _ := setup_view_transform v d1 d1 d0 d0 d1 in
                          ret (false, true)) false in
    if rearrange then let* views := get_views in layout_slots views else ret tt.

(** [handle_toggle] *)
Definition handle_toggle (want_all_workspaces : bool) : M bool :=
  let* s := get in
  let* same := (if active s then all_same_as_current_workspace_views else ret false) in
  if active s && (same || Bool.eqb want_all_workspaces (all_workspaces s))
  then let* _ := deactivate in ret true
  else
    let* _ := modify (set_all_workspaces want_all_workspaces) in
    let* s := get in
    if active s then let* _ := switch_scale_modes in ret true
    else activate.

(** [interact_option_changed] *)
Definition interact_option_changed : M unit :=
  let* s := get in
  let* h := ask in
  if negb (plugin_active s) then ret tt
  else if interact h then connect_button_signal
  else let* _ := grab in disconnect_button_signal.

(** [allow_scale_zoom_option_changed] *)
Definition allow_scale_zoom_option_changed : M unit :=
  let* s := get in
  if negb (plugin_active s) then ret tt
  else let* views := get_views in layout_slots views.

(** ** Signal handlers *)

(** [view_attached] *)
Definition view_attached (v : view) : M unit :=
  let* h := ask in
  let* s := get in
  if match parent h v with
     | Some p => bool_decide (p ∈ dom (scale_data s))
     | None => false
     end
  then let* views := get_views in layout_slots views
  else
    let* sv := scale_view (Some v) in
    if negb sv && negb (toplevel h v) then ret tt
    else
      match root_view (tree_fuel h) h v with
      | None => fail
      | Some r =>
          let* _ := modify (set_current_focus_view (Some r)) in
          let* _ := focus_view (Some r) in
          let* s := get in
          if bool_decide (v ∈ dom (scale_data s)) then
            if negb (bool_decide (is_Some (transformers s !! v)))
            then let* views := get_views in layout_slots views
            else ret tt
          else
            let* _ := add_transformer (Some v) in
            let* views := get_views in
            layout_slots views
      end.

(** [view_detached] *)
Definition view_detached (v : view) : M unit :=
  let* h := ask in
  let* s := get in
  if match parent h v with
     | Some p => bool_decide (p ∈ dom (scale_data s))
     | None => false
     end
  then
    let* _ := remove_view (Some v) in
    let* views := get_views in
    match views with
    | [] => finalize
    | _ :: _ => ret tt
    end
  else if negb (bool_decide (v ∈ dom (scale_data s))) then ret tt
  else
    let* _ := remove_view (Some v) in
    let* views := get_views in
    match views with
    | [] => finalize
    | _ :: _ => layout_slots views
    end.

(** [workspace_changed] *)
Definition workspace_changed : M unit :=
  let* s := get in
  match current_focus_view s with
  | Some v => focus_view (Some v)
  | None => ret tt
  end.

(** [view_geometry_changed] *)
Definition view_geometry_changed : M unit :=
  let* views := get_views in
  match views with
  | [] => deactivate
  | _ :: _ => layout_slots views
  end.

(** [view_minimized]; the arguments are [ev->view] and [ev->state]. *)
Definition view_minimized (ov : option view) (state_ : bool) : M unit :=
  let* go_on :=
    (if state_ then
       let* _ := remove_view ov in
       let* s := get in
       if bool_decide (scale_data s = ∅)
       then let* _ := deactivate in ret false
       else ret true
     else scale_view ov) in
  if go_on then let* views := get_views in layout_slots views else ret tt.

(** [view_unmapped] *)
Definition view_unmapped (ov : option view) : M unit := check_focus_view ov.

(** [view_focused] *)
Definition view_focused (ov : option view) : M unit :=
  let* h := ask in
  let* _ := fade_out_all_except ov in
  let* _ := fade_in (tree_fuel h) ov in
  let* s := get in
  if bool_decide (ov = current_focus_view s)
     || match ov with Some v => bool_decide (Some v = active_view s) | None => false end
  then
    match ov, current_focus_view s with
    | Some v, Some cur =>
        if bool_decide (v = cur) then ret tt
        else
          match root_view (tree_fuel h) h cur with
          | None => fail
          | Some r =>
              if bool_decide (r = v) || minimized h r || negb (is_mapped h r) then ret tt
              else
                let* _ := modify (set_current_focus_view (Some r)) in
                focus_view (Some r)
          end
    | _, _ => ret tt
    end
  else
    match current_focus_view s with
    | None => ret tt
    | Some v =>
        if minimized h v || negb (is_mapped h v) then ret tt
        else
          let* _ := (if all_workspaces s then focus_view (Some v) else ret tt) in
          let* views := get_views in
          layout_slots views
    end.

(** [pre_hook] and [post_hook] *)
Definition pre_hook : M unit := transform_views.

Definition post_hook : M unit :=
  let* r := animation_running in
  if r then ret tt
  else
    let* _ := unset_hook in
    let* s := get in
    if active s then ret tt else finalize.

(** [fini] *)
Definition fini : M unit := finalize.

(** ** The event loop *)

(** What the compositor can call on the plugin. *)
Inductive event :=
| Toggle (all : bool)
| Button (button state_ : Z)
| Key (key state_ : Z)
| InteractChanged
| AllowScaleZoomChanged
| ViewAttached (v : view)
| ViewDetached (v : view)
| WorkspaceChanged
| ViewGeometryChanged
| ViewMinimized (ov : option view) (state_ : bool)
| ViewUnmapped (ov : option view)
| ViewFocused (ov : option view)
| PreHook
| PostHook
| Fini.

Definition handle (e : event) : M unit :=
  match e with
  | Toggle all => let* _ := handle_toggle all in ret tt
  | Button b st => process_button b st
  | Key k st => process_key k st
  | InteractChanged => interact_option_changed
  | AllowScaleZoomChanged => allow_scale_zoom_option_changed
  | ViewAttached v => view_attached v
  | ViewDetached v => view_detached v
  | WorkspaceChanged => workspace_changed
  | ViewGeometryChanged => view_geometry_changed
  | ViewMinimized ov st => view_minimized ov st
  | ViewUnmapped ov => view_unmapped ov
  | ViewFocused ov => view_focused ov
  | PreHook => pre_hook
  | PostHook => post_hook
  | Fini => finalize
  end.

(** An event is delivered only through a connection that exists: the
    grab (or the button signal in interact mode) for input, a connected
    signal for the handlers, registered hooks for the frame callbacks. *)
Definition deliverable (e : event) (s : state) : bool :=
  match e with
  | Toggle _ | InteractChanged | AllowScaleZoomChanged | Fini => true
  | Button _ _ => grabbed s || button_connected s
  | Key _ _ => grabbed s
  | ViewAttached _ => c_view_attached (signals s)
  | ViewDetached _ => c_view_detached (signals s)
  | WorkspaceChanged => c_workspace_changed (signals s)
  | ViewGeometryChanged =>
      negb (bool_decide (c_view_geometry_changed (signals s) = ∅))
  | ViewMinimized _ _ => c_view_minimized (signals s)
  | ViewUnmapped _ => c_view_unmapped (signals s)
  | ViewFocused _ => c_view_focused (signals s)
  | PreHook | PostHook => hook_set s
  end.

(** The state after [init()]: the members that [init] or their
    initialisers set; the others have no defined value yet. *)
Definition initial (s : state) : Prop :=
  active s = false ∧ hook_set s = false ∧ button_connected s = false ∧
  input_release_impending s = false ∧ capabilities s = 0 ∧
  initial_focus_view s = None ∧ current_focus_view s = None ∧
  scale_data s = ∅ ∧ signals s = no_connections ∧
  grabbed s = false ∧ plugin_active s = false ∧ transformers s = ∅.

(** Between two calls the compositor may change the focus and the
    workspace; it does not touch the plugin, its grab or the "scale"
    transformers. *)
Definition host_step (s s' : state) : Prop :=
  ∃ av ws, s' = set_active_view av (set_current_workspace ws s).

(** The states in which control is with the compositor. *)
Inductive reachable : state → Prop :=
| reach_init s : initial s → reachable s
| reach_host s s' : reachable s → host_step s s' → reachable s'
| reach_event s h e s' :
    reachable s → deliverable e s = true →
    handle e h s = Some (tt, s') → reachable s'.

(** * Vocabulary of the properties *)

(** [wp N m h s Q]: running [m] in [s] gives a result that satisfies [Q];
    [N] says what holds when there is no result ([True] for partial,
    [False] for total correctness). *)
Definition wp (N : Prop) {A} (m : M A) (h : host) (s : state)
    (Q : A → state → Prop) : Prop :=
  match m h s with
  | Some (a, s') => Q a s'
  | None => N
  end.

Definition consistent (s : state) : Prop :=
  ∀ v, (∃ d, scale_data s !! v = Some d ∧ transformer d = true)
       ↔ is_Some (transformers s !! v).

Definition shallow (h : host) : Prop :=
  (∀ v c, c ∈ children h v → children h c = []) ∧
  (∀ v p, parent h v = Some p → parent h p = None).

Definition fade_target (d : view_scale_data) : double :=
  tt_end (fa_transition (fade_animation d)).

(** The state without the members that a fade changes. *)
Definition but_fades (s : state) : state := set_hook_set false (set_scale_data ∅ s).

Definition flagged (s : state) (v : view) : Prop :=
  ∃ d, scale_data s !! v = Some d ∧ transformer d = true.

Definition fade_rel (h : host) (T : double → Prop) (A : view → Prop)
    (s s' : state) : Prop :=
  but_fades s' = but_fades s ∧
  (hook_set s = true → hook_set s' = true) ∧
  (∀ v d, scale_data s !! v = Some d →
     ∃ d', scale_data s' !! v = Some d' ∧ row d' = row d ∧ col d' = col d ∧
           transformer d' = transformer d ∧ animation d' = animation d ∧
           (fade_animation d' = fade_animation d ∨ T (fade_target d'))) ∧
  (∀ v d', scale_data s' !! v = Some d' → scale_data s !! v = None →
     transformer d' = false ∧ row d' = 0 ∧ col d' = 0 ∧
     (A v ∨ ∃ p, flagged s p ∧ v ∈ children h p)).

(** A fade of [v] inserts [v] or children of views with a transformer. *)
Definition arg (ov : option view) (k : view) : Prop := ov = Some k.


(** The targets of a slot record: its cell and the end values of its
    five transitions. *)
Definition target : Type := double * double * double * double * double.

Definition identity_target : target := (d1, d1, d0, d0, d1).

Definition target_of (d : view_scale_data) : target :=
  (tt_end (scale_x (animation d)), tt_end (scale_y (animation d)),
   tt_end (translation_x (animation d)), tt_end (translation_y (animation d)),
   fade_target d).

(** The state without the members that the layout of a view changes. *)
Definition but_layout (s : state) : state :=
  set_signals no_connections (set_transformers ∅ (set_scale_data ∅ s)).

(** The record of [v] with a default. *)
Definition record_or_default (h : host) (s : state) (v : view) : view_scale_data :=
  default (default_view_scale_data h) (scale_data s !! v).

(** The targets that [layout_slots] gives to a view in a cell, and to a
    child of that view. *)
Definition view_target (h : host) (act : bool) (av : view) (c : cell) (v : view) : target :=
  if act then
    let scale := view_scale h c (wm_geometry h v) in
    (scale, scale,
     d_of_Z (view_translation_x c (wm_geometry h v)),
     d_of_Z (view_translation_y c (wm_geometry h v)),
     if bool_decide (v = av) then d1 else inactive_alpha h)
  else identity_target.

Definition child_target (h : host) (act : bool) (av : view) (c : cell)
    (v child : view) : target :=
  if act then
    let scale := view_scale h c (wm_geometry h v) in
    (scale, scale,
     d_of_Z (view_translation_x c (wm_geometry h child)),
     d_of_Z (view_translation_y c (wm_geometry h child)),
     if bool_decide (v = av) then d1 else inactive_alpha h)
  else identity_target.

(** A change that is local to the records selected by [W]: nothing
    outside scale_data, the transformers and the geometry connections
    changes, the other records are the same, and no record loses its
    transformer. *)
Definition keeps (W : view → Prop) (s s' : state) : Prop :=
  but_layout s' = but_layout s ∧
  (∀ w, ¬ W w → scale_data s' !! w = scale_data s !! w) ∧
  (∀ w, flagged s w → flagged s' w).

(** The record of [w] is in cell [(i, j)] with targets [t]. *)
Definition slot_is (s : state) (w : view) (i j : Z) (t : target) : Prop :=
  ∃ d, scale_data s !! w = Some d ∧ transformer d = true ∧
       row d = i ∧ col d = j ∧ target_of d = t.

(** A view and its children. *)
Definition tree (h : host) (v : view) : list view := v :: children h v.

(** One iteration of the inner loop of [layout_slots]: the view, its
    cell coordinates and the geometry of the cell. *)
Record placement := mk_placement {
  pl_view : view; pl_row : Z; pl_col : Z; pl_cell : cell
}.

(** The view of a placement and its children are in the cell of the
    placement with the targets of [layout_slots]. *)
Definition placed (h : host) (s : state) (act : bool) (av : view) (p : placement) : Prop :=
  slot_is s (pl_view p) (pl_row p) (pl_col p)
    (view_target h act av (pl_cell p) (pl_view p)) ∧
  ∀ ch, ch ∈ children h (pl_view p) →
    slot_is s ch (pl_row p) (pl_col p)
      (child_target h act av (pl_cell p) (pl_view p) ch).

(** The iterations of the two loops of [layout_slots], in order, with
    the values of [x], [y], [width] and [height] of each.  The two
    quotients are those of the integer divisions of the source; their
    divisors, the number of columns of the row and the number of rows,
    are not zero when there is a view. *)
Fixpoint plan_row (sp : Z) (views : list view) (i : Z) (y width height : double)
    (cnt : nat) (j : Z) (x : double) (slots : nat) : list placement :=
  match cnt with
  | O => []
  | S cnt' =>
      match views !! slots with
      | None => []
      | Some v =>
          mk_placement v i j (mk_cell x y width height)
            :: plan_row sp views i y width height cnt' (j + 1)
                 (dadd x (dadd width (d_of_Z sp))) (S slots)
      end
  end.

Fixpoint plan_rows (h : host) (views : list view) (lines cols last : Z)
    (height : double) (cnt : nat) (i : Z) (y : double) (slots : nat) : list placement :=
  match cnt with
  | O => []
  | S cnt' =>
      let n := if i =? lines - 1 then last else cols in
      let x := d_of_Z (g_x (workarea h) + spacing h) in
      let width := d_of_Z (Z.quot (g_width (workarea h) - (n + 1) * spacing h) n) in
      plan_row (spacing h) views i y width height (Z.to_nat n) 0 x slots
        ++ plan_rows h views lines cols last height cnt' (i + 1)
             (dadd y (dadd height (d_of_Z (spacing h)))) (slots + Z.to_nat n)
  end.

Definition plan (h : host) (views : list view) : list placement :=
  let n := Z.of_nat (length views) in
  let lines := rows_for n in
  plan_rows h (merge_sort Nat.le views) lines (cols_for n) (last_row_cols_for n)
    (d_of_Z (Z.quot (g_height (workarea h) - (lines + 1) * spacing h) lines))
    (Z.to_nat lines) 0 (d_of_Z (g_y (workarea h) + spacing h)) 0.

(** The views that a list of placements covers. *)
Definition covered (h : host) (ps : list placement) : list view :=
  flat_map (λ p, tree h (pl_view p)) ps.

(** [get_views()] as a function of the compositor and of the mode. *)
Definition eligible (h : host) (s : state) : list view :=
  if all_workspaces s then get_all_workspace_views h
  else get_current_workspace_views h.

(** The view that [layout_slots] takes as active view: the focused view
    if it is to be scaled, and the first view of the list otherwise. *)
Definition chosen_view (h : host) (s : state) (views : list view) : view :=
  match active_view s with
  | Some a => if bool_decide (a ∈ eligible h s) then a else hd 0%nat views
  | None => hd 0%nat views
  end.

(** The state without the members that a layout pass may change. *)
Definition but_session (s : state) : state :=
  set_grid_rows 0 (set_grid_cols 0 (set_grid_last_row_cols 0
    (set_current_focus_view None (set_initial_focus_view None
      (set_active_view None (set_hook_set false (but_layout s))))))).

(** The state after [finalize()] when every attached transformer has a
    slot record. *)
Definition finalized (s : state) : state :=
  set_plugin_active false
    (set_signals no_connections
       (set_button_connected false
          (set_grabbed false
             (set_scale_data ∅
                (set_transformers ∅
                   (set_hook_set false
                      (set_input_release_impending false
                         (set_active false s)))))))).

(** The state without the transformers. *)
Definition but_transformers (s : state) : state := set_transformers ∅ s.

(** The state without the slot records. *)
Definition but_scale_data (s : state) : state := set_scale_data ∅ s.

(** Every slot record has its transformer, and the children of a view
    with a slot record have slot records. *)
Definition settled (h : host) (s : state) : Prop :=
  ∀ v d, scale_data s !! v = Some d →
    transformer d = true ∧ ∀ c, c ∈ children h v → is_Some (scale_data s !! c).

(** The layout of the workspaces has a size: the two divisions of
    [get_view_main_workspace] are defined. *)
Definition sized (h : host) : Prop :=
  g_width (layout_geometry h) ≠ 0 ∧ g_height (layout_geometry h) ≠ 0.

(** [refocus] does not reach [select_view] (no initial or no current
    focus view is recorded), or the layout has a size. *)
Definition can_refocus (h : host) (s : state) : Prop :=
  initial_focus_view s = None ∨ current_focus_view s = None ∨ sized h.

(** An animation that has been started at [t0] and lasts [len]
    milliseconds is running at the time [now]. *)
Definition in_progress (now : Z) (d : duration_t) : Prop :=
  ∃ t0, dur_begin d = Some t0 ∧ now - t0 < dur_length d.

(** The fade or the scale animation of some slot record is running. *)
Definition animating (h : host) (s : state) : Prop :=
  ∃ v d, scale_data s !! v = Some d ∧
         (in_progress (now h) (fa_duration (fade_animation d)) ∨
          in_progress (now h) (sa_duration (animation d))).

(** The state without what [refocus] changes. *)
Definition but_focus (s : state) : state :=
  set_active_view None (set_current_workspace (mk_point 0 0) s).

(** The state without what [deactivate] changes. *)
Definition but_deactivated (s : state) : state :=
  set_active false (set_hook_set false (set_signals no_connections
    (set_grabbed false (set_plugin_active false (set_capabilities 0
      (set_scale_data ∅ (but_focus s))))))).

(** What [deactivate] keeps and establishes while it visits the slot
    records: the records keep their cells and transformers, and the
    records already visited have the identity as target. *)
Definition restoring (s0 : state) (done_ : view → Prop) (s1 : state) : Prop :=
  but_fades s1 = but_fades s0 ∧
  (∀ w, scale_data s1 !! w = None ↔ scale_data s0 !! w = None) ∧
  (∀ w d0' d1', scale_data s0 !! w = Some d0' → scale_data s1 !! w = Some d1' →
     row d1' = row d0' ∧ col d1' = col d0' ∧ transformer d1' = transformer d0') ∧
  (∀ w d1', done_ w → scale_data s1 !! w = Some d1' → target_of d1' = identity_target).


(** What [deactivate] does to the members other than the slot records. *)
Definition deactivated (s s' : state) : Prop :=
  but_deactivated s' = but_deactivated s ∧
  active s' = false ∧ hook_set s' = true ∧ capabilities s' = 0 ∧
  signals s' = disconnect_on_deactivate (signals s) ∧
  grabbed s' = (if input_release_impending s then grabbed s else false) ∧
  plugin_active s' = (if input_release_impending s then plugin_active s else false).

(** Every slot record is still there, in its cell and with its
    transformer, and has the identity as target: scale (1,1),
    translation (0,0), alpha 1. *)
Definition restored (s s' : state) : Prop :=
  (∀ w, scale_data s' !! w = None ↔ scale_data s !! w = None) ∧
  (∀ w d d', scale_data s !! w = Some d → scale_data s' !! w = Some d' →
     row d' = row d ∧ col d' = col d ∧ transformer d' = transformer d) ∧
  (∀ w d', scale_data s' !! w = Some d' → target_of d' = identity_target).

(** The state without what the removal of a view changes. *)
Definition but_removed (s : state) : state :=
  set_scale_data ∅ (set_transformers ∅
    (set_current_focus_view None (set_initial_focus_view None s))).

(** The views selected by [W] have lost their slot record and their
    transformer; the others have kept them. *)
Definition removed (W : view → Prop) (s s' : state) : Prop :=
  but_removed s' = but_removed s ∧
  (∀ w, W w → scale_data s' !! w = None ∧ transformers s' !! w = None) ∧
  (∀ w, ¬ W w → scale_data s' !! w = scale_data s !! w ∧
                transformers s' !! w = transformers s !! w).

(** [animation_running] may insert value-initialised records for
    children; it changes nothing else. *)
Definition only_inserted (h : host) (s s' : state) : Prop :=
  but_scale_data s' = but_scale_data s ∧
  (∀ v d, scale_data s !! v = Some d → scale_data s' !! v = Some d) ∧
  (∀ v d, scale_data s' !! v = Some d → scale_data s !! v = None →
          d = default_view_scale_data h).

(** A computation keeps the slot records and the attached transformers
    consistent, whenever it has a result. *)
Definition ok {A} (m : M A) : Prop :=
  ∀ h s, consistent s → wp True m h s (λ _ s', consistent s').

(** The cell and the targets of a slot record. *)
Definition slot_of (d : view_scale_data) : Z * Z * target := (row d, col d, target_of d).

(** What [layout_slots] computes for [n] windows: the dimensions of the
    grid and the cell of each window. *)
Definition grid_facts (n : Z) : Prop :=
  let rows := rows_for n in
  let cols := cols_for n in
  let last := last_row_cols_for n in
  rows * rows ≤ n + 1 < (rows + 1) * (rows + 1) ∧
  n ≤ rows * cols < n + rows ∧
  last = n - (rows - 1) * cols ∧ 1 ≤ last ≤ cols ∧
  Z.of_nat (length (grid_cells n)) = n ∧
  NoDup (grid_cells n) ∧
  (∀ k : nat, Z.of_nat k < n →
     grid_cells n !! k = Some (Z.of_nat k / cols, Z.of_nat k mod cols) ∧
     valid_cell rows cols last (Z.of_nat k / cols, Z.of_nat k mod cols)) ∧
  (∀ h s views,
     Z.of_nat (length views) = n → consistent s → shallow h →
     NoDup (flat_map (tree h) views) →
     ∃ s', layout_slots views h s = Some (tt, s') ∧
           grid_rows s' = rows ∧ grid_cols s' = cols ∧ grid_last_row_cols s' = last ∧
           ∀ (k : nat) (v : view), merge_sort Nat.le views !! k = Some v →
             ∃ d, scale_data s' !! v = Some d ∧
                  row d = Z.of_nat k / cols ∧ col d = Z.of_nat k mod cols) ∧
  (n = 5 → rows = 2 ∧ cols = 3 ∧ last = 2 ∧ grid_cells n !! 4%nat = Some (1, 1)).

(** What [layout_slots] establishes for a list of views that is not
    empty: the grid, the focus, the hooks, and the slot of every placed
    view. *)
Definition layout_post (h : host) (views : list view) (s s' : state) : Prop :=
  let n := Z.of_nat (length views) in
  let av := chosen_view h s views in
  consistent s' ∧
  but_session s' = but_session s ∧
  grid_rows s' = rows_for n ∧ grid_cols s' = cols_for n ∧
  grid_last_row_cols s' = last_row_cols_for n ∧
  current_focus_view s' = Some av ∧
  active_view s' = (if all_workspaces s then Some av else active_view s) ∧
  hook_set s' = true ∧
  (NoDup (covered h (plan h views)) →
   ∀ p, p ∈ plan h views → placed h s' (active s) av p) ∧
  (∀ w, scale_data s !! w = None → w ∉ covered h (plan h views) → w ≠ av →
        (∀ p, w ∉ children h p) → scale_data s' !! w = None).


(** * Concrete compositors and states *)

Definition demo_geometry (v : view) : geometry :=
  mk_geometry (Z.of_nat v * 10) 20 400 300.

(** A compositor with seven views on a 1920x1080 output; the views of
    [layer] are in the workspace layer, and view 6 is a dialog of
    view 2.  [grab_ok] says whether the compositor grants the grab. *)
Definition demo_host (layer : list view) (grab_ok interact_ : bool) : host :=
  mk_host [1;2;3;4;5;6;7]%nat
    (λ v, if bool_decide (v = 6%nat) then Some 2%nat else None)
    (λ v, if bool_decide (v = 2%nat) then [6%nat] else [])
    (λ _, true) (λ _, true) (λ _, false) (λ _, true)
    layer (λ _, true) demo_geometry demo_geometry
    (mk_geometry 0 0 1920 1080) (mk_geometry 0 0 1920 1080) (mk_geometry 0 0 1920 1080)
    None 0 0 true grab_ok 50 interact_ true
    (ddiv (d_of_Z 3) (d_of_Z 4)) false 750.

Definition five_views : list view := [3; 1; 2; 5; 4]%nat.

Definition demo5 : host := demo_host five_views true false.

(** The state after [init()], with the focus on view 2. *)
Definition demo_state : state :=
  mk_state 0 0 0 (mk_point 0 0) false false false false None None ∅ false
    no_connections 0 false false (Some 2%nat) (mk_point 0 0) ∅.

(** The state after an event; the state itself when the handler has no
    result. *)
Definition after (e : event) (h : host) (s : state) : state :=
  match handle e h s with
  | Some (_, s') => s'
  | None => s
  end.

(** Scale is active over the five views. *)
Definition demo_active : state := after (Toggle false) demo5 demo_state.

(** Decidable forms of [settled] and [consistent]. *)
Definition settledb (h : host) (s : state) : bool :=
  forallb (λ kv, transformer kv.2
                 && forallb (λ c, bool_decide (is_Some (scale_data s !! c))) (children h kv.1))
          (map_to_list (scale_data s)).

Definition flaggedb (s : state) (v : view) : bool :=
  match scale_data s !! v with
  | Some d => transformer d
  | None => false
  end.

Definition consistentb (s : state) : bool :=
  forallb (λ kv, implb (transformer kv.2) (bool_decide (is_Some (transformers s !! kv.1))))
          (map_to_list (scale_data s))
  && forallb (λ kv, match scale_data s !! kv.1 with
                    | Some d => transformer d
                    | None => false
                    end)
             (map_to_list (transformers s)).

(** The state in which [activate] calls [deactivate] when the grab is
    refused. *)
Definition before_grab (s : state) : state :=
  set_initial_focus_view (active_view s)
    (set_initial_workspace (current_workspace s)
       (set_plugin_active true (set_capabilities CAPABILITY_GRAB_INPUT s))).

(** View 2 has the focus when scale is toggled, and the compositor
    refuses the grab. *)
Definition refusing_host : host := demo_host five_views false false.
Definition focused_state : state := demo_state.

(** The state after [activate] on the refusing compositor. *)
Definition refused_state : state :=
  match activate refusing_host focused_state with
  | Some (_, s') => s'
  | None => focused_state
  end.

(** The same compositor when another plugin holds the output. *)
Definition with_can_activate (b : bool) (h : host) : host :=
  mk_host (h_views h) (parent h) (children h) (toplevel h) (is_mapped h) (minimized h)
    (keyboard_focus_surface h) (views_in_layer h) (in_workspace_layer h)
    (wm_geometry h) (output_geometry h) (relative_geometry h) (layout_geometry h)
    (workarea h) (view_at_cursor h) (keyboard_modifiers h) (now h) b (can_grab h)
    (spacing h) (interact h) (middle_click_close h) (inactive_alpha h)
    (allow_scale_zoom h) (duration h).

Definition busy_host : host := with_can_activate false demo5.

(** No view is in the workspace layer. *)
Definition empty_host : host := demo_host [] true false.

(** The first test of [view_detached] and [view_attached]: the parent
    of the view has a slot record. *)
Definition parent_has_record (h : host) (s : state) (v : view) : bool :=
  match parent h v with
  | Some p => bool_decide (p ∈ dom (scale_data s))
  | None => false
  end.

(** The dialog 6 of view 2 is detached while scale is active. *)
Definition detached_state : state := after (ViewDetached 6%nat) demo5 demo_active.

(** View 3 has left the workspace layer. *)
Definition four_views : list view := [1; 2; 5; 4]%nat.
Definition demo4 : host := demo_host four_views true false.

(** * Navigation: the remapped column in exact arithmetic *)

(** The integers from [lo] up to [hi - 1]. *)
Definition Zrange (lo hi : Z) : list Z :=
  map (λ k, lo + Z.of_nat k) (seq 0 (Z.to_nat (hi - lo))).

(** The two remapping expressions of [process_key] without rounding
    errors: [col / (cols - 1) * (last - 1)] and
    [(col + 0.5) / last * cols], truncated. *)
Definition exact_into (cols last col : Z) : Z := col * (last - 1) / (cols - 1).
Definition exact_out (cols last col : Z) : Z := (2 * col + 1) * cols / (2 * last).

(** The floating-point expressions give the exact values in every grid
    of [cols] columns. *)
Definition remap_exact_on (cols : Z) : bool :=
  forallb (λ last,
             forallb (λ col, col_into_last_row cols last col =? exact_into cols last col)
                     (Zrange 0 cols)
             && forallb (λ col, col_out_of_last_row cols last col =? exact_out cols last col)
                        (Zrange 0 last))
          (Zrange 2 (cols + 1)).

Definition remap_exact_upto (b : Z) : bool := forallb remap_exact_on (Zrange 2 (b + 1)).

(** The formula of the specification: [round(old_col * last_row_cols / cols)],
    to the nearest integer, and its inverse
    [round(old_col * cols / last_row_cols)]. *)
Definition claimed_into (cols last col : Z) : Z := (2 * col * last + cols) / (2 * cols).
Definition claimed_out (cols last col : Z) : Z := (2 * col * cols + last) / (2 * last).

(** The same compositor at another time. *)
Definition with_now (t : Z) (h : host) : host :=
  mk_host (h_views h) (parent h) (children h) (toplevel h) (is_mapped h) (minimized h)
    (keyboard_focus_surface h) (views_in_layer h) (in_workspace_layer h)
    (wm_geometry h) (output_geometry h) (relative_geometry h) (layout_geometry h)
    (workarea h) (view_at_cursor h) (keyboard_modifiers h) t (can_activate h) (can_grab h)
    (spacing h) (interact h) (middle_click_close h) (inactive_alpha h)
    (allow_scale_zoom h) (duration h).

(** The start values of the five transitions of a slot record. *)
Definition start_of (d : view_scale_data) : target :=
  (tt_start (scale_x (animation d)), tt_start (scale_y (animation d)),
   tt_start (translation_x (animation d)), tt_start (translation_y (animation d)),
   tt_start (fa_transition (fade_animation d))).

(** The five fields of a transformer. *)
Definition applied (t : wf_scale) : target :=
  (tr_scale_x t, tr_scale_y t, tr_translation_x t, tr_translation_y t, tr_alpha t).

(** A view that is not scaled gets the focus while scale is active. *)
Definition focus7_state : state := after (ViewFocused (Some 7%nat)) demo5 demo_active.

(** Enter is pressed while scale is active: the session ends, the
    closing animation runs and the grab is kept until the key is
    released. *)
Definition closing_state : state := after (Key KEY_ENTER WLR_KEY_PRESSED) demo5 demo_active.

(** * Further vocabulary *)

(** The grid dimensions computed in floating point ([sqrt] and
    [std::ceil] on [double]) are the integer ones. *)
Definition grid_fp_agrees (n : Z) : bool :=
  (rows_fp n =? rows_for n) && (cols_fp n =? cols_for n).

(** The four arrow keys. *)
Definition arrow_keys : list Z := [KEY_UP; KEY_DOWN; KEY_LEFT; KEY_RIGHT].

(** The state after [add_transformer] on a view without transformer. *)
Definition attached (h : host) (v : view) (s : state) : state :=
  set_signals
    (set_c_view_geometry_changed ({[ v ]} ∪ c_view_geometry_changed (signals s)) (signals s))
    (set_transformers (<[v := new_wf_scale]> (transformers s))
       (set_scale_data
          (<[v := set_transformer true (record_or_default h s v)]> (scale_data s)) s)).

(** The state after [check_focus_view]. *)
Definition focus_checked (ov : option view) (s : state) : state :=
  set_initial_focus_view
    (if bool_decide (ov = initial_focus_view s) then None else initial_focus_view s)
    (set_current_focus_view
       (if bool_decide (ov = current_focus_view s) then active_view s
        else current_focus_view s) s).

(** The centre of the root of a view, as [get_view_main_workspace]
    computes it. *)
Definition root_center (h : host) (r : view) : point := center (output_geometry h r).

(** Every eligible view has a slot record. *)
Definition laid_out (h : host) (s : state) : Prop :=
  ∀ w, w ∈ eligible h s → is_Some (scale_data s !! w).

(** The eligible view [w] has the cell [(r, c)]. *)
Definition at_cell (h : host) (s : state) (r c : Z) (w : view) : Prop :=
  w ∈ eligible h s ∧ ∃ d, scale_data s !! w = Some d ∧ row d = r ∧ col d = c.

Definition one_view_per_cell (h : host) (s : state) : Prop :=
  ∀ r c w w', at_cell h s r c w → at_cell h s r c w' → w = w'.

(** The test of the loop of [find_view_in_grid]. *)
Definition in_cell (s : state) (r c : Z) (w : view) : bool :=
  match scale_data s !! w with
  | Some d => (row d =? r) && (col d =? c)
  | None => false
  end.

(** The slot records keep their cells and their transformer pointers. *)
Definition cells_kept (s s' : state) : Prop :=
  ∀ u d, scale_data s !! u = Some d →
    ∃ d', scale_data s' !! u = Some d' ∧ row d' = row d ∧ col d' = col d ∧
          transformer d' = transformer d.

(** The state without the slot records, the hooks and the focus. *)
Definition but_focus_and_fades (s : state) : state :=
  set_current_focus_view None (set_active_view None (but_fades s)).

(** The focus has moved to [w]; the grid, the slot records' cells, the
    transformers and the session are as before. *)
Definition moved (w : view) (s s' : state) : Prop :=
  consistent s' ∧ current_focus_view s' = Some w ∧ active_view s' = Some w ∧
  but_focus_and_fades s' = but_focus_and_fades s ∧ cells_kept s s'.

(** Decidable forms of [laid_out], [at_cell] and [one_view_per_cell]. *)
Definition laid_outb (h : host) (s : state) : bool :=
  forallb (λ w, bool_decide (is_Some (scale_data s !! w))) (eligible h s).

Definition at_cellb (h : host) (s : state) (r c : Z) (w : view) : bool :=
  bool_decide (w ∈ eligible h s) && in_cell s r c w.

Definition cell_of (s : state) (w : view) : option (Z * Z) :=
  match scale_data s !! w with
  | Some d => Some (row d, col d)
  | None => None
  end.

Definition one_view_per_cellb (h : host) (s : state) : bool :=
  bool_decide (NoDup (cell_of s <$> eligible h s)).




(** The view that [refocus] gives the focus to. *)
Definition refocus_target (h : host) (s : state) : option view :=
  match initial_focus_view s with
  | None => active_view s
  | Some _ =>
      match current_focus_view s with
      | Some c => Some c
      | None =>
          head (filter (λ v, is_mapped h v && keyboard_focus_surface h v = true)
                       (get_current_workspace_views h))
      end
  end.

(** The workspace that [get_view_main_workspace] computes for a view
    with root [r] when the layout has a size: the quotients are
    truncated towards zero. *)
Definition main_workspace (h : host) (s : state) (r : view) : point :=
  mk_point
    (p_x (current_workspace s)
     + Z.quot (p_x (root_center h r) - p_x (current_workspace s) * g_width (layout_geometry h))
              (g_width (layout_geometry h)))
    (p_y (current_workspace s)
     + Z.quot (p_y (root_center h r) - p_y (current_workspace s) * g_height (layout_geometry h))
              (g_height (layout_geometry h))).

(** The pointer is on view 3. *)
Definition with_cursor (ov : option view) (h : host) : host :=
  mk_host (h_views h) (parent h) (children h) (toplevel h) (is_mapped h) (minimized h)
    (keyboard_focus_surface h) (views_in_layer h) (in_workspace_layer h)
    (wm_geometry h) (output_geometry h) (relative_geometry h) (layout_geometry h)
    (workarea h) ov (keyboard_modifiers h) (now h) (can_activate h) (can_grab h)
    (spacing h) (interact h) (middle_click_close h) (inactive_alpha h)
    (allow_scale_zoom h) (duration h).

Definition pointing_host : host := with_cursor (Some 3%nat) demo5.

(** The transformer that a frame gives to a view with slot record [d]:
    the five sampled values. *)
Definition sampled (h : host) (d : view_scale_data) : wf_scale :=
  apply_animation h d new_wf_scale.

(** What [transform_views] has done so far: the slot records are as
    before, every transformer is as before or holds the sampled values
    of its record, and the views selected by [V] hold them. *)
Definition sampling (h : host) (s : state) (V : view → Prop) (s1 : state) : Prop :=
  consistent s1 ∧ scale_data s1 = scale_data s ∧
  but_transformers s1 = but_transformers s ∧
  (∀ v, transformers s1 !! v = transformers s !! v
        ∨ ∃ d, scale_data s !! v = Some d ∧ transformers s1 !! v = Some (sampled h d)) ∧
  (∀ v d, scale_data s !! v = Some d → V v → transformers s1 !! v = Some (sampled h d)).

(** A later frame, when all animations of 750 and 1000 ms have ended. *)
Definition later_host : host := with_now 2000 demo5.

(** The state without the signal connections, the slot records and the
    hooks. *)
Definition but_signals_and_fades (s : state) : state :=
  set_signals no_connections (but_fades s).

(** The six signals of the output are connected. *)
Definition output_signals_connected (c : connections) : Prop :=
  c_view_attached c = true ∧ c_view_detached c = true ∧ c_workspace_changed c = true ∧
  c_view_minimized c = true ∧ c_view_unmapped c = true ∧ c_view_focused c = true.

(** * The views that a change of focus spares *)

(** [k] is the view [v], its parent or one of its children: the views
    that [fade_out_all_except] skips for [v]. *)
Definition family (h : host) (v k : view) : Prop :=
  k = v ∨ parent h v = Some k ∨ parent h k = Some v.

(** The children lists and the parent pointers of the compositor say the
    same. *)
Definition parents_agree (h : host) : Prop :=
  ∀ u c, c ∈ children h u → parent h c = Some u.

(** What a fade-out of the tree of [u] leaves alone: the records of the
    views outside the tree and the records without a transformer. *)
Definition kept_outside (h : host) (u : view) (s s' : state) : Prop :=
  ∀ k d, scale_data s !! k = Some d → k ∉ tree h u ∨ transformer d = false →
         scale_data s' !! k = Some d.

(** The record of [k] fades to the alpha of the inactive views. *)
Definition dimmed (h : host) (s : state) (k : view) : Prop :=
  ∃ d, scale_data s !! k = Some d ∧ fade_target d = inactive_alpha h.

(** Scale opened on the compositor without view 3. *)
Definition demo4_active : state := after (Toggle false) demo4 demo_state.

(** * Proofs *)

(** * Grid arithmetic *)

Section GridArith.

Variable n : Z.
Hypothesis Hn : 1 ≤ n.

Lemma rows_for_sqrt :
  rows_for n * rows_for n ≤ n + 1 < (rows_for n + 1) * (rows_for n + 1).
Proof. unfold rows_for. apply Z.sqrt_spec. lia. Qed.

Lemma rows_for_pos : 1 ≤ rows_for n.
Proof.
  unfold rows_for. pose proof (Z.sqrt_le_mono 1 (n + 1) ltac:(lia)) as H.
  by rewrite Z.sqrt_1 in H.
Qed.

Lemma cols_for_ceil :
  n ≤ rows_for n * cols_for n < n + rows_for n.
Proof.
  pose proof rows_for_pos as Hr. unfold cols_for. cbv zeta.
  pose proof (Z.div_mod (n + rows_for n - 1) (rows_for n) ltac:(lia)) as Hd.
  pose proof (Z.mod_pos_bound (n + rows_for n - 1) (rows_for n) ltac:(lia)) as Hm.
  lia.
Qed.

Lemma cols_for_ge_rows : rows_for n - 1 < cols_for n.
Proof.
  pose proof rows_for_pos as Hr. pose proof rows_for_sqrt as Hs.
  pose proof cols_for_ceil as Hc. nia.
Qed.

Lemma last_row_nonempty : (rows_for n - 1) * cols_for n < n.
Proof.
  pose proof rows_for_pos as Hr. pose proof cols_for_ceil as Hc.
  pose proof cols_for_ge_rows as Hg. nia.
Qed.

Lemma last_row_cols_for_eq :
  last_row_cols_for n = n - (rows_for n - 1) * cols_for n.
Proof.
  unfold last_row_cols_for. pose proof cols_for_ceil as Hc.
  apply Z.min_r. nia.
Qed.

Lemma last_row_cols_for_bounds : 1 ≤ last_row_cols_for n ≤ cols_for n.
Proof.
  rewrite last_row_cols_for_eq. pose proof cols_for_ceil as Hc.
  pose proof last_row_nonempty. nia.
Qed.

End GridArith.

Lemma row_cells_length i cnt j : length (row_cells i cnt j) = cnt.
Proof. revert j; induction cnt as [|cnt IH]; intros j; simpl; [done|]. by rewrite IH. Qed.

Lemma row_cells_lookup i cnt j (k : nat) :
  (k < cnt)%nat → row_cells i cnt j !! k = Some (i, j + Z.of_nat k).
Proof.
  revert j k; induction cnt as [|cnt IH]; intros j k Hk; [lia|].
  destruct k as [|k]; simpl.
  - do 2 f_equal. lia.
  - rewrite IH by lia. do 2 f_equal. lia.
Qed.

Lemma rows_cells_length rows cols last cnt i :
  0 ≤ cols → 0 ≤ last → i + Z.of_nat cnt = rows → (0 < cnt)%nat →
  Z.of_nat (length (rows_cells rows cols last cnt i))
  = (Z.of_nat cnt - 1) * cols + last.
Proof.
  revert i; induction cnt as [|cnt IH]; intros i Hc Hl Hi Hcnt; [lia|].
  simpl. rewrite length_app, row_cells_length. unfold row_cols at 1.
  destruct cnt as [|cnt].
  - simpl. rewrite (proj2 (Z.eqb_eq _ _)) by lia. lia.
  - rewrite Nat2Z.inj_add, IH by lia.
    rewrite (proj2 (Z.eqb_neq _ _)) by lia. lia.
Qed.

Lemma rows_cells_lookup rows cols last cnt i (k : nat) :
  0 < cols → 0 ≤ last ≤ cols → i + Z.of_nat cnt = rows →
  Z.of_nat k < (Z.of_nat cnt - 1) * cols + last →
  rows_cells rows cols last cnt i !! k
  = Some (i + Z.of_nat k / cols, Z.of_nat k mod cols).
Proof.
  revert i k; induction cnt as [|cnt IH]; intros i k Hc Hl Hi Hk; [simpl in *; nia|].
  simpl. unfold row_cols at 1.
  destruct (Z.eqb_spec i (rows - 1)) as [Hlast|Hlast].
  - assert (cnt = 0%nat) by lia. subst cnt. simpl in Hk.
    rewrite lookup_app_l by (rewrite row_cells_length; lia).
    rewrite row_cells_lookup by lia.
    rewrite Z.div_small, Z.mod_small by lia. do 2 f_equal. lia.
  - assert (0 < cnt)%nat by lia.
    destruct (decide (Z.of_nat k < cols)) as [Hlt|Hge].
    + rewrite lookup_app_l by (rewrite row_cells_length; lia).
      rewrite row_cells_lookup by lia.
      rewrite Z.div_small, Z.mod_small by lia. do 2 f_equal. lia.
    + rewrite lookup_app_r by (rewrite row_cells_length; lia).
      rewrite row_cells_length.
      rewrite IH by lia.
      replace (Z.of_nat (k - Z.to_nat cols)) with (Z.of_nat k - cols) by lia.
      replace (Z.of_nat k) with ((Z.of_nat k - cols) + 1 * cols) at 3 4 by lia.
      rewrite Z.div_add, Z.mod_add by lia.
      do 2 f_equal. lia.
Qed.

(** * Reasoning about computations in [M] *)

Section WP.
Context (N : Prop) (h : host).

Lemma wp_ret {A} (a : A) s Q : Q a s → wp N (ret a) h s Q.
Proof. done. Qed.

Lemma wp_bind {A B} (m : M A) (k : A → M B) s Q :
  wp N m h s (λ a s1, wp N (k a) h s1 Q) → wp N (bind m k) h s Q.
Proof. unfold wp, bind. by destruct (m h s) as [[a s1]|]. Qed.

Lemma wp_get s Q : Q s s → wp N get h s Q.
Proof. done. Qed.

Lemma wp_ask s Q : Q h s → wp N ask h s Q.
Proof. done. Qed.

Lemma wp_modify f s Q : Q tt (f s) → wp N (modify f) h s Q.
Proof. done. Qed.

Lemma wp_fail {A} s (Q : A → state → Prop) : N → wp N (@fail A) h s Q.
Proof. done. Qed.

Lemma wp_mono {A} (m : M A) s (Q Q' : A → state → Prop) :
  wp N m h s Q → (∀ a s', Q a s' → Q' a s') → wp N m h s Q'.
Proof. unfold wp. destruct (m h s) as [[a s1]|]; auto. Qed.

Lemma wp_for_list {A} (I : list A → state → Prop) (l : list A) (body : A → M unit) s Q :
  I l s →
  (∀ x l' s, I (x :: l') s → wp N (body x) h s (λ _ s', I l' s')) →
  (∀ s, I [] s → Q tt s) →
  wp N (for_list l body) h s Q.
Proof.
  intros HI Hbody HQ. revert s HI.
  induction l as [|x l IH]; intros s HI; simpl.
  - apply wp_ret. auto.
  - apply wp_bind. eapply wp_mono; [eapply Hbody; eauto|].
    intros u s' HI'. by apply IH.
Qed.

Lemma wp_for_keys {A} (I : list view → A → state → Prop) ks
    (body : view → A → M (bool * A)) a s Q :
  I ks a s →
  (∀ k ks' a s, I (k :: ks') a s → k ∉ dom (scale_data s) → I ks' a s) →
  (∀ k ks' a s, I (k :: ks') a s → k ∈ dom (scale_data s) →
     wp N (body k a) h s (λ r s', if r.1 then Q r.2 s' else I ks' r.2 s')) →
  (∀ a s, I [] a s → Q a s) →
  wp N (for_keys ks body a) h s Q.
Proof.
  intros HI Hskip Hbody HQ. revert a s HI.
  induction ks as [|k ks IH]; intros a s HI; simpl.
  - apply wp_ret. auto.
  - apply wp_bind, wp_get. case_bool_decide as Hk.
    + apply wp_bind. eapply wp_mono; [eapply Hbody; eauto|].
      intros [stop a'] s' Hr; simpl in *. destruct stop.
      * by apply wp_ret.
      * by apply IH.
    + apply IH; eauto.
Qed.

Lemma wp_idiv (a b : Z) s (Q : Z → state → Prop) :
  N ∨ b ≠ 0 → (b ≠ 0 → Q (Z.quot a b) s) → wp N (defined (idiv a b)) h s Q.
Proof.
  intros HN HQ. unfold idiv. destruct (b =? 0) eqn:E; simpl.
  - apply Z.eqb_eq in E. destruct HN as [?|?]; [by apply wp_fail|done].
  - apply wp_ret, HQ. by apply Z.eqb_neq.
Qed.

End WP.

Lemma idiv_run (a b : Z) h s :
  b ≠ 0 → defined (idiv a b) h s = Some (Z.quot a b, s).
Proof. intros Hb. unfold idiv. apply Z.eqb_neq in Hb. by rewrite Hb. Qed.

Lemma wp_total_partial {A} (m : M A) h s Q : wp False m h s Q → wp True m h s Q.
Proof. unfold wp. by destruct (m h s) as [[]|]. Qed.

Lemma wp_run N {A} (m : M A) h s Q a s' :
  wp N m h s Q → m h s = Some (a, s') → Q a s'.
Proof. unfold wp. intros H E. by rewrite E in H. Qed.

Lemma wp_total_run {A} (m : M A) h s Q :
  wp False m h s Q → ∃ a s', m h s = Some (a, s') ∧ Q a s'.
Proof. unfold wp. destruct (m h s) as [[a s']|]; [eauto|done]. Qed.

(** Symbolic execution of the monadic glue. *)
Ltac wp_step :=
  lazymatch goal with
  | |- wp _ (ret _) _ _ _ => apply wp_ret
  | |- wp _ (bind _ _) _ _ _ => apply wp_bind
  | |- wp _ get _ _ _ => apply wp_get
  | |- wp _ ask _ _ _ => apply wp_ask
  | |- wp _ (modify _) _ _ _ => apply wp_modify
  | |- wp _ (index _) _ _ _ => unfold index
  | |- wp _ (update _ _) _ _ _ => unfold update
  | |- wp _ (deref _) _ _ _ => unfold deref
  | |- wp _ (store _ _) _ _ _ => unfold store
  | |- wp _ (erase _) _ _ _ => unfold erase
  | |- wp _ set_hook _ _ _ => unfold set_hook
  | |- wp _ unset_hook _ _ _ => unfold unset_hook
  | |- wp _ (connect _) _ _ _ => unfold connect
  | |- wp _ (focus_view _) _ _ _ => unfold focus_view
  | |- wp _ (request_workspace _) _ _ _ => unfold request_workspace
  | |- wp _ deactivate_plugin _ _ _ => unfold deactivate_plugin
  | |- wp _ ungrab _ _ _ => unfold ungrab
  | |- wp _ connect_button_signal _ _ _ => unfold connect_button_signal
  | |- wp _ disconnect_button_signal _ _ _ => unfold disconnect_button_signal
  | |- wp _ get_views _ _ _ => unfold get_views
  | |- wp _ (scale_view _) _ _ _ => unfold scale_view
  | |- wp _ (pop_transformer _) _ _ _ => unfold pop_transformer
  end.

Ltac wp_go := repeat (wp_step; cbv beta).

(** The same without unfolding the accessors. *)
Ltac wp_glue_step :=
  lazymatch goal with
  | |- wp _ (ret _) _ _ _ => apply wp_ret
  | |- wp _ (bind _ _) _ _ _ => apply wp_bind
  | |- wp _ get _ _ _ => apply wp_get
  | |- wp _ ask _ _ _ => apply wp_ask
  | |- wp _ (modify _) _ _ _ => apply wp_modify
  end.

Ltac wp_glue := repeat (wp_glue_step; cbv beta).

(** * Order of iteration over [scale_data] *)

Lemma key_order_elem h s k :
  k ∈ key_order h s ↔ k ∈ dom (scale_data s) ∨ k ∈ h_views h.
Proof.
  unfold key_order. rewrite merge_sort_Permutation.
  rewrite elem_of_elements. set_solver.
Qed.

Lemma key_order_NoDup h s : NoDup (key_order h s).
Proof.
  unfold key_order. rewrite merge_sort_Permutation. apply NoDup_elements.
Qed.

Lemma fade_rel_refl h T A s : fade_rel h T A s s.
Proof.
  split_and!; [done|done| |].
  - intros v d Hd. exists d. naive_solver.
  - intros v d' Hd' Hn. congruence.
Qed.

Lemma fade_rel_trans h T A s1 s2 s3 :
  fade_rel h T A s1 s2 → fade_rel h T A s2 s3 → fade_rel h T A s1 s3.
Proof.
  intros (E1 & K1 & A1 & B1) (E2 & K2 & A2 & B2). split_and!.
  - congruence.
  - auto.
  - clear E1 E2. intros v d Hd.
    destruct (A1 v d Hd) as (d' & Hd' & ? & ? & ? & ? & F1).
    destruct (A2 v d' Hd') as (d'' & Hd'' & ? & ? & ? & ? & F2).
    exists d''. split_and!; try congruence.
    destruct F2 as [F2|F2]; [|by right].
    destruct F1 as [F1|F1]; [left; congruence|right].
    unfold fade_target in *. by rewrite F2.
  - clear E1 E2. intros v d'' Hd'' Hn.
    destruct (scale_data s2 !! v) as [d'|] eqn:Hd'.
    + destruct (B1 v d' Hd' Hn) as (? & ? & ? & Hp).
      destruct (A2 v d' Hd') as (dd & Hdd & ? & ? & ? & ? & _).
      assert (dd = d'') by congruence. subst dd.
      split_and!; first [congruence|done].
    + destruct (B2 v d'' Hd'' Hd') as (? & ? & ? & [HA|(p & (d & Hp & Hf) & Hc)]).
      { split_and!; auto. }
      split_and!; try done. right.
      destruct (scale_data s1 !! p) as [d1'|] eqn:Hp1.
      * destruct (A1 p d1' Hp1) as (dd & Hdd & ? & ? & ? & ? & _).
        exists p. split; [|done]. exists d1'. split; congruence.
      * destruct (B1 p d Hp Hp1) as (? & _). congruence.
Qed.

Lemma fade_rel_weaken h (T T' : double → Prop) (A A' : view → Prop) s s' :
  (∀ x, T x → T' x) → (∀ v, scale_data s !! v = None → A v → A' v) →
  fade_rel h T A s s' → fade_rel h T' A' s s'.
Proof.
  intros HT HA (E & K & HA1 & B). split_and!; try done.
  - intros v d Hd. destruct (HA1 v d Hd) as (d' & ? & ? & ? & ? & ? & F).
    exists d'. split_and!; try done. destruct F; auto.
  - intros v d' Hd' Hn.
    destruct (B v d' Hd' Hn) as (? & ? & ? & [?|?]); split_and!; auto.
Qed.

Lemma but_fades_transformers s s' :
  but_fades s' = but_fades s → transformers s' = transformers s.
Proof. intros E. by apply (f_equal transformers) in E. Qed.

Lemma fade_rel_consistent h T A s s' :
  fade_rel h T A s s' → consistent s → consistent s'.
Proof.
  intros (E & K & HA & B) Hc v. apply but_fades_transformers in E.
  rewrite E. rewrite <- (Hc v). split.
  - intros (d' & Hd' & Hf).
    destruct (scale_data s !! v) as [d|] eqn:Hd.
    + destruct (HA v d Hd) as (dd & ? & ? & ? & ? & _). exists d. split; congruence.
    + destruct (B v d' Hd' Hd) as (? & _). congruence.
  - intros (d & Hd & Hf).
    destruct (HA v d Hd) as (d' & ? & ? & ? & ? & _). exists d'. split; congruence.
Qed.

(** One step of a fade on the record of [v]. *)
Lemma fade_rel_step_gen h T A s s1 v d (f : simple_animation_t) :
  but_fades s1 = but_fades s → (hook_set s = true → hook_set s1 = true) →
  scale_data s !! v = Some d →
  T (tt_end (fa_transition f)) →
  fade_rel h T A s
    (set_scale_data (<[v := set_fade_animation f d]> (scale_data s)) s1).
Proof.
  intros E Hk Hd HT. split_and!; simpl.
  - rewrite <- E. by destruct s1.
  - by destruct s1.
  - intros w dw Hw. destruct (decide (v = w)) as [->|Hne].
    + rewrite lookup_insert_eq. exists (set_fade_animation f d).
      assert (dw = d) by congruence. subst. split_and!; auto.
    + rewrite lookup_insert_ne by done. exists dw. split_and!; auto.
  - intros w dw Hw Hn. destruct (decide (v = w)) as [->|Hne]; [congruence|].
    rewrite lookup_insert_ne in Hw by done. congruence.
Qed.

Lemma fade_rel_step h T A s v d (f : simple_animation_t) :
  scale_data s !! v = Some d → T (tt_end (fa_transition f)) →
  fade_rel h T A s
    (set_scale_data (<[v := set_fade_animation f d]> (scale_data s)) s).
Proof. by apply fade_rel_step_gen. Qed.

Lemma fade_rel_step_hook h T A s v d (f : simple_animation_t) :
  scale_data s !! v = Some d → T (tt_end (fa_transition f)) →
  fade_rel h T A s
    (set_scale_data (<[v := set_fade_animation f d]> (scale_data s))
       (set_hook_set true s)).
Proof. apply fade_rel_step_gen; [by destruct s|done]. Qed.

Lemma fade_rel_insert h T (A : view → Prop) s v :
  scale_data s !! v = None → A v →
  fade_rel h T A s
    (set_scale_data (<[v := default_view_scale_data h]> (scale_data s)) s).
Proof.
  intros Hd HA. split_and!; simpl; [by destruct s|done| |].
  - intros w dw Hw. destruct (decide (v = w)) as [->|Hne]; [congruence|].
    rewrite lookup_insert_ne by done. exists dw. split_and!; auto.
  - intros w dw Hw Hn. destruct (decide (v = w)) as [->|Hne].
    + rewrite lookup_insert_eq in Hw. injection Hw as <-. split_and!; auto.
    + rewrite lookup_insert_ne in Hw by done. congruence.
Qed.

Lemma fade_rel_child h T s s' s'' v c :
  flagged s v → c ∈ children h v →
  fade_rel h T (arg (Some v)) s s' →
  fade_rel h T (arg (Some c)) s' s'' →
  fade_rel h T (arg (Some v)) s s''.
Proof.
  intros Hv Hc R1 R2. eapply fade_rel_trans; [exact R1|].
  destruct R2 as (E & K & HA & B). split_and!; try done.
  intros k d' Hd' Hn. destruct (B k d' Hd' Hn) as (? & ? & ? & [Ha|?]); split_and!; auto.
  injection Ha as <-. right. exists v. split; [|done].
  destruct Hv as (d & Hd & Hf). destruct R1 as (_ & _ & HA1 & _).
  destruct (HA1 v d Hd) as (dd & ? & ? & ? & ? & _). exists dd. split; congruence.
Qed.

Lemma fade_in_rel N h : ∀ fuel ov s,
  consistent s →
  N ∨ (shallow h ∧ ((0 < fuel)%nat
                   ∨ match ov with Some v => children h v = [] | None => True end)) →
  wp N (fade_in fuel ov) h s (λ _ s', fade_rel h (λ x, x = d1) (arg ov) s s').
Proof.
  intros fuel. induction fuel as [|fuel IH]; intros ov s Hc HN.
  all: destruct ov as [v|]; simpl; [|apply wp_ret, fade_rel_refl].
  all: wp_go.
  all: destruct (scale_data s !! v) as [d|] eqn:Hd; wp_go; simpl;
       [|apply fade_rel_insert; done].
  all: destruct (transformer d) eqn:Hf; simpl; [|apply wp_ret, fade_rel_refl].
  all: wp_go.
  all: assert (is_Some (transformers s !! v)) as [t Ht]
         by (apply Hc; exists d; done).
  all: destruct (hook_set s) eqn:Hk; wp_go; simpl; rewrite Hd, Hf, ?Ht; wp_go; simpl;
       rewrite Hd; wp_go; simpl.
  all: match goal with
       | |- wp _ _ _ ?s' _ =>
           assert (fade_rel h (λ x, x = d1) (arg (Some v)) s s') as Hstep
             by (first [ apply fade_rel_step | apply fade_rel_step_hook ]; done)
       end.
  all: destruct (children h v) as [|c cs] eqn:Hch; [by apply wp_ret|].
  1,2: apply wp_fail; destruct HN as [?|[? [?|?]]]; [done|lia|done].
  all: eapply wp_mono;
    [ apply IH;
      [ eapply fade_rel_consistent; eauto
      | destruct HN as [?|[Hsh _]]; [by left|right]; split; [done|right];
        apply (proj1 Hsh) with v; rewrite Hch; apply list_elem_of_here ]
    | intros u s'' R2; simpl in R2; eapply fade_rel_child; eauto;
      [ exists d; done | rewrite Hch; apply list_elem_of_here ] ].
Qed.

Lemma fade_out_rel N h : ∀ fuel ov s,
  consistent s →
  N ∨ (shallow h ∧ ((0 < fuel)%nat
                   ∨ match ov with Some v => children h v = [] | None => True end)) →
  wp N (fade_out fuel ov) h s
    (λ _ s', fade_rel h (λ x, x = inactive_alpha h) (arg ov) s s').
Proof.
  intros fuel. induction fuel as [|fuel IH]; intros ov s Hc HN.
  all: destruct ov as [v|]; simpl; [|apply wp_ret, fade_rel_refl].
  all: wp_go.
  all: destruct (scale_data s !! v) as [d|] eqn:Hd; wp_go; simpl;
       [|apply fade_rel_insert; done].
  all: destruct (transformer d) eqn:Hf; simpl; [|apply wp_ret, fade_rel_refl].
  all: wp_go.
  all: assert (is_Some (transformers s !! v)) as [t Ht]
         by (apply Hc; exists d; done).
  all: destruct (hook_set s) eqn:Hk; wp_go; simpl; rewrite Hd, Hf, ?Ht; wp_go; simpl;
       rewrite Hd; wp_go; simpl.
  all: match goal with
       | |- wp _ _ _ ?s' _ =>
           assert (fade_rel h (λ x, x = inactive_alpha h) (arg (Some v)) s s') as Hstep
             by (first [ apply fade_rel_step | apply fade_rel_step_hook ]; done)
       end.
  1,2: destruct (children h v) as [|c cs] eqn:Hch; [by apply wp_ret|];
       apply wp_fail; destruct HN as [?|[? [?|?]]]; [done|lia|done].
  all: apply (wp_for_list N h
         (λ l s1, (∀ c, c ∈ l → c ∈ children h v) ∧ consistent s1 ∧
            fade_rel h (λ x, x = inactive_alpha h) (arg (Some v)) s s1)).
  all: try (split_and!; [done|eapply fade_rel_consistent; eauto|done]).
  all: try (intros ? (_ & _ & ?); done).
  all: intros c l s1 (Hl & Hc1 & R1); eapply wp_mono;
    [ apply IH; [done|];
      destruct HN as [?|[Hsh _]]; [by left|right]; split; [done|right];
      apply (proj1 Hsh) with v; apply Hl, list_elem_of_here
    | intros u s2 R2; simpl in R2; split_and!;
      [ intros c' Hc'; apply Hl; by apply list_elem_of_further
      | eapply fade_rel_consistent; eauto
      | eapply fade_rel_child; eauto;
        [ exists d; done | apply Hl, list_elem_of_here ] ] ].
Qed.

Lemma fade_rel_no_arg h T s s' v :
  is_Some (scale_data s !! v) →
  fade_rel h T (arg (Some v)) s s' → fade_rel h T (λ _, False) s s'.
Proof.
  intros [d Hd]. apply fade_rel_weaken; [done|].
  intros k Hk [= ->]. congruence.
Qed.

Lemma fade_out_all_except_rel N h ov s :
  consistent s → N ∨ shallow h →
  wp N (fade_out_all_except ov) h s
    (λ _ s', fade_rel h (λ x, x = inactive_alpha h) (λ _, False) s s').
Proof.
  intros Hc HN. unfold fade_out_all_except, for_scale_data_, for_scale_data.
  wp_go.
  apply (wp_for_keys N h
           (λ _ _ s1, consistent s1 ∧
              fade_rel h (λ x, x = inactive_alpha h) (λ _, False) s s1)).
  - split; [done|apply fade_rel_refl].
  - done.
  - intros k ks' [] s1 (Hc1 & R1) Hk. wp_go.
    apply elem_of_dom in Hk as [dk Hdk]. rewrite Hdk.
    match goal with |- wp _ (if ?c then _ else _) _ _ _ => destruct c end.
    + wp_go. done.
    + eapply wp_mono.
      * apply fade_out_rel; [done|]. destruct HN as [?|?]; [by left|right].
        split; [done|left]. unfold tree_fuel. lia.
      * intros u s2 R2. simpl in R2. wp_go. simpl.
        apply fade_rel_no_arg in R2; [|by eauto].
        split; [eapply fade_rel_consistent; eauto|].
        eapply fade_rel_trans; eauto.
  - intros [] s1 (_ & R1). done.
Qed.

Lemma wp_eq N {A} (m : M A) h s a s' (Q : A → state → Prop) :
  m h s = Some (a, s') → Q a s' → wp N m h s Q.
Proof. unfold wp. by intros ->. Qed.

(** * The accessors as equations *)

Lemma add_transformer_run h s v :
  add_transformer (Some v) h s =
  if bool_decide (is_Some (transformers s !! v)) then Some (false, s)
  else Some (true,
    set_signals
      (set_c_view_geometry_changed ({[ v ]} ∪ c_view_geometry_changed (signals s))
         (signals s))
      (set_transformers (<[v := new_wf_scale]> (transformers s))
         (set_scale_data
            (<[v := set_transformer true (record_or_default h s v)]> (scale_data s)) s))).
Proof.
  unfold add_transformer, record_or_default, bind, get. case_bool_decide; [done|].
  unfold index, update, connect, bind, get, ask, modify, ret.
  destruct (scale_data s !! v) as [d|] eqn:Hd; simpl.
  - rewrite Hd. simpl. done.
  - rewrite lookup_insert_eq. simpl. rewrite insert_insert_eq. done.
Qed.

Lemma setup_view_transform_run h s v d t sx sy tx ty a :
  scale_data s !! v = Some d → transformer d = true → transformers s !! v = Some t →
  setup_view_transform v sx sy tx ty a h s =
  Some (tt, set_scale_data
              (<[v := setup_record (now h) t sx sy tx ty a d]> (scale_data s)) s).
Proof.
  intros Hd Hf Ht. unfold setup_view_transform, deref, update, bind, get, ask, modify, ret.
  by rewrite Hd, Hf, Ht, Hd.
Qed.

Lemma update_run h s v d f :
  scale_data s !! v = Some d →
  update v f h s = Some (tt, set_scale_data (<[v := f d]> (scale_data s)) s).
Proof. intros Hd. unfold update, bind, get, modify. by rewrite Hd. Qed.

Lemma deref_run h s v d t :
  scale_data s !! v = Some d → transformer d = true → transformers s !! v = Some t →
  deref v h s = Some (t, s).
Proof. intros Hd Hf Ht. unfold deref, bind, get, ret. by rewrite Hd, Hf, Ht. Qed.

Lemma store_run h s v d t f :
  scale_data s !! v = Some d → transformer d = true → transformers s !! v = Some t →
  store v f h s = Some (tt, set_transformers (<[v := f t]> (transformers s)) s).
Proof.
  intros Hd Hf Ht. unfold store, bind, get, modify.
  by rewrite (deref_run h s v d t).
Qed.

Lemma index_run h s v :
  index v h s =
  Some (record_or_default h s v,
        match scale_data s !! v with
        | Some _ => s
        | None => set_scale_data (<[v := default_view_scale_data h]> (scale_data s)) s
        end).
Proof.
  unfold index, record_or_default, bind, get, ask, modify, ret.
  by destruct (scale_data s !! v).
Qed.

(** * Consistency under the elementary changes *)

Lemma consistent_ext s s' :
  scale_data s' = scale_data s → transformers s' = transformers s →
  consistent s → consistent s'.
Proof. intros E1 E2 Hc v. rewrite E1, E2. apply Hc. Qed.

Lemma consistent_update s v d d' :
  scale_data s !! v = Some d → transformer d' = transformer d →
  consistent s → consistent (set_scale_data (<[v := d']> (scale_data s)) s).
Proof.
  intros Hd Hf Hc w. simpl.
  rewrite <- (Hc w). destruct (decide (v = w)) as [<-|Hne].
  - rewrite lookup_insert_eq.
    split; intros (x & Hx & Hfx); simplify_eq; [exists d|exists d']; split; congruence.
  - by rewrite lookup_insert_ne.
Qed.

Lemma consistent_insert_default h s v :
  scale_data s !! v = None → consistent s →
  consistent (set_scale_data (<[v := default_view_scale_data h]> (scale_data s)) s).
Proof.
  intros Hd Hc w. simpl.
  rewrite <- (Hc w). destruct (decide (v = w)) as [<-|Hne].
  - rewrite lookup_insert_eq, Hd. split; intros (x & Hx & Hfx); simplify_eq.
  - by rewrite lookup_insert_ne.
Qed.

Lemma consistent_store s v t t' :
  transformers s !! v = Some t → consistent s →
  consistent (set_transformers (<[v := t']> (transformers s)) s).
Proof.
  intros Ht Hc w. simpl. rewrite (Hc w). destruct (decide (v = w)) as [<-|Hne].
  - rewrite lookup_insert_eq, Ht. split; eauto.
  - by rewrite lookup_insert_ne.
Qed.

Lemma consistent_attach s v d t sg :
  consistent s →
  consistent
    (set_signals sg
       (set_transformers (<[v := t]> (transformers s))
          (set_scale_data (<[v := set_transformer true d]> (scale_data s)) s))).
Proof.
  intros Hc w. simpl. destruct (decide (v = w)) as [<-|Hne].
  - rewrite !lookup_insert_eq. split; eauto.
  - rewrite !lookup_insert_ne by done. apply Hc.
Qed.

Lemma consistent_detach s v :
  consistent s →
  consistent (set_scale_data (delete v (scale_data s))
                (set_transformers (delete v (transformers s)) s)).
Proof.
  intros Hc w. simpl. destruct (decide (v = w)) as [<-|Hne].
  - rewrite !lookup_delete_eq. split; [intros (? & ? & ?)|intros [? ?]]; done.
  - rewrite !lookup_delete_ne by done. apply Hc.
Qed.

Lemma consistent_flagged s v :
  consistent s → flagged s v ↔ is_Some (transformers s !! v).
Proof. intros Hc. apply Hc. Qed.

Lemma add_transformer_consistent N h s ov :
  consistent s →
  wp N (add_transformer ov) h s
    (λ b s', consistent s' ∧ but_layout s' = but_layout s ∧
             (∀ v, ov = Some v → flagged s' v) ∧
             (∀ w, ov ≠ Some w → scale_data s' !! w = scale_data s !! w)).
Proof.
  intros Hc. destruct ov as [v|]; [|apply wp_ret; split_and!; done].
  unfold wp. rewrite add_transformer_run. case_bool_decide as Ha; simpl.
  - split_and!; try done. intros ? [= <-]. by apply Hc.
  - split_and!.
    + by apply consistent_attach.
    + by destruct s.
    + intros ? [= <-]. unfold flagged. simpl. eexists. rewrite lookup_insert_eq. done.
    + intros w Hw. rewrite lookup_insert_ne; [done|congruence].
Qed.

(** * Local changes *)

Lemma keeps_refl W s : keeps W s s.
Proof. done. Qed.

Lemma keeps_trans W s1 s2 s3 : keeps W s1 s2 → keeps W s2 s3 → keeps W s1 s3.
Proof.
  intros (E1 & A1 & F1) (E2 & A2 & F2). split_and!; [congruence| |auto].
  intros w Hw. rewrite A2, A1; done.
Qed.

Lemma keeps_weaken (W W' : view → Prop) s s' :
  (∀ w, W w → W' w) → keeps W s s' → keeps W' s s'.
Proof. intros HW (E & A & F). split_and!; auto. Qed.

Lemma wp_bind_eq N {A B} (m : M A) (k : A → M B) h s a s1 Q :
  m h s = Some (a, s1) → wp N (k a) h s1 Q → wp N (bind m k) h s Q.
Proof. unfold wp, bind. by intros ->. Qed.

Lemma wp_update N h s v f :
  (∀ d, transformer (f d) = transformer d) →
  consistent s → N ∨ is_Some (scale_data s !! v) →
  wp N (update v f) h s
    (λ _ s', consistent s' ∧ keeps (λ w, w = v) s s' ∧
             but_scale_data s' = but_scale_data s ∧
             ∃ d, scale_data s !! v = Some d ∧ scale_data s' !! v = Some (f d)).
Proof.
  intros Hf Hc HN. wp_go. destruct (scale_data s !! v) as [d|] eqn:Hd.
  - wp_go. split_and!.
    + eapply consistent_update; eauto.
    + split_and!; simpl; [by destruct s| |].
      * intros w Hw. by rewrite lookup_insert_ne.
      * intros w (dw & Hdw & Hfw). unfold flagged. simpl.
        destruct (decide (v = w)) as [<-|Hne].
        -- rewrite lookup_insert_eq. eexists; split; [done|]. rewrite Hf. congruence.
        -- rewrite lookup_insert_ne by done. eauto.
    + by destruct s.
    + exists d. simpl. by rewrite lookup_insert_eq.
  - apply wp_fail. destruct HN as [?|[? ?]]; done.
Qed.

Lemma wp_deref N h s v (Q : wf_scale → state → Prop) :
  consistent s → N ∨ flagged s v →
  (∀ d t, scale_data s !! v = Some d → transformer d = true →
          transformers s !! v = Some t → Q t s) →
  wp N (deref v) h s Q.
Proof.
  intros Hc HN HQ. wp_go. destruct (scale_data s !! v) as [d|] eqn:Hd.
  - destruct (transformer d) eqn:Hf.
    + assert (is_Some (transformers s !! v)) as [t Ht] by (apply Hc; eauto).
      rewrite Ht. wp_go. eauto.
    + apply wp_fail. destruct HN as [?|(? & ? & ?)]; [done|congruence].
  - apply wp_fail. destruct HN as [?|(? & ? & ?)]; [done|congruence].
Qed.

Lemma wp_store N h s v f :
  consistent s → N ∨ flagged s v →
  wp N (store v f) h s
    (λ _ s', consistent s' ∧ keeps (λ _, False) s s' ∧
             scale_data s' = scale_data s ∧
             dom (transformers s') = dom (transformers s)).
Proof.
  intros Hc HN. wp_go. apply wp_deref; [done..|].
  intros d t Hd Hf Ht. wp_go. split_and!.
  - by eapply consistent_store.
  - split_and!; simpl; [by destruct s|done|done].
  - done.
  - simpl. rewrite dom_insert_L. apply elem_of_dom_2 in Ht.
    apply subseteq_union_1_L, singleton_subseteq_l, Ht.
Qed.

Lemma wp_setup N h s v sx sy tx ty a :
  consistent s → N ∨ flagged s v →
  wp N (setup_view_transform v sx sy tx ty a) h s
    (λ _ s', consistent s' ∧ keeps (λ w, w = v) s s' ∧
             but_scale_data s' = but_scale_data s ∧
             ∃ d t, scale_data s !! v = Some d ∧ transformers s !! v = Some t ∧
                    scale_data s' !! v
                    = Some (setup_record (now h) t sx sy tx ty a d)).
Proof.
  intros Hc HN. unfold setup_view_transform. wp_go. apply wp_deref; [done..|].
  intros d t Hd Hf Ht. wp_go. eapply wp_mono.
  - apply wp_update; [done|done|]. right. eauto.
  - intros u s' (Hc' & K' & E' & d' & Hd' & Hd''). assert (d' = d) by congruence.
    subst d'. split_and!; [done|done|done|]. exists d, t. done.
Qed.

Lemma wp_add_transformer N h s ov :
  consistent s →
  wp N (add_transformer ov) h s
    (λ b s', consistent s' ∧ keeps (λ w, ov = Some w) s s' ∧
             (∀ v, ov = Some v → flagged s' v)).
Proof.
  intros Hc. destruct ov as [v|]; [|apply wp_ret; split_and!; done].
  unfold wp. rewrite add_transformer_run. case_bool_decide as Ha; simpl.
  - split_and!; try done. intros ? [= <-]. by apply Hc.
  - split_and!.
    + by apply consistent_attach.
    + split_and!; simpl; [by destruct s| |].
      * intros w Hw. rewrite lookup_insert_ne; [done|congruence].
      * intros w (dw & Hdw & Hfw). unfold flagged. simpl.
        destruct (decide (v = w)) as [<-|Hne].
        -- rewrite lookup_insert_eq. eauto.
        -- rewrite lookup_insert_ne by done. eauto.
    + intros ? [= <-]. unfold flagged. simpl. eexists. rewrite lookup_insert_eq. done.
Qed.

Lemma wp_index N h s v (Q : view_scale_data → state → Prop) :
  (∀ d, scale_data s !! v = Some d → Q d s) →
  (scale_data s !! v = None →
   Q (default_view_scale_data h)
     (set_scale_data (<[v := default_view_scale_data h]> (scale_data s)) s)) →
  wp N (index v) h s Q.
Proof.
  intros H1 H2. wp_go. destruct (scale_data s !! v) as [d|] eqn:Hd; wp_go; auto.
Qed.

(** * [layout_slots]: one child *)

Lemma layout_child_spec N h s v i j c scale alpha child :
  consistent s → N ∨ flagged s v →
  wp N (layout_child v i j c scale alpha child) h s
    (λ _ s', consistent s' ∧ keeps (λ w, w = child) s s' ∧
             ∃ d, scale_data s' !! child = Some d ∧ transformer d = true ∧
                  row d = i ∧ col d = j ∧
                  target_of d =
                    if active s
                    then (scale, scale,
                          d_of_Z (view_translation_x c (wm_geometry h child)),
                          d_of_Z (view_translation_y c (wm_geometry h child)), alpha)
                    else identity_target).
Proof.
  intros Hc HN. unfold layout_child. wp_glue.
  apply wp_deref; [done..|]. intros dv tv Hdv Hfv Htv. wp_glue.
  eapply wp_mono; [by apply wp_add_transformer|].
  intros new_child s1 (Hc1 & K1 & Fl1). cbv beta.
  specialize (Fl1 child eq_refl).
  assert (flagged s1 v) as Hv1 by (apply K1; exists dv; done).
  wp_glue. apply wp_index.
  2:{ intros Hn. destruct Fl1 as (? & ? & ?). congruence. }
  intros dc Hdc.
  set (P := λ s2, consistent s2 ∧ keeps (λ w, w = child) s s2 ∧ flagged s2 child
                   ∧ active s2 = active s).
  assert (P s1) as HP1.
  { split_and!; try done. eapply keeps_weaken; [|exact K1]. naive_solver.
    destruct K1 as (E & _). by apply (f_equal active) in E. }
  assert (∀ s2, P s2 →
    wp N
      (bind (if active s
             then setup_view_transform child scale scale
                    (d_of_Z (view_translation_x c (wm_geometry h child)))
                    (d_of_Z (view_translation_y c (wm_geometry h child))) alpha
             else setup_view_transform child d1 d1 d0 d0 d1)
         (λ _, bind (update child (set_row i)) (λ _, update child (set_col j))))
      h s2
      (λ _ s', consistent s' ∧ keeps (λ w, w = child) s s' ∧
         ∃ d, scale_data s' !! child = Some d ∧ transformer d = true ∧
              row d = i ∧ col d = j ∧
              target_of d =
                if active s
                then (scale, scale,
                      d_of_Z (view_translation_x c (wm_geometry h child)),
                      d_of_Z (view_translation_y c (wm_geometry h child)), alpha)
                else identity_target)) as Hrest.
  { intros s2 (Hc2 & K2 & Fl2 & Ha2). wp_glue.
    destruct (active s) eqn:Hact.
    all: (eapply wp_mono; [apply wp_setup; auto|]).
    all: intros u s3 (Hc3 & K3 & _ & d3 & t3 & Hd3 & Ht3 & Hd3'); cbv beta; wp_glue.
    all: (eapply wp_mono; [apply wp_update; [done|done|right; eauto]|]).
    all: intros u' s4 (Hc4 & K4 & _ & d4 & Hd4 & Hd4'); cbv beta.
    all: (eapply wp_mono; [apply wp_update; [done|done|right; eauto]|]).
    all: intros u'' s5 (Hc5 & K5 & _ & d5 & Hd5 & Hd5'); cbv beta.
    all: split_and!; [done|eauto using keeps_trans|].
    all: simplify_eq; eexists; split; [done|].
    all: destruct Fl2 as (dd & Hdd & Hff); simplify_eq.
    all: simpl; split_and!; done. }
  apply wp_bind. destruct new_child.
  - apply wp_bind. apply wp_deref; [done|by right|]. intros dv1 tv1 _ _ _.
    eapply wp_mono; [apply wp_store; [done|by right]|].
    intros u s2 (Hc2 & K2 & Hsd & _). cbv beta. apply Hrest.
    destruct HP1 as (_ & ? & ? & ?). split_and!; try done.
    + eapply keeps_trans; [done|]. eapply keeps_weaken; [|exact K2]. done.
    + by apply K2.
    + destruct K2 as (E & _). apply (f_equal active) in E. simpl in E. congruence.
  - apply wp_ret. by apply Hrest.
Qed.

Lemma keeps_active W s s' : keeps W s s' → active s' = active s.
Proof. intros (E & _). by apply (f_equal active) in E. Qed.

Lemma keeps_grid W s s' :
  keeps W s s' →
  grid_rows s' = grid_rows s ∧ grid_cols s' = grid_cols s ∧
  grid_last_row_cols s' = grid_last_row_cols s.
Proof.
  intros (E & _). split_and!.
  - by apply (f_equal grid_rows) in E.
  - by apply (f_equal grid_cols) in E.
  - by apply (f_equal grid_last_row_cols) in E.
Qed.

Lemma slot_is_keeps (W : view → Prop) s s' w i j t :
  keeps W s s' → ¬ W w → slot_is s w i j t → slot_is s' w i j t.
Proof.
  intros (_ & A & _) Hw (d & Hd & ?). exists d. rewrite A; done.
Qed.

(** * [layout_slots]: one view *)

Lemma layout_view_spec N h s av i j c v :
  consistent s →
  wp N (layout_view av i j c v) h s
    (λ _ s', consistent s' ∧ keeps (λ w, w ∈ tree h v) s s' ∧
             (NoDup (tree h v) →
              placed h s' (active s) av (mk_placement v i j c))).
Proof.
  intros Hc. unfold layout_view. wp_glue.
  eapply wp_mono; [by apply wp_add_transformer|].
  intros b s1 (Hc1 & K1 & Fl1). cbv beta. specialize (Fl1 v eq_refl).
  wp_glue. apply wp_index.
  2:{ intros Hn. destruct Fl1 as (? & ? & ?). congruence. }
  intros dv Hdv. wp_glue.
  set (tv := view_target h (active s) av c v).
  assert (∀ s2 d, scale_data s2 !! v = Some d → transformer d = true →
            target_of d = tv →
            slot_is (set_scale_data (<[v := set_col j (set_row i d)]> (scale_data s2)) s2)
              v i j tv) as Hslot_gen.
  { intros s2 d Hd Hf Ht. eexists. simpl. rewrite lookup_insert_eq.
    split; [done|]. simpl. done. }
  eapply wp_mono with
    (Q := λ _ s2, consistent s2 ∧ keeps (λ w, w = v) s1 s2 ∧
            ∃ d, scale_data s2 !! v = Some d ∧ transformer d = true ∧ target_of d = tv).
  { subst tv. unfold view_target. destruct (active s).
    all: (eapply wp_mono; [apply wp_setup; auto|]).
    all: intros u s2 (Hc2 & K2 & _ & d2 & t2 & Hd2 & Ht2 & Hd2'); cbv beta.
    all: split_and!; [done|done|].
    all: eexists; split; [done|].
    all: destruct Fl1 as (dd & Hdd & Hff); simplify_eq.
    all: simpl; split; done. }
  intros u s2 (Hc2 & K2 & d2 & Hd2 & Hf2 & Ht2). cbv beta. wp_glue.
  eapply wp_mono; [apply wp_update; [done|done|right; eauto]|].
  intros u' s3 (Hc3 & K3 & _ & d3 & Hd3 & Hd3'). cbv beta. wp_glue.
  eapply wp_mono; [apply wp_update; [done|done|right; eauto]|].
  intros u'' s4 (Hc4 & K4 & _ & d4 & Hd4 & Hd4'). cbv beta.
  assert (d3 = d2) by congruence. assert (d4 = set_row i d3) by congruence.
  subst d3 d4.
  assert (keeps (λ w, w ∈ tree h v) s s4) as K04.
  { eapply keeps_trans; [eapply keeps_weaken; [|exact K1]|].
    { intros w [= ->]. apply list_elem_of_here. }
    eapply keeps_weaken with (W := λ w, w = v).
    { intros w ->. apply list_elem_of_here. }
    eauto using keeps_trans. }
  assert (slot_is s4 v i j tv) as Hslot.
  { eexists. split; [done|]. simpl. split_and!; done. }
  clear Hslot_gen.
  apply (wp_for_list N h
    (λ l s5, ∃ pre, children h v = pre ++ l ∧ consistent s5 ∧
       keeps (λ w, w ∈ tree h v) s s5 ∧ flagged s5 v ∧
       (NoDup (tree h v) →
        slot_is s5 v i j tv ∧
        ∀ ch, ch ∈ pre → slot_is s5 ch i j (child_target h (active s) av c v ch)))).
  - exists []. split_and!; try done.
    + eexists. split; [done|]. done.
    + intros _. split; [done|]. intros ch Hch. by apply elem_of_nil in Hch.
  - intros ch l s5 (pre & Hpre & Hc5 & K5 & Fl5 & Hplaced).
    eapply wp_mono; [apply layout_child_spec; [done|by right]|].
    intros u3 s6 (Hc6 & K6 & d6 & Hd6 & Hf6 & Hr6 & Hcol6 & Ht6). cbv beta.
    exists (pre ++ [ch]). split_and!.
    + by rewrite <- app_assoc.
    + done.
    + eapply keeps_trans; [exact K5|]. eapply keeps_weaken; [|exact K6].
      intros w ->. apply list_elem_of_further. rewrite Hpre.
      apply elem_of_app. right. apply list_elem_of_here.
    + by apply K6.
    + intros Hnd. specialize (Hplaced Hnd) as (Hv & Hchs).
      assert (ch ∈ children h v) as Hin
        by (rewrite Hpre; apply elem_of_app; right; apply list_elem_of_here).
      unfold tree in Hnd. apply NoDup_cons in Hnd as (Hnv & Hndc).
      rewrite Hpre in Hndc. apply NoDup_app in Hndc as (_ & Hdisj & _).
      split.
      * eapply slot_is_keeps; [exact K6| |done]. intros ->. done.
      * intros ch' Hch'. apply elem_of_app in Hch' as [Hch'|Hch'].
        -- eapply slot_is_keeps; [exact K6| |by apply Hchs].
           intros ->. apply (Hdisj ch Hch'). apply list_elem_of_here.
        -- apply list_elem_of_singleton in Hch' as ->.
           exists d6. split_and!; try done. rewrite Ht6.
           rewrite (keeps_active _ _ _ K5). unfold child_target.
           destruct (active s); done.
  - intros s5 (pre & Hpre & Hc5 & K5 & Fl5 & Hplaced). rewrite app_nil_r in Hpre.
    subst pre. split_and!; try done.
Qed.

Lemma placed_keeps (W : view → Prop) h s s' act av p :
  keeps W s s' → (∀ w, w ∈ tree h (pl_view p) → ¬ W w) →
  placed h s act av p → placed h s' act av p.
Proof.
  intros K HW (Hv & Hch). split.
  - eapply slot_is_keeps; [exact K| |done]. apply HW, list_elem_of_here.
  - intros ch Hin. eapply slot_is_keeps; [exact K| |by apply Hch].
    apply HW. by apply list_elem_of_further.
Qed.

(** * [layout_slots]: one row *)

Lemma plan_row_S sp views i y width height cnt j x slots v :
  views !! slots = Some v →
  plan_row sp views i y width height (S cnt) j x slots
  = mk_placement v i j (mk_cell x y width height)
      :: plan_row sp views i y width height cnt (j + 1)
           (dadd x (dadd width (d_of_Z sp))) (S slots).
Proof. intros H. simpl. by rewrite H. Qed.

Lemma covered_cons h p ps : covered h (p :: ps) = tree h (pl_view p) ++ covered h ps.
Proof. done. Qed.

Lemma covered_app h ps qs : covered h (ps ++ qs) = covered h ps ++ covered h qs.
Proof. unfold covered. apply flat_map_app. Qed.

Lemma covered_elem h ps p w : p ∈ ps → w ∈ tree h (pl_view p) → w ∈ covered h ps.
Proof.
  intros Hp Hw. apply list_elem_of_In, in_flat_map. exists p.
  split; by apply list_elem_of_In.
Qed.

Lemma layout_row_spec N h av views i y width height : ∀ cnt j x slots s,
  consistent s → N ∨ (slots + cnt ≤ length views)%nat →
  wp N (layout_row views av i y width height cnt j x slots) h s
    (λ r s', r = (slots + cnt)%nat ∧ consistent s' ∧
       keeps (λ w, w ∈ covered h (plan_row (spacing h) views i y width height cnt j x slots))
         s s' ∧
       (NoDup (covered h (plan_row (spacing h) views i y width height cnt j x slots)) →
        ∀ p, p ∈ plan_row (spacing h) views i y width height cnt j x slots →
             placed h s' (active s) av p)).
Proof.
  induction cnt as [|cnt IH]; intros j x slots s Hc HN.
  - apply wp_ret. split_and!; [lia|done|done|].
    intros _ p Hp. by apply elem_of_nil in Hp.
  - destruct (views !! slots) as [v|] eqn:Hv.
    2:{ simpl. rewrite Hv. apply wp_fail. destruct HN as [?|HN]; [done|].
        apply lookup_ge_None in Hv. lia. }
    rewrite (plan_row_S _ _ _ _ _ _ _ _ _ _ _ Hv), covered_cons.
    cbn [layout_row]. rewrite Hv.
    wp_glue. eapply wp_mono; [by apply layout_view_spec|].
    intros u s1 (Hc1 & K1 & P1). cbv beta.
    eapply wp_mono; [apply IH; [done|destruct HN; [by left|right; lia]]|].
    intros r s' (-> & Hc' & K' & P'). cbv beta.
    set (rest := plan_row (spacing h) views i y width height cnt (j + 1)
                   (dadd x (dadd width (d_of_Z (spacing h)))) (S slots)) in *.
    split_and!; [lia|done| |].
    + eapply keeps_trans; (eapply keeps_weaken; [|eassumption]).
      * intros w Hw. apply elem_of_app. by left.
      * intros w Hw. apply elem_of_app. by right.
    + intros Hnd.
      apply NoDup_app in Hnd as (Hnd1 & Hdisj & Hnd2).
      intros p Hp. apply elem_of_cons in Hp as [->|Hp].
      * eapply placed_keeps; [exact K'| |by apply P1].
        intros w Hw Hw'. by apply (Hdisj w).
      * rewrite <- (keeps_active _ _ _ K1). by apply P'.
Qed.

(** * [layout_slots]: all rows *)

Lemma layout_rows_spec N h av views lines cols last height : ∀ cnt i y slots s,
  consistent s → grid_cols s = cols → grid_last_row_cols s = last →
  N ∨ (cols ≠ 0 ∧ last ≠ 0 ∧
       (slots + length (rows_cells lines cols last cnt i) ≤ length views)%nat) →
  wp N (layout_rows views av lines height cnt i y slots) h s
    (λ _ s', consistent s' ∧
       keeps (λ w, w ∈ covered h (plan_rows h views lines cols last height cnt i y slots))
         s s' ∧
       (NoDup (covered h (plan_rows h views lines cols last height cnt i y slots)) →
        ∀ p, p ∈ plan_rows h views lines cols last height cnt i y slots →
             placed h s' (active s) av p)).
Proof.
  induction cnt as [|cnt IH]; intros i y slots s Hc Hcols Hlast HN.
  - apply wp_ret. split_and!; [done|done|].
    intros _ p Hp. by apply elem_of_nil in Hp.
  - cbn [layout_rows plan_rows rows_cells] in *. wp_glue. rewrite Hcols, Hlast.
    set (n := if i =? lines - 1 then last else cols) in *.
    assert (row_cols lines cols last i = n) as Hn by done.
    rewrite length_app, row_cells_length, Hn in HN.
    rewrite covered_app.
    apply wp_idiv.
    { destruct HN as [?|(? & ? & _)]; [by left|right]. unfold n. by destruct (i =? lines - 1). }
    intros _. cbv beta. apply wp_bind.
    eapply wp_mono; [apply layout_row_spec; [done|destruct HN; [by left|right; lia]]|].
    intros r s1 (-> & Hc1 & K1 & P1). cbv beta.
    destruct (keeps_grid _ _ _ K1) as (_ & Hg1 & Hg2).
    eapply wp_mono; [apply IH; [done|congruence|congruence|]|].
    { destruct HN as [?|(? & ? & ?)]; [by left|right; split_and!; [done|done|lia]]. }
    intros u s' (Hc' & K' & P'). cbv beta.
    split_and!; [done| |].
    + eapply keeps_trans; (eapply keeps_weaken; [|eassumption]).
      * intros w Hw. apply elem_of_app. by left.
      * intros w Hw. apply elem_of_app. by right.
    + intros Hnd.
      apply NoDup_app in Hnd as (Hnd1 & Hdisj & Hnd2).
      intros p Hp. apply elem_of_app in Hp as [Hp|Hp].
      * eapply placed_keeps; [exact K'| |by apply P1].
        intros w Hw Hw'. apply (Hdisj w); [|done]. by eapply covered_elem.
      * rewrite <- (keeps_active _ _ _ K1). by apply P'.
Qed.

(** * [transform_views] *)

Lemma transform_views_spec N h s :
  consistent s →
  wp N transform_views h s
    (λ _ s', consistent s' ∧ keeps (λ _, False) s s' ∧
             scale_data s' = scale_data s ∧
             dom (transformers s') = dom (transformers s)).
Proof.
  intros Hc. unfold transform_views, for_scale_data_, for_scale_data. wp_glue.
  set (I := λ s1, consistent s1 ∧ keeps (λ _, False) s s1 ∧
                  scale_data s1 = scale_data s ∧
                  dom (transformers s1) = dom (transformers s)).
  apply (wp_for_keys N h (λ _ _ s1, I s1)); [by split_and!|done| |by intros [] ?].
  intros k ks' [] s1 (Hc1 & K1 & E1 & D1) Hk. wp_glue.
  apply elem_of_dom in Hk as [d Hd]. rewrite Hd.
  match goal with |- wp _ (if ?c then _ else _) _ _ _ => destruct c eqn:Hcond end.
  { wp_glue. by split_and!. }
  apply orb_false_elim in Hcond as [Hf _]. apply negb_false_iff in Hf.
  wp_glue. eapply wp_mono; [apply wp_store; [done|right; exists d; done]|].
  intros u s2 (Hc2 & K2 & E2 & D2). cbv beta.
  assert (I s2) as HI2.
  { split_and!; [done|eauto using keeps_trans|congruence|congruence]. }
  clear Hc2 K2 E2 D2.
  apply (wp_for_list N h (λ _ s3, I s3)); [done| |].
  2:{ intros s3 HI3. wp_glue. done. }
  intros child l s3 (Hc3 & K3 & E3 & D3). wp_glue.
  destruct (scale_data s3 !! child) as [cd|] eqn:Hcd; [|by wp_glue; split_and!].
  destruct (transformer cd) eqn:Hcf; simpl; [|by wp_glue; split_and!].
  eapply wp_mono; [apply wp_store; [done|right; exists cd; done]|].
  intros u' s4 (Hc4 & K4 & E4 & D4). cbv beta.
  split_and!; [done|eauto using keeps_trans|congruence|congruence].
Qed.

Lemma but_session_fades s s' : but_fades s' = but_fades s → but_session s' = but_session s.
Proof.
  intros E. replace (but_session s') with (but_session (but_fades s')) by (by destruct s').
  rewrite E. by destruct s.
Qed.

Lemma but_session_layout s s' : but_layout s' = but_layout s → but_session s' = but_session s.
Proof.
  intros E. replace (but_session s') with (but_session (but_layout s')) by (by destruct s').
  rewrite E. by destruct s.
Qed.

Lemma grid_cells_length n :
  1 ≤ n → Z.of_nat (length (grid_cells n)) = n.
Proof.
  intros Hn. unfold grid_cells.
  pose proof (rows_for_pos n Hn). pose proof (last_row_cols_for_bounds n Hn).
  rewrite rows_cells_length; [|lia..].
  rewrite last_row_cols_for_eq by done. lia.
Qed.

Lemma fade_rel_absent h T (A : view → Prop) s s' w :
  fade_rel h T A s s' → scale_data s !! w = None → ¬ A w →
  (∀ p, w ∉ children h p) → scale_data s' !! w = None.
Proof.
  intros (_ & _ & _ & B) Hn HA Hch.
  destruct (scale_data s' !! w) as [d|] eqn:Hd; [|done].
  destruct (B w d Hd Hn) as (_ & _ & _ & [?|(p & _ & ?)]); [done|].
  by destruct (Hch p).
Qed.

Lemma fade_rel_hook h T A s s' : fade_rel h T A s s' → hook_set s = true → hook_set s' = true.
Proof. intros (_ & K & _). done. Qed.

Ltac wp_if :=
  match goal with
  | |- wp _ (if ?c then _ else _) _ _ _ => destruct c eqn:?
  | |- wp _ (match ?c with Some _ => _ | None => _ end) _ _ _ => destruct c eqn:?
  end.

Lemma layout_slots_spec N h s views :
  views ≠ [] → consistent s → N ∨ shallow h →
  wp N (layout_slots views) h s (λ _ s', layout_post h views s s').
Proof.
  intros Hne Hc HN. destruct views as [|front rest]; [done|].
  unfold layout_slots.
  set (views := front :: rest) in *.
  assert (1 ≤ Z.of_nat (length views)) as Hlen by (simpl; lia).
  set (av := chosen_view h s views).
  wp_glue.
  eapply wp_mono with (Q := λ (sv : bool) (s1 : state), s1 = s ∧
     match active_view s with
     | Some a => if sv then a else front
     | None => front
     end = av).
  { subst av. unfold chosen_view, eligible. destruct (active_view s) as [a|]; simpl.
    - unfold get_views. wp_glue. split; [done|]. simpl. by case_bool_decide.
    - apply wp_ret. done. }
  intros sv s1 (-> & ->). cbv beta. wp_go.
  match goal with |- wp _ _ _ ?st _ => set (sa := st) end.
  assert (wp N (if bool_decide (initial_focus_view sa = None)
                then modify (set_initial_focus_view (Some av)) else ret ()) h sa
            (λ _ sb, consistent sb ∧ but_session sb = but_session s ∧
                     scale_data sb = scale_data s ∧
                     current_focus_view sb = Some av ∧ active_view sb = active_view s ∧
                     all_workspaces sb = all_workspaces s)) as H1.
  { subst sa. case_bool_decide; wp_glue; (split_and!; [by apply (consistent_ext s)|by destruct s|done..]). }
  subst sa. eapply wp_mono; [exact H1|]. clear H1.
  intros u sb (Hcb & Eb & Sb & Fb & Ab & Wb). cbv beta.
  change (all_workspaces (set_current_focus_view (Some av) s)) with (all_workspaces s).
  wp_glue.
  eapply wp_mono with (Q := λ (_ : unit) (sc : state), consistent sc ∧ but_session sc = but_session s ∧
                     scale_data sc = scale_data s ∧
                     current_focus_view sc = Some av ∧
                     active_view sc = (if all_workspaces s then Some av else active_view s)).
  { destruct (all_workspaces s); wp_go.
    - split_and!; [by apply (consistent_ext sb)|by rewrite <- Eb; destruct sb|done..].
    - by split_and!. }
  intros u0 sc (Hcc & Ec & Sc & Fc & Ac). cbv beta. wp_glue.
  eapply wp_mono; [apply fade_in_rel; [done|]|].
  { destruct HN; [by left|right]. split; [done|left]. unfold tree_fuel. lia. }
  intros u1 sd Rd. cbv beta. wp_glue.
  pose proof (fade_rel_consistent _ _ _ _ _ Rd Hcc) as Hcd.
  eapply wp_mono; [by apply fade_out_all_except_rel|].
  intros u2 se Re. cbv beta. wp_go.
  pose proof (fade_rel_consistent _ _ _ _ _ Re Hcd) as Hce.
  match goal with |- wp _ _ _ ?st _ => set (sf := st) end.
  assert (consistent sf) as Hcf by (by apply (consistent_ext se)).
  apply wp_idiv.
  { right. pose proof (rows_for_pos _ Hlen). lia. }
  intros _. cbv beta. apply wp_bind.
  eapply wp_mono.
  { apply layout_rows_spec with (cols := cols_for (Z.of_nat (length views)))
                                (last := last_row_cols_for (Z.of_nat (length views)));
      [done|done|done|].
    right. rewrite merge_sort_Permutation.
    pose proof (grid_cells_length _ Hlen) as Hg. unfold grid_cells in Hg.
    pose proof (rows_for_pos _ Hlen). pose proof (cols_for_ge_rows _ Hlen).
    pose proof (last_row_cols_for_bounds _ Hlen). split_and!; lia. }
  intros u3 sg (Hcg & Kg & Pg). cbv beta. wp_glue.
  eapply wp_mono with (Q := λ (_ : unit) (sh : state), sh = set_hook_set true sg).
  { wp_go. destruct (hook_set sg) eqn:Hk; wp_go; [by destruct sg; simpl in *; subst|done]. }
  intros u4 sh ->. cbv beta.
  eapply wp_mono; [apply transform_views_spec; by apply (consistent_ext sg)|].
  intros u5 si (Hci & Ki & Si & Di). cbv beta.
  assert (but_session sf = but_session s) as Ef.
  { transitivity (but_session se); [by destruct se|].
    destruct Rd as (Ed & _). destruct Re as (Ee & _).
    rewrite (but_session_fades _ _ Ee), (but_session_fades _ _ Ed). done. }
  assert (but_session sg = but_session s) as Eg.
  { destruct Kg as (E & _). by rewrite (but_session_layout _ _ E). }
  assert (but_session si = but_session s) as Ei.
  { destruct Ki as (E & _). rewrite (but_session_layout _ _ E). by destruct sg. }
  destruct Ki as (Eli & _). destruct Kg as (Elg & Kg2 & _).
  assert (active sf = active s) as Hact.
  { apply (f_equal active) in Ef. done. }
  pose proof Rd as (Ed & Hkd & Rd3 & Rd4). pose proof Re as (Ee & Hke & Re3 & Re4).
  subst sf.
  split_and!; [done|done|..].
  - apply (f_equal grid_rows) in Eli, Elg. simpl in Eli, Elg. etrans; [exact Eli|exact Elg].
  - apply (f_equal grid_cols) in Eli, Elg. simpl in Eli, Elg. etrans; [exact Eli|exact Elg].
  - apply (f_equal grid_last_row_cols) in Eli, Elg. simpl in Eli, Elg. etrans; [exact Eli|exact Elg].
  - apply (f_equal current_focus_view) in Eli, Elg, Ee, Ed. simpl in Eli, Elg, Ee, Ed.
    rewrite Eli, Elg, Ee, Ed. exact Fc.
  - apply (f_equal active_view) in Eli, Elg, Ee, Ed. simpl in Eli, Elg, Ee, Ed.
    rewrite Eli, Elg, Ee, Ed. exact Ac.
  - apply (f_equal hook_set) in Eli. simpl in Eli. exact Eli.
  - intros Hnd p Hp. rewrite <- Hact.
    destruct (Pg Hnd p Hp) as (Hv & Hchs). split.
    + destruct Hv as (d & Hd & ?). exists d. rewrite Si. done.
    + intros ch Hch. destruct (Hchs ch Hch) as (d & Hd & ?). exists d. rewrite Si. done.
  - intros w Hw Hcov Hav Hnch. rewrite Si. simpl. rewrite Kg2 by done. simpl.
    eapply (fade_rel_absent _ _ _ _ _ _ Re); [|tauto|done].
    eapply (fade_rel_absent _ _ _ _ _ _ Rd); [congruence| |done].
    intros [= <-]. done.
Qed.

(** * [remove_transformers] and [finalize] *)

Lemma enumerate_views_self fuel h v : v ∈ enumerate_views fuel h v.
Proof.
  destruct fuel; simpl; [apply list_elem_of_here|].
  apply elem_of_app. right. apply list_elem_of_here.
Qed.

Lemma pop_list_spec N h s (l : list view) :
  wp N (for_list l (λ toplevel, pop_transformer (Some toplevel))) h s
    (λ _ s', but_transformers s' = but_transformers s ∧
             (∀ v, v ∈ l → transformers s' !! v = None) ∧
             (∀ v, transformers s !! v = None → transformers s' !! v = None)).
Proof.
  apply (wp_for_list N h
    (λ l' s1, but_transformers s1 = but_transformers s ∧
       (∀ v, v ∈ l → v ∉ l' → transformers s1 !! v = None) ∧
       (∀ v, transformers s !! v = None → transformers s1 !! v = None))).
  - split_and!; [done| |done]. intros v Hv Hv'. done.
  - intros x l' s1 (E & A & B). wp_go. split_and!; simpl.
    + rewrite <- E. by destruct s1.
    + intros v Hv Hv'. destruct (decide (x = v)) as [->|Hne].
      * apply lookup_delete_eq.
      * rewrite lookup_delete_ne by done. apply A; [done|].
        intros [->|?]%elem_of_cons; done.
    + intros v Hv. rewrite lookup_delete_None. right. by apply B.
  - intros s1 (E & A & B). split_and!; [done| |done].
    intros v Hv. apply A; [done|]. apply not_elem_of_nil.
Qed.

Lemma remove_transformers_spec N h s :
  wp N remove_transformers h s
    (λ _ s', but_transformers s' = but_transformers s ∧
             (∀ v, v ∈ dom (scale_data s) → transformers s' !! v = None) ∧
             (∀ v, transformers s !! v = None → transformers s' !! v = None)).
Proof.
  unfold remove_transformers, for_scale_data_, for_scale_data. wp_glue.
  apply (wp_for_keys N h
    (λ ks _ s1, but_transformers s1 = but_transformers s ∧
       (∀ v, v ∈ dom (scale_data s) → v ∉ ks → transformers s1 !! v = None) ∧
       (∀ v, transformers s !! v = None → transformers s1 !! v = None))).
  - split_and!; [done| |done]. intros v Hv Hv'. destruct Hv'.
    apply key_order_elem. by left.
  - intros k ks' [] s1 (E & A & B) Hk. split_and!; [done| |done].
    intros v Hv Hv'. apply A; [done|]. intros [->|?]%elem_of_cons; [|done].
    apply Hk. apply (f_equal scale_data) in E. simpl in E. by rewrite E.
  - intros k ks' [] s1 (E & A & B) Hk. wp_glue.
    eapply wp_mono; [apply pop_list_spec|].
    intros u s2 (E2 & A2 & B2). cbv beta. wp_glue. simpl.
    split_and!; [congruence| |auto].
    intros v Hv Hv'. destruct (decide (k = v)) as [->|Hne].
    + apply A2, enumerate_views_self.
    + apply B2, A; [done|]. intros [->|?]%elem_of_cons; done.
  - intros [] s1 (E & A & B). split_and!; [done| |done].
    intros v Hv. apply A; [done|]. apply not_elem_of_nil.
Qed.

Lemma finalize_spec N h s :
  consistent s → wp N finalize h s (λ _ s', s' = finalized s).
Proof.
  intros Hc.
  destruct (hook_set s) eqn:Hk, (button_connected s) eqn:Hb.
  all: unfold wp, finalize, unset_hook, ungrab, disconnect_button_signal, connect,
         deactivate_plugin, bind, get, modify, ret; simpl; rewrite ?Hk; simpl.
  all: match goal with
       | |- context [remove_transformers ?hh ?s0] =>
           pose proof (remove_transformers_spec False hh s0) as Hr; unfold wp in Hr;
           assert (consistent s0) as Hc0 by (by apply (consistent_ext s));
           destruct (remove_transformers hh s0) as [[[] s1]|] eqn:Hrun; [|done];
           destruct Hr as (E & A & B);
           assert (transformers s1 = ∅) as Ht
             by (apply map_eq; intros v; rewrite lookup_empty;
                 destruct (transformers s0 !! v) as [t|] eqn:Hv; [|by apply B];
                 apply A;
                 assert (flagged s0 v) as (d & Hd & _) by (apply Hc0; eauto);
                 by apply elem_of_dom_2 in Hd);
           assert (s1 = set_transformers ∅ s0) as ->
             by (unfold but_transformers in E; destruct s1; simpl in *; by simplify_eq)
       end.
  all: simpl; rewrite ?Hb; simpl.
  all: unfold finalized; destruct s; simpl in *; subst; done.
Qed.

Ltac iff_in H E := first [apply (proj1 (H _)) in E | apply (proj2 (H _)) in E].

(** * [refocus] *)

Lemma root_view_shallow h v fuel :
  shallow h → (0 < fuel)%nat → is_Some (root_view fuel h v).
Proof.
  intros [_ Hp] Hf. destruct fuel as [|fuel]; [lia|]. simpl.
  destruct (parent h v) as [p|] eqn:Hpv; [|eauto].
  destruct fuel; simpl; rewrite (Hp _ _ Hpv); eauto.
Qed.

Lemma select_view_spec N h s ov :
  N ∨ (shallow h ∧ sized h) →
  wp N (select_view ov) h s (λ _ s', but_focus s' = but_focus s).
Proof.
  intros HN. destruct ov as [v|]; [|by apply wp_ret].
  unfold select_view, get_view_main_workspace. wp_glue.
  destruct (root_view (tree_fuel h) h v) as [r|] eqn:Hr.
  - apply wp_bind.
    apply wp_idiv; [destruct HN as [?|[_ [? _]]]; [by left|by right]|]. intros _.
    cbv beta. apply wp_bind.
    apply wp_idiv; [destruct HN as [?|[_ [_ ?]]]; [by left|by right]|]. intros _.
    wp_go. by destruct s.
  - apply wp_fail. destruct HN as [?|[Hsh _]]; [done|].
    destruct (root_view_shallow h v (tree_fuel h) Hsh) as [? ?];
      [unfold tree_fuel; lia|congruence].
Qed.

Lemma can_refocus_ext h s s' :
  initial_focus_view s' = initial_focus_view s →
  current_focus_view s' = current_focus_view s →
  can_refocus h s → can_refocus h s'.
Proof. unfold can_refocus. intros -> ->. done. Qed.

Lemma refocus_spec N h s :
  N ∨ (shallow h ∧ can_refocus h s) →
  wp N refocus h s (λ _ s', but_focus s' = but_focus s).
Proof.
  intros HN. unfold refocus. wp_glue.
  destruct (initial_focus_view s) eqn:Hi; [|by apply wp_ret].
  destruct (current_focus_view s) as [c|] eqn:Hcf.
  - wp_go. eapply wp_mono.
    { apply select_view_spec. destruct HN as [?|[? [?|[?|?]]]]; [by left|congruence|congruence|by right]. }
    intros u s' E. cbv beta. rewrite E. by destruct s.
  - wp_go. by destruct s.
Qed.

(** * [deactivate] *)

Lemma fade_rel_settled_dom h T v s s' :
  settled h s → is_Some (scale_data s !! v) →
  fade_rel h T (arg (Some v)) s s' →
  ∀ w, scale_data s' !! w = None ↔ scale_data s !! w = None.
Proof.
  intros Hs [dv Hv] (_ & _ & A & B) w. split.
  - intros Hn. destruct (scale_data s !! w) as [d|] eqn:Hd; [|done].
    destruct (A w d Hd) as (d' & ? & _). congruence.
  - intros Hn. destruct (scale_data s' !! w) as [d'|] eqn:Hd'; [|done].
    destruct (B w d' Hd' Hn) as (_ & _ & _ & [[= ->]|(p & (dp & Hp & _) & Hc)]).
    + congruence.
    + destruct (Hs p dp Hp) as (_ & Hch). destruct (Hch w Hc). congruence.
Qed.

Lemma fade_rel_settled h T v s s' :
  settled h s → is_Some (scale_data s !! v) →
  fade_rel h T (arg (Some v)) s s' → settled h s'.
Proof.
  intros Hs Hv R w d' Hd'.
  pose proof (fade_rel_settled_dom _ _ _ _ _ Hs Hv R) as Hdom.
  destruct R as (_ & _ & A & _).
  destruct (scale_data s !! w) as [d|] eqn:Hd.
  2:{ iff_in Hdom Hd. congruence. }
  destruct (A w d Hd) as (dd & ? & _ & _ & Hf & _). assert (dd = d') by congruence.
  subst dd. destruct (Hs w d Hd) as (Hfl & Hch). split; [congruence|].
  intros c Hc. destruct (Hch c Hc) as [dc Hdc].
  destruct (scale_data s' !! c) eqn:E; [eauto|]. iff_in Hdom E. congruence.
Qed.

Lemma deactivate_loop_spec N h s0 :
  consistent s0 → N ∨ (shallow h ∧ settled h s0) →
  wp N (for_scale_data_ (λ v,
          bind ask (λ h, bind (fade_in (tree_fuel h) (Some v))
                           (λ _, setup_view_transform v d1 d1 d0 d0 d1)))) h s0
    (λ _ s', consistent s' ∧ but_fades s' = but_fades s0 ∧
       (hook_set s0 = true → hook_set s' = true) ∧
       (N ∨ restoring s0 (λ w, w ∈ dom (scale_data s0)) s')).
Proof.
  intros Hc HN. unfold for_scale_data_, for_scale_data. wp_glue.
  apply (wp_for_keys N h
    (λ ks _ s1, consistent s1 ∧ but_fades s1 = but_fades s0 ∧
       (hook_set s0 = true → hook_set s1 = true) ∧
       (N ∨ (settled h s1 ∧
             restoring s0 (λ w, w ∈ dom (scale_data s0) ∧ w ∉ ks) s1)))).
  - split; [done|]. split; [done|]. split; [done|].
    destruct HN as [?|[Hsh Hs]]; [by left|right].
    split; [done|]. split_and!; try done.
    + intros w d d' ? ?. by simplify_eq.
    + intros w d [Hw Hw'] _. destruct Hw'. apply key_order_elem. by left.
  - intros k ks' [] s1 (Hc1 & Ef1 & Hh1 & HI) Hk. split; [done|]. split; [done|].
    split; [done|]. destruct HI as [?|(Hs1 & E & D & RC & Id)]; [by left|right].
    split; [done|]. split_and!; try done.
    intros w d [Hw Hw'] Hd. apply (Id w); [|done]. split; [done|].
    intros [->|?]%elem_of_cons; [|done]. apply Hk.
    apply elem_of_dom. apply elem_of_dom in Hw as [? Hw].
    destruct (scale_data s1 !! k) eqn:E1; [eauto|]. iff_in D E1. congruence.
  - intros k ks' [] s1 (Hc1 & Ef1 & Hh1 & HI) Hk. wp_glue.
    apply elem_of_dom in Hk as Hk'.
    eapply wp_mono; [apply fade_in_rel; [done|]|].
    { destruct HN as [?|[Hsh _]]; [by left|right]. split; [done|left].
      unfold tree_fuel. lia. }
    intros u s2 R2. cbv beta.
    pose proof (fade_rel_consistent _ _ _ _ _ R2 Hc1) as Hc2.
    eapply wp_mono.
    { apply wp_setup; [done|]. destruct HI as [?|(Hs1 & _)]; [by left|right].
      destruct Hk' as [dk Hdk]. destruct (Hs1 k dk Hdk) as (Hfk & _).
      destruct R2 as (_ & _ & A & _). destruct (A k dk Hdk) as (d' & ? & _ & _ & ? & _).
      exists d'. split; congruence. }
    intros u' s3 (Hc3 & K3 & Es3 & d2 & t2 & Hd2 & Ht2 & Hd3). cbv beta. wp_glue. simpl.
    split; [done|].
    assert (but_fades s3 = but_fades s0) as Ef3.
    { etrans; [|exact Ef1]. etrans; [|exact (proj1 R2)].
      apply (f_equal but_fades) in Es3. revert Es3. by destruct s3, s2. }
    split; [done|]. split.
    { intros Hk0. apply (f_equal hook_set) in Es3. simpl in Es3. rewrite Es3.
      apply (fade_rel_hook _ _ _ _ _ R2). auto. }
    destruct HI as [?|(Hs1 & E & D & RC & Id)]; [by left|right].
    pose proof (fade_rel_settled_dom _ _ _ _ _ Hs1 Hk' R2) as Hdom2.
    pose proof (fade_rel_settled _ _ _ _ _ Hs1 Hk' R2) as Hs2.
    destruct K3 as (E3 & A3 & F3).
    assert (∀ w, scale_data s3 !! w = None ↔ scale_data s2 !! w = None) as Hdom3.
    { intros w. destruct (decide (w = k)) as [->|Hne]; [|by rewrite A3].
      rewrite Hd2, Hd3. done. }
    pose proof R2 as (E2 & _ & A2 & _).
    split; [|split_and!].
    + intros w d Hd. destruct (decide (w = k)) as [->|Hne].
      * assert (d = setup_record (now h) t2 d1 d1 d0 d0 d1 d2) by congruence. subst d.
        destruct (Hs2 k d2 Hd2) as (? & Hch). split; [done|].
        intros c Hcc. destruct (Hch c Hcc) as [dc Hdc].
        destruct (scale_data s3 !! c) eqn:E'; [eauto|]. iff_in Hdom3 E'. congruence.
      * rewrite A3 in Hd by done. destruct (Hs2 w d Hd) as (? & Hch). split; [done|].
        intros c Hcc. destruct (Hch c Hcc) as [dc Hdc].
        destruct (scale_data s3 !! c) eqn:E'; [eauto|]. iff_in Hdom3 E'. congruence.
    + done.
    + intros w. rewrite Hdom3, Hdom2. apply D.
    + intros w da dc Hda Hdc.
      destruct (scale_data s1 !! w) as [db|] eqn:Hdb.
      2:{ iff_in D Hdb. congruence. }
      destruct (RC w da db Hda Hdb) as (? & ? & ?).
      destruct (A2 w db Hdb) as (db' & Hdb' & ? & ? & ? & _).
      destruct (decide (w = k)) as [->|Hne].
      * assert (dc = setup_record (now h) t2 d1 d1 d0 d0 d1 d2) by congruence.
        assert (db' = d2) by congruence. subst. simpl. split_and!; congruence.
      * rewrite A3 in Hdc by done. assert (dc = db') by congruence. subst.
        split_and!; congruence.
    + intros w dc [Hw Hw'] Hdc. destruct (decide (w = k)) as [->|Hne].
      * assert (dc = setup_record (now h) t2 d1 d1 d0 d0 d1 d2) by congruence.
        subst. done.
      * rewrite A3 in Hdc by done.
        destruct (scale_data s1 !! w) as [db|] eqn:Hdb.
        2:{ iff_in Hdom2 Hdb. congruence. }
        destruct (A2 w db Hdb) as (db' & Hdb' & ? & ? & ? & Han & Hfd).
        assert (dc = db') by congruence. subst db'.
        assert (target_of db = identity_target) as Hid.
        { apply (Id w); [|done]. split; [done|].
          intros [->|?]%elem_of_cons; done. }
        unfold target_of, fade_target in *. rewrite Han.
        destruct Hfd as [Hfd|Hfd]; [rewrite Hfd; done|].
        rewrite Hfd. injection Hid as -> -> -> -> _. done.
  - intros [] s1 (Hc1 & Ef1 & Hh1 & HI). split; [done|]. split; [done|].
    split; [done|]. destruct HI as [?|(Hs1 & E & D & RC & Id)]; [by left|right].
    split_and!; try done. intros w d Hw Hd. apply (Id w); [|done].
    split; [done|apply not_elem_of_nil].
Qed.

Lemma settled_ext h s s' : scale_data s' = scale_data s → settled h s → settled h s'.
Proof. intros E Hs v d. rewrite E. apply Hs. Qed.

Lemma but_deactivated_fades s s' :
  but_fades s' = but_fades s → but_deactivated s' = but_deactivated s.
Proof.
  intros E. replace (but_deactivated s') with (but_deactivated (but_fades s'))
    by (by destruct s').
  rewrite E. by destruct s.
Qed.

Lemma but_deactivated_focus s s' :
  but_focus s' = but_focus s → but_deactivated s' = but_deactivated s.
Proof.
  intros E. replace (but_deactivated s') with (but_deactivated (but_focus s'))
    by (by destruct s').
  rewrite E. by destruct s.
Qed.

Lemma deactivate_spec N h s :
  consistent s → N ∨ (shallow h ∧ settled h s ∧ can_refocus h s) →
  wp N deactivate h s
    (λ _ s', consistent s' ∧ deactivated s s' ∧ (N ∨ restored s s')).
Proof.
  intros Hc HN. unfold deactivate.
  assert (∀ s0, scale_data s0 = scale_data s → transformers s0 = transformers s →
            hook_set s0 = true → active s0 = false →
            but_deactivated s0 = but_deactivated s →
            signals s0 = disconnect_on_deactivate (signals s) →
            grabbed s0 = (if input_release_impending s then grabbed s else false) →
            plugin_active s0
            = (if input_release_impending s then plugin_active s else false) →
    wp N
      (for_scale_data_ (λ v,
         bind ask (λ h, bind (fade_in (tree_fuel h) (Some v))
                          (λ _, setup_view_transform v d1 d1 d0 d0 d1)))) h s0
      (λ _ s1, wp N (bind refocus (λ _, modify (set_capabilities 0))) h s1
         (λ _ s', consistent s' ∧ deactivated s s' ∧ (N ∨ restored s s')))) as Hrest.
  { intros s0 Esd Etr Hk0 Ha0 Eb Esig Egr Epl.
    assert (consistent s0) as Hc0 by (by apply (consistent_ext s)).
    eapply wp_mono.
    { apply deactivate_loop_spec; [done|]. destruct HN as [?|(? & ? & ?)]; [by left|right].
      split; [done|]. by apply (settled_ext h s). }
    intros u s1 (Hc1 & E1 & Hh1 & R1). cbv beta. wp_glue.
    eapply wp_mono.
    { apply refocus_spec. destruct HN as [?|(? & ? & Hrf)]; [by left|right].
      split; [done|]. apply (can_refocus_ext h s); [| |done].
      - apply (f_equal initial_focus_view) in E1, Eb. simpl in E1, Eb. congruence.
      - apply (f_equal current_focus_view) in E1, Eb. simpl in E1, Eb. congruence. }
    intros u' s2 E2. cbv beta. wp_glue.
    assert (scale_data s2 = scale_data s1) as Esd2.
    { apply (f_equal scale_data) in E2. done. }
    assert (transformers s2 = transformers s1) as Etr2.
    { apply (f_equal transformers) in E2. done. }
    split_and!.
    - by apply (consistent_ext s1).
    - split_and!; simpl.
      + etrans; [|exact Eb]. rewrite <- (but_deactivated_fades _ _ E1).
        rewrite <- (but_deactivated_focus _ _ E2). by destruct s2.
      + apply (f_equal active) in E1, E2. simpl in E1, E2. congruence.
      + apply (f_equal hook_set) in E2. simpl in E2. rewrite E2. auto.
      + done.
      + apply (f_equal signals) in E1, E2. simpl in E1, E2. congruence.
      + apply (f_equal grabbed) in E1, E2. simpl in E1, E2. congruence.
      + apply (f_equal plugin_active) in E1, E2. simpl in E1, E2. congruence.
    - destruct R1 as [?|(_ & D1 & RC1 & Id1)]; [by left|right]. unfold restored. simpl. rewrite Esd2.
      split_and!.
      + intros w. rewrite D1, Esd. done.
      + intros w d d'. rewrite <- Esd. apply RC1.
      + intros w d' Hd'. apply (Id1 w); [|done].
        apply elem_of_dom. destruct (scale_data s0 !! w) eqn:E'; [eauto|].
        iff_in D1 E'. congruence. }
  wp_go. change (hook_set (set_active false s)) with (hook_set s).
  destruct (hook_set s) eqn:Hk; wp_go.
  all: match goal with
       | |- wp _ (if negb (input_release_impending ?st) then _ else _) _ _ _ =>
           change (input_release_impending st) with (input_release_impending s)
       end.
  all: destruct (input_release_impending s) eqn:Hirp; simpl negb; cbv iota; wp_go.
  all: apply Hrest; simpl; try done.
  all: by destruct s; simpl in *; subst.
Qed.

(** * [remove_view] *)

Lemma check_focus_view_spec N h s ov :
  wp N (check_focus_view ov) h s
    (λ _ s', scale_data s' = scale_data s ∧ transformers s' = transformers s ∧
             but_removed s' = but_removed s).
Proof.
  unfold check_focus_view. wp_glue.
  case_bool_decide; wp_glue; case_bool_decide; wp_glue; split_and!; try done;
    by destruct s.
Qed.

Lemma removed_step (W : view → Prop) s s1 s2 v :
  removed W s s1 →
  scale_data s2 = delete v (scale_data s1) →
  transformers s2 = delete v (transformers s1) →
  but_removed s2 = but_removed s1 →
  removed (λ w, W w ∨ w = v) s s2.
Proof.
  intros (E & A & B) Hsd Htr E2. split_and!; [congruence| |].
  - intros w [Hw| ->]; rewrite Hsd, Htr.
    + destruct (A w Hw) as [H1 H2]. rewrite !lookup_delete_None. auto.
    + by rewrite !lookup_delete_eq.
  - intros w Hw. rewrite Hsd, Htr.
    assert (w ≠ v) by (intros ->; tauto).
    rewrite !lookup_delete_ne by done. apply B. tauto.
Qed.

Lemma consistent_removed_step s1 s2 v :
  consistent s1 →
  scale_data s2 = delete v (scale_data s1) →
  transformers s2 = delete v (transformers s1) →
  consistent s2.
Proof.
  intros Hc Hsd Htr w. rewrite Hsd, Htr. destruct (decide (v = w)) as [<-|Hne].
  - rewrite !lookup_delete_eq. split; [intros (? & ? & ?)|intros [? ?]]; done.
  - rewrite !lookup_delete_ne by done. apply Hc.
Qed.

Lemma removed_iff (W W' : view → Prop) s s' :
  (∀ w, W w ↔ W' w) → removed W s s' → removed W' s s'.
Proof.
  intros HW (E & A & B). split_and!; [done| |].
  - intros w Hw. apply A, HW, Hw.
  - intros w Hw. apply B. by rewrite HW.
Qed.

Lemma removed_refl s : removed (λ _, False) s s.
Proof. by split_and!. Qed.

Lemma remove_one_spec N h s v :
  wp N (bind (check_focus_view (Some v))
          (λ _, bind (pop_transformer (Some v)) (λ _, erase v))) h s
    (λ _ s', scale_data s' = delete v (scale_data s) ∧
             transformers s' = delete v (transformers s) ∧
             but_removed s' = but_removed s).
Proof.
  wp_glue. eapply wp_mono; [apply check_focus_view_spec|].
  intros u s1 (E1 & E2 & E3). cbv beta. wp_go. simpl.
  rewrite E1, E2. split_and!; [done|done|]. rewrite <- E3. by destruct s1.
Qed.

Lemma remove_view_spec N h s ov :
  consistent s →
  wp N (remove_view ov) h s
    (λ _ s', consistent s' ∧
             removed (λ w, ∃ v, ov = Some v ∧ w ∈ tree h v) s s').
Proof.
  intros Hc. destruct ov as [v|]; simpl.
  2:{ apply wp_ret. split; [done|]. eapply removed_iff; [|apply removed_refl].
      intros w. split; [done|]. intros (v & ? & _). done. }
  apply wp_bind. eapply wp_mono; [apply check_focus_view_spec|].
  intros u s1 (E1 & E2 & E3). cbv beta. wp_go. simpl.
  match goal with |- wp _ _ _ ?st _ => set (s2 := st) end.
  assert (scale_data s2 = delete v (scale_data s)) as Hsd by (subst s2; simpl; by rewrite E1).
  assert (transformers s2 = delete v (transformers s)) as Htr
    by (subst s2; simpl; by rewrite E2).
  assert (but_removed s2 = but_removed s) as Hbr
    by (subst s2; rewrite <- E3; by destruct s1).
  clearbody s2. clear dependent s1.
  apply (wp_for_list N h
    (λ l s3, ∃ pre, children h v = pre ++ l ∧ consistent s3 ∧
                    removed (λ w, w = v ∨ w ∈ pre) s s3)).
  - exists []. split_and!; [done|by eapply consistent_removed_step|].
    eapply removed_iff; [|eapply (removed_step _ s s s2 v); [apply removed_refl|done..]].
    intros w. simpl. rewrite elem_of_nil. tauto.
  - intros x l s3 (pre & Hpre & Hc3 & R3).
    eapply wp_mono; [apply remove_one_spec|].
    intros u' s4 (F1 & F2 & F3). cbv beta. exists (pre ++ [x]). split_and!.
    + by rewrite <- app_assoc.
    + by eapply consistent_removed_step.
    + eapply removed_iff; [|eapply (removed_step _ s s3 s4 x); [exact R3|done..]].
      intros w. simpl. rewrite elem_of_app, list_elem_of_singleton. tauto.
  - intros s3 (pre & Hpre & Hc3 & R3). rewrite app_nil_r in Hpre. subst pre.
    split; [done|]. eapply removed_iff; [|exact R3].
    intros w. split.
    + intros [->|Hw]; exists v; (split; [done|]); unfold tree;
        [apply list_elem_of_here|by apply list_elem_of_further].
    + intros (v' & [= <-] & Hw). unfold tree in Hw. by apply elem_of_cons in Hw.
Qed.

(** * [animation_running] *)

Lemma only_inserted_refl h s : only_inserted h s s.
Proof. split_and!; [done|done|]. intros v d ? ?. congruence. Qed.

Lemma only_inserted_trans h s1 s2 s3 :
  only_inserted h s1 s2 → only_inserted h s2 s3 → only_inserted h s1 s3.
Proof.
  intros (E1 & A1 & B1) (E2 & A2 & B2). split_and!; [congruence|auto|].
  intros v d Hd Hn. destruct (scale_data s2 !! v) as [d2|] eqn:H2.
  - rewrite (A2 v d2 H2) in Hd. injection Hd as <-. by eapply B1.
  - by eapply B2.
Qed.

Lemma only_inserted_index h s v :
  scale_data s !! v = None →
  only_inserted h s (set_scale_data (<[v := default_view_scale_data h]> (scale_data s)) s).
Proof.
  intros Hn. split_and!; simpl; [by destruct s| |].
  - intros w d Hd. rewrite lookup_insert_ne; [done|congruence].
  - intros w d Hd Hw. destruct (decide (v = w)) as [<-|Hne].
    + rewrite lookup_insert_eq in Hd. congruence.
    + rewrite lookup_insert_ne in Hd by done. congruence.
Qed.

Lemma only_inserted_consistent h s s' :
  only_inserted h s s' → consistent s → consistent s'.
Proof.
  intros (E & A & B) Hc v.
  assert (transformers s' = transformers s) as -> by (by apply (f_equal transformers) in E).
  rewrite <- (Hc v). split.
  - intros (d & Hd & Hf). destruct (scale_data s !! v) as [d0'|] eqn:H0.
    + rewrite (A v d0' H0) in Hd. injection Hd as <-. eauto.
    + rewrite (B v d Hd H0) in Hf. done.
  - intros (d & Hd & Hf). exists d. auto.
Qed.

Lemma children_running_spec N h cs : ∀ s,
  wp N (children_running cs) h s (λ _ s', only_inserted h s s').
Proof.
  induction cs as [|c cs IH]; intros s; simpl; [apply wp_ret, only_inserted_refl|].
  wp_glue. apply wp_index.
  - intros d Hd. destruct (record_running h d); [apply wp_ret, only_inserted_refl|apply IH].
  - intros Hn. destruct (record_running h _); [by apply wp_ret, only_inserted_index|].
    eapply wp_mono; [apply IH|]. intros r s' R. cbv beta.
    eapply only_inserted_trans; [by apply only_inserted_index|done].
Qed.

Lemma animation_running_spec N h s :
  wp N animation_running h s (λ _ s', only_inserted h s s').
Proof.
  unfold animation_running, for_scale_data. wp_glue.
  apply (wp_for_keys N h (λ _ _ s1, only_inserted h s s1)).
  - apply only_inserted_refl.
  - done.
  - intros k ks' a s1 R Hk. wp_glue.
    apply elem_of_dom in Hk as [d Hd]. rewrite Hd.
    destruct (record_running h d); [by wp_glue|].
    wp_glue. eapply wp_mono; [apply children_running_spec|].
    intros r s2 R2. cbv beta. wp_glue. simpl.
    destruct r; eapply only_inserted_trans; eauto.
  - done.
Qed.

Lemma finish_input_spec N h s :
  consistent s →
  wp N finish_input h s
    (λ _ s', ∃ r s1,
       animation_running h (set_grabbed false (set_input_release_impending false s))
       = Some (r, s1) ∧
       only_inserted h (set_grabbed false (set_input_release_impending false s)) s1 ∧
       s' = if r then s1 else finalized s1).
Proof.
  intros Hc. unfold finish_input. wp_go.
  match goal with |- wp _ _ _ ?st _ => set (s0 := st) end.
  pose proof (animation_running_spec False h s0) as Hr. unfold wp in Hr.
  destruct (animation_running h s0) as [[r s1]|] eqn:Hrun; [|done].
  eapply wp_eq; [exact Hrun|]. cbv beta.
  assert (consistent s1) as Hc1.
  { eapply only_inserted_consistent; [exact Hr|]. by apply (consistent_ext s). }
  destruct r; simpl.
  - apply wp_ret. exists true, s1. done.
  - eapply wp_mono; [by apply finalize_spec|]. intros u s' ->. cbv beta.
    exists false, s1. done.
Qed.

(** * When an animation is running *)

Lemma default_not_running h : record_running h (default_view_scale_data h) = false.
Proof. done. Qed.

Lemma only_inserted_running h s s1 v d :
  only_inserted h s s1 → scale_data s1 !! v = Some d → record_running h d = true →
  scale_data s !! v = Some d.
Proof.
  intros (_ & A & B) Hd Hr. destruct (scale_data s !! v) as [d0'|] eqn:E.
  - rewrite (A v d0' E) in Hd. congruence.
  - rewrite (B v d Hd E), default_not_running in Hr. done.
Qed.

Lemma children_running_exact N h cs : ∀ s,
  wp N (children_running cs) h s
    (λ r s', only_inserted h s s' ∧
             (r = true → ∃ c d, scale_data s !! c = Some d ∧ record_running h d = true)).
Proof.
  induction cs as [|c cs IH]; intros s; simpl.
  { apply wp_ret. split; [apply only_inserted_refl|done]. }
  wp_glue. apply wp_index.
  - intros d Hd. destruct (record_running h d) eqn:Hr.
    + apply wp_ret. split; [apply only_inserted_refl|eauto].
    + apply IH.
  - intros Hn. rewrite default_not_running.
    eapply wp_mono; [apply IH|]. intros r s' (R & Hex). cbv beta.
    pose proof (only_inserted_index h s c Hn) as R0. split.
    + eapply only_inserted_trans; [exact R0|done].
    + intros Hrt. destruct (Hex Hrt) as (c' & d & Hd & Hrun).
      exists c', d. split; [|done]. exact (only_inserted_running h s _ c' d R0 Hd Hrun).
Qed.

Lemma animation_running_iff h s :
  ∃ r s', animation_running h s = Some (r, s') ∧ only_inserted h s s' ∧
          (r = true ↔ ∃ v d, scale_data s !! v = Some d ∧ record_running h d = true).
Proof.
  assert (wp False animation_running h s
            (λ r s', only_inserted h s s' ∧
               (r = true ↔ ∃ v d, scale_data s !! v = Some d ∧ record_running h d = true)))
    as Hwp.
  { unfold animation_running, for_scale_data. wp_glue.
    apply (wp_for_keys False h
             (λ ks a s1, a = false ∧ only_inserted h s s1 ∧
                ∀ v d, scale_data s !! v = Some d → v ∉ ks → record_running h d = false)).
    - split_and!; [done|apply only_inserted_refl|]. intros v d Hd Hv. exfalso.
      apply Hv, key_order_elem. left. by apply elem_of_dom.
    - intros k ks' a s1 (-> & R & Hvis) Hk. split_and!; [done|done|].
      intros v d Hd Hv. destruct (decide (v = k)) as [->|Hne].
      + exfalso. apply Hk, elem_of_dom. destruct R as (_ & A & _). eauto.
      + apply (Hvis v d Hd). intros Hin. apply elem_of_cons in Hin as [?|?]; done.
    - intros k ks' a s1 (-> & R & Hvis) Hk. wp_glue.
      apply elem_of_dom in Hk as [d Hd]. rewrite Hd.
      destruct (record_running h d) eqn:Hrun.
      + wp_glue. simpl. split; [done|]. split; [|done]. intros _.
        exists k, d. split; [|done]. exact (only_inserted_running h s s1 k d R Hd Hrun).
      + wp_glue. eapply wp_mono; [apply children_running_exact|].
        intros r s2 (R2 & Hex). cbv beta. wp_glue. simpl.
        pose proof (only_inserted_trans _ _ _ _ R R2) as R02.
        destruct r.
        * split; [done|]. split; [|done]. intros _.
          destruct (Hex eq_refl) as (c & dc & Hdc & Hrc). exists c, dc.
          split; [|done]. exact (only_inserted_running h s s1 c dc R Hdc Hrc).
        * split_and!; [done|done|]. intros v d' Hd' Hv.
          destruct (decide (v = k)) as [->|Hne].
          -- destruct R as (_ & A & _). rewrite (A k d' Hd') in Hd. congruence.
          -- apply (Hvis v d' Hd'). intros Hin. apply elem_of_cons in Hin as [?|?]; done.
    - intros a s1 (-> & R & Hvis). split; [done|]. split; [done|].
      intros (v & d & Hd & Hr). rewrite (Hvis v d Hd) in Hr; [done|]. intros Hin. by apply elem_of_nil in Hin. }
  apply wp_total_run in Hwp as (r & s' & Hrun & R & Hiff). eauto.
Qed.

Lemma running_in_progress now d : running now d = true ↔ in_progress now d.
Proof.
  unfold running, in_progress. destruct (dur_begin d) as [t0|].
  - rewrite Z.ltb_lt. split; [eauto|]. intros (t & [= <-] & ?). done.
  - split; [done|]. intros (t & ? & _). done.
Qed.

Lemma record_running_animating h s :
  (∃ v d, scale_data s !! v = Some d ∧ record_running h d = true) ↔ animating h s.
Proof.
  unfold animating, record_running.
  split; intros (v & d & Hd & Hr); exists v, d; (split; [done|]).
  - apply orb_true_iff in Hr. by rewrite <- !running_in_progress.
  - apply orb_true_iff. by rewrite !running_in_progress.
Qed.

(** [animation_running] returns, and returns true exactly when the fade
    or the scale animation of a slot record is running. *)
Lemma animation_running_animating h s :
  ∃ r s', animation_running h s = Some (r, s') ∧ only_inserted h s s' ∧
          (r = true ↔ animating h s).
Proof.
  destruct (animation_running_iff h s) as (r & s' & Hrun & Hi & Hiff).
  exists r, s'. split_and!; [done|done|]. by rewrite Hiff, record_running_animating.
Qed.

Lemma animating_ext h s s' : scale_data s' = scale_data s → animating h s' ↔ animating h s.
Proof. unfold animating. by intros ->. Qed.

(** * Consistency of slot records and transformers *)

Lemma ok_ret {A} (a : A) : ok (ret a).
Proof. intros h s Hc. by apply wp_ret. Qed.

Lemma ok_bind {A B} (m : M A) (k : A → M B) : ok m → (∀ a, ok (k a)) → ok (bind m k).
Proof.
  intros Hm Hk h s Hc. apply wp_bind. eapply wp_mono; [by apply Hm|].
  intros a s' Hc'. by apply Hk.
Qed.

Lemma ok_get : ok get.
Proof. intros h s Hc. by apply wp_get. Qed.

Lemma ok_ask : ok ask.
Proof. intros h s Hc. by apply wp_ask. Qed.

Lemma ok_fail {A} : ok (@fail A).
Proof. intros h s Hc. by apply wp_fail. Qed.

Lemma ok_modify f :
  (∀ s, scale_data (f s) = scale_data s ∧ transformers (f s) = transformers s) →
  ok (modify f).
Proof.
  intros Hf h s Hc. apply wp_modify. destruct (Hf s). by apply (consistent_ext s).
Qed.

Lemma ok_for_list {A} (l : list A) body : (∀ x, ok (body x)) → ok (for_list l body).
Proof.
  intros Hb h s Hc. apply (wp_for_list True h (λ _ s1, consistent s1)); [done| |done].
  intros x l' s1 Hc1. by apply Hb.
Qed.

Lemma ok_for_scale_data {A} (body : view → A → M (bool * A)) a :
  (∀ k a, ok (body k a)) → ok (for_scale_data body a).
Proof.
  intros Hb h s Hc. unfold for_scale_data. wp_glue.
  apply (wp_for_keys True h (λ _ _ s1, consistent s1)); [done|done| |done].
  intros k ks' a' s1 Hc1 _. eapply wp_mono; [by apply Hb|].
  intros [[] ?] s2 Hc2; done.
Qed.

Lemma ok_for_scale_data_ body : (∀ k, ok (body k)) → ok (for_scale_data_ body).
Proof.
  intros Hb. apply ok_for_scale_data. intros k []. apply ok_bind; [apply Hb|].
  intros. apply ok_ret.
Qed.

Lemma ok_of_wp {A} (m : M A) (Q : host → state → A → state → Prop) :
  (∀ h s, consistent s → wp True m h s (Q h s)) →
  (∀ h s a s', consistent s → Q h s a s' → consistent s') → ok m.
Proof. intros Hwp HQ h s Hc. eapply wp_mono; [by apply Hwp|]. intros; eauto. Qed.

Lemma ok_fade_in fuel ov : ok (fade_in fuel ov).
Proof.
  intros h s Hc. eapply wp_mono; [apply fade_in_rel; [done|by left]|].
  intros u s' R. exact (fade_rel_consistent _ _ _ _ _ R Hc).
Qed.

Lemma ok_fade_out fuel ov : ok (fade_out fuel ov).
Proof.
  intros h s Hc. eapply wp_mono; [apply fade_out_rel; [done|by left]|].
  intros u s' R. exact (fade_rel_consistent _ _ _ _ _ R Hc).
Qed.

Lemma ok_fade_out_all_except ov : ok (fade_out_all_except ov).
Proof.
  intros h s Hc. eapply wp_mono; [apply fade_out_all_except_rel; [done|by left]|].
  intros u s' R. exact (fade_rel_consistent _ _ _ _ _ R Hc).
Qed.

Lemma ok_setup v sx sy tx ty a : ok (setup_view_transform v sx sy tx ty a).
Proof.
  intros h s Hc. eapply wp_mono; [apply wp_setup; [done|by left]|].
  by intros u s' (? & _).
Qed.

Lemma ok_index v : ok (index v).
Proof.
  intros h s Hc. apply wp_index; [done|]. intros Hn. by apply consistent_insert_default.
Qed.

Lemma ok_add_transformer ov : ok (add_transformer ov).
Proof.
  intros h s Hc. eapply wp_mono; [by apply wp_add_transformer|]. by intros u s' (? & _).
Qed.

Lemma ok_deactivate : ok deactivate.
Proof.
  intros h s Hc. eapply wp_mono; [apply deactivate_spec; [done|by left]|].
  by intros u s' (? & _).
Qed.

Lemma consistent_finalized s : consistent (finalized s).
Proof.
  intros v. simpl. rewrite !lookup_empty. split; [intros (? & ? & ?)|intros [? ?]]; done.
Qed.

Lemma ok_finalize : ok finalize.
Proof.
  intros h s Hc. eapply wp_mono; [by apply finalize_spec|].
  intros u s' ->. apply consistent_finalized.
Qed.

Lemma ok_layout_slots views : ok (layout_slots views).
Proof.
  intros h s Hc. destruct views as [|v views].
  - simpl. wp_glue. destruct (_ && _); [by apply ok_deactivate|by apply wp_ret].
  - eapply wp_mono; [apply layout_slots_spec; [done|done|by left]|].
    by intros u s' (? & _).
Qed.

Lemma ok_remove_view ov : ok (remove_view ov).
Proof.
  intros h s Hc. eapply wp_mono; [by apply remove_view_spec|]. by intros u s' (? & _).
Qed.

Lemma ok_animation_running : ok animation_running.
Proof.
  intros h s Hc. eapply wp_mono; [by apply animation_running_spec|].
  intros u s' R. exact (only_inserted_consistent _ _ _ R Hc).
Qed.

Lemma ok_transform_views : ok transform_views.
Proof.
  intros h s Hc. eapply wp_mono; [by apply transform_views_spec|]. by intros u s' (? & _).
Qed.

Lemma ok_check_focus_view ov : ok (check_focus_view ov).
Proof.
  intros h s Hc. eapply wp_mono; [by apply check_focus_view_spec|].
  intros u s' (? & ? & _). by apply (consistent_ext s).
Qed.

Lemma ok_select_view ov : ok (select_view ov).
Proof.
  intros h s Hc. eapply wp_mono; [apply select_view_spec; by left|].
  intros u s' E. apply (consistent_ext s);
    [by apply (f_equal scale_data) in E|by apply (f_equal transformers) in E|done].
Qed.

Create HintDb ok.
#[local] Hint Resolve ok_fade_in ok_fade_out ok_fade_out_all_except ok_setup ok_index
  ok_add_transformer ok_deactivate ok_finalize ok_layout_slots ok_remove_view
  ok_animation_running ok_transform_views ok_check_focus_view ok_select_view : ok.

Ltac ok_step :=
  lazymatch goal with
  | |- ok (ret _) => apply ok_ret
  | |- ok (bind _ _) => apply ok_bind; [|intros ?]
  | |- ok get => apply ok_get
  | |- ok ask => apply ok_ask
  | |- ok fail => apply ok_fail
  | |- ok (modify _) => apply ok_modify; intros ?; split; reflexivity
  | |- ok (for_list _ _) => apply ok_for_list; intros ?
  | |- ok (for_scale_data_ _) => apply ok_for_scale_data_; intros ?
  | |- ok (for_scale_data _ _) => apply ok_for_scale_data; intros ? ?
  | |- ok (focus_view _) => unfold focus_view
  | |- ok (request_workspace _) => unfold request_workspace
  | |- ok (connect _) => unfold connect
  | |- ok ungrab => unfold ungrab
  | |- ok grab => unfold grab
  | |- ok activate_plugin => unfold activate_plugin
  | |- ok deactivate_plugin => unfold deactivate_plugin
  | |- ok set_hook => unfold set_hook
  | |- ok unset_hook => unfold unset_hook
  | |- ok connect_button_signal => unfold connect_button_signal
  | |- ok disconnect_button_signal => unfold disconnect_button_signal
  | |- ok get_views => unfold get_views
  | |- ok (scale_view _) => unfold scale_view
  | |- ok all_same_as_current_workspace_views => unfold all_same_as_current_workspace_views
  | |- ok (close_view _) => unfold close_view
  | |- ok (match ?c with _ => _ end) => destruct c
  | |- _ => solve [auto with ok]
  end.

Ltac ok_auto := repeat ok_step.

Lemma ok_find_in views r c : ok (find_in views r c).
Proof. induction views as [|v views IH]; simpl; ok_auto. Qed.
#[local] Hint Resolve ok_find_in : ok.

Lemma ok_find_view_in_grid r c : ok (find_view_in_grid r c).
Proof. unfold find_view_in_grid. ok_auto. Qed.
#[local] Hint Resolve ok_find_view_in_grid : ok.

Lemma ok_refocus : ok refocus.
Proof. unfold refocus. ok_auto. Qed.

Lemma ok_finish_input : ok finish_input.
Proof. unfold finish_input. ok_auto. Qed.
#[local] Hint Resolve ok_finish_input : ok.

Lemma ok_move_focus key r c : ok (move_focus key r c).
Proof. unfold move_focus. ok_auto. Qed.
#[local] Hint Resolve ok_move_focus : ok.

Lemma ok_process_key key st : ok (process_key key st).
Proof. unfold process_key. ok_auto. Qed.

Lemma ok_process_button b st : ok (process_button b st).
Proof. unfold process_button. ok_auto. Qed.

Lemma ok_activate : ok activate.
Proof. unfold activate. ok_auto. Qed.
#[local] Hint Resolve ok_activate : ok.

Lemma ok_switch_scale_modes : ok switch_scale_modes.
Proof. unfold switch_scale_modes. ok_auto. Qed.
#[local] Hint Resolve ok_switch_scale_modes : ok.

Lemma ok_handle_toggle b : ok (handle_toggle b).
Proof. unfold handle_toggle. ok_auto. Qed.

Lemma ok_interact_option_changed : ok interact_option_changed.
Proof. unfold interact_option_changed. ok_auto. Qed.

Lemma ok_allow_scale_zoom_option_changed : ok allow_scale_zoom_option_changed.
Proof. unfold allow_scale_zoom_option_changed. ok_auto. Qed.

Lemma ok_view_attached v : ok (view_attached v).
Proof. unfold view_attached. ok_auto. Qed.

Lemma ok_view_detached v : ok (view_detached v).
Proof. unfold view_detached. ok_auto. Qed.

Lemma ok_workspace_changed : ok workspace_changed.
Proof. unfold workspace_changed. ok_auto. Qed.

Lemma ok_view_geometry_changed : ok view_geometry_changed.
Proof. unfold view_geometry_changed. ok_auto. Qed.

Lemma ok_view_minimized ov st : ok (view_minimized ov st).
Proof. unfold view_minimized. ok_auto. Qed.

Lemma ok_view_focused ov : ok (view_focused ov).
Proof. unfold view_focused. ok_auto. Qed.

Lemma ok_post_hook : ok post_hook.
Proof. unfold post_hook. ok_auto. Qed.

Lemma ok_handle e : ok (handle e).
Proof.
  destruct e; simpl.
  - apply ok_bind; [apply ok_handle_toggle|intros; apply ok_ret].
  - apply ok_process_button.
  - apply ok_process_key.
  - apply ok_interact_option_changed.
  - apply ok_allow_scale_zoom_option_changed.
  - apply ok_view_attached.
  - apply ok_view_detached.
  - apply ok_workspace_changed.
  - apply ok_view_geometry_changed.
  - apply ok_view_minimized.
  - apply ok_check_focus_view.
  - apply ok_view_focused.
  - apply ok_transform_views.
  - apply ok_post_hook.
  - apply ok_finalize.
Qed.

Lemma consistent_initial s : initial s → consistent s.
Proof.
  intros (_ & _ & _ & _ & _ & _ & _ & Hsd & _ & _ & _ & Htr) v.
  rewrite Hsd, Htr, !lookup_empty. split; [intros (? & ? & ?)|intros [? ?]]; done.
Qed.

(** * The plan of [layout_slots] and the cells of the grid *)

Lemma plan_row_lookup sp views i y width height : ∀ cnt j x slots (k : nat),
  (slots + cnt ≤ length views)%nat → (k < cnt)%nat →
  ∃ p, plan_row sp views i y width height cnt j x slots !! k = Some p ∧
       views !! (slots + k)%nat = Some (pl_view p) ∧
       pl_row p = i ∧ pl_col p = j + Z.of_nat k.
Proof.
  induction cnt as [|cnt IH]; intros j x slots k Hlen Hk; [lia|].
  destruct (lookup_lt_is_Some_2 views slots ltac:(lia)) as [v Hv].
  rewrite (plan_row_S _ _ _ _ _ _ _ _ _ _ _ Hv).
  destruct k as [|k].
  - eexists. split; [done|]. simpl. rewrite Nat.add_0_r. split_and!; [done|done|lia].
  - destruct (IH (j + 1) (dadd x (dadd width (d_of_Z sp))) (S slots) k) as (p & Hp & Hpv & ? & ?);
      [lia..|].
    exists p. split; [done|]. replace (slots + S k)%nat with (S slots + k)%nat by lia.
    split_and!; [done|done|lia].
Qed.

Lemma plan_row_length sp views i y width height : ∀ cnt j x slots,
  (slots + cnt ≤ length views)%nat →
  length (plan_row sp views i y width height cnt j x slots) = cnt.
Proof.
  induction cnt as [|cnt IH]; intros j x slots Hlen; [done|].
  destruct (lookup_lt_is_Some_2 views slots ltac:(lia)) as [v Hv].
  rewrite (plan_row_S _ _ _ _ _ _ _ _ _ _ _ Hv). simpl. rewrite IH; [done|lia].
Qed.

Lemma plan_rows_lookup h views lines cols last height : ∀ cnt i y slots (k : nat) c,
  (slots + length (rows_cells lines cols last cnt i) ≤ length views)%nat →
  rows_cells lines cols last cnt i !! k = Some c →
  ∃ p, plan_rows h views lines cols last height cnt i y slots !! k = Some p ∧
       views !! (slots + k)%nat = Some (pl_view p) ∧ (pl_row p, pl_col p) = c.
Proof.
  induction cnt as [|cnt IH]; intros i y slots k c Hlen Hk; [done|].
  cbn [plan_rows rows_cells] in *.
  set (n := if i =? lines - 1 then last else cols) in *.
  assert (row_cols lines cols last i = n) as Hn by done. rewrite Hn in *.
  rewrite length_app, row_cells_length in Hlen.
  destruct (decide (k < Z.to_nat n)%nat) as [Hlt|Hge].
  - rewrite lookup_app_l in Hk by (rewrite row_cells_length; lia).
    rewrite row_cells_lookup in Hk by done. injection Hk as <-.
    edestruct (plan_row_lookup (spacing h) views i y) as (p & Hp & Hv & Hr & Hc);
      [|exact Hlt|].
    2:{ exists p. rewrite lookup_app_l by (rewrite plan_row_length; [done|lia]).
        split; [exact Hp|]. split; [done|]. rewrite Hr, Hc. f_equal. }
    lia.
  - rewrite lookup_app_r in Hk by (rewrite row_cells_length; lia).
    rewrite row_cells_length in Hk.
    edestruct (IH (i + 1) (dadd y (dadd height (d_of_Z (spacing h))))
                 (slots + Z.to_nat n)%nat) as (p & Hp & Hv & Hrc); [|exact Hk|].
    { lia. }
    exists p. rewrite lookup_app_r by (rewrite plan_row_length; lia).
    rewrite plan_row_length by lia. split; [done|].
    replace (slots + k)%nat with (slots + Z.to_nat n + (k - Z.to_nat n))%nat by lia.
    done.
Qed.

Lemma plan_lookup h views (k : nat) :
  views ≠ [] → (k < length views)%nat →
  let n := Z.of_nat (length views) in
  ∃ p v, plan h views !! k = Some p ∧ merge_sort Nat.le views !! k = Some v ∧
         pl_view p = v ∧
         pl_row p = Z.of_nat k / cols_for n ∧ pl_col p = Z.of_nat k mod cols_for n.
Proof.
  intros Hne Hk n. assert (1 ≤ n) as Hn by (destruct views; [done|simpl in *; lia]).
  pose proof (rows_for_pos n Hn). pose proof (last_row_cols_for_bounds n Hn).
  pose proof (last_row_cols_for_eq n Hn) as Hlast.
  assert (grid_cells n !! k = Some (Z.of_nat k / cols_for n, Z.of_nat k mod cols_for n))
    as Hcell.
  { unfold grid_cells. rewrite rows_cells_lookup.
    - rewrite Z.add_0_l. done.
    - lia.
    - lia.
    - lia.
    - rewrite Z2Nat.id by lia. rewrite Hlast.
      replace ((rows_for n - 1) * cols_for n + (n - (rows_for n - 1) * cols_for n))
        with n by ring.
      subst n. lia. }
  unfold plan. fold n.
  edestruct (plan_rows_lookup h (merge_sort Nat.le views) (rows_for n) (cols_for n)
               (last_row_cols_for n)
               (d_of_Z (Z.quot (g_height (workarea h) - (rows_for n + 1) * spacing h)
                  (rows_for n)))
               (Z.to_nat (rows_for n)) 0 (d_of_Z (g_y (workarea h) + spacing h)) 0%nat k)
    as (p & Hp & Hv & Hrc); [|exact Hcell|].
  { rewrite merge_sort_Permutation. pose proof (grid_cells_length n Hn) as Hg.
    unfold grid_cells in Hg. subst n. lia. }
  injection Hrc as Hr Hc. exists p, (pl_view p). split_and!; done.
Qed.

Lemma plan_rows_length h views lines cols last height : ∀ cnt i y slots,
  (slots + length (rows_cells lines cols last cnt i) ≤ length views)%nat →
  length (plan_rows h views lines cols last height cnt i y slots)
  = length (rows_cells lines cols last cnt i).
Proof.
  induction cnt as [|cnt IH]; intros i y slots Hlen; [done|].
  cbn [plan_rows rows_cells] in *.
  set (n := if i =? lines - 1 then last else cols) in *.
  assert (row_cols lines cols last i = n) as Hn by done. rewrite Hn in *.
  rewrite !length_app, row_cells_length in *.
  rewrite plan_row_length by lia. rewrite IH by lia. done.
Qed.

Lemma plan_views h views :
  views ≠ [] → pl_view <$> plan h views = merge_sort Nat.le views.
Proof.
  intros Hne. assert (1 ≤ Z.of_nat (length views)) as Hn
    by (destruct views; [done|simpl in *; lia]).
  assert (length (plan h views) = length views) as Hlen.
  { unfold plan. rewrite plan_rows_length.
    - pose proof (grid_cells_length _ Hn) as Hg. unfold grid_cells in Hg. lia.
    - rewrite merge_sort_Permutation.
      pose proof (grid_cells_length _ Hn) as Hg. unfold grid_cells in Hg. lia. }
  apply list_eq. intros k. rewrite list_lookup_fmap.
  destruct (decide (k < length views)%nat) as [Hk|Hk].
  - destruct (plan_lookup h views k Hne Hk) as (p & v & Hp & Hv & Hpv & _).
    rewrite Hp. simpl. rewrite Hpv. symmetry. exact Hv.
  - rewrite (lookup_ge_None_2 (plan h views)) by lia.
    rewrite lookup_ge_None_2; [done|]. rewrite merge_sort_Permutation. lia.
Qed.

Lemma covered_plan h views :
  views ≠ [] → covered h (plan h views) ≡ₚ flat_map (tree h) views.
Proof.
  intros Hne. unfold covered.
  transitivity (flat_map (tree h) (pl_view <$> plan h views)).
  - clear. induction (plan h views) as [|p ps IH]; simpl; [done|]. by rewrite IH.
  - rewrite plan_views by done.
    apply Permutation_flat_map, merge_sort_Permutation.
Qed.

Lemma grid_cells_NoDup n : 1 ≤ n → NoDup (grid_cells n).
Proof.
  intros Hn. pose proof (rows_for_pos n Hn). pose proof (last_row_cols_for_bounds n Hn).
  pose proof (last_row_cols_for_eq n Hn) as Hlast.
  pose proof (grid_cells_length n Hn) as Hlen.
  assert (∀ k : nat, (k < length (grid_cells n))%nat →
            grid_cells n !! k = Some (Z.of_nat k / cols_for n, Z.of_nat k mod cols_for n))
    as Hlk.
  { intros k Hk. unfold grid_cells. rewrite rows_cells_lookup.
    - rewrite Z.add_0_l. done.
    - lia.
    - lia.
    - lia.
    - rewrite Z2Nat.id by lia. rewrite Hlast.
      replace ((rows_for n - 1) * cols_for n + (n - (rows_for n - 1) * cols_for n))
        with n by ring.
      lia. }
  apply NoDup_alt. intros i j c Hi Hj.
  pose proof (lookup_lt_Some _ _ _ Hi) as Hi'. pose proof (lookup_lt_Some _ _ _ Hj) as Hj'.
  rewrite (Hlk i Hi') in Hi. rewrite (Hlk j Hj') in Hj.
  assert (Z.of_nat i / cols_for n = Z.of_nat j / cols_for n) as Hq by congruence.
  assert (Z.of_nat i mod cols_for n = Z.of_nat j mod cols_for n) as Hm by congruence.
  pose proof (Z.div_mod (Z.of_nat i) (cols_for n) ltac:(lia)).
  pose proof (Z.div_mod (Z.of_nat j) (cols_for n) ltac:(lia)).
  apply Nat2Z.inj. congruence.
Qed.

(** C1: for every window count N >= 1 the layout computes
    rows = floor(sqrt(N+1)), cols = ceil(N/rows),
    last_row_cols = N - (rows-1)*cols with rows*cols >= N, and gives each
    of the N windows, in sorted order and row by row, one cell of its
    own within the grid; for N = 5 this is rows = 2, cols = 3,
    last_row_cols = 2, and the fifth window is in cell (1,1). *)
Theorem grid_partition (n : Z) : 1 ≤ n → grid_facts n.
Proof.
  intros Hn. pose proof (rows_for_pos n Hn) as Hr.
  pose proof (last_row_cols_for_bounds n Hn) as Hlb.
  pose proof (last_row_cols_for_eq n Hn) as Hlast.
  pose proof (cols_for_ceil n Hn) as Hceil.
  unfold grid_facts. cbv zeta.
  split; [by apply rows_for_sqrt|]. split; [exact Hceil|]. split; [exact Hlast|].
  split; [exact Hlb|]. split; [by apply grid_cells_length|].
  split; [by apply grid_cells_NoDup|]. split; [|split].
  - intros k Hk. split.
    + unfold grid_cells. rewrite rows_cells_lookup.
      * rewrite Z.add_0_l. done.
      * lia.
      * lia.
      * lia.
      * rewrite Z2Nat.id by lia. rewrite Hlast.
        replace ((rows_for n - 1) * cols_for n + (n - (rows_for n - 1) * cols_for n))
          with n by ring. done.
    + assert (0 < cols_for n) as Hc by lia.
      pose proof (Z.div_mod (Z.of_nat k) (cols_for n) ltac:(lia)) as Hdm.
      pose proof (Z.mod_pos_bound (Z.of_nat k) (cols_for n) Hc) as Hmb.
      pose proof (Z.div_pos (Z.of_nat k) (cols_for n) ltac:(lia) Hc) as Hdp.
      assert (Z.of_nat k / cols_for n < rows_for n) as Hrow.
      { apply Z.div_lt_upper_bound; [done|]. lia. }
      unfold valid_cell, row_cols. simpl. split; [lia|].
      destruct (Z.eqb_spec (Z.of_nat k / cols_for n) (rows_for n - 1)) as [He|He]; [|lia].
      rewrite He in Hdm. rewrite Hlast. split; [lia|].
      replace ((rows_for n - 1) * cols_for n) with (cols_for n * (rows_for n - 1)) by ring.
      lia.
  - intros h s views Hlen Hc Hsh Hnd.
    assert (views ≠ []) as Hne by (intros ->; simpl in *; lia).
    pose proof (layout_slots_spec False h s views Hne Hc (or_intror Hsh)) as Hwp.
    apply wp_total_run in Hwp as ([] & s' & Hrun & Hpost).
    destruct Hpost as (_ & _ & Hgr & Hgc & Hgl & _ & _ & _ & Hpl & _).
    exists s'. rewrite Hlen in *. split_and!; try done.
    intros k v Hv.
    assert (k < length views)%nat as Hk.
    { apply lookup_lt_Some in Hv. by rewrite merge_sort_Permutation in Hv. }
    destruct (plan_lookup h views k Hne Hk) as (p & v' & Hp & Hv' & Hpv & Hpr & Hpc).
    rewrite Hlen in *.
    assert (Some v' = Some v) as Hvv by exact (eq_trans (eq_sym Hv') Hv).
    injection Hvv as ->.
    assert (NoDup (covered h (plan h views))) as Hnd'.
    { by rewrite covered_plan. }
    assert (p ∈ plan h views) as Hin by exact (list_elem_of_lookup_2 _ _ _ Hp).
    destruct (Hpl Hnd' p Hin) as [(d & Hd & _ & Hrow & Hcol & _) _].
    exists d. rewrite Hpv in Hd. rewrite Hrow, Hcol, Hpr, Hpc. done.
  - intros ->. vm_compute. done.
Qed.

Lemma grid_partition_witness : 1 ≤ 5 ∧ grid_facts 5.
Proof. split; [lia|]. apply (grid_partition 5). lia. Defined.

(** * Decision of [settled] and [consistent] *)

Lemma settledb_sound h s : settledb h s = true → settled h s.
Proof.
  unfold settledb, settled. rewrite forallb_forall. intros H v d Hd.
  assert (In (v, d) (map_to_list (scale_data s))) as Hin
    by (apply list_elem_of_In, elem_of_map_to_list; done).
  apply H in Hin. simpl in Hin. apply andb_prop in Hin as [Ht Hc].
  split; [done|]. clear H. intros c Hin. rewrite forallb_forall in Hc.
  apply list_elem_of_In in Hin. apply Hc in Hin. by apply bool_decide_eq_true_1 in Hin.
Qed.

Lemma consistentb_sound s : consistentb s = true → consistent s.
Proof.
  unfold consistentb, consistent. intros [H1 H2]%andb_prop v.
  rewrite forallb_forall in H1. rewrite forallb_forall in H2. split.
  - intros (d & Hd & Ht). specialize (H1 (v, d)). simpl in H1.
    rewrite Ht in H1. simpl in H1. eapply bool_decide_eq_true_1. apply H1.
    apply list_elem_of_In, elem_of_map_to_list. done.
  - intros [t Ht]. specialize (H2 (v, t)). simpl in H2.
    destruct (scale_data s !! v) as [d|] eqn:E.
    + exists d. split; [done|]. apply H2.
      apply list_elem_of_In, elem_of_map_to_list. done.
    + exfalso. assert (false = true) as F; [|done]. apply H2.
      apply list_elem_of_In, elem_of_map_to_list. done.
Qed.

Lemma flaggedb_sound s v : flaggedb s v = true → flagged s v.
Proof.
  unfold flaggedb, flagged. destruct (scale_data s !! v) as [d|]; [|done].
  intros H. by exists d.
Qed.

Lemma demo_shallow layer g i : shallow (demo_host layer g i).
Proof.
  split; simpl.
  - intros v c. case_bool_decide; [|by intros ?%elem_of_nil].
    intros Hc. apply list_elem_of_singleton in Hc. subst c. done.
  - intros v p. case_bool_decide; [|done]. intros [= <-]. done.
Qed.

(** * [activate] when it fails *)

Lemma set_plugin_active_same s : plugin_active s = true → set_plugin_active true s = s.
Proof. destruct s; simpl; by intros ->. Qed.

Lemma activate_active h s : active s = true → activate h s = Some (false, s).
Proof. intros H. unfold activate, bind, get. rewrite H. done. Qed.

Lemma activate_plugin_refused h s :
  active s = false → plugin_active s = false → can_activate h = false →
  activate h s = Some (false, set_capabilities CAPABILITY_GRAB_INPUT s).
Proof.
  intros Ha Hp Hc. unfold activate, activate_plugin, bind, get, modify, ask. rewrite Ha.
  simpl. rewrite Hp, Hc. done.
Qed.

Lemma activate_empty h s :
  active s = false → plugin_active s = true ∨ can_activate h = true →
  eligible h s = [] →
  activate h s
  = Some (false, set_plugin_active false (set_capabilities CAPABILITY_GRAB_INPUT s)).
Proof.
  intros Ha Hp He. unfold activate, activate_plugin, get_views, deactivate_plugin,
    bind, get, modify, ask, ret. rewrite Ha. simpl.
  unfold eligible in He.
  destruct (plugin_active s) eqn:E; simpl.
  - rewrite He. simpl. by destruct s.
  - destruct Hp as [?|Hp]; [done|]. rewrite Hp. simpl. rewrite He. simpl.
    by destruct s.
Qed.

Lemma plugin_activation h s :
  plugin_active s = true ∨ can_activate h = true →
  (if plugin_active s then ret true else activate_plugin) h s
  = Some (true, set_plugin_active true s).
Proof.
  intros Hp. destruct (plugin_active s) eqn:E.
  - unfold ret. by rewrite set_plugin_active_same.
  - destruct Hp as [?|Hp]; [done|]. unfold activate_plugin, bind, ask, modify, ret.
    by rewrite Hp.
Qed.

Lemma bind_run {A B} (m : M A) (k : A → M B) h s :
  bind m k h s = match m h s with Some (a, s') => k a h s' | None => None end.
Proof. done. Qed.

Lemma get_run h s : get h s = Some (s, s).
Proof. done. Qed.

Lemma ask_run h s : ask h s = Some (h, s).
Proof. done. Qed.

Lemma modify_run f h s : modify f h s = Some (tt, f s).
Proof. done. Qed.

Lemma ret_run {A} (a : A) h s : ret a h s = Some (a, s).
Proof. done. Qed.

(** Running the monadic glue in an equation. *)
Ltac run_glue :=
  repeat first [rewrite bind_run | rewrite get_run | rewrite ask_run
               | rewrite modify_run | rewrite ret_run | progress cbv beta iota
               | progress cbn [negb]].

Lemma activate_grab_refused h s :
  active s = false → plugin_active s = true ∨ can_activate h = true →
  eligible h s ≠ [] → interact h = false → can_grab h = false →
  activate h s
  = match deactivate h (before_grab s) with
    | Some (_, s') => Some (false, s')
    | None => None
    end.
Proof.
  intros Ha Hp He Hi Hg. unfold activate. run_glue. rewrite Ha. run_glue.
  rewrite (plugin_activation h (set_capabilities CAPABILITY_GRAB_INPUT s)) by done.
  run_glue. unfold get_views. run_glue.
  unfold eligible in He.
  change (all_workspaces (set_plugin_active true (set_capabilities CAPABILITY_GRAB_INPUT s)))
    with (all_workspaces s).
  destruct (if all_workspaces s then get_all_workspace_views h
            else get_current_workspace_views h) as [|v vs] eqn:E; [done|].
  run_glue. rewrite Hi. run_glue. unfold grab. run_glue. rewrite Hg.
  run_glue. run_glue. unfold before_grab. simpl.
  destruct (deactivate h _) as [[[] s']|]; done.
Qed.

(** C2 as stated does not hold: when the compositor refuses the grab,
    [activate] returns false after it has run [deactivate]: the frame
    hooks are registered, the initial focus is overwritten, and the
    focus moves from view 2 to view 3. *)
Lemma activate_refused_grab_changes_state :
  active focused_state = false ∧ interact refusing_host = false ∧
  can_grab refusing_host = false ∧
  activate refusing_host focused_state = Some (false, refused_state) ∧
  hook_set focused_state = false ∧ hook_set refused_state = true ∧
  active_view focused_state = Some 2%nat ∧ active_view refused_state = Some 3%nat ∧
  initial_focus_view focused_state = None ∧
  initial_focus_view refused_state = Some 2%nat ∧
  refused_state ≠ focused_state.
Proof.
  split_and!; try (vm_compute; reflexivity).
  intros E. apply (f_equal hook_set) in E. vm_compute in E. discriminate.
Qed.

(** C2 (amended): [activate] returns false
    (a) when scale is active, and then nothing changes (the session
        stays active);
    (b) when the compositor refuses the plugin, and then only the
        capabilities of the grab interface change;
    (c) when no view is eligible, and then the capabilities change and
        the plugin is deactivated in the output;
    (d) when the compositor refuses the grab, and then it has recorded
        the initial workspace and focus and does what [deactivate] does
        on that state, whether [deactivate] has a result or not.  It
        has one when the slot records with a transformer are the views
        with an attached transformer, dialogs are one level deep, every
        slot record has its transformer and the dialogs of its view
        have records, and the layout has a size unless no view is
        focused or scale has no current focus view: then the session is
        inactive, the hooks are registered, the slot records that
        existed are kept and get the identity as target, and none is
        created. *)
Theorem activate_failure (h : host) (s : state) :
  (active s = true → activate h s = Some (false, s)) ∧
  (active s = false → plugin_active s = false → can_activate h = false →
   activate h s = Some (false, set_capabilities CAPABILITY_GRAB_INPUT s)) ∧
  (active s = false → plugin_active s = true ∨ can_activate h = true →
   eligible h s = [] →
   activate h s
   = Some (false, set_plugin_active false (set_capabilities CAPABILITY_GRAB_INPUT s))) ∧
  (active s = false → plugin_active s = true ∨ can_activate h = true →
   eligible h s ≠ [] → interact h = false → can_grab h = false →
   activate h s = match deactivate h (before_grab s) with
                  | Some (_, s') => Some (false, s')
                  | None => None
                  end ∧
   (consistent s → shallow h → settled h s →
    active_view s = None ∨ current_focus_view s = None ∨ sized h →
    ∃ s', activate h s = Some (false, s') ∧
          deactivate h (before_grab s) = Some (tt, s') ∧
          consistent s' ∧ deactivated (before_grab s) s' ∧
          restored (before_grab s) s' ∧
          transformers s' = transformers s)).
Proof.
  split_and!.
  - apply activate_active.
  - apply activate_plugin_refused.
  - apply activate_empty.
  - intros Ha Hp He Hi Hg.
    split; [exact (activate_grab_refused h s Ha Hp He Hi Hg)|].
    intros Hc Hsh Hst Hrf.
    rewrite (activate_grab_refused h s Ha Hp He Hi Hg).
    assert (consistent (before_grab s)) as Hc' by (by apply (consistent_ext s)).
    assert (settled h (before_grab s)) as Hst' by (by apply (settled_ext h s)).
    assert (can_refocus h (before_grab s)) as Hrf' by exact Hrf.
    pose proof (deactivate_spec False h (before_grab s) Hc'
                  (or_intror (conj Hsh (conj Hst' Hrf')))) as Hwp.
    apply wp_total_run in Hwp as ([] & s' & Hrun & Hc1 & Hd & [[]|Hr]).
    rewrite Hrun. exists s'. split_and!; try done.
    destruct Hd as (E & _). apply (f_equal transformers) in E. done.
Qed.

Lemma activate_failure_witness :
  activate demo5 demo_active = Some (false, demo_active) ∧
  activate busy_host demo_state
  = Some (false, set_capabilities CAPABILITY_GRAB_INPUT demo_state) ∧
  activate empty_host demo_state
  = Some (false, set_plugin_active false
                   (set_capabilities CAPABILITY_GRAB_INPUT demo_state)) ∧
  activate refusing_host focused_state
  = match deactivate refusing_host (before_grab focused_state) with
    | Some (_, s') => Some (false, s')
    | None => None
    end ∧
  ∃ s', activate refusing_host focused_state = Some (false, s') ∧
        deactivate refusing_host (before_grab focused_state) = Some (tt, s') ∧
        consistent s' ∧ deactivated (before_grab focused_state) s' ∧
        restored (before_grab focused_state) s' ∧
        transformers s' = transformers focused_state.
Proof.
  split; [|split; [|split]].
  - apply (proj1 (activate_failure demo5 demo_active)). vm_compute. reflexivity.
  - apply (proj1 (proj2 (activate_failure busy_host demo_state))); reflexivity.
  - apply (proj1 (proj2 (proj2 (activate_failure empty_host demo_state)))).
    + reflexivity.
    + right. reflexivity.
    + reflexivity.
  - assert (eligible refusing_host focused_state ≠ []) as He
      by (vm_compute; discriminate).
    destruct (proj2 (proj2 (proj2 (activate_failure refusing_host focused_state)))
                eq_refl (or_intror eq_refl) He eq_refl eq_refl) as [Hrun Hd].
    split; [exact Hrun|]. apply Hd.
    + apply consistentb_sound. vm_compute. reflexivity.
    + apply demo_shallow.
    + apply settledb_sound. vm_compute. reflexivity.
    + right. left. reflexivity.
Defined.

(** * The frame hook after [deactivate] *)

Lemma post_hook_spec N h s :
  consistent s →
  wp N post_hook h s
    (λ _ s', ∃ r s1, animation_running h s = Some (r, s1) ∧ only_inserted h s s1 ∧
       (r = true ↔ animating h s) ∧
       s' = if r then s1
            else if active s then set_hook_set false s1 else finalized s1).
Proof.
  intros Hc. unfold post_hook.
  destruct (animation_running_animating h s) as (r & s1 & Hrun & Hi & Hiff).
  apply wp_bind. eapply wp_eq; [exact Hrun|]. cbv beta.
  assert (consistent s1) as Hc1 by (by eapply only_inserted_consistent).
  assert (active s1 = active s) as Ha.
  { destruct Hi as (E & _). by apply (f_equal active) in E. }
  destruct r.
  - apply wp_ret. exists true, s1. done.
  - wp_go. destruct (hook_set s1) eqn:Hk; simpl; wp_go; simpl; rewrite Ha.
    + destruct (active s) eqn:Hact.
      * apply wp_ret. exists false, s1. done.
      * eapply wp_mono; [apply finalize_spec; by apply (consistent_ext s1)|].
        intros u s' ->. cbv beta. exists false, s1. split_and!; [done..|].
        by destruct s1.
    + destruct (active s) eqn:Hact.
      * apply wp_ret. exists false, s1. split_and!; [done..|].
        destruct s1; simpl in *; by subst.
      * eapply wp_mono; [by apply finalize_spec|].
        intros u s' ->. cbv beta. exists false, s1. done.
Qed.

(** * Reachable states of the examples *)

Lemma initial_demo_state : initial demo_state.
Proof. by split_and!. Qed.

Lemma reachable_demo_active : reachable demo_active.
Proof.
  apply (reach_event demo_state demo5 (Toggle false)).
  - apply reach_init, initial_demo_state.
  - reflexivity.
  - vm_compute. reflexivity.
Qed.

Lemma reachable_focus7 : reachable focus7_state.
Proof.
  apply (reach_event demo_active demo5 (ViewFocused (Some 7%nat))).
  - apply reachable_demo_active.
  - vm_compute. reflexivity.
  - vm_compute. reflexivity.
Qed.

(** C3 does not hold in every reachable state.  After view 7, which is
    not scaled, has got the focus while scale is active, it has a slot
    record whose transformer pointer is null; [deactivate] calls
    [setup_view_transform] for every slot record, which reads the
    transformer through that pointer: the call has no result, and
    neither has the toggle that closes scale.  In the state before the
    focus event [deactivate] returns. *)
Lemma deactivate_null_transformer :
  reachable focus7_state ∧ active focus7_state = true ∧
  consistent focus7_state ∧ shallow demo5 ∧ sized demo5 ∧
  scale_data focus7_state !! 7%nat = Some (default_view_scale_data demo5) ∧
  transformer (default_view_scale_data demo5) = false ∧
  setup_view_transform 7%nat d1 d1 d0 d0 d1 demo5 focus7_state = None ∧
  deactivate demo5 focus7_state = None ∧
  handle (Toggle false) demo5 focus7_state = None ∧
  is_Some (deactivate demo5 demo_active).
Proof.
  split; [apply reachable_focus7|]. split; [vm_compute; reflexivity|].
  split; [apply consistentb_sound; vm_compute; reflexivity|].
  split; [apply demo_shallow|]. split; [split; discriminate|].
  split_and!; try (vm_compute; reflexivity).
  vm_compute. eauto.
Qed.

(** C3 (under its conditions): when the slot records with a transformer
    are the views with an attached transformer, dialogs are one level
    deep, every slot record has its transformer and the dialogs of its
    view have records, and the layout has a size unless no initial or
    no current focus view is recorded, [deactivate] returns: every slot
    record keeps its cell and gets the identity as target (scale (1,1),
    translation (0,0), alpha 1), the frame hooks are registered and the
    session is over.  In a later frame of the inactive session,
    [animation_running] is true exactly when the fade or the scale
    animation of some slot record has been started and has not run for
    its duration; while that is so [post_hook] only looks, and as soon
    as it is not, [post_hook] removes the hooks and finalizes: no
    transformer stays attached and no slot record is left. *)
Theorem deactivate_then_finalize (h : host) (s : state) :
  consistent s → shallow h → settled h s → can_refocus h s →
  ∃ s1, deactivate h s = Some (tt, s1) ∧
        consistent s1 ∧ deactivated s s1 ∧ restored s s1 ∧
        ∀ h' s2, consistent s2 → active s2 = false →
          ∃ r s3, animation_running h' s2 = Some (r, s3) ∧
                  (r = true ↔ animating h' s2) ∧
                  only_inserted h' s2 s3 ∧
                  post_hook h' s2 = Some (tt, if r then s3 else finalized s3) ∧
                  hook_set (finalized s3) = false ∧
                  scale_data (finalized s3) = ∅ ∧
                  transformers (finalized s3) = ∅.
Proof.
  intros Hc Hsh Hst Hrf.
  pose proof (deactivate_spec False h s Hc (or_intror (conj Hsh (conj Hst Hrf)))) as Hwp.
  apply wp_total_run in Hwp as ([] & s1 & Hrun & Hc1 & Hd & [[]|Hr]).
  exists s1. split_and!; try done.
  intros h' s2 Hc2 Ha2.
  pose proof (post_hook_spec False h' s2 Hc2) as Hp.
  apply wp_total_run in Hp as ([] & s' & Hrun' & r & s3 & Har & Hi & Hiff & ->).
  exists r, s3. rewrite Ha2 in Hrun'. split_and!; done.
Qed.

Lemma deactivate_then_finalize_witness :
  consistent demo_active ∧ shallow demo5 ∧ settled demo5 demo_active ∧
  can_refocus demo5 demo_active ∧
  ∃ s1, deactivate demo5 demo_active = Some (tt, s1) ∧
        consistent s1 ∧ deactivated demo_active s1 ∧ restored demo_active s1 ∧
        ∀ h' s2, consistent s2 → active s2 = false →
          ∃ r s3, animation_running h' s2 = Some (r, s3) ∧
                  (r = true ↔ animating h' s2) ∧
                  only_inserted h' s2 s3 ∧
                  post_hook h' s2 = Some (tt, if r then s3 else finalized s3) ∧
                  hook_set (finalized s3) = false ∧
                  scale_data (finalized s3) = ∅ ∧
                  transformers (finalized s3) = ∅.
Proof.
  assert (consistent demo_active) as Hc
    by (apply consistentb_sound; vm_compute; reflexivity).
  assert (settled demo5 demo_active) as Hs
    by (apply settledb_sound; vm_compute; reflexivity).
  assert (can_refocus demo5 demo_active) as Hr
    by (right; right; split; discriminate).
  split; [exact Hc|]. split; [apply demo_shallow|]. split; [exact Hs|].
  split; [exact Hr|].
  exact (deactivate_then_finalize demo5 demo_active Hc (demo_shallow _ _ _) Hs Hr).
Defined.

(** * [view_detached] *)

Lemma remove_view_total h s v :
  consistent s →
  ∃ s1, remove_view (Some v) h s = Some (tt, s1) ∧ consistent s1 ∧
        removed (λ w, w ∈ tree h v) s s1.
Proof.
  intros Hc. pose proof (remove_view_spec False h s (Some v) Hc) as Hwp.
  apply wp_total_run in Hwp as ([] & s1 & Hrun & Hc1 & Hr).
  exists s1. split_and!; [done..|].
  eapply removed_iff; [|exact Hr]. intros w. split.
  - intros (v0 & [= <-] & Hw). done.
  - intros Hw. by exists v.
Qed.

(** C4 as stated does not hold: when the dialog 6 of view 2 is detached,
    its slot record and transformer are removed, and that is all: the
    five views that remain keep their records untouched, and the grid
    stays the 2x3 grid of five views. *)
Lemma detached_dialog_no_layout :
  is_Some (scale_data demo_active !! 6%nat) ∧
  view_detached 6%nat demo5 demo_active = Some (tt, detached_state) ∧
  length (eligible demo5 detached_state) = 5%nat ∧
  scale_data detached_state = delete 6%nat (scale_data demo_active) ∧
  transformers detached_state = delete 6%nat (transformers demo_active) ∧
  grid_rows detached_state = 2 ∧ grid_cols detached_state = 3 ∧
  cols_for 4 = 2.
Proof.
  split_and!; try (vm_compute; reflexivity).
  vm_compute. eauto.
Qed.

(** C4 (amended): when a view is detached that has a slot record, or
    whose parent has one, [remove_view] removes the slot records and the
    transformers of the view and of its children, whatever the state of
    the animations.  Then, if no view is eligible, the session is
    finalized; if the parent of the view has a slot record, nothing
    else happens (no layout); otherwise the eligible views are laid out
    again. *)
Theorem view_detached_removes (h : host) (s : state) (v : view) :
  consistent s → shallow h →
  parent_has_record h s v = true ∨ is_Some (scale_data s !! v) →
  ∃ s1, remove_view (Some v) h s = Some (tt, s1) ∧ consistent s1 ∧
        removed (λ w, w ∈ tree h v) s s1 ∧
        match eligible h s with
        | [] => view_detached v h s = Some (tt, finalized s1)
        | _ :: _ =>
            if parent_has_record h s v then view_detached v h s = Some (tt, s1)
            else ∃ s', view_detached v h s = Some (tt, s') ∧
                       layout_post h (eligible h s) s1 s'
        end.
Proof.
  intros Hc Hsh Hv.
  destruct (remove_view_total h s v Hc) as (s1 & Hrun & Hc1 & Hr).
  exists s1. split_and!; [done..|].
  assert (all_workspaces s1 = all_workspaces s) as Hall.
  { destruct Hr as (E & _). by apply (f_equal all_workspaces) in E. }
  assert (eligible h s1 = eligible h s) as Hel by (unfold eligible; by rewrite Hall).
  assert (∀ k : list view → M unit,
            bind (remove_view (Some v)) (λ _, bind get_views k) h s
            = k (eligible h s) h s1) as Hstep.
  { intros k. rewrite bind_run, Hrun. unfold get_views. run_glue.
    fold (eligible h s1). by rewrite Hel. }
  unfold view_detached. run_glue. fold (parent_has_record h s v).
  destruct (parent_has_record h s v) eqn:Hp.
  - cbv iota. rewrite Hstep. destruct (eligible h s) as [|x xs] eqn:E; [|done].
    pose proof (finalize_spec False h s1 Hc1) as Hf.
    apply wp_total_run in Hf as ([] & s' & Hf & ->). done.
  - destruct Hv as [?|Hv]; [done|].
    apply elem_of_dom in Hv. rewrite (bool_decide_eq_true_2 _ Hv). cbn [negb]. cbv iota.
    rewrite Hstep. destruct (eligible h s) as [|x xs] eqn:E.
    + pose proof (finalize_spec False h s1 Hc1) as Hf.
      apply wp_total_run in Hf as ([] & s' & Hf & ->). done.
    + pose proof (layout_slots_spec False h s1 (x :: xs) ltac:(done) Hc1 (or_intror Hsh))
        as Hl.
      apply wp_total_run in Hl as ([] & s' & Hl & Hpost). eauto.
Qed.

Lemma view_detached_removes_witness :
  (parent_has_record demo5 demo_active 6%nat = true ∧
   ∃ s1, remove_view (Some 6%nat) demo5 demo_active = Some (tt, s1) ∧ consistent s1 ∧
         removed (λ w, w ∈ tree demo5 6%nat) demo_active s1 ∧
         match eligible demo5 demo_active with
         | [] => view_detached 6%nat demo5 demo_active = Some (tt, finalized s1)
         | _ :: _ =>
             if parent_has_record demo5 demo_active 6%nat
             then view_detached 6%nat demo5 demo_active = Some (tt, s1)
             else ∃ s', view_detached 6%nat demo5 demo_active = Some (tt, s') ∧
                        layout_post demo5 (eligible demo5 demo_active) s1 s'
         end) ∧
  (is_Some (scale_data demo_active !! 3%nat) ∧
   ∃ s1, remove_view (Some 3%nat) demo4 demo_active = Some (tt, s1) ∧ consistent s1 ∧
         removed (λ w, w ∈ tree demo4 3%nat) demo_active s1 ∧
         match eligible demo4 demo_active with
         | [] => view_detached 3%nat demo4 demo_active = Some (tt, finalized s1)
         | _ :: _ =>
             if parent_has_record demo4 demo_active 3%nat
             then view_detached 3%nat demo4 demo_active = Some (tt, s1)
             else ∃ s', view_detached 3%nat demo4 demo_active = Some (tt, s') ∧
                        layout_post demo4 (eligible demo4 demo_active) s1 s'
         end).
Proof.
  assert (consistent demo_active) as Hc
    by (apply consistentb_sound; vm_compute; reflexivity).
  split; split.
  - vm_compute. reflexivity.
  - apply (view_detached_removes demo5 demo_active 6%nat Hc (demo_shallow _ _ _)).
    left. vm_compute. reflexivity.
  - vm_compute. eauto.
  - apply (view_detached_removes demo4 demo_active 3%nat Hc (demo_shallow _ _ _)).
    right. vm_compute. eauto.
Defined.

(** * Navigation *)

Lemma Zrange_In lo hi x : lo ≤ x < hi → In x (Zrange lo hi).
Proof.
  intros Hx. unfold Zrange. apply in_map_iff. exists (Z.to_nat (x - lo)). split; [lia|].
  apply in_seq. lia.
Qed.

Lemma remap_exact_21 : remap_exact_upto 21 = true.
Proof. vm_compute. reflexivity. Qed.

Lemma remap_exact cols last col :
  2 ≤ last → last ≤ cols → cols ≤ 21 →
  (0 ≤ col < cols → col_into_last_row cols last col = exact_into cols last col) ∧
  (0 ≤ col < last → col_out_of_last_row cols last col = exact_out cols last col).
Proof.
  intros Hl Hlc Hc. pose proof remap_exact_21 as H. unfold remap_exact_upto in H.
  rewrite forallb_forall in H. specialize (H cols (Zrange_In 2 (21 + 1) cols ltac:(lia))).
  unfold remap_exact_on in H. rewrite forallb_forall in H.
  specialize (H last (Zrange_In 2 (cols + 1) last ltac:(lia))).
  apply andb_prop in H as [H1 H2].
  rewrite forallb_forall in H1. rewrite forallb_forall in H2. split; intros Hcol.
  - apply Z.eqb_eq, H1, Zrange_In. lia.
  - apply Z.eqb_eq, H2, Zrange_In. lia.
Qed.

Lemma clamp_range v lo hi : lo ≤ hi → lo ≤ clamp v lo hi ≤ hi.
Proof. intros H. unfold clamp. repeat case_match; lia. Qed.

Lemma clamp_id v lo hi : lo ≤ v ≤ hi → clamp v lo hi = v.
Proof. intros H. unfold clamp. repeat case_match; lia. Qed.

Lemma exact_into_range cols last col :
  2 ≤ last → last ≤ cols → 0 ≤ col < cols → 0 ≤ exact_into cols last col ≤ last - 1.
Proof.
  intros Hl Hc Hcol. unfold exact_into. split.
  - apply Z.div_pos; nia.
  - apply Z.div_le_upper_bound; nia.
Qed.

Lemma exact_out_range cols last col :
  2 ≤ last → last ≤ cols → 0 ≤ col < last → 0 ≤ exact_out cols last col ≤ cols - 1.
Proof.
  intros Hl Hc Hcol. unfold exact_out. split.
  - apply Z.div_pos; nia.
  - assert ((2 * col + 1) * cols / (2 * last) < cols); [|lia].
    apply Z.div_lt_upper_bound; nia.
Qed.

Lemma remap_into key row col rows cols last :
  1 < rows → 1 < cols → 1 < last →
  (key = KEY_DOWN ∧ row = rows - 1) ∨ (key = KEY_UP ∧ row = -1) →
  remap_col key row col rows cols last
  = clamp (col_into_last_row cols last col) 0 (last - 1).
Proof.
  intros Hr Hc Hl Hk. unfold remap_col.
  rewrite (proj2 (Z.ltb_lt 1 rows) Hr), (proj2 (Z.ltb_lt 1 cols) Hc),
    (proj2 (Z.ltb_lt 1 last) Hl). simpl.
  destruct Hk as [[-> ->]|[-> ->]]; simpl; rewrite ?Z.eqb_refl; simpl;
    rewrite ?andb_true_r, ?orb_true_r; done.
Qed.

Lemma remap_out key row col rows cols last :
  1 < rows → 1 < cols → 1 < last →
  (key = KEY_UP ∧ row = rows - 2) ∨ (key = KEY_DOWN ∧ row = rows) →
  remap_col key row col rows cols last
  = clamp (col_out_of_last_row cols last col) 0 (cols - 1).
Proof.
  intros Hr Hc Hl Hk. unfold remap_col.
  rewrite (proj2 (Z.ltb_lt 1 rows) Hr), (proj2 (Z.ltb_lt 1 cols) Hc),
    (proj2 (Z.ltb_lt 1 last) Hl). simpl.
  destruct Hk as [[-> ->]|[-> ->]]; simpl; rewrite ?Z.eqb_refl.
  - rewrite (proj2 (Z.eqb_neq (rows - 2) (-1))) by lia. simpl. done.
  - rewrite (proj2 (Z.eqb_neq rows (rows - 1))) by lia. simpl.
    by rewrite ?orb_true_r.
Qed.

(** C5 as stated does not hold: in the grid of ten views (3 rows, 4
    columns, 2 views in the last row) Down from column 2 of the middle
    row leads to column 0 of the last row, where
    [old_col * last_row_cols / cols] is 1, and Up from column 0 of the
    last row leads to column 1 of the middle row, where
    [old_col * cols / last_row_cols] is 0. *)
Lemma remap_is_not_the_rounded_product :
  rows_for 10 = 3 ∧ cols_for 10 = 4 ∧ last_row_cols_for 10 = 2 ∧
  target_cell KEY_DOWN 1 2 3 4 2 = Some (2, 0) ∧
  2 * 2 = 1 * 4 ∧ claimed_into 4 2 2 = 1 ∧
  target_cell KEY_UP 2 0 3 4 2 = Some (1, 1) ∧
  0 * 4 = 0 * 2 ∧ claimed_out 4 2 0 = 0.
Proof. split_and!; vm_compute; reflexivity. Qed.

(** C5 (amended): in a grid with more than one row, more than one
    column and more than one view in the last row, the column is
    remapped when focus moves into the last row (Down from the row
    above it, Up from the first row) and when it moves out of it (Up
    from the last row, Down from it to the first row).  The new column
    is within the destination row, whatever the old one.  With at most
    21 columns it is [old_col * (last_row_cols - 1) / (cols - 1)] on the
    way in and [(2 * old_col + 1) * cols / (2 * last_row_cols)] on the way
    out, rounded down. *)
Theorem remap_col_spec (rows cols last col : Z) :
  1 < rows → 1 < last → last ≤ cols →
  let into := remap_col KEY_DOWN (rows - 1) col rows cols last in
  let out := remap_col KEY_UP (rows - 2) col rows cols last in
  remap_col KEY_UP (-1) col rows cols last = into ∧
  remap_col KEY_DOWN rows col rows cols last = out ∧
  0 ≤ into ≤ last - 1 ∧ 0 ≤ out ≤ cols - 1 ∧
  (cols ≤ 21 → 0 ≤ col < cols → into = col * (last - 1) / (cols - 1)) ∧
  (cols ≤ 21 → 0 ≤ col < last → out = (2 * col + 1) * cols / (2 * last)).
Proof.
  intros Hr Hl Hlc into out. assert (1 < cols) as Hc by lia.
  assert (into = clamp (col_into_last_row cols last col) 0 (last - 1)) as Hinto
    by (apply remap_into; auto).
  assert (out = clamp (col_out_of_last_row cols last col) 0 (cols - 1)) as Hout
    by (apply remap_out; auto).
  split_and!.
  - rewrite Hinto. apply remap_into; auto.
  - rewrite Hout. apply remap_out; auto.
  - rewrite Hinto. apply clamp_range. lia.
  - rewrite Hinto. apply clamp_range. lia.
  - rewrite Hout. apply clamp_range. lia.
  - rewrite Hout. apply clamp_range. lia.
  - intros Hb Hcol. rewrite Hinto.
    rewrite (proj1 (remap_exact cols last col ltac:(lia) Hlc Hb) Hcol).
    apply clamp_id. apply exact_into_range; lia.
  - intros Hb Hcol. rewrite Hout.
    rewrite (proj2 (remap_exact cols last col ltac:(lia) Hlc Hb) Hcol).
    apply clamp_id. apply exact_out_range; lia.
Qed.

Lemma remap_col_spec_witness :
  1 < 3 ∧ 1 < 2 ∧ 2 ≤ 4 ∧
  remap_col KEY_UP (-1) 1 3 4 2 = remap_col KEY_DOWN (3 - 1) 1 3 4 2 ∧
  remap_col KEY_DOWN 3 1 3 4 2 = remap_col KEY_UP (3 - 2) 1 3 4 2 ∧
  0 ≤ remap_col KEY_DOWN (3 - 1) 1 3 4 2 ≤ 2 - 1 ∧
  0 ≤ remap_col KEY_UP (3 - 2) 1 3 4 2 ≤ 4 - 1 ∧
  (4 ≤ 21 → 0 ≤ 1 < 4 → remap_col KEY_DOWN (3 - 1) 1 3 4 2 = 1 * (2 - 1) / (4 - 1)) ∧
  (4 ≤ 21 → 0 ≤ 1 < 2 → remap_col KEY_UP (3 - 2) 1 3 4 2 = (2 * 1 + 1) * 4 / (2 * 2)).
Proof.
  split; [lia|]. split; [lia|]. split; [lia|].
  apply (remap_col_spec 3 4 2 1); lia.
Defined.



(** * The slots are a function of the views *)

Lemma chosen_view_again h s s1 views :
  layout_post h views s s1 → all_workspaces s1 = all_workspaces s →
  chosen_view h s1 views = chosen_view h s views.
Proof.
  intros (_ & _ & _ & _ & _ & _ & Hav & _) Hall.
  assert (eligible h s1 = eligible h s) as He by (unfold eligible; by rewrite Hall).
  unfold chosen_view at 1. rewrite Hav, He.
  destruct (all_workspaces s); [|done].
  case_bool_decide as Hin; [done|].
  unfold chosen_view in *. destruct (active_view s) as [a|]; [|done].
  case_bool_decide; [done|done].
Qed.

Lemma covered_elem_plan h ps w :
  w ∈ covered h ps → ∃ p, p ∈ ps ∧ w ∈ tree h (pl_view p).
Proof.
  unfold covered. rewrite list_elem_of_In, in_flat_map.
  intros (p & Hp & Hw). exists p. by rewrite !list_elem_of_In.
Qed.

Lemma placed_same h s1 s2 act av p w :
  placed h s1 act av p → placed h s2 act av p → w ∈ tree h (pl_view p) →
  ∃ d1 d2, scale_data s1 !! w = Some d1 ∧ scale_data s2 !! w = Some d2 ∧
           slot_of d2 = slot_of d1.
Proof.
  intros [V1 C1] [V2 C2] Hw. unfold tree in Hw. apply elem_of_cons in Hw as [->|Hw].
  - destruct V1 as (d1 & Hd1 & _ & R1 & K1 & T1), V2 as (d2 & Hd2 & _ & R2 & K2 & T2).
    exists d1, d2. unfold slot_of. split_and!; [done..|]. congruence.
  - destruct (C1 w Hw) as (d1 & Hd1 & _ & R1 & K1 & T1).
    destruct (C2 w Hw) as (d2 & Hd2 & _ & R2 & K2 & T2).
    exists d1, d2. unfold slot_of. split_and!; [done..|]. congruence.
Qed.

Lemma plan_rows_host h h' views lines cols last height :
  workarea h' = workarea h → spacing h' = spacing h →
  ∀ cnt i y slots,
    plan_rows h' views lines cols last height cnt i y slots
    = plan_rows h views lines cols last height cnt i y slots.
Proof.
  intros Hw Hs. induction cnt as [|cnt IH]; intros i y slots; [done|].
  cbn [plan_rows]. rewrite Hw, Hs, IH. done.
Qed.

Lemma plan_with_now t h views : plan (with_now t h) views = plan h views.
Proof. unfold plan. by rewrite (plan_rows_host h (with_now t h)). Qed.

Lemma layout_post_with_now t h views s s' :
  layout_post (with_now t h) views s s' → layout_post h views s s'.
Proof. unfold layout_post. rewrite plan_with_now. intros H. exact H. Qed.

(** C7: two calls of [layout_slots] in succession on the same views, the
    second at any later time, give every view and every child of a view
    the same cell and the same targets (scale, translation and alpha),
    and the same grid. *)
Theorem layout_twice (h : host) (t : Z) (s : state) (views : list view) :
  views ≠ [] → consistent s → shallow h → NoDup (flat_map (tree h) views) →
  ∃ s1 s2, layout_slots views h s = Some (tt, s1) ∧
           layout_slots views (with_now t h) s1 = Some (tt, s2) ∧
           grid_rows s2 = grid_rows s1 ∧ grid_cols s2 = grid_cols s1 ∧
           grid_last_row_cols s2 = grid_last_row_cols s1 ∧
           ∀ w, w ∈ flat_map (tree h) views →
             ∃ d1 d2, scale_data s1 !! w = Some d1 ∧ scale_data s2 !! w = Some d2 ∧
                      slot_of d2 = slot_of d1.
Proof.
  intros Hne Hc Hsh Hnd.
  pose proof (layout_slots_spec False h s views Hne Hc (or_intror Hsh)) as H1.
  apply wp_total_run in H1 as ([] & s1 & Hrun1 & Hpost1).
  assert (consistent s1) as Hc1 by apply Hpost1.
  assert (shallow (with_now t h)) as Hsh' by exact Hsh.
  pose proof (layout_slots_spec False (with_now t h) s1 views Hne Hc1 (or_intror Hsh')) as H2.
  apply wp_total_run in H2 as ([] & s2 & Hrun2 & Hpost2).
  exists s1, s2. split; [done|]. split; [done|].
  assert (all_workspaces s1 = all_workspaces s ∧ active s1 = active s) as [Hall Hact].
  { destruct Hpost1 as (_ & E & _).
    split; [by apply (f_equal all_workspaces) in E|by apply (f_equal active) in E]. }
  pose proof (chosen_view_again h s s1 views Hpost1 Hall) as Hav.
  apply layout_post_with_now in Hpost2.
  destruct Hpost1 as (_ & _ & Hr1 & Hk1 & Hl1 & _ & _ & _ & Hpl1 & _).
  destruct Hpost2 as (_ & _ & Hr2 & Hk2 & Hl2 & _ & _ & _ & Hpl2 & _).
  split; [congruence|]. split; [congruence|]. split; [congruence|].
  assert (NoDup (covered h (plan h views))) as Hnd' by (by rewrite covered_plan).
  intros w Hw. rewrite <- covered_plan in Hw by done.
  apply covered_elem_plan in Hw as (p & Hp & Hw).
  specialize (Hpl1 Hnd' p Hp). specialize (Hpl2 Hnd' p Hp).
  rewrite Hav, Hact in Hpl2. by eapply placed_same.
Qed.

Lemma layout_twice_witness :
  five_views ≠ [] ∧ consistent demo_state ∧ shallow demo5 ∧
  NoDup (flat_map (tree demo5) five_views) ∧
  ∃ s1 s2, layout_slots five_views demo5 demo_state = Some (tt, s1) ∧
           layout_slots five_views (with_now 100 demo5) s1 = Some (tt, s2) ∧
           grid_rows s2 = grid_rows s1 ∧ grid_cols s2 = grid_cols s1 ∧
           grid_last_row_cols s2 = grid_last_row_cols s1 ∧
           ∀ w, w ∈ flat_map (tree demo5) five_views →
             ∃ d1 d2, scale_data s1 !! w = Some d1 ∧ scale_data s2 !! w = Some d2 ∧
                      slot_of d2 = slot_of d1.
Proof.
  assert (five_views ≠ []) as H1 by discriminate.
  assert (consistent demo_state) as H2
    by (apply consistentb_sound; vm_compute; reflexivity).
  assert (NoDup (flat_map (tree demo5) five_views)) as H4
    by (refine (bool_decide_unpack _ _); vm_compute; exact I).
  split; [exact H1|]. split; [exact H2|]. split; [apply demo_shallow|]. split; [exact H4|].
  exact (layout_twice demo5 100 demo_state five_views H1 H2 (demo_shallow _ _ _) H4).
Defined.

(** * The start values of a new animation *)

(** C8: [setup_view_transform] on a slot record, whether or not its
    animations are running, starts the four transitions of the scale
    animation and the fade from the values that the transformer of the
    view has at that moment, and both durations from the present time;
    when the transformer holds the values sampled in the last frame
    ([transform_views]), these are the start values, not the start
    values of the animation that is replaced. *)
Theorem restart_from_current (h : host) (s : state) (v : view)
    (sx sy tx ty alpha : double) :
  consistent s → flagged s v →
  ∃ d t s' d', scale_data s !! v = Some d ∧ transformers s !! v = Some t ∧
    setup_view_transform v sx sy tx ty alpha h s = Some (tt, s') ∧
    scale_data s' !! v = Some d' ∧
    start_of d' = applied t ∧
    target_of d' = (sx, sy, tx, ty, alpha) ∧
    dur_begin (sa_duration (animation d')) = Some (now h) ∧
    dur_begin (fa_duration (fade_animation d')) = Some (now h) ∧
    row d' = row d ∧ col d' = col d ∧
    ∀ h0 t0, t = apply_animation h0 d t0 →
      start_of d'
      = (sample (now h0) (sa_duration (animation d)) (scale_x (animation d)),
         sample (now h0) (sa_duration (animation d)) (scale_y (animation d)),
         sample (now h0) (sa_duration (animation d)) (translation_x (animation d)),
         sample (now h0) (sa_duration (animation d)) (translation_y (animation d)),
         sample (now h0) (fa_duration (fade_animation d))
           (fa_transition (fade_animation d))).
Proof.
  intros Hc Hf.
  pose proof (wp_setup False h s v sx sy tx ty alpha Hc (or_intror Hf)) as Hwp.
  apply wp_total_run in Hwp as ([] & s' & Hrun & _ & _ & _ & d & t & Hd & Ht & Hd').
  exists d, t, s', (setup_record (now h) t sx sy tx ty alpha d).
  split_and!; try done.
  intros h0 t0 ->. done.
Qed.

Lemma restart_from_current_witness :
  consistent demo_active ∧ flagged demo_active 3%nat ∧
  ∃ d t s' d', scale_data demo_active !! 3%nat = Some d ∧
    transformers demo_active !! 3%nat = Some t ∧
    setup_view_transform 3%nat d1 d1 d0 d0 d1 (with_now 100 demo5) demo_active
    = Some (tt, s') ∧
    scale_data s' !! 3%nat = Some d' ∧
    start_of d' = applied t ∧
    target_of d' = (d1, d1, d0, d0, d1) ∧
    dur_begin (sa_duration (animation d')) = Some (now (with_now 100 demo5)) ∧
    dur_begin (fa_duration (fade_animation d')) = Some (now (with_now 100 demo5)) ∧
    row d' = row d ∧ col d' = col d ∧
    ∀ h0 t0, t = apply_animation h0 d t0 →
      start_of d'
      = (sample (now h0) (sa_duration (animation d)) (scale_x (animation d)),
         sample (now h0) (sa_duration (animation d)) (scale_y (animation d)),
         sample (now h0) (sa_duration (animation d)) (translation_x (animation d)),
         sample (now h0) (sa_duration (animation d)) (translation_y (animation d)),
         sample (now h0) (fa_duration (fade_animation d))
           (fa_transition (fade_animation d))).
Proof.
  assert (consistent demo_active) as Hc
    by (apply consistentb_sound; vm_compute; reflexivity).
  assert (flagged demo_active 3%nat) as Hf.
  { apply flaggedb_sound. vm_compute. reflexivity. }
  split; [exact Hc|]. split; [exact Hf|].
  exact (restart_from_current (with_now 100 demo5) demo_active 3%nat d1 d1 d0 d0 d1 Hc Hf).
Defined.

(** * Slot records and transformers in the reachable states *)

(** C9 as stated does not hold: when a view that is not scaled gets the
    focus while scale is active, [fade_out_all_except] and [fade_in]
    insert a slot record for it ([scale_data[view]]), and no transformer
    is attached to it. *)
Lemma record_without_transformer :
  reachable focus7_state ∧ active focus7_state = true ∧
  handle (ViewFocused (Some 7%nat)) demo5 demo_active = Some (tt, focus7_state) ∧
  scale_data demo_active !! 7%nat = None ∧
  scale_data focus7_state !! 7%nat = Some (default_view_scale_data demo5) ∧
  transformers focus7_state !! 7%nat = None.
Proof.
  split; [apply reachable_focus7|]. split_and!; vm_compute; reflexivity.
Qed.

(** C9 (amended): in every state in which control is with the
    compositor, the views with an attached "scale" transformer are the
    views whose slot record has a transformer pointer that is not null:
    every attached transformer belongs to such a record, and every such
    record has its transformer attached.  (A slot record with a null
    pointer may exist for a view without transformer.) *)
Theorem reachable_consistent (s : state) :
  reachable s →
  (∀ v, is_Some (transformers s !! v) →
        ∃ d, scale_data s !! v = Some d ∧ transformer d = true) ∧
  (∀ v d, scale_data s !! v = Some d → transformer d = true →
          is_Some (transformers s !! v)).
Proof.
  intros Hr. assert (consistent s) as Hc.
  { induction Hr as [s Hi|s s' _ IH (av & ws & ->)|s h e s' _ IH _ Hrun].
    - by apply consistent_initial.
    - by apply (consistent_ext s).
    - by apply (wp_run True _ _ _ _ _ _ (ok_handle e h s IH) Hrun). }
  split.
  - intros v Hv. by apply Hc.
  - intros v d Hd Ht. apply Hc. by exists d.
Qed.

Lemma reachable_consistent_witness :
  reachable focus7_state ∧
  (∀ v, is_Some (transformers focus7_state !! v) →
        ∃ d, scale_data focus7_state !! v = Some d ∧ transformer d = true) ∧
  (∀ v d, scale_data focus7_state !! v = Some d → transformer d = true →
          is_Some (transformers focus7_state !! v)).
Proof.
  split; [apply reachable_focus7|].
  exact (reachable_consistent focus7_state reachable_focus7).
Defined.

(** * Input while scale is not active *)

Lemma process_button_inactive h s button state_ :
  active s = false → process_button button state_ h s = finish_input h s.
Proof. intros Ha. unfold process_button. run_glue. by rewrite Ha. Qed.

Lemma process_key_inactive h s key state_ :
  active s = false → process_key key state_ h s = finish_input h s.
Proof. intros Ha. unfold process_key. run_glue. by rewrite Ha. Qed.

(** C10: a button or key event that arrives while scale is not active
    only runs [finish_input]: the flag [input_release_impending] is
    cleared and the grab is released; then, if the fade or the scale
    animation of some slot record has been started and has not run for
    its duration, nothing else happens (focus, workspace, grid and the
    slot records that exist stay as they are; [animation_running] may
    insert empty records), and if no animation is running the session
    is finalized. *)
Theorem inactive_input (h : host) (s : state) (button key state_ : Z) :
  active s = false → consistent s →
  process_button button state_ h s = finish_input h s ∧
  process_key key state_ h s = finish_input h s ∧
  ∃ r s1,
    animation_running h (set_grabbed false (set_input_release_impending false s))
    = Some (r, s1) ∧
    (r = true ↔ animating h s) ∧
    (animating h s → finish_input h s = Some (tt, s1)) ∧
    (¬ animating h s → finish_input h s = Some (tt, finalized s1)) ∧
    finish_input h s = Some (tt, if r then s1 else finalized s1) ∧
    input_release_impending s1 = false ∧ grabbed s1 = false ∧
    current_focus_view s1 = current_focus_view s ∧ active_view s1 = active_view s ∧
    current_workspace s1 = current_workspace s ∧
    grid_rows s1 = grid_rows s ∧ grid_cols s1 = grid_cols s ∧
    transformers s1 = transformers s ∧ hook_set s1 = hook_set s ∧
    (∀ v d, scale_data s !! v = Some d → scale_data s1 !! v = Some d) ∧
    (∀ v d, scale_data s1 !! v = Some d → scale_data s !! v = None →
            d = default_view_scale_data h).
Proof.
  intros Ha Hc. split; [by apply process_button_inactive|].
  split; [by apply process_key_inactive|].
  pose proof (finish_input_spec False h s Hc) as Hwp.
  apply wp_total_run in Hwp as ([] & s' & Hrun & r & s1 & Har & (E & A & B) & ->).
  assert (r = true ↔ animating h s) as Hiff.
  { destruct (animation_running_animating h
                (set_grabbed false (set_input_release_impending false s)))
      as (r' & s1' & Hrun' & _ & Hiff).
    rewrite Har in Hrun'. injection Hrun' as <- <-.
    rewrite Hiff. by apply animating_ext. }
  exists r, s1. split; [done|]. split; [done|].
  split; [intros Han; apply Hiff in Han; by subst r|].
  split; [intros Han; destruct r; [by destruct Han; apply Hiff|done]|].
  split; [done|].
  split_and!; try done.
  all: try (apply (f_equal input_release_impending) in E; exact E).
  all: try (apply (f_equal grabbed) in E; exact E).
  all: try (apply (f_equal current_focus_view) in E; exact E).
  all: try (apply (f_equal active_view) in E; exact E).
  all: try (apply (f_equal current_workspace) in E; exact E).
  all: try (apply (f_equal grid_rows) in E; exact E).
  all: try (apply (f_equal grid_cols) in E; exact E).
  all: try (apply (f_equal transformers) in E; exact E).
  all: try (apply (f_equal hook_set) in E; exact E).
Qed.

Lemma inactive_input_witness :
  active closing_state = false ∧ consistent closing_state ∧
  process_button BTN_LEFT WLR_BUTTON_RELEASED demo5 closing_state
  = finish_input demo5 closing_state ∧
  process_key KEY_ENTER WLR_KEY_RELEASED demo5 closing_state
  = finish_input demo5 closing_state ∧
  ∃ r s1,
    animation_running demo5
      (set_grabbed false (set_input_release_impending false closing_state))
    = Some (r, s1) ∧
    (r = true ↔ animating demo5 closing_state) ∧
    (animating demo5 closing_state → finish_input demo5 closing_state = Some (tt, s1)) ∧
    (¬ animating demo5 closing_state →
     finish_input demo5 closing_state = Some (tt, finalized s1)) ∧
    finish_input demo5 closing_state = Some (tt, if r then s1 else finalized s1) ∧
    input_release_impending s1 = false ∧ grabbed s1 = false ∧
    current_focus_view s1 = current_focus_view closing_state ∧
    active_view s1 = active_view closing_state ∧
    current_workspace s1 = current_workspace closing_state ∧
    grid_rows s1 = grid_rows closing_state ∧ grid_cols s1 = grid_cols closing_state ∧
    transformers s1 = transformers closing_state ∧
    hook_set s1 = hook_set closing_state ∧
    (∀ v d, scale_data closing_state !! v = Some d → scale_data s1 !! v = Some d) ∧
    (∀ v d, scale_data s1 !! v = Some d → scale_data closing_state !! v = None →
            d = default_view_scale_data demo5).
Proof.
  assert (active closing_state = false) as Ha by (vm_compute; reflexivity).
  assert (consistent closing_state) as Hc
    by (apply consistentb_sound; vm_compute; reflexivity).
  split; [exact Ha|]. split; [exact Hc|].
  exact (inactive_input demo5 closing_state BTN_LEFT KEY_ENTER 0 Ha Hc).
Defined.

(** * The grid in floating point *)

Lemma grid_fp_4096 : forallb grid_fp_agrees (Zrange 1 4097) = true.
Proof. vm_compute. reflexivity. Qed.

(** X1: for up to 4096 views, the square root taken on a [double] and
    converted to [int], and the quotient rounded up with [std::ceil],
    are the integer square root of [n + 1] and the rounded-up integer
    quotient. *)
Theorem grid_dimensions_in_floating_point (n : Z) :
  1 ≤ n ≤ 4096 → rows_fp n = rows_for n ∧ cols_fp n = cols_for n.
Proof.
  intros Hn. pose proof grid_fp_4096 as H. rewrite forallb_forall in H.
  specialize (H n (Zrange_In 1 4097 n ltac:(lia))). unfold grid_fp_agrees in H.
  apply andb_prop in H as [H1 H2]. split; by apply Z.eqb_eq.
Qed.

Lemma grid_dimensions_in_floating_point_witness :
  1 ≤ 5 ≤ 4096 ∧ rows_fp 5 = rows_for 5 ∧ cols_fp 5 = cols_for 5.
Proof. split; [lia|]. apply (grid_dimensions_in_floating_point 5). lia. Defined.

(** X2: the grid is never taller than wide, and at most two columns
    wider than tall. *)
Theorem grid_is_nearly_square (n : Z) :
  1 ≤ n → rows_for n ≤ cols_for n ≤ rows_for n + 2.
Proof.
  intros Hn. pose proof (rows_for_pos n Hn) as Hr. pose proof (rows_for_sqrt n Hn) as Hs.
  pose proof (cols_for_ceil n Hn) as Hc. split.
  - destruct (decide (rows_for n = 1)) as [E|E]; [rewrite E in *; lia|]. nia.
  - nia.
Qed.

Lemma grid_is_nearly_square_witness :
  1 ≤ 10 ∧ rows_for 10 ≤ cols_for 10 ≤ rows_for 10 + 2.
Proof. split; [lia|]. apply (grid_is_nearly_square 10). lia. Defined.

(** * Navigation stays in the grid *)

Lemma wrap_row_mod r rows : 1 ≤ rows → -1 ≤ r ≤ rows → wrap_row r rows = r mod rows.
Proof.
  intros Hrows Hr. unfold wrap_row.
  destruct (Z.ltb_spec r 0).
  - assert (r = -1) as -> by lia. rewrite (proj2 (Z.leb_gt rows (rows - 1))) by lia.
    replace (-1) with (rows - 1 + (-1) * rows) by lia.
    rewrite Z.mod_add by lia. rewrite Z.mod_small; lia.
  - destruct (Z.leb_spec rows r).
    + assert (r = rows) as -> by lia. by rewrite Z.mod_same by lia.
    + rewrite Z.mod_small; lia.
Qed.

Lemma wrap_col_range c n : 1 ≤ n → 0 ≤ wrap_col c n < n.
Proof.
  intros Hn. unfold wrap_col. destruct (Z.ltb_spec c 0).
  - rewrite (proj2 (Z.leb_gt n (n - 1))) by lia. lia.
  - destruct (Z.leb_spec n c); lia.
Qed.

Lemma wrap_col_mod c n : 1 ≤ n → -1 ≤ c ≤ n → wrap_col c n = c mod n.
Proof. intros Hn Hc. apply (wrap_row_mod c n Hn Hc). Qed.

Lemma row_cols_pos rows cols last i : 1 ≤ last ≤ cols → 1 ≤ row_cols rows cols last i.
Proof. intros H. unfold row_cols. destruct (i =? rows - 1); lia. Qed.

Lemma remap_col_sideways key row col rows cols last :
  key = KEY_LEFT ∨ key = KEY_RIGHT → remap_col key row col rows cols last = col.
Proof.
  intros Hk. unfold remap_col. destruct ((1 <? rows) && (1 <? cols) && (1 <? last)); [|done].
  destruct Hk as [-> | ->]; done.
Qed.

(** X3: an arrow key pressed on a view in a cell of the grid looks up a
    cell of the grid: Up and Down lead to the row above and below,
    around the edges; Left and Right lead to the column on the left and
    on the right in the same row, around the edges. *)
Theorem navigation_stays_in_grid (rows cols last row col key : Z) :
  1 ≤ rows → 1 ≤ last ≤ cols → valid_cell rows cols last (row, col) →
  key ∈ arrow_keys →
  ∃ r c, target_cell key row col rows cols last = Some (r, c) ∧
         valid_cell rows cols last (r, c) ∧
         (key = KEY_UP → r = (row - 1) mod rows) ∧
         (key = KEY_DOWN → r = (row + 1) mod rows) ∧
         (key = KEY_LEFT → r = row ∧ c = (col - 1) mod row_cols rows cols last row) ∧
         (key = KEY_RIGHT → r = row ∧ c = (col + 1) mod row_cols rows cols last row).
Proof.
  intros Hrows Hlast [Hrow Hcol] Hkey. simpl in Hrow, Hcol.
  assert (∀ r c, 0 ≤ r < rows →
            valid_cell rows cols last (r, wrap_col c (row_cols rows cols last r))) as Hvalid.
  { intros r c Hr. split; simpl; [done|]. apply wrap_col_range, row_cols_pos. done. }
  assert (∀ r, -1 ≤ r ≤ rows → 0 ≤ wrap_row r rows < rows) as Hwr.
  { intros r Hr. rewrite wrap_row_mod by lia. apply Z.mod_pos_bound. lia. }
  assert (∀ r, 0 ≤ r < rows → wrap_row r rows = r) as Hwr'.
  { intros r Hr. rewrite wrap_row_mod by lia. apply Z.mod_small. lia. }
  unfold arrow_keys in Hkey.
  rewrite !elem_of_cons, elem_of_nil in Hkey.
  destruct Hkey as [->|[->|[->|[->|[]]]]]; unfold target_cell, arrow; simpl.
  - eexists _, _. split; [done|]. split; [apply Hvalid, Hwr; lia|].
    split_and!; try done. intros _. apply wrap_row_mod; lia.
  - eexists _, _. split; [done|]. split; [apply Hvalid, Hwr; lia|].
    split_and!; try done. intros _. apply wrap_row_mod; lia.
  - rewrite remap_col_sideways by auto. rewrite Hwr' by done.
    eexists _, _. split; [done|]. split; [by apply Hvalid|].
    split_and!; try done. intros _. split; [done|].
    apply wrap_col_mod; [by apply row_cols_pos|lia].
  - rewrite remap_col_sideways by auto. rewrite Hwr' by done.
    eexists _, _. split; [done|]. split; [by apply Hvalid|].
    split_and!; try done. intros _. split; [done|].
    apply wrap_col_mod; [by apply row_cols_pos|lia].
Qed.

Lemma navigation_stays_in_grid_witness :
  1 ≤ 3 ∧ 1 ≤ 2 ≤ 4 ∧ valid_cell 3 4 2 (0, 3) ∧ KEY_RIGHT ∈ arrow_keys ∧
  ∃ r c, target_cell KEY_RIGHT 0 3 3 4 2 = Some (r, c) ∧
         valid_cell 3 4 2 (r, c) ∧
         (KEY_RIGHT = KEY_UP → r = (0 - 1) mod 3) ∧
         (KEY_RIGHT = KEY_DOWN → r = (0 + 1) mod 3) ∧
         (KEY_RIGHT = KEY_LEFT → r = 0 ∧ c = (3 - 1) mod row_cols 3 4 2 0) ∧
         (KEY_RIGHT = KEY_RIGHT → r = 0 ∧ c = (3 + 1) mod row_cols 3 4 2 0).
Proof.
  assert (1 ≤ 3) as H1 by lia. assert (1 ≤ 2 ≤ 4) as H2 by lia.
  assert (valid_cell 3 4 2 (0, 3)) as H3 by (split; simpl; [lia|vm_compute; split; [discriminate|reflexivity]]).
  assert (KEY_RIGHT ∈ arrow_keys) as H4 by (unfold arrow_keys; set_solver).
  split; [exact H1|]. split; [exact H2|]. split; [exact H3|]. split; [exact H4|].
  exact (navigation_stays_in_grid 3 4 2 0 3 KEY_RIGHT H1 H2 H3 H4).
Defined.

(** X4: from every cell of the grid, edges included, Left then Right
    and Right then Left lead back to the cell. *)
Theorem left_right_round_trip (rows cols last row col : Z) :
  1 ≤ rows → 1 ≤ last ≤ cols → valid_cell rows cols last (row, col) →
  ∃ cl cr, target_cell KEY_LEFT row col rows cols last = Some (row, cl) ∧
           target_cell KEY_RIGHT row cl rows cols last = Some (row, col) ∧
           target_cell KEY_RIGHT row col rows cols last = Some (row, cr) ∧
           target_cell KEY_LEFT row cr rows cols last = Some (row, col).
Proof.
  intros Hrows Hlast [Hrow Hcol]. simpl in Hrow, Hcol.
  pose proof (row_cols_pos rows cols last row Hlast) as Hn.
  set (n := row_cols rows cols last row) in *.
  assert (wrap_row row rows = row) as Hwr.
  { rewrite wrap_row_mod by lia. apply Z.mod_small. lia. }
  assert (∀ key c, key = KEY_LEFT ∨ key = KEY_RIGHT →
            target_cell key row c rows cols last
            = Some (row, wrap_col (if key =? KEY_LEFT then c - 1 else c + 1) n)) as Hstep.
  { intros key c Hk. unfold target_cell, arrow.
    destruct Hk as [-> | ->]; simpl; rewrite remap_col_sideways by auto;
      rewrite Hwr; done. }
  exists (wrap_col (col - 1) n), (wrap_col (col + 1) n).
  rewrite !Hstep by auto. simpl.
  assert (wrap_col (wrap_col (col - 1) n + 1) n = col) as ->.
  { unfold wrap_col. repeat (case_match; try lia);
      repeat match goal with
             | H : (_ <? _) = true |- _ => apply Z.ltb_lt in H
             | H : (_ <? _) = false |- _ => apply Z.ltb_ge in H
             | H : (_ <=? _) = true |- _ => apply Z.leb_le in H
             | H : (_ <=? _) = false |- _ => apply Z.leb_gt in H
             end; lia. }
  assert (wrap_col (wrap_col (col + 1) n - 1) n = col) as ->.
  { unfold wrap_col. repeat (case_match; try lia);
      repeat match goal with
             | H : (_ <? _) = true |- _ => apply Z.ltb_lt in H
             | H : (_ <? _) = false |- _ => apply Z.ltb_ge in H
             | H : (_ <=? _) = true |- _ => apply Z.leb_le in H
             | H : (_ <=? _) = false |- _ => apply Z.leb_gt in H
             end; lia. }
  done.
Qed.

Lemma left_right_round_trip_witness :
  1 ≤ 2 ∧ 1 ≤ 2 ≤ 3 ∧ valid_cell 2 3 2 (1, 0) ∧
  ∃ cl cr, target_cell KEY_LEFT 1 0 2 3 2 = Some (1, cl) ∧
           target_cell KEY_RIGHT 1 cl 2 3 2 = Some (1, 0) ∧
           target_cell KEY_RIGHT 1 0 2 3 2 = Some (1, cr) ∧
           target_cell KEY_LEFT 1 cr 2 3 2 = Some (1, 0).
Proof.
  assert (1 ≤ 2) as H1 by lia. assert (1 ≤ 2 ≤ 3) as H2 by lia.
  assert (valid_cell 2 3 2 (1, 0)) as H3 by (split; simpl; [lia|vm_compute; split; [discriminate|reflexivity]]).
  split; [exact H1|]. split; [exact H2|]. split; [exact H3|].
  exact (left_right_round_trip 2 3 2 1 0 H1 H2 H3).
Defined.

(** * The views that are scaled *)

Lemma sublist_same_length {A} (l k : list A) :
  l `sublist_of` k → length l = length k → l = k.
Proof.
  induction 1 as [|x l k Hs IH|x l k Hs IH]; simpl; intros Hlen.
  - done.
  - f_equal. apply IH. lia.
  - apply sublist_length in Hs. lia.
Qed.

Lemma current_views_filter h :
  get_current_workspace_views h
  = filter (λ v, contains_point (relative_geometry h) (center (wm_geometry h v)) = true)
           (get_all_workspace_views h).
Proof.
  unfold get_current_workspace_views, get_all_workspace_views.
  rewrite list_filter_filter. apply list_filter_iff. intros v.
  rewrite !andb_true_iff. tauto.
Qed.

(** X5: the views of the current workspace are among the views of all
    workspaces, in the same order, and these are among the views of the
    workspace layer; comparing the two counts, as
    [all_same_as_current_workspace_views] does, decides whether the two
    lists are the same. *)
Theorem current_workspace_views_among_all (h : host) (s : state) :
  get_current_workspace_views h `sublist_of` get_all_workspace_views h ∧
  get_all_workspace_views h `sublist_of` views_in_layer h ∧
  all_same_as_current_workspace_views h s
  = Some (bool_decide (get_current_workspace_views h = get_all_workspace_views h), s).
Proof.
  assert (get_current_workspace_views h `sublist_of` get_all_workspace_views h) as Hsub.
  { rewrite current_views_filter. apply sublist_filter. }
  split; [done|]. split; [apply sublist_filter|].
  unfold all_same_as_current_workspace_views. run_glue. do 2 f_equal.
  apply bool_decide_ext. split.
  - intros Hlen. by apply sublist_same_length.
  - by intros ->.
Qed.

(** * Attaching a transformer *)

(** X6: [add_transformer] on a view that has the transformer returns
    false and changes nothing; on another view it attaches a new
    identity transformer, sets the pointer of the slot record (a new
    record if there was none) and connects the geometry signal; a second
    call in a row never attaches anything. *)
Theorem add_transformer_once (h : host) (s : state) (v : view) :
  add_transformer (Some v) h s
  = (if bool_decide (is_Some (transformers s !! v)) then Some (false, s)
     else Some (true, attached h v s)) ∧
  transformers (attached h v s) !! v = Some new_wf_scale ∧
  scale_data (attached h v s) !! v = Some (set_transformer true (record_or_default h s v)) ∧
  bind (add_transformer (Some v)) (λ _, add_transformer (Some v)) h s
  = match add_transformer (Some v) h s with
    | Some (_, s') => Some (false, s')
    | None => None
    end.
Proof.
  pose proof (add_transformer_run h s v) as Hrun. fold (attached h v s) in Hrun.
  split; [exact Hrun|]. split; [apply lookup_insert_eq|]. split; [apply lookup_insert_eq|].
  rewrite bind_run, Hrun. case_bool_decide as Hv.
  - rewrite add_transformer_run. by rewrite bool_decide_eq_true_2.
  - rewrite add_transformer_run. rewrite bool_decide_eq_true_2; [done|].
    simpl. rewrite lookup_insert_eq. eauto.
Qed.

(** * The focus when a view goes away *)

Lemma check_focus_view_run ov h s : check_focus_view ov h s = Some (tt, focus_checked ov s).
Proof.
  unfold check_focus_view, focus_checked. run_glue.
  case_bool_decide; run_glue; simpl; case_bool_decide; run_glue; by destruct s.
Qed.

(** X7: [check_focus_view], which is all that [view_unmapped] does,
    replaces the current focus view by the active view if it is the view
    that goes away, and clears the initial focus view if it is that
    view; afterwards the initial focus view is not the view, and the
    current focus view is the view only if the compositor still has it
    as active view. *)
Theorem check_focus_view_forgets (h : host) (s : state) (v : view) :
  check_focus_view (Some v) h s = Some (tt, focus_checked (Some v) s) ∧
  view_unmapped (Some v) h s = Some (tt, focus_checked (Some v) s) ∧
  initial_focus_view (focus_checked (Some v) s) ≠ Some v ∧
  (current_focus_view (focus_checked (Some v) s) = Some v → active_view s = Some v) ∧
  (current_focus_view s ≠ Some v →
   current_focus_view (focus_checked (Some v) s) = current_focus_view s) ∧
  (initial_focus_view s ≠ Some v →
   initial_focus_view (focus_checked (Some v) s) = initial_focus_view s).
Proof.
  split; [apply check_focus_view_run|]. split; [apply check_focus_view_run|].
  unfold focus_checked. simpl. split_and!.
  - case_bool_decide; congruence.
  - case_bool_decide; congruence.
  - intros Hne. case_bool_decide; congruence.
  - intros Hne. case_bool_decide; congruence.
Qed.

(** * [finalize] *)

(** X8: when every attached transformer belongs to a slot record,
    [finalize] (and [fini], which calls it) ends the session completely:
    no slot record and no transformer is left, the hooks, the grab, the
    button signal and all signal connections are gone, the plugin is
    deactivated in the output; the focus, the workspace and the grid
    numbers stay.  A second [finalize] changes nothing. *)
Theorem finalize_leaves_nothing (h : host) (s : state) :
  consistent s →
  finalize h s = Some (tt, finalized s) ∧
  fini h s = Some (tt, finalized s) ∧
  finalize h (finalized s) = Some (tt, finalized s) ∧
  scale_data (finalized s) = ∅ ∧ transformers (finalized s) = ∅ ∧
  active (finalized s) = false ∧ hook_set (finalized s) = false ∧
  grabbed (finalized s) = false ∧ signals (finalized s) = no_connections ∧
  but_session (finalized s) = but_session (finalized (but_session s)).
Proof.
  intros Hc.
  assert (∀ s0, consistent s0 → finalize h s0 = Some (tt, finalized s0)) as Hf.
  { intros s0 Hc0. pose proof (finalize_spec False h s0 Hc0) as Hwp.
    apply wp_total_run in Hwp as ([] & s' & Hrun & ->). done. }
  split; [by apply Hf|]. split; [by apply Hf|]. split.
  - rewrite Hf by apply consistent_finalized. destruct s. vm_compute. reflexivity.
  - destruct s. split_and!; vm_compute; reflexivity.
Qed.

Lemma finalize_leaves_nothing_witness :
  consistent demo_active ∧
  finalize demo5 demo_active = Some (tt, finalized demo_active) ∧
  fini demo5 demo_active = Some (tt, finalized demo_active) ∧
  finalize demo5 (finalized demo_active) = Some (tt, finalized demo_active) ∧
  scale_data (finalized demo_active) = ∅ ∧ transformers (finalized demo_active) = ∅ ∧
  active (finalized demo_active) = false ∧ hook_set (finalized demo_active) = false ∧
  grabbed (finalized demo_active) = false ∧
  signals (finalized demo_active) = no_connections ∧
  but_session (finalized demo_active) = but_session (finalized (but_session demo_active)).
Proof.
  assert (consistent demo_active) as Hc
    by (apply consistentb_sound; vm_compute; reflexivity).
  split; [exact Hc|]. exact (finalize_leaves_nothing demo5 demo_active Hc).
Defined.

(** * The workspace of a view *)

(** X9: [select_view] changes nothing but the current workspace; the
    workspace it requests differs from the current one in a coordinate
    exactly when the centre of the root of the view, taken relative to
    [ws * size], is a full output size or more away from zero (the
    integer division truncates towards zero, on both sides). *)
Theorem select_view_workspace (h : host) (s : state) (v r : view) :
  root_view (tree_fuel h) h v = Some r →
  0 < g_width (layout_geometry h) → 0 < g_height (layout_geometry h) →
  ∃ ws, select_view (Some v) h s = Some (tt, set_current_workspace ws s) ∧
        (p_x ws = p_x (current_workspace s)
         ↔ Z.abs (p_x (root_center h r)
                  - p_x (current_workspace s) * g_width (layout_geometry h))
           < g_width (layout_geometry h)) ∧
        (p_y ws = p_y (current_workspace s)
         ↔ Z.abs (p_y (root_center h r)
                  - p_y (current_workspace s) * g_height (layout_geometry h))
           < g_height (layout_geometry h)).
Proof.
  intros Hr Hw Hh. unfold select_view, get_view_main_workspace, request_workspace.
  run_glue. rewrite Hr. cbv iota.
  rewrite bind_run, idiv_run by lia. cbv beta iota.
  rewrite bind_run, idiv_run by lia. run_glue.
  eexists. split; [reflexivity|]. simpl.
  unfold root_center.
  assert (∀ a b c, 0 < b → (c + a ÷ b = c ↔ Z.abs a < b)) as Hq.
  { intros a b c Hb. rewrite <- (Z.abs_eq b) at 2 by lia.
    rewrite <- Z.quot_small_iff by lia. lia. }
  split; apply Hq; done.
Qed.

Lemma select_view_workspace_witness :
  root_view (tree_fuel demo5) demo5 6%nat = Some 2%nat ∧
  0 < g_width (layout_geometry demo5) ∧ 0 < g_height (layout_geometry demo5) ∧
  ∃ ws, select_view (Some 6%nat) demo5 demo_active
        = Some (tt, set_current_workspace ws demo_active) ∧
        (p_x ws = p_x (current_workspace demo_active)
         ↔ Z.abs (p_x (root_center demo5 2%nat)
                  - p_x (current_workspace demo_active) * g_width (layout_geometry demo5))
           < g_width (layout_geometry demo5)) ∧
        (p_y ws = p_y (current_workspace demo_active)
         ↔ Z.abs (p_y (root_center demo5 2%nat)
                  - p_y (current_workspace demo_active) * g_height (layout_geometry demo5))
           < g_height (layout_geometry demo5)).
Proof.
  assert (root_view (tree_fuel demo5) demo5 6%nat = Some 2%nat) as H1 by reflexivity.
  assert (0 < g_width (layout_geometry demo5)) as H2 by reflexivity.
  assert (0 < g_height (layout_geometry demo5)) as H3 by reflexivity.
  split; [exact H1|]. split; [exact H2|]. split; [exact H3|].
  exact (select_view_workspace demo5 demo_active 6%nat 2%nat H1 H2 H3).
Defined.

(** * Arrow keys: from the key to the focus *)

Lemma find_in_run h s r c : ∀ vs,
  (∀ w, w ∈ vs → is_Some (scale_data s !! w)) →
  find_in vs r c h s = Some (find (in_cell s r c) vs, s).
Proof.
  induction vs as [|w vs IH]; intros Hall; simpl; [done|].
  destruct (Hall w (list_elem_of_here _ _)) as [d Hd].
  unfold index. run_glue. rewrite Hd. run_glue.
  unfold in_cell at 1. rewrite Hd.
  destruct ((row d =? r) && (col d =? c)); run_glue; [done|].
  apply IH. intros w' Hw'. apply Hall. by apply list_elem_of_further.
Qed.

Lemma find_at_cell h s r c w :
  one_view_per_cell h s → at_cell h s r c w →
  find (in_cell s r c) (eligible h s) = Some w.
Proof.
  intros Huniq Hw. destruct (find (in_cell s r c) (eligible h s)) as [w0|] eqn:E.
  - apply find_some in E as [Hin Hc]. f_equal. apply (Huniq r c); [|done].
    split; [by apply list_elem_of_In|]. unfold in_cell in Hc.
    destruct (scale_data s !! w0) as [d0|]; [|done].
    apply andb_prop in Hc as [?%Z.eqb_eq ?%Z.eqb_eq]. eauto.
  - exfalso. destruct Hw as (Hin & d & Hd & Hr & Hc).
    apply list_elem_of_In in Hin. pose proof (find_none _ _ E w Hin) as Hn.
    unfold in_cell in Hn. rewrite Hd, Hr, Hc, !Z.eqb_refl in Hn. done.
Qed.

Lemma find_view_in_grid_run h s r c w :
  laid_out h s → one_view_per_cell h s → at_cell h s r c w →
  find_view_in_grid r c h s = Some (w, s).
Proof.
  intros Hl Hu Hw. unfold find_view_in_grid, get_views. run_glue.
  fold (eligible h s). rewrite find_in_run by done. run_glue.
  by rewrite (find_at_cell h s r c w).
Qed.

Lemma process_key_arrow h s v d key r' c' :
  active s = true → active_view s = Some v → v ∈ eligible h s →
  scale_data s !! v = Some d → keyboard_modifiers h = 0 →
  arrow key (row d) (col d) = Some (r', c') →
  process_key key WLR_KEY_PRESSED h s = move_focus key r' c' h s.
Proof.
  intros Ha Hav Hv Hd Hm Hk. unfold process_key. run_glue. rewrite Ha, Hav. run_glue.
  unfold scale_view, get_views. run_glue. fold (eligible h s).
  rewrite (bool_decide_eq_true_2 _ Hv). run_glue. cbn [andb].
  unfold index. run_glue. rewrite Hd. run_glue. rewrite Hm.
  change (WLR_KEY_PRESSED =? WLR_KEY_RELEASED) with false.
  change (WLR_KEY_PRESSED =? WLR_KEY_PRESSED) with true.
  change (0 =? 0) with true. cbn [andb orb negb]. run_glue.
  unfold arrow in Hk.
  destruct (key =? KEY_UP); [by injection Hk as <- <-|].
  destruct (key =? KEY_DOWN); [by injection Hk as <- <-|].
  destruct (key =? KEY_LEFT); [by injection Hk as <- <-|].
  destruct (key =? KEY_RIGHT); [by injection Hk as <- <-|]. done.
Qed.

Lemma fade_rel_cells h T A s s' : fade_rel h T A s s' → cells_kept s s'.
Proof.
  intros (_ & _ & HA & _) u d Hd. destruct (HA u d Hd) as (d' & ? & ? & ? & ? & _).
  exists d'. done.
Qed.

Lemma cells_kept_trans s1 s2 s3 : cells_kept s1 s2 → cells_kept s2 s3 → cells_kept s1 s3.
Proof.
  intros H12 H23 u d Hd. destruct (H12 u d Hd) as (d2 & Hd2 & ? & ? & ?).
  destruct (H23 u d2 Hd2) as (d3 & Hd3 & ? & ? & ?). exists d3.
  split_and!; congruence.
Qed.

Lemma cells_kept_ext s s' : scale_data s' = scale_data s → cells_kept s s'.
Proof. intros E u d Hd. exists d. by rewrite E. Qed.

Lemma move_focus_spec h s key r' c' w :
  consistent s → shallow h → laid_out h s → one_view_per_cell h s →
  at_cell h s (wrap_row r' (grid_rows s))
    (wrap_col (remap_col key r' c' (grid_rows s) (grid_cols s) (grid_last_row_cols s))
       (row_cols (grid_rows s) (grid_cols s) (grid_last_row_cols s)
          (wrap_row r' (grid_rows s)))) w →
  wp False (move_focus key r' c') h s (λ _ s', moved w s s').
Proof.
  intros Hc Hsh Hl Hu Hw. unfold move_focus. wp_glue. cbv zeta.
  eapply wp_eq; [by apply find_view_in_grid_run|]. cbv beta. wp_glue.
  eapply wp_mono with
    (Q := λ (_ : unit) (s1 : state), consistent s1 ∧ but_fades s1 = but_fades s ∧
                                     cells_kept s s1).
  { destruct (negb (bool_decide (current_focus_view s = Some w))).
    - eapply wp_mono; [apply fade_out_all_except_rel; [done|by right]|].
      intros u s1 R. cbv beta. split_and!.
      + exact (fade_rel_consistent _ _ _ _ _ R Hc).
      + apply R.
      + exact (fade_rel_cells _ _ _ _ _ R).
    - apply wp_ret. split_and!; [done|done|by apply cells_kept_ext]. }
  intros u s1 (Hc1 & E1 & K1). cbv beta. wp_go.
  set (s2 := set_active_view (Some w) (set_current_focus_view (Some w) s1)).
  assert (consistent s2) as Hc2 by (by apply (consistent_ext s1)).
  eapply wp_mono.
  { apply fade_in_rel; [done|]. right. split; [done|]. left. unfold tree_fuel. lia. }
  intros u' s3 R3. cbv beta. unfold moved.
  pose proof (fade_rel_consistent _ _ _ _ _ R3 Hc2) as Hc3.
  pose proof (fade_rel_cells _ _ _ _ _ R3) as K3.
  destruct R3 as (E3 & _). split_and!.
  - done.
  - apply (f_equal current_focus_view) in E3. done.
  - apply (f_equal active_view) in E3. done.
  - unfold but_focus_and_fades. rewrite E3. unfold s2.
    transitivity (set_current_focus_view None (set_active_view None (but_fades s1))).
    + destruct s1. vm_compute. reflexivity.
    + by rewrite E1.
  - eapply cells_kept_trans; [exact K1|]. eapply cells_kept_trans; [|exact K3].
    by apply cells_kept_ext.
Qed.

Lemma moved_eligible h w s s' : moved w s s' → eligible h s' = eligible h s.
Proof.
  intros (_ & _ & _ & E & _). apply (f_equal all_workspaces) in E. simpl in E.
  unfold eligible. by rewrite E.
Qed.

Lemma cells_kept_at_cell h s s' r c u :
  eligible h s' = eligible h s → laid_out h s → cells_kept s s' →
  at_cell h s' r c u ↔ at_cell h s r c u.
Proof.
  intros He Hl K. unfold at_cell. rewrite He. split.
  - intros (Hin & d' & Hd' & Hr & Hc). split; [done|].
    destruct (Hl u Hin) as [d Hd]. destruct (K u d Hd) as (d'' & Hd'' & ? & ? & _).
    exists d. split; [done|]. split; congruence.
  - intros (Hin & d & Hd & Hr & Hc). split; [done|].
    destruct (K u d Hd) as (d' & Hd' & ? & ? & _). exists d'. split; [done|].
    split; congruence.
Qed.

Lemma moved_laid_out h w s s' :
  moved w s s' → laid_out h s →
  laid_out h s' ∧ (one_view_per_cell h s → one_view_per_cell h s') ∧
  (∀ r c u, at_cell h s' r c u ↔ at_cell h s r c u).
Proof.
  intros Hm Hl. pose proof (moved_eligible h _ _ _ Hm) as He.
  destruct Hm as (_ & _ & _ & _ & K).
  pose proof (λ r c u, cells_kept_at_cell h s s' r c u He Hl K) as Hat.
  split_and!; [|  |done].
  - intros u Hu. rewrite He in Hu. destruct (Hl u Hu) as [d Hd].
    destruct (K u d Hd) as (d' & Hd' & _). by exists d'.
  - intros Huniq r c u u' Hu Hu'. apply (Huniq r c); by apply Hat.
Qed.

(** X10: an arrow key pressed while scale is active and the focused
    view is scaled moves the focus to the view in the cell that the
    navigation arithmetic gives ([target_cell]): that view becomes the
    current focus view and the active view of the output; the session,
    the grid and the cells of all slot records stay as they are. *)
Theorem arrow_key_moves_focus (h : host) (s : state) (v w : view)
    (d : view_scale_data) (key r c : Z) :
  consistent s → shallow h → active s = true → active_view s = Some v →
  v ∈ eligible h s → scale_data s !! v = Some d → keyboard_modifiers h = 0 →
  laid_out h s → one_view_per_cell h s →
  target_cell key (row d) (col d) (grid_rows s) (grid_cols s) (grid_last_row_cols s)
  = Some (r, c) →
  at_cell h s r c w →
  ∃ s', process_key key WLR_KEY_PRESSED h s = Some (tt, s') ∧
        current_focus_view s' = Some w ∧ active_view s' = Some w ∧
        active s' = true ∧ grid_rows s' = grid_rows s ∧ grid_cols s' = grid_cols s ∧
        grid_last_row_cols s' = grid_last_row_cols s ∧
        transformers s' = transformers s ∧
        consistent s' ∧ laid_out h s' ∧ one_view_per_cell h s' ∧
        ∀ r0 c0 u, at_cell h s' r0 c0 u ↔ at_cell h s r0 c0 u.
Proof.
  intros Hc Hsh Ha Hav Hv Hd Hm Hl Hu Ht Hw.
  unfold target_cell in Ht. destruct (arrow key (row d) (col d)) as [[r' c']|] eqn:Hk;
    [|done].
  injection Ht as <- <-.
  rewrite (process_key_arrow h s v d key r' c' Ha Hav Hv Hd Hm Hk).
  pose proof (move_focus_spec h s key r' c' w Hc Hsh Hl Hu Hw) as Hwp.
  apply wp_total_run in Hwp as ([] & s' & Hrun & Hmv).
  exists s'. destruct (moved_laid_out h w s s' Hmv Hl) as (Hl' & Hu' & Hat).
  destruct Hmv as (Hc' & Hf & Hav' & E & K).
  split_and!; try done; auto.
  - apply (f_equal active) in E. simpl in E. congruence.
  - by apply (f_equal grid_rows) in E.
  - by apply (f_equal grid_cols) in E.
  - by apply (f_equal grid_last_row_cols) in E.
  - by apply (f_equal transformers) in E.
Qed.

Lemma laid_outb_sound h s : laid_outb h s = true → laid_out h s.
Proof.
  unfold laid_outb, laid_out. rewrite forallb_forall. intros H w Hw.
  apply list_elem_of_In in Hw. apply H in Hw. by apply bool_decide_eq_true_1 in Hw.
Qed.

Lemma at_cellb_sound h s r c w : at_cellb h s r c w = true → at_cell h s r c w.
Proof.
  unfold at_cellb, at_cell, in_cell. intros [H1 H2]%andb_prop.
  apply bool_decide_eq_true_1 in H1. split; [done|].
  destruct (scale_data s !! w) as [d|]; [|done].
  apply andb_prop in H2 as [?%Z.eqb_eq ?%Z.eqb_eq]. eauto.
Qed.

Lemma NoDup_fmap_inj {A B} (f : A → B) (l : list A) x y :
  NoDup (f <$> l) → x ∈ l → y ∈ l → f x = f y → x = y.
Proof.
  induction l as [|a l IH]; simpl; intros Hnd Hx Hy E; [by apply elem_of_nil in Hx|].
  apply NoDup_cons in Hnd as [Hna Hnd].
  apply elem_of_cons in Hx as [->|Hx]; apply elem_of_cons in Hy as [->|Hy].
  - done.
  - exfalso. apply Hna. rewrite E. by apply list_elem_of_fmap_2.
  - exfalso. apply Hna. rewrite <- E. by apply list_elem_of_fmap_2.
  - by apply IH.
Qed.

Lemma one_view_per_cellb_sound h s : one_view_per_cellb h s = true → one_view_per_cell h s.
Proof.
  unfold one_view_per_cellb. intros Hnd%bool_decide_eq_true_1 r c w w'
    (Hw & d & Hd & Hr & Hc) (Hw' & d' & Hd' & Hr' & Hc').
  apply (NoDup_fmap_inj (cell_of s) (eligible h s)); [done..|].
  unfold cell_of. rewrite Hd, Hd'. congruence.
Qed.

Lemma arrow_key_moves_focus_witness :
  consistent demo_active ∧ shallow demo5 ∧ active demo_active = true ∧
  active_view demo_active = Some 2%nat ∧ 2%nat ∈ eligible demo5 demo_active ∧
  scale_data demo_active !! 2%nat = Some (record_or_default demo5 demo_active 2%nat) ∧
  keyboard_modifiers demo5 = 0 ∧ laid_out demo5 demo_active ∧
  one_view_per_cell demo5 demo_active ∧
  target_cell KEY_RIGHT (row (record_or_default demo5 demo_active 2%nat))
    (col (record_or_default demo5 demo_active 2%nat))
    (grid_rows demo_active) (grid_cols demo_active) (grid_last_row_cols demo_active)
  = Some (0, 2) ∧
  at_cell demo5 demo_active 0 2 3%nat ∧
  ∃ s', process_key KEY_RIGHT WLR_KEY_PRESSED demo5 demo_active = Some (tt, s') ∧
        current_focus_view s' = Some 3%nat ∧ active_view s' = Some 3%nat ∧
        active s' = true ∧ grid_rows s' = grid_rows demo_active ∧
        grid_cols s' = grid_cols demo_active ∧
        grid_last_row_cols s' = grid_last_row_cols demo_active ∧
        transformers s' = transformers demo_active ∧
        consistent s' ∧ laid_out demo5 s' ∧ one_view_per_cell demo5 s' ∧
        ∀ r0 c0 u, at_cell demo5 s' r0 c0 u ↔ at_cell demo5 demo_active r0 c0 u.
Proof.
  assert (consistent demo_active) as H1
    by (apply consistentb_sound; vm_compute; reflexivity).
  assert (active demo_active = true) as H3 by (vm_compute; reflexivity).
  assert (active_view demo_active = Some 2%nat) as H4 by (vm_compute; reflexivity).
  assert (2%nat ∈ eligible demo5 demo_active) as H5
    by (refine (bool_decide_unpack _ _); vm_compute; exact I).
  assert (scale_data demo_active !! 2%nat
          = Some (record_or_default demo5 demo_active 2%nat)) as H6
    by (vm_compute; reflexivity).
  assert (keyboard_modifiers demo5 = 0) as H7 by reflexivity.
  assert (laid_out demo5 demo_active) as H8
    by (apply laid_outb_sound; vm_compute; reflexivity).
  assert (one_view_per_cell demo5 demo_active) as H9
    by (apply one_view_per_cellb_sound; vm_compute; reflexivity).
  assert (target_cell KEY_RIGHT (row (record_or_default demo5 demo_active 2%nat))
            (col (record_or_default demo5 demo_active 2%nat))
            (grid_rows demo_active) (grid_cols demo_active)
            (grid_last_row_cols demo_active) = Some (0, 2)) as H10
    by (vm_compute; reflexivity).
  assert (at_cell demo5 demo_active 0 2 3%nat) as H11
    by (apply at_cellb_sound; vm_compute; reflexivity).
  split; [exact H1|]. split; [apply demo_shallow|]. split; [exact H3|].
  split; [exact H4|]. split; [exact H5|]. split; [exact H6|]. split; [exact H7|].
  split; [exact H8|]. split; [exact H9|]. split; [exact H10|]. split; [exact H11|].
  exact (arrow_key_moves_focus demo5 demo_active 2%nat 3%nat _ KEY_RIGHT 0 2
           H1 (demo_shallow _ _ _) H3 H4 H5 H6 H7 H8 H9 H10 H11).
Defined.




(** * What a layout leaves behind *)

Lemma layout_slots_total h s views :
  views ≠ [] → consistent s → shallow h →
  ∃ s', layout_slots views h s = Some (tt, s') ∧ layout_post h views s s'.
Proof.
  intros Hne Hc Hsh.
  pose proof (layout_slots_spec False h s views Hne Hc (or_intror Hsh)) as Hwp.
  apply wp_total_run in Hwp as ([] & s' & Hrun & Hpost). eauto.
Qed.

Lemma plan_member h views v :
  views ≠ [] → v ∈ views → ∃ p, p ∈ plan h views ∧ pl_view p = v.
Proof.
  intros Hne Hv. assert (v ∈ pl_view <$> plan h views) as Hin.
  { rewrite plan_views by done. by rewrite merge_sort_Permutation. }
  apply list_elem_of_fmap in Hin as (p & -> & Hp). eauto.
Qed.

Lemma fade_target_of d : fade_target d = (target_of d).2.
Proof. done. Qed.

(** X12: after [layout_slots] on a list of views that is not empty,
    every view of the list and every dialog of such a view has a slot
    record with its transformer attached; the current focus view is the
    active view of the output if that is an eligible view, and the
    first view of the list otherwise; while scale is active, that view
    fades to alpha 1 and every other view of the list to the inactive
    alpha; the frame hooks are registered. *)
Theorem layout_focus_and_alpha (h : host) (s : state) (views : list view) :
  views ≠ [] → consistent s → shallow h → NoDup (flat_map (tree h) views) →
  ∃ s', layout_slots views h s = Some (tt, s') ∧ consistent s' ∧
        hook_set s' = true ∧ active s' = active s ∧
        current_focus_view s' = Some (chosen_view h s views) ∧
        (∀ w, w ∈ flat_map (tree h) views →
              flagged s' w ∧ is_Some (transformers s' !! w)) ∧
        (∀ v, v ∈ views →
              ∃ d, scale_data s' !! v = Some d ∧
                   fade_target d
                   = if active s
                     then (if bool_decide (v = chosen_view h s views)
                           then d1 else inactive_alpha h)
                     else d1).
Proof.
  intros Hne Hc Hsh Hnd.
  destruct (layout_slots_total h s views Hne Hc Hsh) as (s' & Hrun & Hpost).
  destruct Hpost as (Hc' & E & _ & _ & _ & Hf & _ & Hk & Hpl & _).
  assert (NoDup (covered h (plan h views))) as Hnd' by (by rewrite covered_plan).
  specialize (Hpl Hnd').
  exists s'. split_and!; try done.
  - by apply (f_equal active) in E.
  - intros w Hw. rewrite <- covered_plan in Hw by done.
    apply covered_elem_plan in Hw as (p & Hp & Hw).
    destruct (Hpl p Hp) as [V C].
    assert (flagged s' w) as Hfl.
    { unfold tree in Hw. apply elem_of_cons in Hw as [->|Hw].
      - destruct V as (d & Hd & Ht & _). by exists d.
      - destruct (C w Hw) as (d & Hd & Ht & _). by exists d. }
    split; [done|]. by apply Hc'.
  - intros v Hv. destruct (plan_member h views v Hne Hv) as (p & Hp & <-).
    destruct (Hpl p Hp) as [(d & Hd & _ & _ & _ & Ht) _].
    exists d. split; [done|]. rewrite fade_target_of, Ht. unfold view_target.
    destruct (active s); done.
Qed.

Lemma layout_focus_and_alpha_witness :
  five_views ≠ [] ∧ consistent demo_state ∧ shallow demo5 ∧
  NoDup (flat_map (tree demo5) five_views) ∧
  ∃ s', layout_slots five_views demo5 demo_state = Some (tt, s') ∧ consistent s' ∧
        hook_set s' = true ∧ active s' = active demo_state ∧
        current_focus_view s' = Some (chosen_view demo5 demo_state five_views) ∧
        (∀ w, w ∈ flat_map (tree demo5) five_views →
              flagged s' w ∧ is_Some (transformers s' !! w)) ∧
        (∀ v, v ∈ five_views →
              ∃ d, scale_data s' !! v = Some d ∧
                   fade_target d
                   = if active demo_state
                     then (if bool_decide (v = chosen_view demo5 demo_state five_views)
                           then d1 else inactive_alpha demo5)
                     else d1).
Proof.
  assert (five_views ≠ []) as H1 by discriminate.
  assert (consistent demo_state) as H2
    by (apply consistentb_sound; vm_compute; reflexivity).
  assert (NoDup (flat_map (tree demo5) five_views)) as H4
    by (refine (bool_decide_unpack _ _); vm_compute; exact I).
  split; [exact H1|]. split; [exact H2|]. split; [apply demo_shallow|]. split; [exact H4|].
  exact (layout_focus_and_alpha demo5 demo_state five_views H1 H2 (demo_shallow _ _ _) H4).
Defined.

Lemma plan_index h views p :
  views ≠ [] → p ∈ plan h views →
  ∃ k : nat, plan h views !! k = Some p ∧ (k < length views)%nat ∧
             pl_row p = Z.of_nat k / cols_for (Z.of_nat (length views)) ∧
             pl_col p = Z.of_nat k mod cols_for (Z.of_nat (length views)).
Proof.
  intros Hne Hp. apply list_elem_of_lookup_1 in Hp as [k Hk].
  assert (k < length views)%nat as Hlt.
  { apply lookup_lt_Some in Hk.
    assert (length (plan h views) = length views) as <-; [|done].
    rewrite <- (length_fmap pl_view), plan_views by done.
    by rewrite merge_sort_Permutation. }
  destruct (plan_lookup h views k Hne Hlt) as (p' & v & Hp' & _ & _ & Hr & Hc).
  assert (p' = p) as -> by congruence. exists k. done.
Qed.

Lemma layout_post_cells h s s' :
  eligible h s ≠ [] → NoDup (flat_map (tree h) (eligible h s)) →
  layout_post h (eligible h s) s s' →
  eligible h s' = eligible h s ∧ laid_out h s' ∧ one_view_per_cell h s'.
Proof.
  intros Hne Hnd Hpost. set (views := eligible h s) in *.
  destruct Hpost as (Hc' & E & _ & _ & _ & _ & _ & _ & Hpl & _).
  assert (NoDup (covered h (plan h views))) as Hnd' by (by rewrite covered_plan).
  specialize (Hpl Hnd').
  assert (eligible h s' = views) as He.
  { apply (f_equal all_workspaces) in E. simpl in E. unfold views, eligible. by rewrite E. }
  assert (∀ w, w ∈ views →
            ∃ (k : nat) d, (k < length views)%nat ∧
              (pl_view <$> plan h views !! k) = Some w ∧
              scale_data s' !! w = Some d ∧
              row d = Z.of_nat k / cols_for (Z.of_nat (length views)) ∧
              col d = Z.of_nat k mod cols_for (Z.of_nat (length views))) as Hcell.
  { intros w Hw. destruct (plan_member h views w Hne Hw) as (p & Hp & <-).
    destruct (plan_index h views p Hne Hp) as (k & Hk & Hlt & Hr & Hcl).
    destruct (Hpl p Hp) as [(d & Hd & _ & Hrow & Hcol & _) _].
    exists k, d. rewrite Hk. split_and!; try done; congruence. }
  split; [done|]. split.
  - intros w Hw. rewrite He in Hw. destruct (Hcell w Hw) as (k & d & _ & _ & Hd & _).
    by exists d.
  - intros r c w w' (Hw & d & Hd & Hr & Hcl) (Hw' & d' & Hd' & Hr' & Hcl').
    rewrite He in Hw, Hw'.
    destruct (Hcell w Hw) as (k & dk & Hlt & Hk & Hdk & Hrk & Hck).
    destruct (Hcell w' Hw') as (k' & dk' & Hlt' & Hk' & Hdk' & Hrk' & Hck').
    assert (dk = d) as -> by congruence. assert (dk' = d') as -> by congruence.
    assert (1 ≤ Z.of_nat (length views)) as Hn
      by (destruct views; [done|simpl; lia]).
    pose proof (last_row_cols_for_bounds _ Hn) as Hb.
    set (cols := cols_for (Z.of_nat (length views))) in *.
    assert (Z.of_nat k = Z.of_nat k') as Hkk.
    { rewrite (Z.div_mod (Z.of_nat k) cols) by lia.
      rewrite (Z.div_mod (Z.of_nat k') cols) by lia. congruence. }
    apply Nat2Z.inj in Hkk. subst k'. congruence.
Qed.

(** X13: after [layout_slots] on the eligible views, every eligible
    view has a slot record and no two eligible views have the same
    cell: the lookup of [find_view_in_grid] has at most one answer. *)
Theorem layout_gives_one_view_per_cell (h : host) (s : state) :
  eligible h s ≠ [] → consistent s → shallow h →
  NoDup (flat_map (tree h) (eligible h s)) →
  ∃ s', layout_slots (eligible h s) h s = Some (tt, s') ∧
        eligible h s' = eligible h s ∧ laid_out h s' ∧ one_view_per_cell h s'.
Proof.
  intros Hne Hc Hsh Hnd.
  destruct (layout_slots_total h s (eligible h s) Hne Hc Hsh) as (s' & Hrun & Hpost).
  exists s'. split; [exact Hrun|]. by apply layout_post_cells.
Qed.

Lemma layout_gives_one_view_per_cell_witness :
  eligible demo5 demo_state ≠ [] ∧ consistent demo_state ∧ shallow demo5 ∧
  NoDup (flat_map (tree demo5) (eligible demo5 demo_state)) ∧
  ∃ s', layout_slots (eligible demo5 demo_state) demo5 demo_state = Some (tt, s') ∧
        eligible demo5 s' = eligible demo5 demo_state ∧ laid_out demo5 s' ∧
        one_view_per_cell demo5 s'.
Proof.
  assert (eligible demo5 demo_state ≠ []) as H1 by (vm_compute; discriminate).
  assert (consistent demo_state) as H2
    by (apply consistentb_sound; vm_compute; reflexivity).
  assert (NoDup (flat_map (tree demo5) (eligible demo5 demo_state))) as H4
    by (refine (bool_decide_unpack _ _); vm_compute; exact I).
  split; [exact H1|]. split; [exact H2|]. split; [apply demo_shallow|]. split; [exact H4|].
  exact (layout_gives_one_view_per_cell demo5 demo_state H1 H2 (demo_shallow _ _ _) H4).
Defined.

(** * Leaving scale with the keyboard or the pointer *)

Lemma select_view_run h s v r :
  root_view (tree_fuel h) h v = Some r → sized h →
  select_view (Some v) h s = Some (tt, set_current_workspace (main_workspace h s r) s).
Proof.
  intros Hr [Hw Hh]. unfold select_view, get_view_main_workspace, request_workspace.
  run_glue. rewrite Hr. cbv iota.
  rewrite bind_run, idiv_run by done. cbv beta iota.
  rewrite bind_run, idiv_run by done. run_glue. done.
Qed.

Lemma select_view_keeps N h s ov :
  N ∨ (shallow h ∧ sized h) →
  wp N (select_view ov) h s (λ _ s', ∃ ws, s' = set_current_workspace ws s).
Proof.
  intros HN. destruct ov as [v|].
  - unfold select_view, get_view_main_workspace. wp_glue.
    destruct (root_view (tree_fuel h) h v) as [r|] eqn:Hr.
    + apply wp_bind.
      apply wp_idiv; [destruct HN as [?|[_ [? _]]]; [by left|by right]|]. intros _.
      cbv beta. apply wp_bind.
      apply wp_idiv; [destruct HN as [?|[_ [_ ?]]]; [by left|by right]|]. intros _.
      wp_go. eauto.
    + apply wp_fail. destruct HN as [?|[Hsh _]]; [done|].
      destruct (root_view_shallow h v (tree_fuel h) Hsh) as [? ?];
        [unfold tree_fuel; lia|congruence].
  - apply wp_ret. exists (current_workspace s). by destruct s.
Qed.

Lemma refocus_exact N h s :
  N ∨ (shallow h ∧ can_refocus h s) →
  wp N refocus h s
    (λ _ s', (∃ ws, s' = set_current_workspace ws (set_active_view (refocus_target h s) s)) ∧
             (initial_focus_view s = None → s' = s)).
Proof.
  intros HN. unfold refocus, refocus_target. wp_glue.
  destruct (initial_focus_view s) eqn:Hi.
  - destruct (current_focus_view s) as [c|] eqn:Hcf.
    + wp_go. eapply wp_mono.
      { apply select_view_keeps.
        destruct HN as [?|[? [?|[?|?]]]]; [by left|congruence|congruence|by right]. }
      intros u s' (ws & ->). cbv beta. split; [|done]. exists ws. done.
    + wp_go. split; [|done]. exists (current_workspace s). by destruct s.
  - apply wp_ret. split; [|done]. exists (current_workspace s). by destruct s.
Qed.

Lemma deactivate_refocus N h s :
  consistent s → N ∨ (shallow h ∧ settled h s ∧ can_refocus h s) →
  wp N deactivate h s
    (λ _ s', active_view s' = refocus_target h s ∧
             (initial_focus_view s = None → current_workspace s' = current_workspace s)).
Proof.
  intros Hc HN. unfold deactivate.
  assert (∀ s0, scale_data s0 = scale_data s → transformers s0 = transformers s →
            initial_focus_view s0 = initial_focus_view s →
            current_focus_view s0 = current_focus_view s →
            active_view s0 = active_view s →
            current_workspace s0 = current_workspace s →
    wp N
      (for_scale_data_ (λ v,
         bind ask (λ h, bind (fade_in (tree_fuel h) (Some v))
                          (λ _, setup_view_transform v d1 d1 d0 d0 d1)))) h s0
      (λ _ s1, wp N (bind refocus (λ _, modify (set_capabilities 0))) h s1
         (λ _ s', active_view s' = refocus_target h s ∧
                  (initial_focus_view s = None →
                   current_workspace s' = current_workspace s)))) as Hrest.
  { intros s0 Esd Etr E1 E2 E3 E4.
    assert (consistent s0) as Hc0 by (by apply (consistent_ext s)).
    eapply wp_mono.
    { apply deactivate_loop_spec; [done|]. destruct HN as [?|(? & ? & ?)]; [by left|right].
      split; [done|]. by apply (settled_ext h s). }
    intros u s1 (_ & F1 & _). cbv beta. wp_glue.
    assert (initial_focus_view s1 = initial_focus_view s) as I1
      by (apply (f_equal initial_focus_view) in F1; simpl in F1; congruence).
    assert (current_focus_view s1 = current_focus_view s) as C1
      by (apply (f_equal current_focus_view) in F1; simpl in F1; congruence).
    eapply wp_mono.
    { apply refocus_exact. destruct HN as [?|(? & ? & ?)]; [by left|right].
      split; [done|]. by apply (can_refocus_ext h s). }
    intros u' s2 ((ws & Hs2) & Hnone). cbv beta. wp_glue. simpl.
    split.
    - rewrite Hs2. simpl. unfold refocus_target. rewrite I1.
      replace (current_focus_view s1) with (current_focus_view s)
        by (apply (f_equal current_focus_view) in F1; simpl in F1; congruence).
      replace (active_view s1) with (active_view s)
        by (apply (f_equal active_view) in F1; simpl in F1; congruence).
      done.
    - intros Hn. rewrite Hnone by congruence.
      apply (f_equal current_workspace) in F1. simpl in F1. congruence. }
  wp_go. change (hook_set (set_active false s)) with (hook_set s).
  destruct (hook_set s) eqn:Hk; wp_go.
  all: match goal with
       | |- wp _ (if negb (input_release_impending ?st) then _ else _) _ _ _ =>
           change (input_release_impending st) with (input_release_impending s)
       end.
  all: destruct (input_release_impending s) eqn:Hirp; simpl negb; cbv iota; wp_go.
  all: apply Hrest; done.
Qed.

Lemma restored_ext s0 s s1 s' :
  scale_data s0 = scale_data s → scale_data s' = scale_data s1 →
  restored s0 s1 → restored s s'.
Proof. unfold restored. intros <- ->. done. Qed.

Lemma deactivate_total h s :
  consistent s → shallow h → settled h s → can_refocus h s →
  ∃ s1, deactivate h s = Some (tt, s1) ∧ consistent s1 ∧ deactivated s s1 ∧
        restored s s1 ∧ active_view s1 = refocus_target h s ∧
        (initial_focus_view s = None → current_workspace s1 = current_workspace s).
Proof.
  intros Hc Hsh Hst Hrf.
  pose proof (deactivate_spec False h s Hc (or_intror (conj Hsh (conj Hst Hrf)))) as Hwp.
  apply wp_total_run in Hwp as ([] & s1 & Hrun & Hc1 & Hd & [[]|Hr]).
  pose proof (deactivate_refocus True h s Hc (or_introl I)) as Hf.
  pose proof (wp_run _ _ _ _ _ _ _ Hf Hrun) as [Hav Hws].
  exists s1. done.
Qed.

Lemma process_key_pressed h s v d key :
  active s = true → active_view s = Some v → v ∈ eligible h s →
  scale_data s !! v = Some d → keyboard_modifiers h = 0 →
  (key = KEY_ENTER →
   process_key key WLR_KEY_PRESSED h s
   = bind (modify (set_input_release_impending true)) (λ _,
       bind deactivate (λ _, bind get (λ s, select_view (current_focus_view s)))) h s) ∧
  (key = KEY_ESC →
   process_key key WLR_KEY_PRESSED h s
   = bind (modify (set_input_release_impending true)) (λ _,
       bind (modify (set_initial_focus_view None)) (λ _,
         bind deactivate (λ _,
           bind (focus_view (initial_focus_view s)) (λ _,
             bind get (λ s, request_workspace (initial_workspace s)))))) h s).
Proof.
  intros Ha Hav Hv Hd Hm.
  assert (∀ k : view_scale_data → M unit,
            process_key key WLR_KEY_PRESSED h s
            = (if key =? KEY_UP then move_focus key (row d - 1) (col d)
               else if key =? KEY_DOWN then move_focus key (row d + 1) (col d)
               else if key =? KEY_LEFT then move_focus key (row d) (col d - 1)
               else if key =? KEY_RIGHT then move_focus key (row d) (col d + 1)
               else if key =? KEY_ENTER then
                 bind (modify (set_input_release_impending true)) (λ _,
                   bind deactivate (λ _, bind get (λ s, select_view (current_focus_view s))))
               else if key =? KEY_ESC then
                 bind (modify (set_input_release_impending true)) (λ _,
                   bind (modify (set_initial_focus_view None)) (λ _,
                     bind deactivate (λ _,
                       bind (focus_view (initial_focus_view s)) (λ _,
                         bind get (λ s, request_workspace (initial_workspace s))))))
               else ret tt) h s) as Hpk.
  { intros _. unfold process_key. run_glue. rewrite Ha, Hav. run_glue.
    unfold scale_view, get_views. run_glue. fold (eligible h s).
    rewrite (bool_decide_eq_true_2 _ Hv). run_glue. cbn [andb].
    unfold index. run_glue. rewrite Hd. run_glue. rewrite Hm.
    change (WLR_KEY_PRESSED =? WLR_KEY_RELEASED) with false.
    change (WLR_KEY_PRESSED =? WLR_KEY_PRESSED) with true.
    change (0 =? 0) with true. cbn [andb orb negb]. run_glue. done. }
  split; intros ->; rewrite (Hpk (λ _, ret tt)); reflexivity.
Qed.



(** X15: Enter pressed while scale is active ends the session on the
    selected view.  When every slot record has its transformer and the
    dialogs of its view have records, dialogs are one level deep and
    the layout has a size, the key press returns: [refocus] gives the
    focus to the current focus view (when an initial focus view is
    recorded), the current focus view stays, the slot records get the
    identity as target, and the only other change of the output is the
    requested workspace. *)
Theorem enter_keeps_selection (h : host) (s : state) (v : view) (d : view_scale_data) :
  consistent s → shallow h → settled h s → sized h → active s = true →
  active_view s = Some v → v ∈ eligible h s → scale_data s !! v = Some d →
  keyboard_modifiers h = 0 →
  ∃ s', process_key KEY_ENTER WLR_KEY_PRESSED h s = Some (tt, s') ∧
        active s' = false ∧ input_release_impending s' = true ∧
        active_view s' = refocus_target h s ∧
        (is_Some (initial_focus_view s) → is_Some (current_focus_view s) →
         active_view s' = current_focus_view s) ∧
        current_focus_view s' = current_focus_view s ∧
        grabbed s' = grabbed s ∧ plugin_active s' = plugin_active s ∧
        hook_set s' = true ∧ transformers s' = transformers s ∧
        consistent s' ∧ restored s s'.
Proof.
  intros Hc Hsh Hst Hsz Ha Hav Hv Hd Hm.
  rewrite (proj1 (process_key_pressed h s v d KEY_ENTER Ha Hav Hv Hd Hm) eq_refl).
  run_glue.
  set (s0 := set_input_release_impending true s).
  assert (consistent s0) as Hc0 by (by apply (consistent_ext s)).
  assert (settled h s0) as Hst0 by (by apply (settled_ext h s)).
  assert (can_refocus h s0) as Hrf0 by (by right; right).
  destruct (deactivate_total h s0 Hc0 Hsh Hst0 Hrf0)
    as (s1 & Hrun & Hc1 & Hdd & Hr & Hf & _).
  rewrite Hrun. run_glue.
  pose proof (select_view_keeps False h s1 (current_focus_view s1)
                (or_intror (conj Hsh Hsz))) as Hsel.
  apply wp_total_run in Hsel as ([] & s' & Hrun' & ws & ->).
  rewrite Hrun'. eexists. split; [reflexivity|].
  destruct Hdd as (E & Hact & Hhook & _ & _ & Hgr & Hpl).
  simpl. split_and!.
  - done.
  - by apply (f_equal input_release_impending) in E.
  - done.
  - intros [i Hi] [c Hcf]. rewrite Hf. unfold refocus_target. simpl.
    by rewrite Hi, Hcf.
  - by apply (f_equal current_focus_view) in E.
  - done.
  - done.
  - done.
  - by apply (f_equal transformers) in E.
  - by apply (consistent_ext s1).
  - by apply (restored_ext s0 s s1).
Qed.

Lemma enter_keeps_selection_witness :
  consistent demo_active ∧ shallow demo5 ∧ settled demo5 demo_active ∧
  sized demo5 ∧ active demo_active = true ∧ active_view demo_active = Some 2%nat ∧
  2%nat ∈ eligible demo5 demo_active ∧
  scale_data demo_active !! 2%nat = Some (record_or_default demo5 demo_active 2%nat) ∧
  keyboard_modifiers demo5 = 0 ∧
  ∃ s', process_key KEY_ENTER WLR_KEY_PRESSED demo5 demo_active = Some (tt, s') ∧
        active s' = false ∧ input_release_impending s' = true ∧
        active_view s' = refocus_target demo5 demo_active ∧
        (is_Some (initial_focus_view demo_active) →
         is_Some (current_focus_view demo_active) →
         active_view s' = current_focus_view demo_active) ∧
        current_focus_view s' = current_focus_view demo_active ∧
        grabbed s' = grabbed demo_active ∧ plugin_active s' = plugin_active demo_active ∧
        hook_set s' = true ∧ transformers s' = transformers demo_active ∧
        consistent s' ∧ restored demo_active s'.
Proof.
  assert (consistent demo_active) as H1
    by (apply consistentb_sound; vm_compute; reflexivity).
  assert (settled demo5 demo_active) as H2
    by (apply settledb_sound; vm_compute; reflexivity).
  assert (active demo_active = true) as H3 by (vm_compute; reflexivity).
  assert (active_view demo_active = Some 2%nat) as H4 by (vm_compute; reflexivity).
  assert (2%nat ∈ eligible demo5 demo_active) as H5
    by (refine (bool_decide_unpack _ _); vm_compute; exact I).
  assert (scale_data demo_active !! 2%nat
          = Some (record_or_default demo5 demo_active 2%nat)) as H6
    by (vm_compute; reflexivity).
  assert (keyboard_modifiers demo5 = 0) as H7 by reflexivity.
  assert (sized demo5) as H8 by (split; discriminate).
  split; [exact H1|]. split; [apply demo_shallow|]. split; [exact H2|].
  split; [exact H8|].
  split; [exact H3|]. split; [exact H4|]. split; [exact H5|]. split; [exact H6|].
  split; [exact H7|].
  exact (enter_keeps_selection demo5 demo_active 2%nat _ H1 (demo_shallow _ _ _)
           H2 H8 H3 H4 H5 H6 H7).
Defined.

Lemma fade_rel_settled_any h T s s' v :
  settled h s → is_Some (scale_data s !! v) →
  fade_rel h T (λ _, False) s s' → settled h s'.
Proof.
  intros Hs Hv R. apply (fade_rel_settled h T v s s' Hs Hv).
  eapply fade_rel_weaken; [| |exact R].
  - intros x Hx. exact Hx.
  - intros w _ [].
Qed.

Lemma wp_bind_inv N {A B} (m : M A) (k : A → M B) h s Q :
  wp N (bind m k) h s Q → wp N m h s (λ a s1, wp N (k a) h s1 Q).
Proof. unfold wp, bind. by destruct (m h s) as [[a s1]|]. Qed.

Lemma process_button_click N h s v (Q : unit → state → Prop) :
  active s = true → view_at_cursor h = Some v → v ∈ eligible h s →
  wp N (bind (fade_out_all_except (Some v)) (λ _,
          bind (fade_in (tree_fuel h) (Some v)) (λ _,
            if interact h then ret tt
            else bind (modify (set_input_release_impending true)) (λ _,
                   bind (modify (set_initial_focus_view None)) (λ _,
                     bind deactivate (λ _, select_view (Some v))))))) h
     (set_active_view (Some v) (set_current_focus_view (Some v)
        (set_input_release_impending false s))) Q →
  wp N (process_button BTN_LEFT WLR_BUTTON_PRESSED) h s Q.
Proof.
  intros Ha Hcur Hv Hrest. unfold process_button. wp_glue. rewrite Ha. cbn [negb].
  cbv iota. change (BTN_LEFT =? BTN_LEFT) with true. cbn [orb]. wp_glue.
  change (WLR_BUTTON_PRESSED =? WLR_BUTTON_PRESSED) with true. cbn [negb]. cbv iota.
  rewrite Hcur. unfold scale_view, get_views. wp_glue.
  change (all_workspaces (set_input_release_impending false s)) with (all_workspaces s).
  fold (eligible h s). rewrite (bool_decide_eq_true_2 _ Hv). cbn [negb andb]. cbv iota.
  change (BTN_LEFT =? BTN_MIDDLE) with false. cbv iota. wp_go.
  apply wp_bind_inv in Hrest. exact Hrest.
Qed.

(** X16: a left click on a scaled view, when the plugin does not leave
    the input to the views ([interact] off), selects that view and ends
    the session.  When every slot record has its transformer and the
    dialogs of its view have records, dialogs are one level deep and
    the layout has a size, the click returns: the view is the current
    focus view and the active view of the output, the workspace of its
    root is requested, every slot record keeps its cell and gets the
    identity as target, and the grab is kept until the button is
    released. *)
Theorem click_selects_view (h : host) (s : state) (v r : view) :
  consistent s → shallow h → settled h s → sized h → active s = true →
  view_at_cursor h = Some v → v ∈ eligible h s → is_Some (scale_data s !! v) →
  interact h = false → root_view (tree_fuel h) h v = Some r →
  ∃ s', process_button BTN_LEFT WLR_BUTTON_PRESSED h s = Some (tt, s') ∧
        active s' = false ∧ input_release_impending s' = true ∧
        initial_focus_view s' = None ∧
        current_focus_view s' = Some v ∧ active_view s' = Some v ∧
        grabbed s' = grabbed s ∧ hook_set s' = true ∧
        transformers s' = transformers s ∧ consistent s' ∧
        current_workspace s' = main_workspace h s r ∧
        (∀ w d, scale_data s !! w = Some d →
           ∃ d', scale_data s' !! w = Some d' ∧ row d' = row d ∧ col d' = col d ∧
                 target_of d' = identity_target).
Proof.
  intros Hc Hsh Hst Hsz Ha Hcur Hv Hrec Hi Hroot.
  set (sb := set_active_view (Some v) (set_current_focus_view (Some v)
               (set_input_release_impending false s))).
  assert (consistent sb) as Hcb by (by apply (consistent_ext s)).
  assert (settled h sb) as Hstb by (by apply (settled_ext h s)).
  assert (wp False (process_button BTN_LEFT WLR_BUTTON_PRESSED) h s
            (λ _ s', ∃ sd s1,
               fade_rel h (λ _, True) (arg (Some v)) sb sd ∧ settled h sd ∧ consistent sd ∧
               deactivate h (set_initial_focus_view None (set_input_release_impending true sd))
               = Some (tt, s1) ∧
               s' = set_current_workspace (main_workspace h s1 r) s1)) as Hwp.
  { apply (process_button_click False h s v); [done..|]. fold sb. apply wp_bind.
    eapply wp_mono; [apply fade_out_all_except_rel; [done|by right]|].
    intros u sc Rc. cbv beta.
    pose proof (fade_rel_consistent _ _ _ _ _ Rc Hcb) as Hcc.
    assert (settled h sc) as Hstc.
    { exact (fade_rel_settled_any h _ sb sc v Hstb Hrec Rc). }
    assert (is_Some (scale_data sc !! v)) as Hrecc.
    { destruct Hrec as [d Hd]. destruct Rc as (_ & _ & A & _).
      destruct (A v d Hd) as (d' & ? & _). by exists d'. }
    apply wp_bind. eapply wp_mono.
    { apply fade_in_rel; [done|]. right. split; [done|]. left. unfold tree_fuel. lia. }
    intros u' sd Rd. cbv beta. rewrite Hi.
    pose proof (fade_rel_consistent _ _ _ _ _ Rd Hcc) as Hcd.
    assert (settled h sd) as Hstd.
    { exact (fade_rel_settled h _ v sc sd Hstc Hrecc Rd). }
    wp_go.
    set (se := set_initial_focus_view None (set_input_release_impending true sd)).
    assert (consistent se) as Hce by (by apply (consistent_ext sd)).
    assert (settled h se) as Hste by (by apply (settled_ext h sd)).
    assert (can_refocus h se) as Hrfe by (by left).
    destruct (deactivate_total h se Hce Hsh Hste Hrfe) as (s1 & Hrun & _).
    eapply wp_eq; [exact Hrun|]. cbv beta.
    eapply wp_eq; [by apply select_view_run|]. exists sd, s1.
    split_and!; try done.
    eapply fade_rel_trans.
    - eapply fade_rel_weaken; [| |exact Rc]; [done|]. intros w _ [].
    - eapply fade_rel_weaken; [| |exact Rd]; [done|]. intros w Hn Hw.
      exact Hw. }
  apply wp_total_run in Hwp as ([] & s' & Hrun & sd & s1 & Rbd & Hstd & Hcd & Hde & ->).
  exists (set_current_workspace (main_workspace h s1 r) s1). split; [exact Hrun|].
  set (se := set_initial_focus_view None (set_input_release_impending true sd)) in *.
  assert (consistent se) as Hce by (by apply (consistent_ext sd)).
  assert (settled h se) as Hste by (by apply (settled_ext h sd)).
  assert (can_refocus h se) as Hrfe by (by left).
  destruct (deactivate_total h se Hce Hsh Hste Hrfe)
    as (s1' & Hrun1 & Hc1 & Hdd & Hr & Hf & Hws).
  assert (s1' = s1) as -> by congruence.
  destruct Hdd as (E & Hact & Hhook & _ & _ & Hgr & Hpl).
  pose proof (fade_rel_cells _ _ _ _ _ Rbd) as Kbd.
  destruct Rbd as (Ebd & _).
  assert (current_workspace s1 = current_workspace s) as Hws1.
  { rewrite Hws by done. apply (f_equal current_workspace) in Ebd. done. }
  simpl. split_and!.
  - done.
  - by apply (f_equal input_release_impending) in E.
  - by apply (f_equal initial_focus_view) in E.
  - apply (f_equal current_focus_view) in E, Ebd. simpl in E, Ebd. congruence.
  - rewrite Hf. unfold refocus_target. simpl.
    apply (f_equal active_view) in Ebd. simpl in Ebd. done.
  - simpl in Hgr. rewrite Hgr. apply (f_equal grabbed) in Ebd. simpl in Ebd. done.
  - done.
  - apply (f_equal transformers) in E, Ebd. simpl in E, Ebd. congruence.
  - by apply (consistent_ext s1).
  - unfold main_workspace. by rewrite Hws1.
  - intros w d Hd. destruct (Kbd w d Hd) as (dd & Hdd & Hrow & Hcol & _).
    destruct Hr as (Hdom & Hrc & Hid).
    destruct (scale_data s1 !! w) as [d1'|] eqn:Hd1.
    + exists d1'. destruct (Hrc w dd d1' Hdd Hd1) as (? & ? & _).
      split_and!; [done|congruence|congruence|by apply (Hid w)].
    + apply Hdom in Hd1. simpl in Hd1. congruence.
Qed.

Lemma click_selects_view_witness :
  consistent demo_active ∧ shallow pointing_host ∧ settled pointing_host demo_active ∧
  sized pointing_host ∧ active demo_active = true ∧ view_at_cursor pointing_host = Some 3%nat ∧
  3%nat ∈ eligible pointing_host demo_active ∧
  is_Some (scale_data demo_active !! 3%nat) ∧ interact pointing_host = false ∧
  root_view (tree_fuel pointing_host) pointing_host 3%nat = Some 3%nat ∧
  ∃ s', process_button BTN_LEFT WLR_BUTTON_PRESSED pointing_host demo_active
        = Some (tt, s') ∧
        active s' = false ∧ input_release_impending s' = true ∧
        initial_focus_view s' = None ∧
        current_focus_view s' = Some 3%nat ∧ active_view s' = Some 3%nat ∧
        grabbed s' = grabbed demo_active ∧ hook_set s' = true ∧
        transformers s' = transformers demo_active ∧ consistent s' ∧
        current_workspace s' = main_workspace pointing_host demo_active 3%nat ∧
        (∀ w d, scale_data demo_active !! w = Some d →
           ∃ d', scale_data s' !! w = Some d' ∧ row d' = row d ∧ col d' = col d ∧
                 target_of d' = identity_target).
Proof.
  assert (consistent demo_active) as H1
    by (apply consistentb_sound; vm_compute; reflexivity).
  assert (shallow pointing_host) as H2 by exact (demo_shallow five_views true false).
  assert (settled pointing_host demo_active) as H3
    by (apply settledb_sound; vm_compute; reflexivity).
  assert (active demo_active = true) as H4 by (vm_compute; reflexivity).
  assert (view_at_cursor pointing_host = Some 3%nat) as H5 by reflexivity.
  assert (3%nat ∈ eligible pointing_host demo_active) as H6
    by (refine (bool_decide_unpack _ _); vm_compute; exact I).
  assert (is_Some (scale_data demo_active !! 3%nat)) as H7
    by (refine (bool_decide_unpack _ _); vm_compute; exact I).
  assert (interact pointing_host = false) as H8 by reflexivity.
  assert (root_view (tree_fuel pointing_host) pointing_host 3%nat = Some 3%nat) as H9
    by reflexivity.
  assert (sized pointing_host) as H10 by (split; discriminate).
  split; [exact H1|]. split; [exact H2|]. split; [exact H3|]. split; [exact H10|].
  split; [exact H4|].
  split; [exact H5|]. split; [exact H6|]. split; [exact H7|]. split; [exact H8|].
  split; [exact H9|].
  exact (click_selects_view pointing_host demo_active 3%nat 3%nat
           H1 H2 H3 H10 H4 H5 H6 H7 H8 H9).
Defined.

(** * When an animation is running *)

(** X17: [animation_running] returns true exactly when the fade or the
    scale animation of some slot record is running; what it changes is
    at most that the children it looks at get empty slot records
    ([scale_data[child]]). *)
Theorem animation_running_exact (h : host) (s : state) :
  ∃ r s', animation_running h s = Some (r, s') ∧ only_inserted h s s' ∧
          (r = true ↔ ∃ v d, scale_data s !! v = Some d ∧ record_running h d = true).
Proof.
  destruct (animation_running_iff h s) as (r & s' & Hrun & Hi & Hiff).
  exists r, s'. split; [exact Hrun|]. split; [exact Hi|exact Hiff].
Qed.

(** * A frame of the animation *)

Lemma apply_animation_any h d t t' : apply_animation h d t = apply_animation h d t'.
Proof. done. Qed.

Lemma wp_store_value N h s v f :
  consistent s → N ∨ flagged s v →
  wp N (store v f) h s
    (λ _ s', ∃ t, transformers s !! v = Some t ∧
                  s' = set_transformers (<[v := f t]> (transformers s)) s).
Proof.
  intros Hc HN. wp_go. apply wp_deref; [done..|].
  intros d t Hd Hf Ht. wp_go. by exists t.
Qed.

Lemma sampling_weaken h s (V V' : view → Prop) s1 :
  (∀ v, V' v → V v) → sampling h s V s1 → sampling h s V' s1.
Proof. intros HV (? & ? & ? & ? & H). split_and!; auto. Qed.

Lemma sampling_store N h s V s1 c cd :
  sampling h s V s1 → scale_data s !! c = Some cd → transformer cd = true →
  wp N (store c (apply_animation h cd)) h s1 (λ _ s2, sampling h s (λ v, V v ∨ v = c) s2).
Proof.
  intros (Hc1 & E1 & B1 & U1 & S1) Hcd Hf.
  eapply wp_mono.
  { apply wp_store_value; [done|]. right. exists cd. by rewrite E1. }
  intros u s2 (t & Ht & ->). cbv beta. split_and!; simpl.
  - by eapply consistent_store.
  - done.
  - rewrite <- B1. by destruct s1.
  - intros v. destruct (decide (v = c)) as [->|Hne].
    + right. exists cd. split; [done|]. by rewrite lookup_insert_eq.
    + rewrite lookup_insert_ne by done. apply U1.
  - intros v d Hd [Hv| ->].
    + destruct (decide (v = c)) as [->|Hne].
      * rewrite lookup_insert_eq. assert (d = cd) as -> by congruence. done.
      * rewrite lookup_insert_ne by done. by apply S1.
    + rewrite lookup_insert_eq. assert (d = cd) as -> by congruence. done.
Qed.

Lemma transform_views_samples N h s :
  consistent s →
  wp N transform_views h s
    (λ _ s', sampling h s
               (λ v, flagged s v ∧ in_workspace_layer h v || toplevel h v = true) s').
Proof.
  intros Hc. unfold transform_views, for_scale_data_, for_scale_data. wp_glue.
  apply (wp_for_keys N h
    (λ ks _ s1, sampling h s
       (λ v, (flagged s v ∧ in_workspace_layer h v || toplevel h v = true) ∧ v ∉ ks) s1)).
  - split_and!; [done|done|done|by left|].
    intros v d Hd [_ Hv]. exfalso. apply Hv, key_order_elem. left. by apply elem_of_dom.
  - intros k ks' [] s1 HS Hk.
    eapply sampling_weaken; [|exact HS]. intros v [[(dv & Hdv & Hfv) Hdir] Hv].
    split; [split; [by exists dv|done]|]. intros Hin.
    apply elem_of_cons in Hin as [->|?]; [|done].
    apply Hk, elem_of_dom. destruct HS as (_ & E & _). rewrite E. eauto.
  - intros k ks' [] s1 HS Hk. wp_glue.
    pose proof HS as (Hc1 & E1 & _).
    apply elem_of_dom in Hk as [d Hd]. rewrite Hd.
    match goal with |- wp _ (if ?c then _ else _) _ _ _ => destruct c eqn:Hcond end.
    { wp_glue. simpl. eapply sampling_weaken; [|exact HS].
      intros v [[(dv & Hdv & Hfv) Hdir] Hv]. split; [split; [by exists dv|done]|].
      intros Hin. apply elem_of_cons in Hin as [->|?]; [|done].
      rewrite E1 in Hd. assert (dv = d) as -> by congruence.
      rewrite Hfv in Hcond. simpl in Hcond.
      destruct (in_workspace_layer h k), (toplevel h k); simpl in *; done. }
    apply orb_false_elim in Hcond as [Hf _]. apply negb_false_iff in Hf.
    rewrite E1 in Hd.
    wp_glue.
    set (V := λ v, ((flagged s v ∧ in_workspace_layer h v || toplevel h v = true)
                    ∧ v ∉ k :: ks') ∨ v = k).
    eapply wp_mono with (Q := λ (_ : unit) (s2 : state), sampling h s V s2).
    { exact (sampling_store N h s _ s1 k d HS Hd Hf). }
    intros u s2 HS2. cbv beta.
    apply (wp_for_list N h (λ _ s3, sampling h s V s3)); [done| |].
    2:{ intros s3 HS3. wp_glue. simpl. eapply sampling_weaken; [|exact HS3].
        intros v [Hv Hnin]. destruct (decide (v = k)) as [->|Hne]; [by right|].
        left. split; [done|]. intros Hin. apply elem_of_cons in Hin as [?|?]; done. }
    intros child l s3 HS3. wp_glue.
    pose proof HS3 as (_ & E3 & _). rewrite E3.
    destruct (scale_data s !! child) as [cd|] eqn:Hcd; [|by wp_glue].
    destruct (transformer cd) eqn:Hcf; simpl; [|by wp_glue].
    eapply wp_mono; [exact (sampling_store N h s V s3 child cd HS3 Hcd Hcf)|].
    intros u' s4 HS4. cbv beta. eapply sampling_weaken; [|exact HS4].
    intros v Hv. by left.
  - intros [] s1 HS. eapply sampling_weaken; [|exact HS].
    intros v Hv. split; [done|]. intros Hin. by apply elem_of_nil in Hin.
Qed.

(** X18: a frame ([pre_hook], that is [transform_views]) leaves the slot
    records as they are and writes into the transformer of every view
    that has a slot record with a transformer and is a top-level view or
    in the workspace layer the values of its five transitions at the
    present time; every other transformer is as before or holds the
    sampled values of its own record; once both animations of a record
    have ended, the sampled values are the targets. *)
Theorem frame_applies_samples (h : host) (s : state) :
  consistent s →
  ∃ s', pre_hook h s = Some (tt, s') ∧ consistent s' ∧
        scale_data s' = scale_data s ∧ but_transformers s' = but_transformers s ∧
        (∀ v d, scale_data s !! v = Some d → transformer d = true →
                in_workspace_layer h v || toplevel h v = true →
                transformers s' !! v = Some (sampled h d)) ∧
        (∀ v, transformers s' !! v = transformers s !! v
              ∨ ∃ d, scale_data s !! v = Some d ∧ transformers s' !! v = Some (sampled h d)) ∧
        (∀ d, record_running h d = false → applied (sampled h d) = target_of d).
Proof.
  intros Hc. pose proof (transform_views_samples False h s Hc) as Hwp.
  apply wp_total_run in Hwp as ([] & s' & Hrun & Hc' & E & B & U & S).
  exists s'. split_and!; try done.
  - intros v d Hd Hf Hdir. apply (S v d Hd). split; [by exists d|done].
  - intros d Hr. unfold record_running in Hr. apply orb_false_elim in Hr as [Hfa Hsa].
    unfold sampled, apply_animation, applied, target_of, fade_target, sample. simpl.
    unfold running in Hfa, Hsa.
    destruct (dur_begin (sa_duration (animation d)));
      destruct (dur_begin (fa_duration (fade_animation d)));
      rewrite ?Hfa, ?Hsa; reflexivity.
Qed.

Lemma frame_applies_samples_witness :
  consistent demo_active ∧
  ∃ s', pre_hook later_host demo_active = Some (tt, s') ∧ consistent s' ∧
        scale_data s' = scale_data demo_active ∧
        but_transformers s' = but_transformers demo_active ∧
        (∀ v d, scale_data demo_active !! v = Some d → transformer d = true →
                in_workspace_layer later_host v || toplevel later_host v = true →
                transformers s' !! v = Some (sampled later_host d)) ∧
        (∀ v, transformers s' !! v = transformers demo_active !! v
              ∨ ∃ d, scale_data demo_active !! v = Some d
                     ∧ transformers s' !! v = Some (sampled later_host d)) ∧
        (∀ d, record_running later_host d = false →
              applied (sampled later_host d) = target_of d).
Proof.
  assert (consistent demo_active) as H1
    by (apply consistentb_sound; vm_compute; reflexivity).
  split; [exact H1|]. exact (frame_applies_samples later_host demo_active H1).
Defined.

(** * [activate] when it succeeds *)

Lemma activate_loop_spec N h s0 :
  consistent s0 → N ∨ shallow h →
  wp N (for_scale_data_ (λ v,
          bind get (λ s,
            bind (connect (λ c, set_c_view_geometry_changed
                                  ({[ v ]} ∪ c_view_geometry_changed c) c)) (λ _,
              if bool_decide (Some v = initial_focus_view s)
                 || bool_decide (parent h v = initial_focus_view s)
              then ret tt
              else fade_out (tree_fuel h) (Some v))))) h s0
    (λ _ s', consistent s' ∧ cells_kept s0 s' ∧
             but_signals_and_fades s' = but_signals_and_fades s0 ∧
             (hook_set s0 = true → hook_set s' = true) ∧
             ∃ g, signals s' = set_c_view_geometry_changed g (signals s0)).
Proof.
  intros Hc HN. unfold for_scale_data_, for_scale_data. wp_glue.
  apply (wp_for_keys N h
    (λ _ _ s1, consistent s1 ∧ cells_kept s0 s1 ∧
               but_signals_and_fades s1 = but_signals_and_fades s0 ∧
               (hook_set s0 = true → hook_set s1 = true) ∧
               ∃ g, signals s1 = set_c_view_geometry_changed g (signals s0))).
  - split_and!; [done|by apply cells_kept_ext|done|done|].
    exists (c_view_geometry_changed (signals s0)). destruct (signals s0). reflexivity.
  - done.
  - intros k ks' [] s1 (Hc1 & K1 & F1 & Hk1 & g & Hg) Hk. wp_go.
    match goal with |- wp _ _ _ ?st _ => set (s2 := st) end.
    assert (consistent s2) as Hc2 by (by apply (consistent_ext s1)).
    assert (cells_kept s0 s2) as K2.
    { eapply cells_kept_trans; [exact K1|]. by apply cells_kept_ext. }
    assert (but_signals_and_fades s2 = but_signals_and_fades s0) as F2.
    { rewrite <- F1. unfold s2. destruct s1. reflexivity. }
    assert (∃ g', signals s2 = set_c_view_geometry_changed g' (signals s0)) as [g' Hg'].
    { exists ({[ k ]} ∪ g). unfold s2. simpl. rewrite Hg. destruct (signals s0). reflexivity. }
    assert (hook_set s0 = true → hook_set s2 = true) as Hk2 by exact Hk1.
    match goal with |- wp _ (if ?c then _ else _) _ _ _ => destruct c end.
    + wp_glue. simpl. split_and!; eauto.
    + eapply wp_mono.
      { apply fade_out_rel; [done|]. destruct HN as [?|Hsh]; [by left|right].
        split; [done|]. left. unfold tree_fuel. lia. }
      intros u s3 R3. cbv beta. wp_glue. simpl.
      pose proof (fade_rel_consistent _ _ _ _ _ R3 Hc2) as Hc3.
      pose proof (fade_rel_cells _ _ _ _ _ R3) as K3.
      destruct R3 as (E3 & Hh3 & _).
      split_and!.
      * done.
      * by eapply cells_kept_trans.
      * rewrite <- F2. unfold but_signals_and_fades. rewrite E3. done.
      * auto.
      * exists g'. apply (f_equal signals) in E3. simpl in E3. by rewrite E3.
  - intros [] s1 H. exact H.
Qed.

Lemma cells_kept_laid_out h s s' :
  eligible h s' = eligible h s → laid_out h s → cells_kept s s' →
  laid_out h s' ∧ (one_view_per_cell h s → one_view_per_cell h s').
Proof.
  intros He Hl K. split.
  - intros u Hu. rewrite He in Hu. destruct (Hl u Hu) as [d Hd].
    destruct (K u d Hd) as (d' & Hd' & _). by exists d'.
  - intros Huniq r c u u' Hu Hu'.
    apply (Huniq r c); by apply (cells_kept_at_cell h s s').
Qed.

Lemma chosen_view_ext h s s' views :
  active_view s' = active_view s → all_workspaces s' = all_workspaces s →
  chosen_view h s' views = chosen_view h s views.
Proof. intros E1 E2. unfold chosen_view, eligible. by rewrite E1, E2. Qed.

Lemma activate_success_wp h s :
  active s = false → plugin_active s = true ∨ can_activate h = true →
  eligible h s ≠ [] → interact h = true ∨ can_grab h = true →
  consistent s → shallow h → NoDup (flat_map (tree h) (eligible h s)) →
  wp False activate h s
    (λ r s', r = true ∧ consistent s' ∧
       ∃ s4 s5 s6,
         active s4 = true ∧ plugin_active s4 = true ∧
         grabbed s4 = (if interact h then grabbed s else true) ∧
         initial_workspace s4 = current_workspace s ∧
         active_view s4 = active_view s ∧ all_workspaces s4 = all_workspaces s ∧
         layout_post h (eligible h s) s4 s5 ∧
         scale_data s6 = scale_data s5 ∧
         but_signals_and_fades (set_button_connected false s6)
         = but_signals_and_fades (set_button_connected false s5) ∧
         button_connected s6 = (if interact h then true else button_connected s5) ∧
         output_signals_connected (signals s6) ∧ hook_set s6 = hook_set s5 ∧
         cells_kept s6 s' ∧ but_signals_and_fades s' = but_signals_and_fades s6 ∧
         (hook_set s6 = true → hook_set s' = true) ∧
         ∃ g, signals s' = set_c_view_geometry_changed g (signals s6)).
Proof.
  intros Ha Hp Hne Hig Hc Hsh Hnd. unfold activate. wp_glue. rewrite Ha. wp_glue.
  eapply wp_eq; [by apply plugin_activation|]. cbv beta. cbn [negb]. cbv iota.
  wp_go.
  change (all_workspaces (set_plugin_active true (set_capabilities CAPABILITY_GRAB_INPUT s)))
    with (all_workspaces s). fold (eligible h s).
  destruct (eligible h s) as [|v0 vs] eqn:Hel; [done|]. wp_go.
  set (s2 := set_initial_focus_view _ _).
  assert (∀ (Q : bool → state → Prop),
            Q true (if interact h then s2 else set_grabbed true s2) →
            wp False (if negb (interact h) then grab else ret true) h s2 Q) as Hgrab.
  { intros Q HQ. destruct (interact h) eqn:Hi; simpl.
    - by apply wp_ret.
    - destruct Hig as [?|Hg]; [done|]. unfold grab. wp_glue. rewrite Hg. wp_glue. done. }
  apply Hgrab. cbn [negb]. cbv iota. wp_glue.
  set (s3 := if interact h then s2 else set_grabbed true s2).
  assert (initial_focus_view s3 = active_view s) as Hifv
    by (unfold s3; destruct (interact h); reflexivity).
  assert (∀ (Q : unit → state → Prop),
            (∀ s3', active_view s3' = active_view s → but_focus s3' = but_focus s3 → Q tt s3') →
            wp False (if negb (interact h)
                      then match initial_focus_view s3 with
                           | Some v => focus_view (Some v)
                           | None => ret tt
                           end
                      else ret tt) h s3 Q) as Hfocus.
  { intros Q HQ. assert (active_view s3 = active_view s) as Hav3
      by (unfold s3; destruct (interact h); reflexivity).
    destruct (negb (interact h)); [|by apply wp_ret, HQ].
    rewrite Hifv. destruct (active_view s) as [a|] eqn:Hav; [|by apply wp_ret, HQ].
    wp_go. apply HQ; [done|]. by destruct s3. }
  apply Hfocus. intros s3' Hav3' Hbf3. wp_go.
  set (s4 := set_active true s3').
  assert (all_workspaces s4 = all_workspaces s) as Hall4.
  { apply (f_equal all_workspaces) in Hbf3. simpl in Hbf3. unfold s4. simpl. rewrite Hbf3.
    unfold s3. destruct (interact h); reflexivity. }
  rewrite Hall4. fold (eligible h s). rewrite Hel.
  assert (consistent s4) as Hc4.
  { apply (consistent_ext s); [| |done]; unfold s4; simpl.
    - apply (f_equal scale_data) in Hbf3. simpl in Hbf3. rewrite Hbf3.
      unfold s3. destruct (interact h); reflexivity.
    - apply (f_equal transformers) in Hbf3. simpl in Hbf3. rewrite Hbf3.
      unfold s3. destruct (interact h); reflexivity. }
  eapply wp_mono; [apply layout_slots_spec; [done|done|by right]|].
  intros u s5 Hpost. cbv beta. wp_glue.
  assert (consistent s5) as Hc5 by apply Hpost.
  eapply wp_mono with
    (Q := λ (_ : unit) (s5' : state),
            scale_data s5' = scale_data s5 ∧ transformers s5' = transformers s5 ∧
            signals s5' = signals s5 ∧ hook_set s5' = hook_set s5 ∧
            but_signals_and_fades (set_button_connected false s5')
            = but_signals_and_fades (set_button_connected false s5) ∧
            button_connected s5' = (if interact h then true else button_connected s5)).
  { destruct (interact h); [|by apply wp_ret].
    wp_go. destruct (button_connected s5) eqn:Hb; wp_go; split_and!; done. }
  intros u' s5' (E1 & E2 & E3 & E4 & E5 & E6). cbv beta. wp_go.
  set (s6 := set_signals _ s5').
  assert (consistent s6) as Hc6.
  { apply (consistent_ext s5); [| |done]; unfold s6; simpl; congruence. }
  eapply wp_mono; [apply activate_loop_spec; [done|by right]|].
  intros u'' s7 (Hc7 & K7 & F7 & Hh7 & g & Hg7). cbv beta. wp_glue.
  split; [done|]. split; [done|].
  exists s4, s5, s6. split_and!; try done.
  - apply (f_equal plugin_active) in Hbf3. simpl in Hbf3. unfold s4. simpl. rewrite Hbf3.
    unfold s3. destruct (interact h); reflexivity.
  - apply (f_equal grabbed) in Hbf3. simpl in Hbf3. unfold s4. simpl. rewrite Hbf3.
    unfold s3. destruct (interact h); reflexivity.
  - apply (f_equal initial_workspace) in Hbf3. simpl in Hbf3. unfold s4. simpl.
    rewrite Hbf3. unfold s3. destruct (interact h); reflexivity.
  - by exists g.
Qed.

Lemma activate_opens h s :
  active s = false → plugin_active s = true ∨ can_activate h = true →
  eligible h s ≠ [] → interact h = true ∨ can_grab h = true →
  consistent s → shallow h → NoDup (flat_map (tree h) (eligible h s)) →
  ∃ s', activate h s = Some (true, s') ∧
        active s' = true ∧ plugin_active s' = true ∧ hook_set s' = true ∧
        grabbed s' = (if interact h then grabbed s else true) ∧
        (interact h = true → button_connected s' = true) ∧
        initial_workspace s' = current_workspace s ∧
        grid_rows s' = rows_for (Z.of_nat (length (eligible h s))) ∧
        grid_cols s' = cols_for (Z.of_nat (length (eligible h s))) ∧
        current_focus_view s' = Some (chosen_view h s (eligible h s)) ∧
        output_signals_connected (signals s') ∧
        eligible h s' = eligible h s ∧ all_workspaces s' = all_workspaces s ∧
        consistent s' ∧ laid_out h s' ∧ one_view_per_cell h s'.
Proof.
  intros Ha Hp Hne Hig Hc Hsh Hnd.
  destruct (wp_total_run activate h s _ (activate_success_wp h s Ha Hp Hne Hig Hc Hsh Hnd))
    as (r & s' & Hrun & -> & Hc' & s4 & s5 & s6 & A4 & P4 & G4 & W4 & V4 & L4 & Hpost
        & D6 & F6 & B6 & O6 & H6 & K7 & F7 & Hh7 & g & Hg7).
  exists s'. split; [exact Hrun|].
  assert (eligible h s4 = eligible h s) as He4 by (unfold eligible; by rewrite L4).
  assert (chosen_view h s4 (eligible h s) = chosen_view h s (eligible h s)) as Hch
    by (by apply chosen_view_ext).
  pose proof Hpost as (_ & E5 & R5 & C5 & _ & Cf5 & Av5 & Hh5 & _).
  rewrite <- He4 in Hpost, Hne, Hnd.
  destruct (layout_post_cells h s4 s5 Hne Hnd Hpost) as (He5 & Hl5 & Hu5).
  assert (eligible h s6 = eligible h s5) as He6.
  { unfold eligible. apply (f_equal all_workspaces) in F6. simpl in F6. by rewrite F6. }
  assert (eligible h s' = eligible h s6) as He7.
  { unfold eligible. apply (f_equal all_workspaces) in F7. simpl in F7. by rewrite F7. }
  assert (cells_kept s5 s') as K5.
  { intros u d Hd. apply K7. by rewrite D6. }
  destruct (cells_kept_laid_out h s5 s') as [Hl7 Hu7]; [congruence|done|done|].
  split_and!.
  - apply (f_equal active) in F7, F6, E5. simpl in *. congruence.
  - apply (f_equal plugin_active) in F7, F6, E5. simpl in *. congruence.
  - apply Hh7. congruence.
  - apply (f_equal grabbed) in F7, F6, E5. simpl in *. congruence.
  - intros Hi. rewrite Hi in B6. apply (f_equal button_connected) in F7. simpl in F7.
    congruence.
  - apply (f_equal initial_workspace) in F7, F6, E5. simpl in *. congruence.
  - apply (f_equal grid_rows) in F7, F6. simpl in *. congruence.
  - apply (f_equal grid_cols) in F7, F6. simpl in *. congruence.
  - apply (f_equal current_focus_view) in F7, F6. simpl in *. congruence.
  - rewrite Hg7. destruct O6 as (?&?&?&?&?&?). by destruct (signals s6).
  - congruence.
  - apply (f_equal all_workspaces) in F7, F6, E5. simpl in *. congruence.
  - done.
  - done.
  - by apply Hu7.
Qed.


(** X19: [activate] when nothing refuses.  When scale is not active, the
    compositor lets the plugin activate (or it is active already), there
    is a window to show and the input grab succeeds (or [interact] is
    set), [activate] returns true.  Afterwards scale is active, the
    render hooks are set, the input is grabbed unless [interact] is set
    (then the button signal is connected), the workspace at the start is
    remembered, the grid has the dimensions for the number of windows,
    the focus is on the chosen window, the six signals of the output are
    connected, and every window has its own cell of the grid. *)
Theorem activate_success h s :
  active s = false → plugin_active s = true ∨ can_activate h = true →
  eligible h s ≠ [] → interact h = true ∨ can_grab h = true →
  consistent s → shallow h → NoDup (flat_map (tree h) (eligible h s)) →
  ∃ s', activate h s = Some (true, s') ∧
        active s' = true ∧ plugin_active s' = true ∧ hook_set s' = true ∧
        grabbed s' = (if interact h then grabbed s else true) ∧
        (interact h = true → button_connected s' = true) ∧
        initial_workspace s' = current_workspace s ∧
        grid_rows s' = rows_for (Z.of_nat (length (eligible h s))) ∧
        grid_cols s' = cols_for (Z.of_nat (length (eligible h s))) ∧
        current_focus_view s' = Some (chosen_view h s (eligible h s)) ∧
        output_signals_connected (signals s') ∧
        eligible h s' = eligible h s ∧
        consistent s' ∧ laid_out h s' ∧ one_view_per_cell h s'.
Proof.
  intros Ha Hp Hne Hig Hc Hsh Hnd.
  destruct (activate_opens h s Ha Hp Hne Hig Hc Hsh Hnd)
    as (s' & Hrun & A & P & H & G & B & W & R & C & F & O & E & _ & Hc' & L & U).
  exists s'. split; [exact Hrun|]. split_and!; assumption.
Qed.

Lemma activate_success_witness :
  active demo_state = false ∧ (plugin_active demo_state = true ∨ can_activate demo5 = true) ∧
  eligible demo5 demo_state ≠ [] ∧ (interact demo5 = true ∨ can_grab demo5 = true) ∧
  consistent demo_state ∧ shallow demo5 ∧
  NoDup (flat_map (tree demo5) (eligible demo5 demo_state)) ∧
  ∃ s', activate demo5 demo_state = Some (true, s') ∧
        active s' = true ∧ plugin_active s' = true ∧ hook_set s' = true ∧
        grabbed s' = (if interact demo5 then grabbed demo_state else true) ∧
        (interact demo5 = true → button_connected s' = true) ∧
        initial_workspace s' = current_workspace demo_state ∧
        grid_rows s' = rows_for (Z.of_nat (length (eligible demo5 demo_state))) ∧
        grid_cols s' = cols_for (Z.of_nat (length (eligible demo5 demo_state))) ∧
        current_focus_view s'
        = Some (chosen_view demo5 demo_state (eligible demo5 demo_state)) ∧
        output_signals_connected (signals s') ∧
        eligible demo5 s' = eligible demo5 demo_state ∧
        consistent s' ∧ laid_out demo5 s' ∧ one_view_per_cell demo5 s'.
Proof.
  assert (active demo_state = false) as H1 by reflexivity.
  assert (plugin_active demo_state = true ∨ can_activate demo5 = true) as H2
    by (right; reflexivity).
  assert (eligible demo5 demo_state ≠ []) as H3 by (vm_compute; discriminate).
  assert (interact demo5 = true ∨ can_grab demo5 = true) as H4 by (right; reflexivity).
  assert (consistent demo_state) as H5
    by (apply consistentb_sound; vm_compute; reflexivity).
  assert (NoDup (flat_map (tree demo5) (eligible demo5 demo_state))) as H7
    by (refine (bool_decide_unpack _ _); vm_compute; exact I).
  split; [exact H1|]. split; [exact H2|]. split; [exact H3|]. split; [exact H4|].
  split; [exact H5|]. split; [apply demo_shallow|]. split; [exact H7|].
  exact (activate_success demo5 demo_state H1 H2 H3 H4 H5 (demo_shallow _ _ _) H7).
Defined.

(** X20: the toggle binding on a closed scale opens it in the requested
    mode.  Under the conditions in which [activate] succeeds,
    [handle_toggle] returns true, scale is active in the mode of the
    binding, and the windows of that mode (all of the output, or those
    of the current workspace) have each their own cell of the grid. *)
Theorem toggle_opens h s (w : bool) :
  let views := if w then get_all_workspace_views h else get_current_workspace_views h in
  active s = false → plugin_active s = true ∨ can_activate h = true →
  views ≠ [] → interact h = true ∨ can_grab h = true →
  consistent s → shallow h → NoDup (flat_map (tree h) views) →
  ∃ s', handle_toggle w h s = Some (true, s') ∧
        activate h (set_all_workspaces w s) = Some (true, s') ∧
        active s' = true ∧ all_workspaces s' = w ∧ eligible h s' = views ∧
        consistent s' ∧ laid_out h s' ∧ one_view_per_cell h s'.
Proof.
  intros views Ha Hp Hne Hig Hc Hsh Hnd.
  set (s0 := set_all_workspaces w s).
  assert (eligible h s0 = views) as He by reflexivity.
  assert (consistent s0) as Hc0 by (by apply (consistent_ext s)).
  rewrite <- He in Hne, Hnd.
  destruct (activate_opens h s0 Ha Hp Hne Hig Hc0 Hsh Hnd)
    as (s' & Hrun & A & _ & _ & _ & _ & _ & _ & _ & _ & _ & E & Hw & Hc' & L & U).
  exists s'. split_and!; try done.
  unfold handle_toggle. run_glue. rewrite Ha. run_glue. cbn [andb]. cbv iota.
  run_glue. fold s0. change (active s0) with (active s). rewrite Ha. exact Hrun.
Qed.

Lemma toggle_opens_witness :
  active demo_state = false ∧ (plugin_active demo_state = true ∨ can_activate demo5 = true) ∧
  get_all_workspace_views demo5 ≠ [] ∧ (interact demo5 = true ∨ can_grab demo5 = true) ∧
  consistent demo_state ∧ shallow demo5 ∧
  NoDup (flat_map (tree demo5) (get_all_workspace_views demo5)) ∧
  ∃ s', handle_toggle true demo5 demo_state = Some (true, s') ∧
        activate demo5 (set_all_workspaces true demo_state) = Some (true, s') ∧
        active s' = true ∧ all_workspaces s' = true ∧
        eligible demo5 s' = get_all_workspace_views demo5 ∧
        consistent s' ∧ laid_out demo5 s' ∧ one_view_per_cell demo5 s'.
Proof.
  assert (active demo_state = false) as H1 by reflexivity.
  assert (plugin_active demo_state = true ∨ can_activate demo5 = true) as H2
    by (right; reflexivity).
  assert (get_all_workspace_views demo5 ≠ []) as H3 by (vm_compute; discriminate).
  assert (interact demo5 = true ∨ can_grab demo5 = true) as H4 by (right; reflexivity).
  assert (consistent demo_state) as H5
    by (apply consistentb_sound; vm_compute; reflexivity).
  assert (NoDup (flat_map (tree demo5) (get_all_workspace_views demo5))) as H7
    by (refine (bool_decide_unpack _ _); vm_compute; exact I).
  split; [exact H1|]. split; [exact H2|]. split; [exact H3|]. split; [exact H4|].
  split; [exact H5|]. split; [apply demo_shallow|]. split; [exact H7|].
  exact (toggle_opens demo5 demo_state true H1 H2 H3 H4 H5 (demo_shallow _ _ _) H7).
Defined.

(** X21: the toggle binding on an open scale closes it, when the binding
    is the one of the current mode or when every window of the output is
    on the current workspace.  When every slot record has its
    transformer and the dialogs of its view have records, dialogs are
    one level deep, and the layout has a size unless no initial or no
    current focus view is recorded, [handle_toggle] returns true and
    does what [deactivate] does: scale is no longer active, the mode is
    kept, every slot record keeps its cell and gets the identity as
    target, and the focus goes to the window that was selected. *)
Theorem toggle_again_closes h s (w : bool) :
  active s = true →
  w = all_workspaces s ∨
  length (get_all_workspace_views h) = length (get_current_workspace_views h) →
  consistent s → shallow h → settled h s → can_refocus h s →
  ∃ s1, handle_toggle w h s = Some (true, s1) ∧ deactivate h s = Some (tt, s1) ∧
        active s1 = false ∧ hook_set s1 = true ∧
        all_workspaces s1 = all_workspaces s ∧
        restored s s1 ∧ active_view s1 = refocus_target h s.
Proof.
  intros Ha Hsame Hc Hsh Hst Hrf.
  destruct (deactivate_total h s Hc Hsh Hst Hrf) as (s1 & Hrun & _ & Hd & Hr & Hav & _).
  destruct Hd as (E & Ha1 & Hh1 & _).
  exists s1. split_and!; try done.
  - unfold handle_toggle. run_glue. rewrite Ha. unfold all_same_as_current_workspace_views.
    run_glue. cbn [andb].
    assert (bool_decide (length (get_all_workspace_views h)
                         = length (get_current_workspace_views h))
            || Bool.eqb w (all_workspaces s) = true) as ->.
    { destruct Hsame as [->|Hl].
      - rewrite Bool.eqb_reflx. apply orb_true_r.
      - rewrite (bool_decide_eq_true_2 _ Hl). reflexivity. }
    run_glue. rewrite Hrun. reflexivity.
  - apply (f_equal all_workspaces) in E. exact E.
Qed.

Lemma toggle_again_closes_witness :
  active demo_active = true ∧
  (false = all_workspaces demo_active ∨
   length (get_all_workspace_views demo5) = length (get_current_workspace_views demo5)) ∧
  consistent demo_active ∧ shallow demo5 ∧ settled demo5 demo_active ∧
  can_refocus demo5 demo_active ∧
  ∃ s1, handle_toggle false demo5 demo_active = Some (true, s1) ∧
        deactivate demo5 demo_active = Some (tt, s1) ∧
        active s1 = false ∧ hook_set s1 = true ∧
        all_workspaces s1 = all_workspaces demo_active ∧
        restored demo_active s1 ∧ active_view s1 = refocus_target demo5 demo_active.
Proof.
  assert (active demo_active = true) as H1 by (vm_compute; reflexivity).
  assert (false = all_workspaces demo_active ∨
          length (get_all_workspace_views demo5)
          = length (get_current_workspace_views demo5)) as H2
    by (left; vm_compute; reflexivity).
  assert (consistent demo_active) as H3
    by (apply consistentb_sound; vm_compute; reflexivity).
  assert (settled demo5 demo_active) as H5
    by (apply settledb_sound; vm_compute; reflexivity).
  assert (can_refocus demo5 demo_active) as H6 by (right; right; split; discriminate).
  split; [exact H1|]. split; [exact H2|]. split; [exact H3|].
  split; [apply demo_shallow|]. split; [exact H5|]. split; [exact H6|].
  exact (toggle_again_closes demo5 demo_active false H1 H2 H3 (demo_shallow _ _ _) H5 H6).
Defined.

(** * A change of focus dims the other views *)

Lemma wp_conj N {A} (m : M A) h s (Q1 Q2 : A → state → Prop) :
  wp N m h s Q1 → wp True m h s Q2 → wp N m h s (λ a s', Q1 a s' ∧ Q2 a s').
Proof. unfold wp. destruct (m h s) as [[a s']|]; [done|]. intros H _. exact H. Qed.

Lemma kept_outside_refl h u s : kept_outside h u s s.
Proof. intros k d Hd _. exact Hd. Qed.

Lemma kept_outside_new h u s :
  scale_data s !! u = None →
  kept_outside h u s (set_scale_data (<[u := default_view_scale_data h]> (scale_data s)) s).
Proof.
  intros Hn k dk Hk _. simpl. destruct (decide (u = k)) as [->|Hne]; [congruence|].
  by rewrite lookup_insert_ne.
Qed.

Lemma kept_outside_step h u s s1 d (f : simple_animation_t) :
  scale_data s !! u = Some d → transformer d = true → scale_data s1 = scale_data s →
  tt_end (fa_transition f) = inactive_alpha h →
  let s' := set_scale_data (<[u := set_fade_animation f d]> (scale_data s1)) s1 in
  kept_outside h u s s' ∧ dimmed h s' u.
Proof.
  intros Hd Hf E Hend s'. split.
  - intros k dk Hdk [Hk|Hk]; unfold s'; simpl; rewrite E.
    + rewrite lookup_insert_ne; [done|]. intros ->. apply Hk, list_elem_of_here.
    + destruct (decide (u = k)) as [->|Hne]; [congruence|]. by rewrite lookup_insert_ne.
  - exists (set_fade_animation f d). unfold s'. simpl. rewrite lookup_insert_eq.
    split; [reflexivity|exact Hend].
Qed.

Lemma fade_out_touch h : shallow h → ∀ fuel u s,
  wp True (fade_out fuel (Some u)) h s
    (λ _ s', kept_outside h u s s' ∧ (flagged s u → dimmed h s' u)).
Proof.
  intros Hsh fuel. induction fuel as [|fuel IH]; intros u s; simpl.
  all: wp_go.
  all: destruct (scale_data s !! u) as [d|] eqn:Hd; wp_go; simpl;
       [|split; [by apply kept_outside_new|intros (d' & Hd' & _); congruence]].
  all: destruct (transformer d) eqn:Hf; simpl;
       [|apply wp_ret; split; [apply kept_outside_refl|];
         intros (d' & Hd' & Hf'); congruence].
  all: wp_go.
  all: destruct (hook_set s) eqn:Hk; wp_go; simpl; rewrite Hd, Hf.
  all: destruct (transformers s !! u) as [t|] eqn:Ht; [|by apply wp_fail].
  all: wp_go; simpl; rewrite Hd; wp_go; simpl.
  all: match goal with
       | |- wp _ _ _ (set_scale_data (<[_ := set_fade_animation ?f _]> _) ?s1) _ =>
           destruct (kept_outside_step h u s s1 d f Hd Hf eq_refl eq_refl) as [K1 D1];
           simpl in K1, D1
       end.
  1,2: destruct (children h u) as [|c cs] eqn:Hch; [by apply wp_ret|by apply wp_fail].
  all: apply (wp_for_list True h
         (λ l s1, (∀ c, c ∈ l → c ∈ children h u) ∧
                  kept_outside h u s s1 ∧ dimmed h s1 u)).
  all: try (split_and!; done).
  all: try (intros ? (_ & ? & ?); done).
  all: intros c l s1 (Hl & K & D); eapply wp_mono; [apply IH|].
  all: intros [] s2 [K2 _]; cbv beta.
  all: assert (c ∈ children h u) as Hc by apply Hl, list_elem_of_here.
  all: assert (∀ k, k ∉ tree h u → k ∉ tree h c) as Hout
         by (intros k Hk' Hin; unfold tree in Hin;
             rewrite (proj1 Hsh u c Hc) in Hin; apply list_elem_of_singleton in Hin;
             subst k; apply Hk'; unfold tree; by apply list_elem_of_further).
  all: assert (u ∉ tree h c) as Hu
         by (unfold tree; rewrite (proj1 Hsh u c Hc); intros Hin;
             apply list_elem_of_singleton in Hin; subst c;
             rewrite (proj1 Hsh u u Hc) in Hc; by apply elem_of_nil in Hc).
  all: split_and!.
  all: try (intros c' Hc'; apply Hl; by apply list_elem_of_further).
  all: try (intros k dk Hdk [Hk'|Hk'];
            [ apply (K2 k dk); [apply (K k dk Hdk); by left|left; by apply Hout]
            | apply (K2 k dk); [apply (K k dk Hdk); by right|by right] ]).
  all: destruct D as (du & Hdu & Htu); exists du; split; [|done];
       apply (K2 u du); [done|by left].
Qed.

Lemma spare_cond h v k (tr : bool) :
  negb tr || bool_decide (Some k = Some v) || bool_decide (parent h v = Some k)
  || bool_decide (parent h k = Some v) = true
  ↔ tr = false ∨ family h v k.
Proof.
  unfold family. rewrite !orb_true_iff, negb_true_iff, !bool_decide_eq_true. split.
  - intros [[[?|[= ->]]|?]|?]; auto.
  - intros [?|[->|[?|?]]]; auto.
Qed.

Lemma family_outside h v k0 k :
  shallow h → parents_agree h → family h v k → ¬ family h v k0 → k ∉ tree h k0.
Proof.
  intros Hsh Hag Hfam Hn Hin. unfold tree in Hin. apply elem_of_cons in Hin as [->|Hin].
  - done.
  - apply Hag in Hin. apply Hn. destruct Hfam as [->|[Hp|Hp]].
    + right. by left.
    + apply (proj2 Hsh) in Hp. congruence.
    + left. congruence.
Qed.

Lemma dimmed_kept h s s' k :
  dimmed h s k → fade_rel h (λ x, x = inactive_alpha h) (λ _, False) s s' →
  dimmed h s' k.
Proof.
  intros (d & Hd & Ht) (_ & _ & HA & _).
  destruct (HA k d Hd) as (d' & Hd' & _ & _ & _ & _ & [E|E]); exists d'; split; try done.
  unfold fade_target in *. by rewrite E.
Qed.

Lemma fade_out_all_except_exact h s v :
  consistent s → shallow h → parents_agree h →
  wp False (fade_out_all_except (Some v)) h s
    (λ _ s',
       (∀ k d, scale_data s !! k = Some d → family h v k ∨ transformer d = false →
               scale_data s' !! k = Some d) ∧
       (∀ k d, scale_data s !! k = Some d → ¬ family h v k → transformer d = true →
               ∃ d', scale_data s' !! k = Some d' ∧ fade_target d' = inactive_alpha h ∧
                     row d' = row d ∧ col d' = col d ∧ transformer d' = true ∧
                     animation d' = animation d)).
Proof.
  intros Hc Hsh Hag. unfold fade_out_all_except, for_scale_data_, for_scale_data.
  wp_go.
  apply (wp_for_keys False h
           (λ ks _ s1, consistent s1 ∧
              fade_rel h (λ x, x = inactive_alpha h) (λ _, False) s s1 ∧
              (∀ k d, scale_data s !! k = Some d → family h v k ∨ transformer d = false →
                      scale_data s1 !! k = Some d) ∧
              (∀ k d, scale_data s !! k = Some d → ¬ family h v k → transformer d = true →
                      k ∉ ks → dimmed h s1 k))).
  - split_and!; [done|apply fade_rel_refl|done|].
    intros k d Hd _ _ Hk. exfalso. apply Hk. apply key_order_elem. left.
    apply elem_of_dom. eauto.
  - intros k0 ks' [] s1 (Hc1 & R1 & S1 & D1) Hk. split_and!; try done.
    intros k d Hd Hnf Hf Hnin. apply (D1 k d); try done.
    intros Hin. apply elem_of_cons in Hin as [->|Hin]; [|done].
    apply Hk. destruct R1 as (_ & _ & HA & _).
    destruct (HA k0 d Hd) as (d' & Hd' & _). apply elem_of_dom. eauto.
  - intros k0 ks' [] s1 (Hc1 & R1 & S1 & D1) Hk. wp_go.
    apply elem_of_dom in Hk as [d1 Hd1]. rewrite Hd1.
    assert (∀ d, scale_data s !! k0 = Some d → transformer d1 = transformer d) as Htr.
    { intros d Hd. destruct R1 as (_ & _ & HA & _).
      destruct (HA k0 d Hd) as (d' & Hd' & _ & _ & Ht & _). congruence. }
    match goal with |- wp _ (if ?c then _ else _) _ _ _ => destruct c eqn:Hcond end.
    + wp_go. simpl. split_and!; try done.
      intros k d Hd Hnf Hf Hnin. destruct (decide (k = k0)) as [->|Hne].
      * exfalso. apply spare_cond in Hcond as [Hcond|Hcond]; [|done].
        rewrite (Htr d Hd) in Hcond. congruence.
      * apply (D1 k d); try done. intros Hin. apply elem_of_cons in Hin as [?|?]; done.
    + assert (transformer d1 = true ∧ ¬ family h v k0) as [Hf1 Hnf1].
      { split.
        - destruct (transformer d1) eqn:E; [done|].
          rewrite (proj2 (spare_cond h v k0 false)) in Hcond; [done|by left].
        - intros Hfam. rewrite (proj2 (spare_cond h v k0 _)) in Hcond; [done|by right]. }
      eapply wp_mono.
      * apply wp_conj; [|by apply fade_out_touch].
        apply fade_out_rel; [done|]. right. split; [done|left]. unfold tree_fuel. lia.
      * intros u s2 [R2 [K2 Dm2]]. simpl in R2. wp_go. simpl.
        apply fade_rel_no_arg in R2; [|by eauto].
        split_and!.
        -- eapply fade_rel_consistent; eauto.
        -- eapply fade_rel_trans; eauto.
        -- intros k d Hd Hor. apply (K2 k d); [by apply S1|].
           destruct Hor as [Hfam|Hunf]; [left|by right].
           by apply (family_outside h v).
        -- intros k d Hd Hnf Hf Hnin. destruct (decide (k = k0)) as [->|Hne].
           ++ apply Dm2. exists d1. done.
           ++ apply (dimmed_kept h s1); [|done]. apply (D1 k d); try done.
              intros Hin. apply elem_of_cons in Hin as [?|?]; done.
  - intros [] s1 (_ & R1 & S1 & D1). split; [done|].
    intros k d Hd Hnf Hf. destruct (D1 k d Hd Hnf Hf) as (d' & Hd' & Ht).
    { apply not_elem_of_nil. }
    destruct R1 as (_ & _ & HA & _).
    destruct (HA k d Hd) as (d'' & Hd'' & ? & ? & ? & ? & _).
    assert (d'' = d') by congruence. subst d''.
    exists d'. split_and!; congruence.
Qed.

Lemma demo_parents_agree layer g i : parents_agree (demo_host layer g i).
Proof.
  intros u c. simpl. case_bool_decide; [|by intros ?%elem_of_nil].
  intros Hc. apply list_elem_of_singleton in Hc. subst. done.
Qed.

(** X22: [fade_out_all_except] dims every view but the family of the
    given one.  In a compositor whose view trees have depth at most one
    and whose children lists agree with the parent pointers, the call
    returns; the slot records of the view, of its parent and of its
    children are left as they are, as is every record without a
    transformer; every other record with a transformer gets the alpha of
    the inactive views as the target of its fade and keeps its cell,
    its transformer and its scale animation. *)
Theorem focus_change_dims_the_others h s v :
  consistent s → shallow h → parents_agree h →
  ∃ s', fade_out_all_except (Some v) h s = Some (tt, s') ∧
        (∀ k d, scale_data s !! k = Some d → family h v k ∨ transformer d = false →
                scale_data s' !! k = Some d) ∧
        (∀ k d, scale_data s !! k = Some d → ¬ family h v k → transformer d = true →
                ∃ d', scale_data s' !! k = Some d' ∧
                      fade_target d' = inactive_alpha h ∧
                      row d' = row d ∧ col d' = col d ∧ transformer d' = true ∧
                      animation d' = animation d).
Proof.
  intros Hc Hsh Hag.
  destruct (wp_total_run _ h s _ (fade_out_all_except_exact h s v Hc Hsh Hag))
    as ([] & s' & Hrun & Hspared & Hdim).
  exists s'. split; [exact Hrun|]. split; [exact Hspared|exact Hdim].
Qed.

Lemma focus_change_dims_the_others_witness :
  consistent demo_active ∧ shallow demo5 ∧ parents_agree demo5 ∧
  ∃ s', fade_out_all_except (Some 3%nat) demo5 demo_active = Some (tt, s') ∧
        (∀ k d, scale_data demo_active !! k = Some d →
                family demo5 3%nat k ∨ transformer d = false →
                scale_data s' !! k = Some d) ∧
        (∀ k d, scale_data demo_active !! k = Some d → ¬ family demo5 3%nat k →
                transformer d = true →
                ∃ d', scale_data s' !! k = Some d' ∧
                      fade_target d' = inactive_alpha demo5 ∧
                      row d' = row d ∧ col d' = col d ∧ transformer d' = true ∧
                      animation d' = animation d).
Proof.
  assert (consistent demo_active) as H1
    by (apply consistentb_sound; vm_compute; reflexivity).
  split; [exact H1|]. split; [apply demo_shallow|]. split; [apply demo_parents_agree|].
  exact (focus_change_dims_the_others demo5 demo_active 3%nat H1
           (demo_shallow _ _ _) (demo_parents_agree _ _ _)).
Defined.

(** * Handlers that lay the views out again *)

Lemma layout_slots_cells h s :
  eligible h s ≠ [] → consistent s → shallow h →
  NoDup (flat_map (tree h) (eligible h s)) →
  ∃ s', layout_slots (eligible h s) h s = Some (tt, s') ∧ consistent s' ∧
        but_session s' = but_session s ∧
        eligible h s' = eligible h s ∧ laid_out h s' ∧ one_view_per_cell h s'.
Proof.
  intros Hne Hc Hsh Hnd.
  destruct (wp_total_run _ h s _ (layout_slots_spec False h s _ Hne Hc (or_intror Hsh)))
    as ([] & s' & Hrun & Hpost).
  destruct (layout_post_cells h s s' Hne Hnd Hpost) as (He & Hl & Hu).
  exists s'. split_and!; try done; apply Hpost.
Qed.

Lemma settled_empty h s : scale_data s = ∅ → settled h s.
Proof. intros E v d Hd. rewrite E in Hd. by rewrite lookup_empty in Hd. Qed.

(** X23: a change of the geometry of a view while some view is
    eligible.  [view_geometry_changed] is then a layout pass over the
    eligible views: the call returns, the eligible views are the same,
    each has its own cell of the grid, and whether scale is active does
    not change. *)
Theorem geometry_change_lays_out_again h s :
  eligible h s ≠ [] → consistent s → shallow h →
  NoDup (flat_map (tree h) (eligible h s)) →
  ∃ s', view_geometry_changed h s = Some (tt, s') ∧
        layout_slots (eligible h s) h s = Some (tt, s') ∧
        active s' = active s ∧ eligible h s' = eligible h s ∧
        laid_out h s' ∧ one_view_per_cell h s'.
Proof.
  intros Hne Hc Hsh Hnd.
  destruct (layout_slots_cells h s Hne Hc Hsh Hnd) as (s' & Hrun & _ & E & He' & Hl & Hu).
  exists s'. split_and!; try done.
  - unfold view_geometry_changed, get_views. run_glue. fold (eligible h s).
    rewrite <- Hrun. by destruct (eligible h s).
  - by apply (f_equal active) in E.
Qed.

Lemma geometry_change_lays_out_again_witness :
  eligible demo5 demo_active ≠ [] ∧ consistent demo_active ∧ shallow demo5 ∧
  NoDup (flat_map (tree demo5) (eligible demo5 demo_active)) ∧
  ∃ s', view_geometry_changed demo5 demo_active = Some (tt, s') ∧
        layout_slots (eligible demo5 demo_active) demo5 demo_active = Some (tt, s') ∧
        active s' = active demo_active ∧
        eligible demo5 s' = eligible demo5 demo_active ∧
        laid_out demo5 s' ∧ one_view_per_cell demo5 s'.
Proof.
  assert (eligible demo5 demo_active ≠ []) as H0 by (vm_compute; discriminate).
  assert (consistent demo_active) as H1
    by (apply consistentb_sound; vm_compute; reflexivity).
  assert (NoDup (flat_map (tree demo5) (eligible demo5 demo_active))) as H4
    by (refine (bool_decide_unpack _ _); vm_compute; exact I).
  split; [exact H0|]. split; [exact H1|]. split; [apply demo_shallow|]. split; [exact H4|].
  exact (geometry_change_lays_out_again demo5 demo_active H0 H1 (demo_shallow _ _ _) H4).
Defined.

(** X24: while the plugin is not active on the output, a change of the
    [interact] option, a change of the [allow_zoom] option and a switch
    of the scale mode return at once and leave the state as it is. *)
Theorem options_wait_for_activation h s :
  plugin_active s = false →
  interact_option_changed h s = Some (tt, s) ∧
  allow_scale_zoom_option_changed h s = Some (tt, s) ∧
  switch_scale_modes h s = Some (tt, s).
Proof.
  intros Hp. split_and!.
  - unfold interact_option_changed. run_glue. rewrite Hp. reflexivity.
  - unfold allow_scale_zoom_option_changed. run_glue. rewrite Hp. reflexivity.
  - unfold switch_scale_modes. run_glue. rewrite Hp. reflexivity.
Qed.

Lemma options_wait_for_activation_witness :
  plugin_active demo_state = false ∧
  interact_option_changed demo5 demo_state = Some (tt, demo_state) ∧
  allow_scale_zoom_option_changed demo5 demo_state = Some (tt, demo_state) ∧
  switch_scale_modes demo5 demo_state = Some (tt, demo_state).
Proof.
  split; [reflexivity|]. exact (options_wait_for_activation demo5 demo_state eq_refl).
Defined.

(** X25: a view is minimized, in a compositor whose dialogs are one
    level deep and whose layout has a size.  [view_minimized] removes
    the slot records and the transformers of the view and of its
    children.  If no slot record is left, it then does what
    [deactivate] does and scale is no longer active; if records are
    left and there are eligible views, it lays these out again, each in
    its own cell of the grid. *)
Theorem view_minimized_removes h s v :
  consistent s → shallow h → sized h →
  NoDup (flat_map (tree h) (eligible h s)) →
  ∃ s1, remove_view (Some v) h s = Some (tt, s1) ∧
        removed (λ w, w ∈ tree h v) s s1 ∧
        (scale_data s1 = ∅ →
         ∃ s', view_minimized (Some v) true h s = Some (tt, s') ∧
               deactivate h s1 = Some (tt, s') ∧ active s' = false ∧
               scale_data s' = ∅) ∧
        (scale_data s1 ≠ ∅ → eligible h s ≠ [] →
         ∃ s', view_minimized (Some v) true h s = Some (tt, s') ∧
               layout_slots (eligible h s) h s1 = Some (tt, s') ∧
               eligible h s' = eligible h s ∧ laid_out h s' ∧ one_view_per_cell h s').
Proof.
  intros Hc Hsh Hsz Hnd.
  destruct (remove_view_total h s v Hc) as (s1 & Hrun & Hc1 & Hr).
  exists s1. split; [exact Hrun|]. split; [exact Hr|].
  assert (eligible h s1 = eligible h s) as Hel.
  { destruct Hr as (E & _). apply (f_equal all_workspaces) in E.
    unfold eligible. simpl in E. by rewrite E. }
  assert (view_minimized (Some v) true h s
          = if bool_decide (scale_data s1 = ∅)
            then match deactivate h s1 with
                 | Some (_, s') => Some (tt, s')
                 | None => None
                 end
            else layout_slots (eligible h s) h s1) as ->.
  { unfold view_minimized. cbv iota. rewrite !bind_run, Hrun. run_glue.
    case_bool_decide.
    - rewrite bind_run. destruct (deactivate h s1) as [[[] s']|]; [|done]. by run_glue.
    - run_glue. unfold get_views. run_glue. fold (eligible h s1). by rewrite Hel. }
  split.
  - intros He. rewrite (bool_decide_eq_true_2 _ He).
    assert (can_refocus h s1) as Hrf by (by right; right).
    destruct (deactivate_total h s1 Hc1 Hsh (settled_empty h s1 He) Hrf)
      as (s' & Hd & _ & Hde & Hre & _).
    rewrite Hd. exists s'. split_and!; [done|done|apply Hde|].
    apply map_eq. intros w. rewrite lookup_empty. apply (proj1 Hre w).
    by rewrite He, lookup_empty.
  - intros He Hne. rewrite (bool_decide_eq_false_2 _ He).
    rewrite <- Hel in Hne, Hnd |- *.
    destruct (layout_slots_cells h s1 Hne Hc1 Hsh Hnd) as (s' & Hl & _ & _ & He' & Hlo & Hu).
    exists s'. split_and!; try done.
Qed.

Lemma view_minimized_removes_witness :
  consistent demo_active ∧ shallow demo5 ∧ sized demo5 ∧
  NoDup (flat_map (tree demo5) (eligible demo5 demo_active)) ∧
  ∃ s1, remove_view (Some 3%nat) demo5 demo_active = Some (tt, s1) ∧
        removed (λ w, w ∈ tree demo5 3%nat) demo_active s1 ∧
        (scale_data s1 = ∅ →
         ∃ s', view_minimized (Some 3%nat) true demo5 demo_active = Some (tt, s') ∧
               deactivate demo5 s1 = Some (tt, s') ∧ active s' = false ∧
               scale_data s' = ∅) ∧
        (scale_data s1 ≠ ∅ → eligible demo5 demo_active ≠ [] →
         ∃ s', view_minimized (Some 3%nat) true demo5 demo_active = Some (tt, s') ∧
               layout_slots (eligible demo5 demo_active) demo5 s1 = Some (tt, s') ∧
               eligible demo5 s' = eligible demo5 demo_active ∧
               laid_out demo5 s' ∧ one_view_per_cell demo5 s').
Proof.
  assert (consistent demo_active) as H1
    by (apply consistentb_sound; vm_compute; reflexivity).
  assert (NoDup (flat_map (tree demo5) (eligible demo5 demo_active))) as H3
    by (refine (bool_decide_unpack _ _); vm_compute; exact I).
  assert (sized demo5) as H2 by (split; discriminate).
  split; [exact H1|]. split; [apply demo_shallow|]. split; [exact H2|]. split; [exact H3|].
  exact (view_minimized_removes demo5 demo_active 3%nat H1 (demo_shallow _ _ _) H2 H3).
Defined.

(** * A new view *)

(** X26: a new toplevel view is attached while scale shows the views.
    When the view is eligible and has neither a slot record nor a
    transformer yet, [view_attached] gives it a transformer, gives it
    the focus and lays the views out again: afterwards the view is the
    focused view of scale and of the compositor, it has a slot record
    with a transformer, and every eligible view has its own cell. *)
Theorem new_view_gets_focus_and_cell h s v :
  parent h v = None → v ∈ eligible h s → scale_data s !! v = None →
  consistent s → shallow h → NoDup (flat_map (tree h) (eligible h s)) →
  ∃ s', view_attached v h s = Some (tt, s') ∧
        current_focus_view s' = Some v ∧ active_view s' = Some v ∧
        flagged s' v ∧ is_Some (transformers s' !! v) ∧
        eligible h s' = eligible h s ∧ laid_out h s' ∧ one_view_per_cell h s'.
Proof.
  intros Hp Hv Hn Hc Hsh Hnd.
  set (s3 := set_active_view (Some v) (set_current_focus_view (Some v) s)).
  set (s4 := attached h v s3).
  assert (transformers s !! v = None) as Ht.
  { destruct (transformers s !! v) as [t|] eqn:Ht; [|done].
    assert (flagged s v) as (d & Hd & _) by (apply Hc; eauto). congruence. }
  assert (view_attached v h s = layout_slots (eligible h s) h s4) as ->.
  { unfold view_attached. run_glue. rewrite Hp. cbv iota.
    unfold scale_view, get_views. run_glue. fold (eligible h s).
    rewrite (bool_decide_eq_true_2 _ Hv). cbn [negb andb]. cbv iota.
    unfold tree_fuel. cbn [root_view]. rewrite Hp. run_glue. unfold focus_view. run_glue.
    fold s3.
    assert (v ∉ dom (scale_data s3)) as Hd3.
    { intros Hin. apply elem_of_dom in Hin as [d Hd]. simpl in Hd. congruence. }
    assert (¬ is_Some (transformers s3 !! v)) as Ht3.
    { intros [t Hs]. simpl in Hs. congruence. }
    rewrite (bool_decide_eq_false_2 _ Hd3). cbv iota.
    rewrite bind_run, add_transformer_run. rewrite (bool_decide_eq_false_2 _ Ht3).
    fold (attached h v s3). fold s4. run_glue. reflexivity. }
  assert (consistent s3) as Hc3 by (by apply (consistent_ext s)).
  assert (consistent s4) as Hc4.
  { pose proof (add_transformer_consistent False h s3 (Some v) Hc3) as Hwp.
    unfold wp in Hwp. rewrite add_transformer_run in Hwp.
    rewrite bool_decide_eq_false_2 in Hwp; [apply Hwp|].
    intros [t Hs]. simpl in Hs. congruence. }
  assert (eligible h s4 = eligible h s) as He4 by reflexivity.
  assert (eligible h s ≠ []) as Hne by (intros E; rewrite E in Hv; by apply elem_of_nil in Hv).
  destruct (wp_total_run _ h s4 _ (layout_slots_spec False h s4 _ Hne Hc4 (or_intror Hsh)))
    as ([] & s' & Hrun & Hpost).
  rewrite <- He4 in Hpost, Hne, Hnd.
  destruct (layout_post_cells h s4 s' Hne Hnd Hpost) as (He & Hl & Hu).
  assert (chosen_view h s4 (eligible h s4) = v) as Hch.
  { unfold chosen_view. change (active_view s4) with (Some v). cbv iota.
    by rewrite (bool_decide_eq_true_2 _ Hv). }
  destruct Hpost as (Hc' & _ & _ & _ & _ & Hcf & Hav & _ & Hpl & _).
  rewrite Hch in Hcf, Hav.
  assert (flagged s' v) as Hfl.
  { destruct (plan_member h (eligible h s4) v Hne Hv) as (p & Hin & <-).
    assert (NoDup (covered h (plan h (eligible h s4)))) as Hnd'
      by (by rewrite covered_plan).
    destruct (Hpl Hnd' p Hin) as [(d & Hd & Hf & _) _]. by exists d. }
  exists s'. split_and!; try done.
  - by destruct (all_workspaces s4).
  - by apply Hc'.
Qed.

Lemma new_view_gets_focus_and_cell_witness :
  parent demo5 3%nat = None ∧ 3%nat ∈ eligible demo5 demo4_active ∧
  scale_data demo4_active !! 3%nat = None ∧
  consistent demo4_active ∧ shallow demo5 ∧
  NoDup (flat_map (tree demo5) (eligible demo5 demo4_active)) ∧
  ∃ s', view_attached 3%nat demo5 demo4_active = Some (tt, s') ∧
        current_focus_view s' = Some 3%nat ∧ active_view s' = Some 3%nat ∧
        flagged s' 3%nat ∧ is_Some (transformers s' !! 3%nat) ∧
        eligible demo5 s' = eligible demo5 demo4_active ∧
        laid_out demo5 s' ∧ one_view_per_cell demo5 s'.
Proof.
  assert (parent demo5 3%nat = None) as H1 by reflexivity.
  assert (3%nat ∈ eligible demo5 demo4_active) as H2
    by (refine (bool_decide_unpack _ _); vm_compute; exact I).
  assert (scale_data demo4_active !! 3%nat = None) as H3 by (vm_compute; reflexivity).
  assert (consistent demo4_active) as H4
    by (apply consistentb_sound; vm_compute; reflexivity).
  assert (NoDup (flat_map (tree demo5) (eligible demo5 demo4_active))) as H6
    by (refine (bool_decide_unpack _ _); vm_compute; exact I).
  split; [exact H1|]. split; [exact H2|]. split; [exact H3|]. split; [exact H4|].
  split; [apply demo_shallow|]. split; [exact H6|].
  exact (new_view_gets_focus_and_cell demo5 demo4_active 3%nat H1 H2 H3 H4
           (demo_shallow _ _ _) H6).
Defined.

(** * A change of geometry when no view is left *)

(** X27: a change of the geometry of a view while no view is eligible.
    When every slot record has its transformer and the dialogs of its
    view have records, dialogs are one level deep, and the layout has a
    size unless no initial or no current focus view is recorded,
    [view_geometry_changed] returns and does what [deactivate] does:
    scale is no longer active, the hooks are registered for the closing
    animation, and every slot record keeps its cell and gets the
    identity as target. *)
Theorem geometry_change_closes_empty_scale h s :
  eligible h s = [] → consistent s → shallow h → settled h s → can_refocus h s →
  ∃ s', view_geometry_changed h s = Some (tt, s') ∧
        deactivate h s = Some (tt, s') ∧
        active s' = false ∧ hook_set s' = true ∧ restored s s'.
Proof.
  intros He Hc Hsh Hst Hrf.
  destruct (deactivate_total h s Hc Hsh Hst Hrf) as (s' & Hrun & _ & Hd & Hr & _).
  exists s'. split_and!; [|done|apply Hd|apply Hd|done].
  unfold view_geometry_changed, get_views. run_glue. fold (eligible h s).
  by rewrite He.
Qed.

Lemma geometry_change_closes_empty_scale_witness :
  eligible empty_host demo_active = [] ∧ consistent demo_active ∧ shallow empty_host ∧
  settled empty_host demo_active ∧ can_refocus empty_host demo_active ∧
  ∃ s', view_geometry_changed empty_host demo_active = Some (tt, s') ∧
        deactivate empty_host demo_active = Some (tt, s') ∧
        active s' = false ∧ hook_set s' = true ∧ restored demo_active s'.
Proof.
  assert (eligible empty_host demo_active = []) as H0 by (vm_compute; reflexivity).
  assert (consistent demo_active) as H1
    by (apply consistentb_sound; vm_compute; reflexivity).
  assert (settled empty_host demo_active) as H3
    by (apply settledb_sound; vm_compute; reflexivity).
  assert (can_refocus empty_host demo_active) as H4
    by (right; right; split; discriminate).
  split; [exact H0|]. split; [exact H1|]. split; [apply demo_shallow|].
  split; [exact H3|]. split; [exact H4|].
  exact (geometry_change_closes_empty_scale empty_host demo_active H0 H1
           (demo_shallow _ _ _) H3 H4).
Defined.
